(** * juCi++ source view: smart indentation and structural scanning

    A shallow embedding of the editing algorithms of [src/source.cc]
    ([Source::View]) together with the properties they satisfy.

    The text buffer of the toolkit is modelled as the flat sequence of its
    characters; an iterator is a character offset between [0] and the length
    of the text.  Lines are separated by the newline character only.

    Conventions of the embedding:
    - a function of the source that returns [bool] and writes its result
      through a reference returns an [option] here;
    - the [int] counters of the scans are integers in [Z], buffer offsets and
      string sizes are natural numbers, and the [size_t] sentinel of [paste]
      is the largest value of the type;
    - a loop over an iterator is a recursion on the offset when it moves
      backward, and a recursion on a fuel bounded by the length of the text
      when it moves forward;
    - the buffer carries a journal of its user actions and edits, so that
      what happens inside one undo step can be stated;
    - the syntax highlighter and the key handler of the toolkit's base class
      are parameters of the functions that call them;
    - a [std::unordered_map] is an association list; the order in which a
      loop visits its entries is a parameter of the function that has the
      loop, and theorems quantify over every order.

    The file has two parts: the definitions, in the order of the source
    where dependencies allow, then their properties. *)

From Stdlib Require Import String Ascii.
From Stdlib Require Import List ZArith Lia Bool Arith PeanoNat Permutation.
Import ListNotations.

Local Open Scope char_scope.
Local Open Scope bool_scope.
Local Open Scope nat_scope.

(** ** The text buffer and its iterators *)

Definition text := list ascii.
Definition TextIter := nat.

Definition NL : ascii := "010".
Definition TAB : ascii := "009".
Definition SPACE : ascii := " ".
Definition BACKSLASH : ascii := "\".
Definition QUOTE : ascii := "'".
Definition DQUOTE : ascii := "034".

(** [*iter]: the character at the iterator, 0 at the end iterator. *)
Definition deref (t : text) (iter : TextIter) : ascii := nth iter t zero.

(** [iter.is_end()], and [operator bool] of an iterator is its negation. *)
Definition is_end (t : text) (iter : TextIter) : bool := length t <=? iter.

(** [iter.forward_char()]: moves one character forward unless already at the
    end; the result tells whether the iterator moved and is dereferenceable. *)
Definition forward_char (t : text) (iter : TextIter) : TextIter * bool :=
  if iter <? length t then (S iter, S iter <? length t) else (iter, false).

(** [iter.backward_char()]: moves one character back; at the start of the
    buffer the iterator stays where it is and the result is false. *)
Definition backward_char (iter : TextIter) : TextIter * bool :=
  match iter with
  | O => (O, false)
  | S j => (j, true)
  end.

(** [iter.forward_chars(n)] and [iter.backward_chars(n)]. *)
Definition forward_chars (t : text) (iter : TextIter) (n : nat) : TextIter * bool :=
  let dest := Nat.min (iter + n) (length t) in
  (dest, negb (n =? 0) && negb (dest =? iter) && (dest <? length t)).

Definition backward_chars (iter : TextIter) (n : nat) : TextIter * bool :=
  (iter - n, negb (n =? 0) && negb (iter =? 0)).

Definition starts_line (t : text) (iter : TextIter) : bool :=
  match iter with
  | O => true
  | S j => (deref t j =? NL)%char
  end.

Definition ends_line (t : text) (iter : TextIter) : bool :=
  is_end t iter || (deref t iter =? NL)%char.

Definition is_blank (c : ascii) : bool := (c =? SPACE)%char || (c =? TAB)%char.

(** [buffer->get_line_count()]. *)
Definition get_line_count (t : text) : nat := S (count_occ ascii_dec t NL).

(** [buffer->get_iter_at_line(n)]: the start of line [n]; the end iterator
    when the buffer has no such line. *)
Fixpoint get_iter_at_line (t : text) (n : nat) : TextIter :=
  match n with
  | O => O
  | S n' =>
      match t with
      | [] => O
      | c :: t' => S (if (c =? NL)%char then get_iter_at_line t' n' else get_iter_at_line t' n)
      end
  end.

(** [iter.get_line()] and [iter.get_line_offset()]. *)
Definition get_line (t : text) (iter : TextIter) : nat :=
  count_occ ascii_dec (firstn iter t) NL.

Definition get_line_offset (t : text) (iter : TextIter) : nat :=
  iter - get_iter_at_line t (get_line t iter).

(** [buffer->get_text(a, b)]. *)
Definition get_text (t : text) (a b : TextIter) : text :=
  firstn (b - a) (skipn a t).

(** Text after [buffer->insert(iter, s)] and [buffer->erase(a, b)]. *)
Definition text_insert (t : text) (iter : TextIter) (s : text) : text :=
  firstn iter t ++ s ++ skipn iter t.

Definition text_erase (t : text) (a b : TextIter) : text :=
  firstn (Nat.min a b) t ++ skipn (Nat.max a b) t.

(** Modelled from the spec: [get_iter_at_line_end] is declared in a base
    class outside this file; the spec's buffer interface gives it as the
    position at [line_length(line)] of the line, i.e. the iterator in front of
    the line's terminating newline (the end iterator on the last line). *)
Fixpoint forward_to_line_end (fuel : nat) (t : text) (iter : TextIter) : TextIter :=
  match fuel with
  | O => iter
  | S f => if ends_line t iter then iter else forward_to_line_end f t (S iter)
  end.

Definition get_iter_at_line_end (t : text) (line : nat) : TextIter :=
  forward_to_line_end (length t) t (get_iter_at_line t line).

(** ** Lexical context

    The syntax highlighter is an oracle queried per position:
    [iter_has_context_class(iter, "comment")] and [(iter, "string")]. *)

Inductive ContextClass := Comment | StringLit.

Definition Highlighter := TextIter -> ContextClass -> bool.

Definition plain_context (hl : Highlighter) (iter : TextIter) : bool :=
  negb (hl iter Comment) && negb (hl iter StringLit).

(** ** Structural scanner *)

(** The transient bracket balance of one scan. *)
Record Balance := mkBalance { count1 : Z; count2 : Z; ignore : bool }.

Definition balance0 : Balance := mkBalance 0 0 false.

(** The test applied to a single quote: [before_iter] and
    [before_before_iter] are obtained by [backward_char], which does not move
    at the start of the buffer. *)
Definition quote_toggles (t : text) (iter : TextIter) : bool :=
  let before_iter := fst (backward_char iter) in
  let before_before_iter := fst (backward_char before_iter) in
  negb (deref t before_iter =? BACKSLASH)%char
  || (deref t before_before_iter =? BACKSLASH)%char.

(** The body shared by [find_start_of_closed_expression] and
    [find_open_expression_symbol]: the update of [count1], [count2] and
    [ignore] at one character. *)
Definition paren_step (t : text) (hl : Highlighter) (iter : TextIter) (st : Balance) : Balance :=
  if plain_context hl iter then
    if (deref t iter =? QUOTE)%char then
      if quote_toggles t iter
      then mkBalance (count1 st) (count2 st) (negb (ignore st))
      else st
    else if negb (ignore st) then
      if (deref t iter =? ")")%char then mkBalance (count1 st + 1) (count2 st) (ignore st)
      else if (deref t iter =? "]")%char then mkBalance (count1 st) (count2 st + 1) (ignore st)
      else if (deref t iter =? "(")%char then mkBalance (count1 st - 1) (count2 st) (ignore st)
      else if (deref t iter =? "[")%char then mkBalance (count1 st) (count2 st - 1) (ignore st)
      else st
    else st
  else st.

Definition closed (st : Balance) : bool := (count1 st <=? 0)%Z && (count2 st <=? 0)%Z.

(** The loop [while(iter!=insert_iter && *iter==tab_char && iter.forward_char())]
    that advances the found line start over indentation characters. *)
Fixpoint skip_tab_chars (fuel : nat) (t : text) (tab_char : ascii)
         (insert_iter iter : TextIter) : TextIter :=
  match fuel with
  | O => iter
  | S f =>
      if negb (iter =? insert_iter) && (deref t iter =? tab_char)%char then
        let (iter', moved) := forward_char t iter in
        if moved then skip_tab_chars f t tab_char insert_iter iter' else iter'
      else iter
  end.

(** The [do ... while(iter.backward_char())] loop of
    [find_start_of_closed_expression]. *)
Fixpoint fsce_loop (t : text) (hl : Highlighter) (tab_char : ascii)
         (insert_iter : TextIter) (iter : TextIter) (st : Balance) : option TextIter :=
  let st' := paren_step t hl iter st in
  if starts_line t iter && closed st' then
    Some (skip_tab_chars (length t) t tab_char insert_iter iter)
  else
    match iter with
    | O => None
    | S j => fsce_loop t hl tab_char insert_iter j st'
    end.

(** [find_start_of_closed_expression(iter, found_iter)]: [Some found_iter]
    when it returns true, [None] when it returns false. *)
Definition find_start_of_closed_expression (t : text) (hl : Highlighter) (tab_char : ascii)
           (insert_iter : TextIter) (iter : TextIter) : option TextIter :=
  fsce_loop t hl tab_char insert_iter iter balance0.

(** [find_open_expression_symbol(iter, until_iter, found_iter)]. *)
Fixpoint foes_loop (t : text) (hl : Highlighter) (until_iter : TextIter)
         (iter : TextIter) (st : Balance) : option TextIter :=
  match iter with
  | O => None
  | S j =>
      if iter =? until_iter then None
      else
        let st' := paren_step t hl j st in
        if plain_context hl j && ((count1 st' <? 0)%Z || (count2 st' <? 0)%Z)
        then Some j
        else foes_loop t hl until_iter j st'
  end.

Definition find_open_expression_symbol (t : text) (hl : Highlighter)
           (iter until_iter : TextIter) : option TextIter :=
  foes_loop t hl until_iter iter balance0.

(** The state of the two brace scans: one counter and the ignore flag. *)
Record BraceBalance := mkBrace { count : Z; bignore : bool }.

Inductive BraceStep :=
| BraceFound
| BraceNext (st : BraceBalance).

(** The body shared by [find_right_bracket_forward] (with [close] the right
    brace and [open] the left one) and [find_left_bracket_backward] (with the
    two exchanged). *)
Definition brace_step (t : text) (hl : Highlighter) (close open : ascii)
           (iter : TextIter) (st : BraceBalance) : BraceStep :=
  if plain_context hl iter then
    if (deref t iter =? QUOTE)%char then
      if quote_toggles t iter
      then BraceNext (mkBrace (count st) (negb (bignore st)))
      else BraceNext st
    else if negb (bignore st) then
      if (deref t iter =? close)%char then
        if (count st =? 0)%Z then BraceFound
        else BraceNext (mkBrace (count st - 1) (bignore st))
      else if (deref t iter =? open)%char then BraceNext (mkBrace (count st + 1) (bignore st))
      else BraceNext st
    else BraceNext st
  else BraceNext st.

(** [find_right_bracket_forward(iter, found_iter)]: the loop
    [while(iter.forward_char())]. *)
Fixpoint frbf_loop (fuel : nat) (t : text) (hl : Highlighter)
         (iter : TextIter) (st : BraceBalance) : option TextIter :=
  match fuel with
  | O => None
  | S f =>
      let (iter', moved) := forward_char t iter in
      if moved then
        match brace_step t hl "}" "{" iter' st with
        | BraceFound => Some iter'
        | BraceNext st' => frbf_loop f t hl iter' st'
        end
      else None
  end.

Definition find_right_bracket_forward (t : text) (hl : Highlighter) (iter : TextIter)
  : option TextIter :=
  frbf_loop (length t) t hl iter (mkBrace 0 false).

(** [find_left_bracket_backward(iter, found_iter)]: the loop
    [while(iter.backward_char())]. *)
Fixpoint flbb_loop (t : text) (hl : Highlighter) (iter : TextIter) (st : BraceBalance)
  : option TextIter :=
  match iter with
  | O => None
  | S j =>
      match brace_step t hl "{" "}" j st with
      | BraceFound => Some j
      | BraceNext st' => flbb_loop t hl j st'
      end
  end.

Definition find_left_bracket_backward (t : text) (hl : Highlighter) (iter : TextIter)
  : option TextIter :=
  flbb_loop t hl iter (mkBrace 0 false).

(** The balance reached by a backward scan that has processed the positions
    [p + d], ..., [p + 1], [p] in this order, starting from [st]. *)
Fixpoint run_paren (t : text) (hl : Highlighter) (p d : nat) (st : Balance) : Balance :=
  match d with
  | O => paren_step t hl p st
  | S d' => run_paren t hl p d' (paren_step t hl (p + S d') st)
  end.

(** The counters of [find_start_of_closed_expression] started at [pos], when
    the scan is at position [p <= pos]. *)
Definition balance_at (t : text) (hl : Highlighter) (pos p : TextIter) : Balance :=
  run_paren t hl p (pos - p) balance0.

(** The counters as the specification words them, read off the text and not
    off the scan.  A single quote in plain context that is not escaped switches the
    char-literal flag; when the scan started at [pos] examines the position
    [i], the flag is set if the number of such quotes behind [i], up to
    [pos], is odd. *)
Definition toggling_quote (t : text) (hl : Highlighter) (q : TextIter) : bool :=
  plain_context hl q && (deref t q =? QUOTE)%char && quote_toggles t q.

Definition in_char_literal (t : text) (hl : Highlighter) (pos i : TextIter) : bool :=
  Nat.odd (length (filter (toggling_quote t hl) (seq (S i) (pos - i)))).

(** The number of positions from [p] to [pos] that hold the character [c] in
    plain context and outside a char literal. *)
Definition counted_occurrences (t : text) (hl : Highlighter) (pos p : TextIter) (c : ascii)
  : Z :=
  Z.of_nat (length (filter (fun i => plain_context hl i
                                     && negb (in_char_literal t hl pos i)
                                     && (deref t i =? c)%char)
                           (seq p (S pos - p)))).

(** Closing symbols minus opening symbols, for the two kinds. *)
Definition round_balance (t : text) (hl : Highlighter) (pos p : TextIter) : Z :=
  (counted_occurrences t hl pos p ")" - counted_occurrences t hl pos p "(")%Z.

Definition square_balance (t : text) (hl : Highlighter) (pos p : TextIter) : Z :=
  (counted_occurrences t hl pos p "]" - counted_occurrences t hl pos p "[")%Z.

Definition closed_at (t : text) (hl : Highlighter) (pos p : TextIter) : bool :=
  (round_balance t hl pos p <=? 0)%Z && (square_balance t hl pos p <=? 0)%Z.

(** Texts and highlighters used in examples. *)
Definition chars (s : string) : text := list_ascii_of_string s.

Definition all_plain : Highlighter := fun _ _ => false.

(** ** The buffer with its marks and its journal of edits

    The [insert] mark is the cursor; the selection lies between it and the
    [selection_bound] mark.  The journal records, oldest first, the user
    actions opened and closed and the edits performed. *)

Inductive Event :=
| BeginUserAction
| EndUserAction
| Inserted (iter : TextIter) (s : text)
| Erased (a b : TextIter).

Record Buffer := mkBuffer {
  btext : text;
  insert_mark : TextIter;
  selection_bound : TextIter;
  journal : list Event
}.

Definition begin_user_action (b : Buffer) : Buffer :=
  mkBuffer (btext b) (insert_mark b) (selection_bound b) (journal b ++ [BeginUserAction]).

Definition end_user_action (b : Buffer) : Buffer :=
  mkBuffer (btext b) (insert_mark b) (selection_bound b) (journal b ++ [EndUserAction]).

(** A mark sitting at or after the insertion point moves with the text. *)
Definition mark_after_insert (iter n m : TextIter) : TextIter :=
  if iter <=? m then m + n else m.

Definition mark_after_erase (lo hi m : TextIter) : TextIter :=
  if m <=? lo then m else if m <=? hi then lo else m - (hi - lo).

(** [buffer->insert(iter, s)]; inserting an empty text does nothing. *)
Definition buffer_insert (b : Buffer) (iter : TextIter) (s : text) : Buffer :=
  match s with
  | [] => b
  | _ =>
      mkBuffer (text_insert (btext b) iter s)
               (mark_after_insert iter (length s) (insert_mark b))
               (mark_after_insert iter (length s) (selection_bound b))
               (journal b ++ [Inserted iter s])
  end.

(** [buffer->erase(a, b)]; the bounds are put in order and an empty range
    does nothing. *)
Definition buffer_erase (b : Buffer) (x y : TextIter) : Buffer :=
  let lo := Nat.min x y in
  let hi := Nat.max x y in
  if lo =? hi then b
  else
    mkBuffer (text_erase (btext b) lo hi)
             (mark_after_erase lo hi (insert_mark b))
             (mark_after_erase lo hi (selection_bound b))
             (journal b ++ [Erased lo hi]).

Definition insert_at_cursor (b : Buffer) (s : text) : Buffer :=
  buffer_insert b (insert_mark b) s.

Definition place_cursor (b : Buffer) (iter : TextIter) : Buffer :=
  mkBuffer (btext b) iter iter (journal b).

Definition get_has_selection (b : Buffer) : bool :=
  negb (insert_mark b =? selection_bound b).

(** [buffer->get_selection_bounds(start, end)]: the two marks in order. *)
Definition get_selection_bounds (b : Buffer) : TextIter * TextIter :=
  (Nat.min (insert_mark b) (selection_bound b), Nat.max (insert_mark b) (selection_bound b)).

(** [get_tabs_end_iter(line_nr)]: from the start of the line, the iterator
    moves forward while it is on a space or a tab, is not at the end of the
    line, and [forward_char] succeeds. *)
Fixpoint tabs_end_loop (fuel : nat) (t : text) (iter : TextIter) : TextIter :=
  match fuel with
  | O => iter
  | S f =>
      if is_blank (deref t iter) && negb (ends_line t iter) then
        let (iter', moved) := forward_char t iter in
        if moved then tabs_end_loop f t iter' else iter'
      else iter
  end.

Definition get_tabs_end_iter (t : text) (line_nr : nat) : TextIter :=
  tabs_end_loop (length t) t (get_iter_at_line t line_nr).

(** [get_line_before(iter)]: the text from the start of the line to [iter]. *)
Definition get_line_before (t : text) (iter : TextIter) : text :=
  get_text t (get_iter_at_line t (get_line t iter)) iter.

(** ** Paste *)

Definition CR : ascii := "013".

(** The loop replacing carriage returns: a carriage return followed by a
    newline becomes one newline, any other carriage return becomes a
    newline. *)
Fixpoint replace_carriage_returns (s : text) : text :=
  match s with
  | [] => []
  | c :: s' =>
      if (c =? CR)%char then
        match s' with
        | c' :: s'' =>
            if (c' =? NL)%char then NL :: replace_carriage_returns s''
            else NL :: replace_carriage_returns s'
        | [] => [NL]
        end
      else c :: replace_carriage_returns s'
  end.

(** [s.substr(pos, n)] for [pos <= s.size()]. *)
Definition substr (s : text) (pos n : nat) : text := firstn n (skipn pos s).

(** The number of leading [tab_char] characters of a pasted line, and whether
    the line consists of them only. *)
Fixpoint count_tabs (tab_char : ascii) (line : text) : nat * bool :=
  match line with
  | [] => (0, true)
  | chr :: rest =>
      if (chr =? tab_char)%char
      then let (n, e) := count_tabs tab_char rest in (S n, e)
      else (0, false)
  end.

(** [static_cast<size_t>(-1)]. *)
Definition SIZE_MAX : N := 18446744073709551615%N.

(** The state of the first loop over the pasted text. *)
Record PasteScan := mkPasteScan {
  ps_start_line : nat;
  ps_first_paste_line : bool;
  ps_paste_line_tabs : N;
  ps_first_paste_line_has_tabs : bool
}.

(** The end of the line closed at index [c], if any: a newline at [c], or the
    last character of the text. *)
Definition paste_line_end (txt : text) (c : nat) : option nat :=
  if (nth c txt zero =? NL)%char then Some c
  else if c =? length txt - 1 then Some (c + 1)
  else None.

Definition paste_scan_body (tab_char : ascii) (txt : text) (c : nat) (st : PasteScan) : PasteScan :=
  match paste_line_end txt c with
  | None => st
  | Some end_line =>
      let line := substr txt (ps_start_line st) (end_line - ps_start_line st) in
      let (tabs, empty_line) := count_tabs tab_char line in
      if ps_first_paste_line st then
        if negb (tabs =? 0)
        then mkPasteScan (end_line + 1) false (N.of_nat tabs) true
        else mkPasteScan (end_line + 1) false (ps_paste_line_tabs st)
                         (ps_first_paste_line_has_tabs st)
      else if negb empty_line then
        mkPasteScan (end_line + 1) false (N.min (ps_paste_line_tabs st) (N.of_nat tabs))
                    (ps_first_paste_line_has_tabs st)
      else
        mkPasteScan (end_line + 1) false (ps_paste_line_tabs st)
                    (ps_first_paste_line_has_tabs st)
  end.

Fixpoint paste_scan_loop (tab_char : ascii) (txt : text) (n c : nat) (st : PasteScan) : PasteScan :=
  match n with
  | O => st
  | S n' => paste_scan_loop tab_char txt n' (S c) (paste_scan_body tab_char txt c st)
  end.

(** The state of the second loop: the start of the current pasted line,
    whether it is the first one, and the buffer. *)
Record PasteInsert := mkPasteInsert {
  pi_start_line : nat;
  pi_first_paste_line : bool;
  pi_buffer : Buffer
}.

Definition paste_insert_body (tab_char : ascii) (txt prefix_tabs : text)
           (paste_line_tabs : nat) (first_paste_line_has_tabs : bool)
           (c : nat) (st : PasteInsert) : PasteInsert :=
  match paste_line_end txt c with
  | None => st
  | Some end_line =>
      let start_line := pi_start_line st in
      let line := substr txt start_line (end_line - start_line) in
      let line_tabs := fst (count_tabs tab_char line) in
      let tabs :=
        if negb (pi_first_paste_line st && negb first_paste_line_has_tabs)
           && (line_tabs <? paste_line_tabs)
        then line_tabs else paste_line_tabs in
      let b := pi_buffer st in
      let b' :=
        if pi_first_paste_line st then
          if first_paste_line_has_tabs
          then insert_at_cursor b (substr txt (start_line + tabs) (end_line - start_line - tabs))
          else insert_at_cursor b (substr txt start_line (end_line - start_line))
        else
          insert_at_cursor b (NL :: prefix_tabs
                                ++ substr txt (start_line + tabs) (end_line - start_line - tabs)) in
      mkPasteInsert (end_line + 1) false b'
  end.

Fixpoint paste_insert_loop (tab_char : ascii) (txt prefix_tabs : text)
         (paste_line_tabs : nat) (has_tabs : bool) (n c : nat) (st : PasteInsert) : PasteInsert :=
  match n with
  | O => st
  | S n' =>
      paste_insert_loop tab_char txt prefix_tabs paste_line_tabs has_tabs n' (S c)
        (paste_insert_body tab_char txt prefix_tabs paste_line_tabs has_tabs c st)
  end.

(** The toolkit's [paste_clipboard]: the clipboard text replaces the
    selection, or is inserted at the cursor. *)
Definition paste_clipboard (b : Buffer) (txt : text) : Buffer :=
  let (s, e) := get_selection_bounds b in
  insert_at_cursor (buffer_erase b s e) txt.

(** [Source::View::paste()] with the clipboard holding [clipboard]. *)
Definition paste (tab_char : ascii) (clipboard : text) (b : Buffer) : Buffer :=
  let txt := replace_carriage_returns clipboard in
  let t := btext b in
  let tabs_end_iter := get_tabs_end_iter t (get_line t (insert_mark b)) in
  if negb (get_has_selection b) && ends_line t tabs_end_iter then
    let prefix_tabs := get_line_before t tabs_end_iter in
    let scan := paste_scan_loop tab_char txt (length txt) 0
                  (mkPasteScan 0 true SIZE_MAX false) in
    let paste_line_tabs :=
      if (ps_paste_line_tabs scan =? SIZE_MAX)%N then 0
      else N.to_nat (ps_paste_line_tabs scan) in
    let st := paste_insert_loop tab_char txt prefix_tabs paste_line_tabs
                (ps_first_paste_line_has_tabs scan) (length txt) 0
                (mkPasteInsert 0 true (begin_user_action b)) in
    let b' := pi_buffer st in
    end_user_action (place_cursor b' (insert_mark b'))
  else
    paste_clipboard b txt.

(** ** Lines of a text *)

(** The lines of a text: the maximal runs between newlines.  A text always
    has at least one line; a final newline is followed by an empty line. *)
Fixpoint lines (t : text) : list text :=
  match t with
  | [] => [[]]
  | c :: t' =>
      if (c =? NL)%char then [] :: lines t'
      else
        match lines t' with
        | l :: ls => (c :: l) :: ls
        | [] => [[c]]
        end
  end.

Fixpoint unlines (ls : list text) : text :=
  match ls with
  | [] => []
  | l :: ls' =>
      match ls' with
      | [] => l
      | _ => l ++ NL :: unlines ls'
      end
  end.

(** The text in front of a line: every earlier line with its newline. *)
Definition terminated (ls : list text) : text := flat_map (fun l => l ++ [NL]) ls.

Definition nl_free (l : text) : Prop := ~ In NL l.

(** The leading run of spaces and tabs of a line, and the line with its
    trailing run of spaces and tabs removed. *)
Fixpoint leading_blanks (l : text) : nat :=
  match l with
  | [] => 0
  | c :: l' => if is_blank c then S (leading_blanks l') else 0
  end.

Definition strip_trailing_blanks (l : text) : text :=
  firstn (length l - leading_blanks (rev l)) l.

(** ** Cursor placement *)

(** The toolkit's [get_iter_at_line_offset(line, offset)]: defined for a
    line of the buffer and an offset within it; [None] stands for an address
    outside the buffer. *)
Definition valid_position (t : text) (line offset : Z) : bool :=
  ((0 <=? line) && (line <? Z.of_nat (get_line_count t))
   && (0 <=? offset)
   && (offset <=? Z.of_nat (get_line_offset t (get_iter_at_line_end t (Z.to_nat line)))))%Z.

Definition get_iter_at_line_offset (t : text) (line offset : Z) : option TextIter :=
  if valid_position t line offset
  then Some (get_iter_at_line t (Z.to_nat line) + Z.to_nat offset)
  else None.

(** The pair [(line, offset)] that [place_cursor_at_line_offset] passes to
    [get_iter_at_line_offset] after its clamping. *)
Definition place_cursor_at_line_offset_address (t : text) (line offset : Z) : Z * Z :=
  let line := Z.min line (Z.of_nat (get_line_count t) - 1) in
  let line := if (line <? 0)%Z then 0%Z else line in
  let iter := get_iter_at_line_end t (Z.to_nat line) in
  let offset := Z.min offset (Z.of_nat (get_line_offset t iter)) in
  (line, offset).

(** [place_cursor_at_line_offset(line, offset)]. *)
Definition place_cursor_at_line_offset (b : Buffer) (line offset : Z) : option Buffer :=
  let (line', offset') := place_cursor_at_line_offset_address (btext b) line offset in
  match get_iter_at_line_offset (btext b) line' offset' with
  | Some iter => Some (place_cursor b iter)
  | None => None
  end.

(** ** Whitespace cleanup and saving *)

(** The loop moving back from the end of the line while the iterator is not
    at the start of the line and is on a space, a tab or the line end. *)
Fixpoint cleanup_backward (t : text) (iter : TextIter) : TextIter :=
  match iter with
  | O => O
  | S j =>
      if negb (starts_line t iter) && (is_blank (deref t iter) || ends_line t iter)
      then cleanup_backward t j
      else iter
  end.

Definition cleanup_line (b : Buffer) (line : nat) : Buffer :=
  let t := btext b in
  let iter := get_iter_at_line t line in
  let end_iter := get_iter_at_line_end t line in
  if iter =? end_iter then b
  else
    let iter := cleanup_backward t end_iter in
    let iter := if negb (is_blank (deref t iter)) then fst (forward_char t iter) else iter in
    if iter =? end_iter then b
    else buffer_erase b iter end_iter.

(** [for(int line=0;line<buffer->get_line_count();line++)]. *)
Fixpoint cleanup_loop (fuel line : nat) (b : Buffer) : Buffer :=
  match fuel with
  | O => b
  | S f =>
      if line <? get_line_count (btext b)
      then cleanup_loop f (S line) (cleanup_line b line)
      else b
  end.

Definition cleanup_whitespace_characters (b : Buffer) : Buffer :=
  let b1 := cleanup_loop (get_line_count (btext b)) 0 (begin_user_action b) in
  let iter := length (btext b1) in
  let b2 := if negb (starts_line (btext b1) iter) then buffer_insert b1 iter [NL] else b1 in
  end_user_action b2.

(** [save()]: the buffer after the call and the text handed to
    [filesystem::write], if the call gets that far. *)
Definition save (file_path_empty modified cleanup_option : bool) (b : Buffer)
  : Buffer * option text :=
  if file_path_empty || negb modified then (b, None)
  else
    let b' := if cleanup_option then cleanup_whitespace_characters b else b in
    (b', Some (btext b')).

(** ** Key handling *)

(** The tab style and language class of a view. *)
Record View := mkView {
  tab_char : ascii;
  tab_size : nat;
  is_bracket_language : bool;
  is_c_or_cpp : bool
}.

(** [tab]: [tab_size] copies of [tab_char]. *)
Definition tab (v : View) : text := repeat (tab_char v) (tab_size v).

(** The keys handled below.  [Key_ShiftTab] is [ISO_Left_Tab] or [Tab] with
    the shift modifier.  None of them has a printable character, so the
    generic insertion at the end of [on_key_press_event_basic] does not apply
    to them and the key ends in the toolkit's own handler. *)
Inductive Key := Key_Return | Key_ShiftTab | Key_BackSpace.

(** The toolkit's [Gsv::View::on_key_press_event]. *)
Definition DefaultHandler := Key -> Buffer -> Buffer.

(** The blanks after and before the cursor that Return removes first. *)
Fixpoint end_blank_loop (fuel : nat) (t : text) (iter : TextIter) : TextIter :=
  match fuel with
  | O => iter
  | S f =>
      if is_blank (deref t iter) && negb (ends_line t iter) then
        let (iter', moved) := forward_char t iter in
        if moved then end_blank_loop f t iter' else iter'
      else iter
  end.

(** [with_line_end] is true in the bracket handler, whose loop also steps
    back over a line end. *)
Fixpoint start_blank_loop (with_line_end : bool) (t : text) (iter : TextIter) : TextIter :=
  match iter with
  | O => O
  | S j =>
      if (is_blank (deref t iter) || (with_line_end && ends_line t iter))
         && negb (starts_line t iter)
      then start_blank_loop with_line_end t j
      else iter
  end.

(** Return in [on_key_press_event_basic]: indent as the current or the next
    line. *)
Definition basic_return (b : Buffer) : Buffer :=
  let t := btext b in
  let iter := insert_mark b in
  let end_blank_iter := end_blank_loop (length t) t iter in
  let start_blank_iter := start_blank_loop false t (fst (backward_char iter)) in
  let b1 :=
    if starts_line t start_blank_iter && is_blank (deref t start_blank_iter)
    then buffer_erase b iter end_blank_iter
    else buffer_erase b (fst (forward_char t start_blank_iter)) end_blank_iter in
  let t1 := btext b1 in
  let iter := insert_mark b1 in
  let line_nr := get_line t1 iter in
  let line_tabs := get_line_before t1 (get_tabs_end_iter t1 line_nr) in
  let next_line_tabs := get_line_before t1 (get_tabs_end_iter t1 (line_nr + 1)) in
  if (line_nr + 1 <? get_line_count t1)
     && ends_line t1 iter && (length line_tabs <? length next_line_tabs)
  then end_user_action (insert_at_cursor b1 (NL :: next_line_tabs))
  else end_user_action (insert_at_cursor b1 (NL :: line_tabs)).

(** Shift-Tab.  The iterator [selection_end] is obtained before any edit; the
    toolkit compares iterators by line and offset in the line, which the
    erasures at the start of other lines leave as they were, so the test
    [line_it != selection_end] is evaluated on the text [t0] the iterator was
    obtained from. *)
Definition outdent_touches (t0 : text) (has_selection : bool) (selection_end : TextIter)
           (line_nr : nat) : bool :=
  negb has_selection || negb (get_iter_at_line t0 line_nr =? selection_end).

(** The first loop: [None] is the early return, otherwise the final
    [indent_left_steps] and [ignore_line]. *)
Fixpoint outdent_scan (t : text) (has_selection : bool) (selection_end : TextIter)
         (n line_nr : nat) (indent_left_steps : nat) (ignore_line : list bool)
  : option (nat * list bool) :=
  match n with
  | O => Some (indent_left_steps, ignore_line)
  | S n' =>
      if outdent_touches t has_selection selection_end line_nr then
        let tabs_end_iter := get_tabs_end_iter t line_nr in
        if starts_line t tabs_end_iter && ends_line t tabs_end_iter then
          outdent_scan t has_selection selection_end n' (S line_nr)
                       indent_left_steps (ignore_line ++ [true])
        else
          let line_tabs := get_line_before t tabs_end_iter in
          if 0 <? length line_tabs then
            outdent_scan t has_selection selection_end n' (S line_nr)
                         (Nat.min indent_left_steps (length line_tabs))
                         (ignore_line ++ [false])
          else None
      else
        outdent_scan t has_selection selection_end n' (S line_nr)
                     indent_left_steps ignore_line
  end.

(** The second loop: [None] is the exception of [ignore_line.at]. *)
Fixpoint outdent_erase (t0 : text) (has_selection : bool) (selection_end : TextIter)
         (line_start : nat) (indent_left_steps : nat) (ignore_line : list bool)
         (n line_nr : nat) (b : Buffer) : option Buffer :=
  match n with
  | O => Some b
  | S n' =>
      let line_it := get_iter_at_line (btext b) line_nr in
      if outdent_touches t0 has_selection selection_end line_nr then
        let line_plus_it := fst (forward_chars (btext b) line_it indent_left_steps) in
        match nth_error ignore_line (line_nr - line_start) with
        | None => None
        | Some ignored =>
            outdent_erase t0 has_selection selection_end line_start indent_left_steps
                          ignore_line n' (S line_nr)
                          (if ignored then b else buffer_erase b line_it line_plus_it)
        end
      else
        outdent_erase t0 has_selection selection_end line_start indent_left_steps
                      ignore_line n' (S line_nr) b
  end.

Definition basic_shift_tab (v : View) (b : Buffer) : option Buffer :=
  let t := btext b in
  let (selection_start, selection_end) := get_selection_bounds b in
  let line_start := get_line t selection_start in
  let line_end := get_line t selection_end in
  let n := S line_end - line_start in
  match outdent_scan t (get_has_selection b) selection_end n line_start (tab_size v) [] with
  | None => Some (end_user_action b)
  | Some (indent_left_steps, ignore_line) =>
      match outdent_erase t (get_has_selection b) selection_end line_start
                          indent_left_steps ignore_line n line_start b with
      | Some b' => Some (end_user_action b')
      | None => None
      end
  end.

(** Backspace with no selection: the edit made before the key is passed
    on. *)
Definition basic_backspace (b : Buffer) : Buffer :=
  let t := btext b in
  let iter := insert_mark b in
  let line := get_line_before t iter in
  let do_smart_backspace := forallb is_blank line in
  if do_smart_backspace then
    let (line_start_iter, moved) := backward_chars iter (length line) in
    if moved then buffer_erase b iter line_start_iter else b
  else b.

(** [on_key_press_event_basic(key)]; [None] is an exception leaving the
    handler. *)
Definition on_key_press_event_basic (v : View) (dflt : DefaultHandler) (key : Key)
           (b : Buffer) : option Buffer :=
  let b := begin_user_action b in
  match key with
  | Key_Return =>
      if negb (get_has_selection b) && negb (starts_line (btext b) (insert_mark b))
      then Some (basic_return b)
      else Some (end_user_action (dflt key b))
  | Key_ShiftTab => basic_shift_tab v b
  | Key_BackSpace =>
      if negb (get_has_selection b)
      then Some (end_user_action (dflt key (basic_backspace b)))
      else Some (end_user_action (dflt key b))
  end.

(** [get_token(iter)]: the run of identifier characters around [iter]. *)
Definition is_token_char (c : ascii) : bool :=
  let n := nat_of_ascii c in
  ((65 <=? n) && (n <=? 90)) || ((97 <=? n) && (n <=? 122))
  || ((48 <=? n) && (n <=? 57)) || (n =? 95).

Fixpoint token_start (t : text) (iter start : TextIter) : TextIter :=
  if is_token_char (deref t iter) then
    match iter with
    | O => iter
    | S j => token_start t j iter
    end
  else start.

Fixpoint token_end (fuel : nat) (t : text) (e : TextIter) : TextIter :=
  match fuel with
  | O => e
  | S f =>
      if is_token_char (deref t e) then
        let (e', moved) := forward_char t e in
        if moved then token_end f t e' else e'
      else e
  end.

Definition get_token (t : text) (iter : TextIter) : text :=
  get_text t (token_start t iter iter) (token_end (length t) t iter).

(** The loop [while(!iter.starts_line() && iter.backward_char())]. *)
Fixpoint back_to_line_start (t : text) (iter : TextIter) : TextIter :=
  match iter with
  | O => O
  | S j => if negb (starts_line t iter) then back_to_line_start t j else iter
  end.

Definition text_eqb (a b : text) : bool :=
  if list_eq_dec ascii_dec a b then true else false.

(** The cases of Return in [on_key_press_event_bracket_language] that follow
    the test for a left brace before the cursor (the continuation alignment
    and the statement patterns) are taken as a parameter: they receive the
    buffer, the start of the sentence and its indentation. *)
Definition ReturnContinuation := Buffer -> TextIter -> text -> option Buffer.

(** Return after a left brace. *)
Definition bracket_return_after_brace (v : View) (hl : Highlighter) (b : Buffer)
           (start_of_sentence_iter : TextIter) (tabs : text) (iter : TextIter) : Buffer :=
  let t := btext b in
  let has_bracket :=
    match find_right_bracket_forward t hl iter with
    | Some found_iter =>
        let line_tabs :=
          get_line_before t (get_tabs_end_iter t (get_line t found_iter)) in
        length tabs =? length line_tabs
    | None => false
    end in
  if (deref t (insert_mark b) =? "}")%char then
    let b1 := insert_at_cursor b (NL :: tabs ++ tab v ++ NL :: tabs) in
    let (insert_it, moved) := backward_chars (insert_mark b1) (length tabs + 1) in
    end_user_action (if moved then place_cursor b1 insert_it else b1)
  else if negb has_bracket then
    let add_semicolon :=
      if is_c_or_cpp v then
        let token := get_token t start_of_sentence_iter in
        let token :=
          match token with
          | [] =>
              let iter := back_to_line_start t start_of_sentence_iter in
              match iter with
              | O => token
              | S j =>
                  match find_start_of_closed_expression t hl (tab_char v) (insert_mark b) j with
                  | Some iter' => get_token t iter'
                  | None => token
                  end
              end
          | _ => token
          end in
        text_eqb token (chars "class") || text_eqb token (chars "struct")
      else false in
    let closing := if add_semicolon then chars "};" else chars "}" in
    let b1 := insert_at_cursor b (NL :: tabs ++ tab v ++ NL :: tabs ++ closing) in
    let (insert_it, moved) :=
      backward_chars (insert_mark b1) (length tabs + (if add_semicolon then 3 else 2)) in
    end_user_action (if moved then place_cursor b1 insert_it else b1)
  else
    end_user_action (insert_at_cursor b (NL :: tabs ++ tab v)).

(** [on_key_press_event_bracket_language(key)].  [hl] classifies the
    positions of the text as it is after the blanks around the cursor have
    been removed. *)
Definition on_key_press_event_bracket_language (v : View) (hl : Highlighter)
           (dflt : DefaultHandler) (rest : ReturnContinuation) (key : Key) (b0 : Buffer)
  : option Buffer :=
  let b := begin_user_action b0 in
  let fall_through := on_key_press_event_basic v dflt key (end_user_action b) in
  match key with
  | Key_Return =>
      if negb (starts_line (btext b) (insert_mark b)) then
        let t := btext b in
        let iter := insert_mark b in
        let end_blank_iter := end_blank_loop (length t) t iter in
        let start_blank_iter := start_blank_loop true t (fst (backward_char iter)) in
        let b1 :=
          if negb (starts_line t start_blank_iter)
          then buffer_erase b (fst (forward_char t start_blank_iter)) end_blank_iter
          else buffer_erase b iter end_blank_iter in
        let t1 := btext b1 in
        let iter := insert_mark b1 in
        match find_start_of_closed_expression t1 hl (tab_char v) iter iter with
        | Some start_of_sentence_iter =>
            let tabs :=
              get_line_before t1 (get_tabs_end_iter t1 (get_line t1 start_of_sentence_iter)) in
            match iter with
            | S j =>
                if (deref t1 j =? "{")%char
                then Some (bracket_return_after_brace v hl b1 start_of_sentence_iter tabs j)
                else rest b1 start_of_sentence_iter tabs
            | O => rest b1 start_of_sentence_iter tabs
            end
        | None => on_key_press_event_basic v dflt key (end_user_action b1)
        end
      else fall_through
  | _ => fall_through
  end.

(** [on_key_press_event(key)]: the choice between the two handlers.  The
    highlighter is consulted for the character in front of the cursor. *)
Definition on_key_press_event (v : View) (hl : Highlighter) (dflt : DefaultHandler)
           (rest : ReturnContinuation) (key : Key) (b : Buffer) : option Buffer :=
  if get_has_selection b then on_key_press_event_basic v dflt key b
  else
    match insert_mark b with
    | S j =>
        if hl j Comment || hl j StringLit
        then on_key_press_event_basic v dflt key b
        else if is_bracket_language v
             then on_key_press_event_bracket_language v hl dflt rest key b
             else on_key_press_event_basic v dflt key b
    | O =>
        if is_bracket_language v
        then on_key_press_event_bracket_language v hl dflt rest key b
        else on_key_press_event_basic v dflt key b
    end.

(** ** Comment toggling *)

(** The loop over the characters of the comment prefix: whether the line is
    commented, and whether a space follows the prefix. *)
Fixpoint match_comment (t : text) (comment_characters : text) (iter : TextIter) : bool * bool :=
  match comment_characters with
  | [] => (false, false)
  | ch :: more =>
      if ends_line t iter then (false, false)
      else if (deref t iter =? ch)%char then
        match more with
        | [] =>
            let iter' := fst (forward_char t iter) in
            (true, (deref t iter' =? SPACE)%char)
        | _ => match_comment t more (fst (forward_char t iter))
        end
      else (false, false)
  end.

(** The scan of one line: [None] when the line holds spaces and tabs only,
    otherwise its indentation, whether it is commented and whether it has the
    extra space. *)
Fixpoint comment_scan_line (fuel : nat) (t : text) (comment_characters : text)
         (iter : TextIter) (indentation : Z) : option (Z * bool * bool) :=
  match fuel with
  | O => None
  | S f =>
      if ends_line t iter then None
      else if is_blank (deref t iter) then
        comment_scan_line f t comment_characters (fst (forward_char t iter)) (indentation + 1)
      else
        let (line_commented, extra_space) := match_comment t comment_characters iter in
        Some (indentation, line_commented, extra_space)
  end.

Record CommentScan := mkCommentScan {
  cs_lines : list nat;
  cs_lines_commented : bool;
  cs_extra_spaces : bool;
  cs_min_indentation : Z
}.

Definition comment_scan_body (t : text) (comment_characters : text) (line : nat)
           (st : CommentScan) : CommentScan :=
  match comment_scan_line (S (length t)) t comment_characters (get_iter_at_line t line) 0 with
  | None => st
  | Some (indentation, line_commented, extra_space) =>
      mkCommentScan (cs_lines st ++ [line])
                    (cs_lines_commented st && line_commented)
                    (cs_extra_spaces st && extra_space)
                    (if (cs_min_indentation st =? -1)%Z || (indentation <? cs_min_indentation st)%Z
                     then indentation else cs_min_indentation st)
  end.

(** [for(auto line=line_start;line<=line_end;++line)]. *)
Fixpoint comment_scan_loop (t : text) (comment_characters : text) (n line : nat)
         (st : CommentScan) : CommentScan :=
  match n with
  | O => st
  | S n' =>
      comment_scan_loop t comment_characters n' (S line)
                        (comment_scan_body t comment_characters line st)
  end.

(** The loop moving [iter] and [end_iter] forward together over spaces and
    tabs in front of the prefix to erase. *)
Fixpoint uncomment_skip (fuel : nat) (t : text) (iter end_iter : TextIter) : TextIter * TextIter :=
  match fuel with
  | O => (iter, end_iter)
  | S f =>
      if is_blank (deref t iter)
      then uncomment_skip f t (fst (forward_char t iter)) (fst (forward_char t end_iter))
      else (iter, end_iter)
  end.

Definition toggle_line (comment_characters : text) (st : CommentScan) (b : Buffer) (line : nat)
  : Buffer :=
  let t := btext b in
  let iter := get_iter_at_line t line in
  let iter := fst (forward_chars t iter (Z.to_nat (cs_min_indentation st))) in
  if cs_lines_commented st then
    let end_iter :=
      fst (forward_chars t iter (length comment_characters
                                 + (if cs_extra_spaces st then 1 else 0))) in
    let (iter', end_iter') := uncomment_skip (length t) t iter end_iter in
    buffer_erase b iter' end_iter'
  else
    buffer_insert b iter (comment_characters ++ [SPACE]).

(** The range of lines of the selection: the last line is left out when the
    selection ends at its start. *)
Definition selected_lines (b : Buffer) : nat * nat :=
  let t := btext b in
  let (selection_start, selection_end) := get_selection_bounds b in
  let line_start := get_line t selection_start in
  let line_end := get_line t selection_end in
  if negb (line_start =? line_end) && starts_line t selection_end
  then (line_start, line_end - 1)
  else (line_start, line_end).

(** [toggle_comments] over the lines [line_start .. line_end]. *)
Definition toggle_comments_range (comment_characters : text) (line_start line_end : nat)
           (b : Buffer) : Buffer :=
  let t := btext b in
  let st := comment_scan_loop t comment_characters (S line_end - line_start) line_start
              (mkCommentScan [] true true (-1)) in
  match cs_lines st with
  | [] => b
  | _ =>
      end_user_action
        (fold_left (toggle_line comment_characters st) (cs_lines st) (begin_user_action b))
  end.

Definition toggle_comments (comment_characters : text) (b : Buffer) : Buffer :=
  let (line_start, line_end) := selected_lines b in
  toggle_comments_range comment_characters line_start line_end b.

(** ** Tab style detection *)

(** The two histograms, kept as lists of keys with their counts;
    [h[k]++] adds the key with count 1 when it is new. *)
Fixpoint hist_incr {K : Type} (eqb : K -> K -> bool) (k : K) (h : list (K * nat))
  : list (K * nat) :=
  match h with
  | [] => [(k, 1)]
  | (k', n) :: r =>
      if eqb k k' then (k', S n) :: r else (k', n) :: hist_incr eqb k r
  end.

(** The final loops: starting from [found] with [occurences = 0], an entry
    replaces the current one when its count is strictly greater. *)
Fixpoint select_max {K : Type} (entries : list (K * nat)) (found : K) (occurences : nat) : K :=
  match entries with
  | [] => found
  | (k, n) :: r =>
      if occurences <? n then select_max r k n else select_max r found occurences
  end.

Record TabScan := mkTabScan {
  ts_iter : TextIter;
  ts_tab_count : Z;
  ts_last_tab_count : Z;
  ts_single_quoted : bool;
  ts_double_quoted : bool;
  ts_line_comment : bool;
  ts_comment : bool;
  ts_bracket_last_line : bool;
  ts_last_char : ascii;
  ts_last_tab_diff : Z;
  ts_para_count : Z;
  ts_tab_chars : list (ascii * nat);
  ts_tab_sizes : list (Z * nat)
}.

Definition tab_scan0 : TabScan :=
  mkTabScan 0 (-1) 0 false false false false false zero (-1) 0 [] [].

Definition set_iter (s : TabScan) (i : TextIter) : TabScan :=
  mkTabScan i (ts_tab_count s) (ts_last_tab_count s) (ts_single_quoted s)
            (ts_double_quoted s) (ts_line_comment s) (ts_comment s) (ts_bracket_last_line s)
            (ts_last_char s) (ts_last_tab_diff s) (ts_para_count s) (ts_tab_chars s)
            (ts_tab_sizes s).

Definition set_tab_count (s : TabScan) (n : Z) : TabScan :=
  mkTabScan (ts_iter s) n (ts_last_tab_count s) (ts_single_quoted s)
            (ts_double_quoted s) (ts_line_comment s) (ts_comment s) (ts_bracket_last_line s)
            (ts_last_char s) (ts_last_tab_diff s) (ts_para_count s) (ts_tab_chars s)
            (ts_tab_sizes s).

Definition set_last_tab_count (s : TabScan) (n : Z) : TabScan :=
  mkTabScan (ts_iter s) (ts_tab_count s) n (ts_single_quoted s)
            (ts_double_quoted s) (ts_line_comment s) (ts_comment s) (ts_bracket_last_line s)
            (ts_last_char s) (ts_last_tab_diff s) (ts_para_count s) (ts_tab_chars s)
            (ts_tab_sizes s).

Definition set_quoted (s : TabScan) (single double : bool) : TabScan :=
  mkTabScan (ts_iter s) (ts_tab_count s) (ts_last_tab_count s) single double
            (ts_line_comment s) (ts_comment s) (ts_bracket_last_line s)
            (ts_last_char s) (ts_last_tab_diff s) (ts_para_count s) (ts_tab_chars s)
            (ts_tab_sizes s).

Definition set_comments (s : TabScan) (line_comment comment : bool) : TabScan :=
  mkTabScan (ts_iter s) (ts_tab_count s) (ts_last_tab_count s) (ts_single_quoted s)
            (ts_double_quoted s) line_comment comment (ts_bracket_last_line s)
            (ts_last_char s) (ts_last_tab_diff s) (ts_para_count s) (ts_tab_chars s)
            (ts_tab_sizes s).

Definition set_bracket_last_line (s : TabScan) (x : bool) : TabScan :=
  mkTabScan (ts_iter s) (ts_tab_count s) (ts_last_tab_count s) (ts_single_quoted s)
            (ts_double_quoted s) (ts_line_comment s) (ts_comment s) x
            (ts_last_char s) (ts_last_tab_diff s) (ts_para_count s) (ts_tab_chars s)
            (ts_tab_sizes s).

Definition set_last_char (s : TabScan) (c : ascii) : TabScan :=
  mkTabScan (ts_iter s) (ts_tab_count s) (ts_last_tab_count s) (ts_single_quoted s)
            (ts_double_quoted s) (ts_line_comment s) (ts_comment s) (ts_bracket_last_line s)
            c (ts_last_tab_diff s) (ts_para_count s) (ts_tab_chars s) (ts_tab_sizes s).

Definition set_last_tab_diff (s : TabScan) (n : Z) : TabScan :=
  mkTabScan (ts_iter s) (ts_tab_count s) (ts_last_tab_count s) (ts_single_quoted s)
            (ts_double_quoted s) (ts_line_comment s) (ts_comment s) (ts_bracket_last_line s)
            (ts_last_char s) n (ts_para_count s) (ts_tab_chars s) (ts_tab_sizes s).

Definition set_para_count (s : TabScan) (n : Z) : TabScan :=
  mkTabScan (ts_iter s) (ts_tab_count s) (ts_last_tab_count s) (ts_single_quoted s)
            (ts_double_quoted s) (ts_line_comment s) (ts_comment s) (ts_bracket_last_line s)
            (ts_last_char s) (ts_last_tab_diff s) n (ts_tab_chars s) (ts_tab_sizes s).

Definition set_tab_chars (s : TabScan) (h : list (ascii * nat)) : TabScan :=
  mkTabScan (ts_iter s) (ts_tab_count s) (ts_last_tab_count s) (ts_single_quoted s)
            (ts_double_quoted s) (ts_line_comment s) (ts_comment s) (ts_bracket_last_line s)
            (ts_last_char s) (ts_last_tab_diff s) (ts_para_count s) h (ts_tab_sizes s).

Definition set_tab_sizes (s : TabScan) (h : list (Z * nat)) : TabScan :=
  mkTabScan (ts_iter s) (ts_tab_count s) (ts_last_tab_count s) (ts_single_quoted s)
            (ts_double_quoted s) (ts_line_comment s) (ts_comment s) (ts_bracket_last_line s)
            (ts_last_char s) (ts_last_tab_diff s) (ts_para_count s) (ts_tab_chars s) h.

(** The key [std::abs(tab_count-last_tab_count)] of [tab_sizes], an
    [unsigned]. *)
Definition tab_size_key (tab_count last_tab_count : Z) : Z :=
  (Z.abs (tab_count - last_tab_count) mod 2 ^ 32)%Z.

(** One more leading space or tab of a measured line. *)
Definition count_indent_char (s : TabScan) (c : ascii) : TabScan :=
  set_tab_count (set_tab_chars s (hist_incr Ascii.eqb c (ts_tab_chars s)))
                (ts_tab_count s + 1).

(** The recording of the indentation of a line at its first character that
    is not a space or a tab. *)
Definition record_tab_size (s : TabScan) : TabScan :=
  if negb (ts_tab_count s =? ts_last_tab_count s)%Z
  then set_tab_sizes s (hist_incr Z.eqb (tab_size_key (ts_tab_count s) (ts_last_tab_count s))
                                  (ts_tab_sizes s))
  else s.

(** The inner loop of the bracket branch: the last character of the line
    that is not a space or a tab, looking no further than the first left
    parenthesis. *)
Fixpoint last_line_char_loop (fuel : nat) (t : text) (line_iter : TextIter)
         (last_line_char : ascii) : ascii :=
  match fuel with
  | O => last_line_char
  | S f =>
      if negb (is_end t line_iter) && negb (ends_line t line_iter) then
        let c := deref t line_iter in
        let last_line_char := if negb (is_blank c) then c else last_line_char in
        if (c =? "(")%char then last_line_char
        else last_line_char_loop f t (fst (forward_char t line_iter)) last_line_char
      else last_line_char
  end.

(** The toggling of the quote flags, shared by the two branches; the result
    tells whether neither quote test applied. *)
Definition quote_flags (t : text) (s : TabScan) : TabScan * bool :=
  let iter := ts_iter s in
  if negb (ts_double_quoted s) && (deref t iter =? QUOTE)%char && quote_toggles t iter
  then (set_quoted s (negb (ts_single_quoted s)) (ts_double_quoted s), false)
  else if negb (ts_single_quoted s) && (deref t iter =? DQUOTE)%char && quote_toggles t iter
  then (set_quoted s (ts_single_quoted s) (negb (ts_double_quoted s)), false)
  else (s, true).

(** The body of the loop for bracket languages, in its three parts.  First,
    at the start of a line, the flags of the line are reset and it is noted
    whether the last code character seen was a left brace. *)
Definition bracket_line_start (t : text) (s : TabScan) : TabScan :=
  if starts_line t (ts_iter s) then
    set_bracket_last_line
      (set_tab_count (set_quoted (set_comments s false (ts_comment s)) false false) 0)
      (ts_last_char s =? "{")%char
  else s.

(** Second, the indentation of a line that follows a left brace is measured.
    The result tells whether the loop continues at the next line at once
    (the [continue] taken on a label or a preprocessor line). *)
Definition bracket_measure (t : text) (s : TabScan) : TabScan * bool :=
  let iter := ts_iter s in
  if ts_bracket_last_line s && negb (ts_tab_count s =? -1)%Z then
    if (deref t iter =? SPACE)%char then (count_indent_char s SPACE, false)
    else if (deref t iter =? TAB)%char then (count_indent_char s TAB, false)
    else
      let last_line_char := last_line_char_loop (S (length t)) t iter zero in
      if (last_line_char =? ":")%char || (deref t iter =? "#")%char then
        let s := set_tab_count s 0 in
        if get_line t iter + 1 <? get_line_count t
        then (set_iter s (get_iter_at_line t (get_line t iter + 1)), true)
        else (s, false)
      else if negb (ends_line t iter) then
        let s1 := record_tab_size s in
        (set_last_char
           (set_last_tab_count
              (set_last_tab_diff s1 (Z.abs (ts_tab_count s - ts_last_tab_count s)))
              (ts_tab_count s))
           zero, false)
      else (s, false)
  else (s, false).

(** Third, quotes and comments are tracked, the last code character and the
    running depth are updated, and the iterator moves on. *)
Definition bracket_lexical (t : text) (s : TabScan) : TabScan :=
  let iter := ts_iter s in
  let (s, neither) := quote_flags t s in
  let s :=
    if neither && negb (ts_single_quoted s) && negb (ts_double_quoted s) then
      let next_iter := fst (forward_char t iter) in
      if (deref t iter =? "/")%char && (deref t next_iter =? "/")%char
      then set_comments s true (ts_comment s)
      else if (deref t iter =? "/")%char && (deref t next_iter =? "*")%char
      then set_comments s (ts_line_comment s) true
      else if (deref t iter =? "*")%char && (deref t next_iter =? "/")%char
      then set_comments
             (set_iter s (fst (forward_char t (fst (forward_char t iter)))))
             (ts_line_comment s) false
      else s
    else s in
  let iter := ts_iter s in
  let code := negb (ts_single_quoted s) && negb (ts_double_quoted s)
              && negb (ts_comment s) && negb (ts_line_comment s) in
  let s :=
    if code && negb (is_blank (deref t iter)) && negb (ends_line t iter)
    then set_last_char s (deref t iter) else s in
  let s :=
    if code && (deref t iter =? "}")%char && negb (ts_tab_count s =? -1)%Z
       && negb (ts_last_tab_diff s =? -1)%Z
    then set_last_tab_count s (ts_last_tab_count s - ts_last_tab_diff s) else s in
  let s := if negb (is_blank (deref t iter)) then set_tab_count s (-1) else s in
  set_iter s (fst (forward_char t iter)).

Definition bracket_scan_body (t : text) (s : TabScan) : TabScan :=
  let (s, continued) := bracket_measure t (bracket_line_start t s) in
  if continued then s else bracket_lexical t s.

(** The body of the loop for the other languages: the indentation of a line
    outside parentheses and quotes is measured, then quotes and parentheses
    are tracked and the iterator moves on. *)
Definition plain_measure (t : text) (s : TabScan) : TabScan :=
  let iter := ts_iter s in
  let s := if starts_line t iter then set_tab_count s 0 else s in
  if negb (ts_tab_count s =? -1)%Z && (ts_para_count s =? 0)%Z
     && negb (ts_single_quoted s) && negb (ts_double_quoted s) then
    if (deref t iter =? SPACE)%char then count_indent_char s SPACE
    else if (deref t iter =? TAB)%char then count_indent_char s TAB
    else if negb (ends_line t iter)
    then set_last_tab_count (record_tab_size s) (ts_tab_count s)
    else s
  else s.

Definition plain_lexical (t : text) (s : TabScan) : TabScan :=
  let iter := ts_iter s in
  let (s, neither) := quote_flags t s in
  let s :=
    if neither && negb (ts_single_quoted s) && negb (ts_double_quoted s) then
      if (deref t iter =? "(")%char then set_para_count s (ts_para_count s + 1)
      else if (deref t iter =? ")")%char then set_para_count s (ts_para_count s - 1)
      else s
    else s in
  let s := if negb (is_blank (deref t iter)) then set_tab_count s (-1) else s in
  set_iter s (fst (forward_char t iter)).

Definition plain_scan_body (t : text) (s : TabScan) : TabScan :=
  plain_lexical t (plain_measure t s).

(** [while(iter)]: the body runs as long as the iterator is not the end
    iterator. *)
Fixpoint tab_scan_loop (body : TabScan -> TabScan) (fuel : nat) (t : text) (s : TabScan)
  : TabScan :=
  match fuel with
  | O => s
  | S f => if is_end t (ts_iter s) then s else tab_scan_loop body f t (body s)
  end.

(** The histograms gathered from a document; [bracket_branch] is
    [is_bracket_language] for a language other than html. *)
Definition gather_tab_data (bracket_branch : bool) (t : text) : TabScan :=
  tab_scan_loop (if bracket_branch then bracket_scan_body t else plain_scan_body t)
                (length t) t tab_scan0.

(** The result for given enumerations of the two histograms. *)
Definition select_tab_char_and_size (tab_chars : list (ascii * nat))
           (tab_sizes : list (Z * nat)) : ascii * Z :=
  (select_max tab_chars zero 0, select_max tab_sizes 0%Z 0).

(** The order in which a range-based for loop visits the entries of a
    [std::unordered_map] is left open by the container: an enumeration
    lists the entries of a histogram in some order. *)
Definition Enumeration (K : Type) : Type := list (K * nat) -> list (K * nat).

Definition enumerates {K : Type} (order : Enumeration K) : Prop :=
  forall h, Permutation h (order h).

(** [find_tab_char_and_size()], with the orders in which the two final loops
    visit [tab_chars] and [tab_sizes]. *)
Definition find_tab_char_and_size (chars_order : Enumeration ascii)
           (sizes_order : Enumeration Z) (bracket_branch : bool) (t : text) : ascii * Z :=
  let s := gather_tab_data bracket_branch t in
  select_tab_char_and_size (chars_order (ts_tab_chars s)) (sizes_order (ts_tab_sizes s)).

(** The tab style a view starts with: the configured defaults, replaced by
    the detected style when detection is enabled and its character is not 0. *)
Definition initial_tab_style (default_tab_char : ascii) (default_tab_size : Z)
           (auto_tab_char_and_size : bool) (found : ascii * Z) : ascii * Z :=
  if auto_tab_char_and_size then
    if negb (fst found =? zero)%char then found
    else (default_tab_char, default_tab_size)
  else (default_tab_char, default_tab_size).

(** ** Texts seen line by line *)

(** A text in front of a line start: empty, or ended by a newline. *)
Definition at_line_start (pre : text) : Prop := pre = [] \/ exists p, pre = p ++ [NL].

(** What follows a line in its text: nothing or a newline. *)
Definition line_closed (post : text) : Prop := post = [] \/ exists q, post = NL :: q.

(** What follows a line: nothing, or a newline and the later lines. *)
Definition line_rest (ls : list text) : text :=
  match ls with
  | [] => []
  | _ => NL :: unlines ls
  end.

(** A change applied to the line with the given index. *)
Fixpoint update_line (i : nat) (f : text -> text) (ls : list text) : list text :=
  match ls with
  | [] => []
  | l :: r =>
      match i with
      | O => f l :: r
      | S j => l :: update_line j f r
      end
  end.

(** The toolkit's own key handler on the keys above: Backspace deletes the
    selection or else the character in front of the cursor, Return replaces
    the selection by a newline, and Shift-Tab leaves the text alone. *)
Definition toolkit_key_press : DefaultHandler :=
  fun key b =>
    match key with
    | Key_BackSpace =>
        if get_has_selection b
        then buffer_erase b (insert_mark b) (selection_bound b)
        else buffer_erase b (fst (backward_char (insert_mark b))) (insert_mark b)
    | Key_Return =>
        insert_at_cursor (buffer_erase b (insert_mark b) (selection_bound b)) [NL]
    | Key_ShiftTab => b
    end.

(** ** Outdenting, line by line

    The effect of Shift-Tab on a run [seg] of consecutive lines whose first
    line has index [i]; [touched] tells which lines the selection
    touches. *)

Definition is_empty_line (l : text) : bool :=
  match l with
  | [] => true
  | _ => false
  end.

(** Some touched line that is not empty has no leading blank. *)
Fixpoint has_unindented (touched : nat -> bool) (i : nat) (seg : list text) : bool :=
  match seg with
  | [] => false
  | l :: r =>
      (touched i && negb (is_empty_line l) && (leading_blanks l =? 0))
      || has_unindented touched (S i) r
  end.

(** The minimum of [k] and of the leading runs of blanks of the touched
    lines that are not empty. *)
Fixpoint min_leading (touched : nat -> bool) (i : nat) (seg : list text) (k : nat) : nat :=
  match seg with
  | [] => k
  | l :: r =>
      min_leading touched (S i) r
                  (if touched i && negb (is_empty_line l)
                   then Nat.min k (leading_blanks l) else k)
  end.

Fixpoint ignore_entries (touched : nat -> bool) (i : nat) (seg : list text) : list bool :=
  match seg with
  | [] => []
  | l :: r => (if touched i then [is_empty_line l] else []) ++ ignore_entries touched (S i) r
  end.

(** The lines with [k] leading characters removed from every touched line
    that is not empty. *)
Fixpoint outdent_lines (touched : nat -> bool) (k : nat) (i : nat) (seg : list text)
  : list text :=
  match seg with
  | [] => []
  | l :: r =>
      (if touched i && negb (is_empty_line l) then skipn k l else l)
        :: outdent_lines touched k (S i) r
  end.

(** ** Comment toggling, line by line *)

(** The prefix test of [match_comment] on the part [body] of a line that
    follows its indentation. *)
Fixpoint match_comment_line (comment_characters body : text) : bool * bool :=
  match comment_characters with
  | [] => (false, false)
  | ch :: more =>
      match body with
      | [] => (false, false)
      | x :: body' =>
          if (x =? ch)%char then
            match more with
            | [] => (true, (nth 0 body' zero =? SPACE)%char)
            | _ => match_comment_line more body'
            end
          else (false, false)
      end
  end.

(** What the scan finds on a line: nothing when the line holds blanks only,
    otherwise its indentation, whether it is commented and whether a space
    follows the prefix. *)
Definition comment_info (comment_characters l : text) : option (Z * bool * bool) :=
  let lb := leading_blanks l in
  if lb =? length l then None
  else
    let (line_commented, extra_space) := match_comment_line comment_characters (skipn lb l) in
    Some (Z.of_nat lb, line_commented, extra_space).

Definition counted (comment_characters l : text) : bool :=
  match comment_info comment_characters l with
  | Some _ => true
  | None => false
  end.

(** The scan over the lines [seg], the first of which has index [i]. *)
Fixpoint comment_scan_lines (comment_characters : text) (i : nat) (seg : list text)
         (st : CommentScan) : CommentScan :=
  match seg with
  | [] => st
  | l :: r =>
      comment_scan_lines comment_characters (S i) r
        match comment_info comment_characters l with
        | None => st
        | Some (indentation, line_commented, extra_space) =>
            mkCommentScan (cs_lines st ++ [i])
                          (cs_lines_commented st && line_commented)
                          (cs_extra_spaces st && extra_space)
                          (if (cs_min_indentation st =? -1)%Z
                              || (indentation <? cs_min_indentation st)%Z
                           then indentation else cs_min_indentation st)
        end
  end.

Definition comment_scan0 : CommentScan := mkCommentScan [] true true (-1).

(** The line after the toggle: a counted line gets the prefix and a space at
    the minimum indentation, or loses the prefix (and the space behind it
    when every counted line has one); the other lines stay. *)
Definition toggle_text (comment_characters : text) (st : CommentScan) (l : text) : text :=
  if counted comment_characters l then
    if cs_lines_commented st then
      let lb := leading_blanks l in
      firstn lb l
        ++ skipn (lb + length comment_characters + (if cs_extra_spaces st then 1 else 0)) l
    else
      let m := Z.to_nat (cs_min_indentation st) in
      firstn m l ++ comment_characters ++ [SPACE] ++ skipn m l
  else l.

(** The comment prefixes of the languages that have one. *)
Definition comment_prefixes : list text :=
  [chars "//"; chars "#"; chars "%"; chars "!"; chars "--"].

(** A prefix as in the table: not empty, without newline, starting with a
    character that is neither space nor tab. *)
Definition comment_prefix_ok (comment_characters : text) : Prop :=
  nl_free comment_characters
  /\ exists c0 more, comment_characters = c0 :: more /\ is_blank c0 = false.

(** The indices of the counted lines of [seg], whose first line has index
    [i]. *)
Fixpoint counted_indices (comment_characters : text) (i : nat) (seg : list text) : list nat :=
  match seg with
  | [] => []
  | l :: r =>
      (if counted comment_characters l then [i] else [])
        ++ counted_indices comment_characters (S i) r
  end.

(** The conditions under which [toggle_line] stays within a counted line. *)
Definition toggle_fits (cc : text) (st : CommentScan) (l : text) : Prop :=
  Z.to_nat (cs_min_indentation st) <= leading_blanks l
  /\ (cs_lines_commented st = true ->
      leading_blanks l + length cc + (if cs_extra_spaces st then 1 else 0) <= length l).

(** The histograms hold positive counts, and [tab_chars] counts spaces and
    tabs only. *)
Definition tab_hist_ok (s : TabScan) : Prop :=
  Forall (fun p => (fst p = SPACE \/ fst p = TAB) /\ 1 <= snd p) (ts_tab_chars s)
  /\ Forall (fun p : Z * nat => 1 <= snd p) (ts_tab_sizes s).

(** An entry with the highest count of a histogram. *)
Definition has_max_count {K : Type} (entries : list (K * nat)) (k : K) : Prop :=
  exists n, In (k, n) entries /\ forall k' n', In (k', n') entries -> n' <= n.

(** ** Selection by double click *)

(** [buffer->select_range(ins, bound)]. *)
Definition select_range (b : Buffer) (ins bound : TextIter) : Buffer :=
  mkBuffer (btext b) ins bound (journal b).

(** [on_button_press_event(event)]: on a double click the selection is
    extended in both directions over the characters accepted by the two
    loops, which test the character codes of the letters, the digits and the
    underscore, the set of [is_token_char]; any other event goes to the
    toolkit's handler [dflt_button]. *)
Definition on_button_press_event (dflt_button : Buffer -> Buffer) (double_press : bool)
           (b : Buffer) : Buffer :=
  if double_press then
    let t := btext b in
    let (start, e) := get_selection_bounds b in
    let start := token_start t start start in
    let e := token_end (length t) t e in
    select_range b start e
  else dflt_button b.

(** ** The right brace key in a bracket language *)

(** The branch [key->keyval==GDK_KEY_braceright] of
    [on_key_press_event_bracket_language]: when the text between the line
    start and the cursor is at least [tab_size] long and holds [tab_char]
    only, one tab unit is erased at the start of the line before the brace is
    inserted. *)
Definition bracket_brace_right (v : View) (b0 : Buffer) : Buffer :=
  let b := begin_user_action b0 in
  let t := btext b in
  let line := get_line_before t (insert_mark b) in
  if tab_size v <=? length line then
    if forallb (fun c => (c =? tab_char v)%char) line then
      let insert_it := insert_mark b in
      let line_it := get_iter_at_line t (get_line t insert_it) in
      let line_plus_it := fst (forward_chars t line_it (tab_size v)) in
      end_user_action (insert_at_cursor (buffer_erase b line_it line_plus_it) ["}"])
    else end_user_action (insert_at_cursor b ["}"])
  else end_user_action (insert_at_cursor b ["}"]).

(** ** Counting braces and parentheses

    The number of positions [p] with [a <= p < a + n] that hold the
    character [c] in plain context. *)
Fixpoint count_plain (t : text) (hl : Highlighter) (c : ascii) (a n : nat) : nat :=
  match n with
  | O => 0
  | S n' =>
      (if plain_context hl a && (deref t a =? c)%char then 1 else 0)
      + count_plain t hl c (S a) n'
  end.

(** No single quote in plain context at the positions from [a] up to, not
    including, [b]: the scans then never set their ignore flag there. *)
Definition quote_free (t : text) (hl : Highlighter) (a b : nat) : bool :=
  forallb (fun p => negb (plain_context hl p && (deref t p =? QUOTE)%char)) (seq a (b - a)).

(** ** The history of an entry (entrybox.cc) *)

(** [EntryBox::entry_histories]: for each placeholder text the texts
    activated under it, the latest first. *)
Definition Histories := list (text * list text).

Fixpoint histories_find (h : Histories) (k : text) : option (list text) :=
  match h with
  | [] => None
  | (k', v) :: r => if text_eqb k k' then Some v else histories_find r k
  end.

(** The vector read through [entry_histories[k]]. *)
Definition history_of (h : Histories) (k : text) : list text :=
  match histories_find h k with
  | Some v => v
  | None => []
  end.

(** The map after [auto &history=entry_histories[k]] and a change [f] made
    through the reference: a new key starts from the empty vector. *)
Fixpoint histories_update (f : list text -> list text) (k : text) (h : Histories) : Histories :=
  match h with
  | [] => [(k, f [])]
  | (k', v) :: r =>
      if text_eqb k k' then (k', f v) :: r else (k', v) :: histories_update f k r
  end.

(** The state of an [EntryBox::Entry] that its two handlers use. *)
Record Entry := mkEntry {
  placeholder_text : text;
  entry_text : text;
  selected_history : nat;
  on_activate_set : bool
}.

(** The handler connected to [signal_activate]: the new map, the new entry
    and the argument of the call of [on_activate], if it is called. *)
Definition entry_activate (h : Histories) (e : Entry) : Histories * Entry * option text :=
  if on_activate_set e then
    let txt := entry_text e in
    let push (history : list text) : list text :=
      if (length history =? 0)
         || ((0 <? length history) && negb (text_eqb (hd [] history) txt))
      then txt :: history else history in
    (histories_update push (placeholder_text e) h,
     mkEntry (placeholder_text e) txt 0 true,
     Some txt)
  else (h, e, None).

Inductive EntryKey := EntryKey_Up | EntryKey_Down | EntryKey_Other.

(** The handler connected to [signal_key_press_event]; [None] stands for an
    index outside the vector in [history[selected_history]]. *)
Definition entry_key_press (key : EntryKey) (h : Histories) (e : Entry)
  : option (Histories * Entry) :=
  match key with
  | EntryKey_Up =>
      let h' := histories_update (fun v => v) (placeholder_text e) h in
      let history := history_of h' (placeholder_text e) in
      if 0 <? length history then
        let sel := S (selected_history e) in
        let sel := if length history <=? sel then length history - 1 else sel in
        match nth_error history sel with
        | Some s => Some (h', mkEntry (placeholder_text e) s sel (on_activate_set e))
        | None => None
        end
      else Some (h', e)
  | EntryKey_Down =>
      let h' := histories_update (fun v => v) (placeholder_text e) h in
      let history := history_of h' (placeholder_text e) in
      if 0 <? length history then
        let sel := if negb (selected_history e =? 0)
                   then selected_history e - 1 else selected_history e in
        match nth_error history sel with
        | Some s => Some (h', mkEntry (placeholder_text e) s sel (on_activate_set e))
        | None => None
        end
      else Some (h', e)
  | EntryKey_Other => Some (h, e)
  end.

(** The events of an entry box with several entries: the user edits the
    text of an entry (the toolkit's part), activates it, or presses a key in
    it.  The entries share [entry_histories]. *)
Inductive EntryEvent :=
| Entry_Edit (s : text)
| Entry_Activate
| Entry_Key (key : EntryKey).

Definition entry_step (ev : EntryEvent) (h : Histories) (e : Entry)
  : option (Histories * Entry) :=
  match ev with
  | Entry_Edit s =>
      Some (h, mkEntry (placeholder_text e) s (selected_history e) (on_activate_set e))
  | Entry_Activate => Some (fst (entry_activate h e))
  | Entry_Key key => entry_key_press key h e
  end.

(** A run of events, each addressed to the entry with the given index. *)
Fixpoint entry_box_run (evs : list (nat * EntryEvent)) (h : Histories) (es : list Entry)
  : option (Histories * list Entry) :=
  match evs with
  | [] => Some (h, es)
  | (i, ev) :: more =>
      match nth_error es i with
      | None => entry_box_run more h es
      | Some e =>
          match entry_step ev h e with
          | None => None
          | Some (h', e') =>
              entry_box_run more h' (firstn i es ++ e' :: skipn (S i) es)
          end
      end
  end.

(** A run of key presses in one entry. *)
Fixpoint entry_keys (keys : list EntryKey) (h : Histories) (e : Entry)
  : option (Histories * Entry) :=
  match keys with
  | [] => Some (h, e)
  | key :: more =>
      match entry_key_press key h e with
      | Some (h', e') => entry_keys more h' e'
      | None => None
      end
  end.

(** The index into the history that an entry holds is 0 or lies within the
    history of its placeholder text. *)
Definition entry_in_bounds (h : Histories) (e : Entry) : Prop :=
  selected_history e = 0 \/ selected_history e < length (history_of h (placeholder_text e)).

(** ** Smart Home and End *)

(** [buffer->move_mark_by_name("insert", iter)]: the cursor moves and the
    other end of the selection stays. *)
Definition move_insert_mark (b : Buffer) (iter : TextIter) : Buffer :=
  mkBuffer (btext b) iter (selection_bound b) (journal b).

(** The loop of the Home key: the iterator moves forward while it is not at
    the end of the line, is on a space or a tab, and [forward_char]
    succeeds. *)
Fixpoint start_sentence_loop (fuel : nat) (t : text) (iter : TextIter) : TextIter :=
  match fuel with
  | O => iter
  | S f =>
      if negb (ends_line t iter) && is_blank (deref t iter) then
        let (iter', moved) := forward_char t iter in
        if moved then start_sentence_loop f t iter' else iter'
      else iter
  end.

(** The branch of the Home key (without the control modifier) in
    [on_key_press_event_basic]; [shift] tells whether the shift modifier is
    held. *)
Definition basic_home (shift : bool) (b0 : Buffer) : Buffer :=
  let b := begin_user_action b0 in
  let t := btext b in
  let iter := insert_mark b in
  let start_line_iter := get_iter_at_line t (get_line t iter) in
  let start_sentence_iter := start_sentence_loop (length t) t start_line_iter in
  let target :=
    if (start_sentence_iter <? iter) || (iter =? start_line_iter)
    then start_sentence_iter else start_line_iter in
  end_user_action (if shift then move_insert_mark b target else place_cursor b target).

(** The branch of the End key.  Its loop moves the iterator back while it is
    not at a line start, is on a space, a tab or the line end, and
    [backward_char] succeeds, which it does wherever the iterator is not at a
    line start: it is the loop of the whitespace cleanup,
    [cleanup_backward]. *)
Definition basic_end (shift : bool) (b0 : Buffer) : Buffer :=
  let b := begin_user_action b0 in
  let t := btext b in
  let iter := insert_mark b in
  let end_line_iter := get_iter_at_line_end t (get_line t iter) in
  let end_sentence_iter := cleanup_backward t end_line_iter in
  let end_sentence_iter :=
    if negb (ends_line t end_sentence_iter) && negb (starts_line t end_sentence_iter)
    then fst (forward_char t end_sentence_iter) else end_sentence_iter in
  let target := if iter =? end_line_iter then end_sentence_iter else end_line_iter in
  end_user_action (if shift then move_insert_mark b target else place_cursor b target).

(** ** The Tab key *)

(** The two loops that look for the neighbours of an empty line: the
    iterator moves back, or forward, while it is at a line start and the
    move succeeds. *)
Fixpoint prev_line_loop (t : text) (iter : TextIter) : TextIter :=
  match iter with
  | O => O
  | S j => if starts_line t iter then prev_line_loop t j else iter
  end.

Fixpoint next_line_loop (fuel : nat) (t : text) (iter : TextIter) : TextIter :=
  match fuel with
  | O => iter
  | S f =>
      if starts_line t iter then
        let (iter', moved) := forward_char t iter in
        if moved then next_line_loop f t iter' else iter'
      else iter
  end.

(** The loop that inserts [tab] at the start of the lines of the selection.
    As in Shift-Tab, [selection_end] is an iterator obtained before the first
    insertion and compared by line and offset in the line, hence on the text
    [t0] it was obtained from; whether there is a selection is asked of the
    buffer in every round. *)
Fixpoint indent_loop (v : View) (t0 : text) (selection_end : TextIter) (n line : nat)
         (b : Buffer) : Buffer :=
  match n with
  | O => b
  | S n' =>
      let line_it := get_iter_at_line (btext b) line in
      indent_loop v t0 selection_end n' (S line)
        (if outdent_touches t0 (get_has_selection b) selection_end line
         then buffer_insert b line_it (tab v) else b)
  end.

(** The branch of the Tab key without the shift modifier in
    [on_key_press_event_basic]; [tab_indents_line] is the configuration
    option of that name. *)
Definition basic_tab (v : View) (tab_indents_line : bool) (b0 : Buffer) : Buffer :=
  let b := begin_user_action b0 in
  let t := btext b in
  let iter := insert_mark b in
  if negb tab_indents_line && negb (get_has_selection b) then
    end_user_action (insert_at_cursor b (tab v))
  else
    let neighbour_tabs :=
      if starts_line t iter && ends_line t iter && negb (get_has_selection b) then
        let prev_line_iter := prev_line_loop t iter in
        let previous_line_tabs :=
          get_line_before t (get_tabs_end_iter t (get_line t prev_line_iter)) in
        let next_line_iter := next_line_loop (length t) t iter in
        let next_line_tabs :=
          get_line_before t (get_tabs_end_iter t (get_line t next_line_iter)) in
        let tabs :=
          if length previous_line_tabs <? length next_line_tabs
          then previous_line_tabs else next_line_tabs in
        if tab_size v <=? length tabs then Some tabs else None
      else None in
    match neighbour_tabs with
    | Some tabs => end_user_action (insert_at_cursor b tabs)
    | None =>
        let (selection_start, selection_end) := get_selection_bounds b in
        let line_start := get_line t selection_start in
        let line_end := get_line t selection_end in
        end_user_action
          (indent_loop v t selection_end (S line_end - line_start) line_start b)
    end.

(** The lines with [tb] put in front of every touched line. *)
Fixpoint indent_lines (touched : nat -> bool) (tb : text) (i : nat) (seg : list text)
  : list text :=
  match seg with
  | [] => []
  | l :: r => (if touched i then tb ++ l else l) :: indent_lines touched tb (S i) r
  end.

(** The position to which the loop of the Tab key moves a mark that is at
    [m] when the loop starts: each insertion moves the marks at or behind
    its place. *)
Fixpoint indent_track (v : View) (t0 : text) (selection_end : TextIter) (n line : nat)
         (b : Buffer) (m : nat) : nat :=
  match n with
  | O => m
  | S n' =>
      let line_it := get_iter_at_line (btext b) line in
      if outdent_touches t0 (get_has_selection b) selection_end line
      then indent_track v t0 selection_end n' (S line) (buffer_insert b line_it (tab v))
             (mark_after_insert line_it (length (tab v)) m)
      else indent_track v t0 selection_end n' (S line) b m
  end.

(** ** Moving by paragraphs *)

(** The two flags of the loops of Ctrl+Down and Ctrl+Up after the three
    assignments of one round; [boundary] is the test of the first of them,
    [starts_line] going down and [ends_line] going up. *)
Definition paragraph_flags (t : text) (iter : TextIter) (boundary : bool)
           (empty_line text_found : bool) : bool * bool :=
  let empty_line := if boundary then true else empty_line in
  let empty_line :=
    if empty_line && negb (ends_line t iter) && negb (deref t iter =? SPACE)%char
       && negb (deref t iter =? TAB)%char
    then false else empty_line in
  let text_found :=
    if negb text_found && negb (ends_line t iter) && negb (deref t iter =? SPACE)%char
       && negb (deref t iter =? TAB)%char
    then true else text_found in
  (empty_line, text_found).

(** The loop of Ctrl+Down; it leaves at the end iterator, or at the end of a
    line when both flags are set. *)
Fixpoint paragraph_down_loop (fuel : nat) (t : text) (iter : TextIter)
         (empty_line text_found : bool) : TextIter :=
  match fuel with
  | O => iter
  | S f =>
      if is_end t iter then iter
      else
        let (empty_line', text_found') :=
          paragraph_flags t iter (starts_line t iter) empty_line text_found in
        if empty_line' && text_found' && ends_line t iter then iter
        else paragraph_down_loop f t (fst (forward_char t iter)) empty_line' text_found'
  end.

(** Ctrl+Down in [on_key_press_event]; [shift] tells whether the shift
    modifier is held.  Scrolling the view to the cursor is no change of the
    buffer. *)
Definition key_paragraph_down (shift : bool) (b0 : Buffer) : Buffer :=
  let b := begin_user_action b0 in
  let t := btext b in
  let selection_start_iter := selection_bound b in
  let iter := get_iter_at_line t (get_line t (insert_mark b)) in
  let iter := paragraph_down_loop (S (length t)) t iter false false in
  let iter := get_iter_at_line t (get_line t iter) in
  end_user_action
    (if shift then select_range b iter selection_start_iter else place_cursor b iter).

(** Whether a line holds a character other than a space or a tab. *)
Definition has_text (l : text) : bool := negb (forallb is_blank l).

(** How many lines Ctrl+Down goes down from the first line of [ls]:
    it stops on a line without text once a line with text has been passed
    ([found]), and on the last line. *)
Fixpoint paragraph_down_lines (found : bool) (ls : list text) : nat :=
  match ls with
  | [] => 0
  | l :: rest =>
      match rest with
      | [] => 0
      | _ =>
          if found && negb (has_text l) then 0
          else S (paragraph_down_lines (found || has_text l) rest)
      end
  end.

(** ** The Delete key *)

(** The first loop of the Delete key, a do-while over the blanks behind the
    cursor; the result is the iterator and [do_smart_delete]. *)
Fixpoint delete_scan (fuel : nat) (t : text) (iter : TextIter) : TextIter * bool :=
  match fuel with
  | O => (iter, true)
  | S f =>
      if negb (deref t iter =? SPACE)%char && negb (deref t iter =? TAB)%char
         && negb (ends_line t iter)
      then (iter, false)
      else if ends_line t iter then forward_char t iter
      else
        let (iter', moved) := forward_char t iter in
        if moved then delete_scan f t iter' else (iter', true)
  end.

(** The second loop: forward while the iterator is on a space or a tab and
    [forward_char] succeeds. *)
Fixpoint delete_skip_loop (fuel : nat) (t : text) (iter : TextIter) : TextIter :=
  match fuel with
  | O => iter
  | S f =>
      if is_blank (deref t iter) then
        let (iter', moved) := forward_char t iter in
        if moved then delete_skip_loop f t iter' else iter'
      else iter
  end.

(** Delete with no selection: the edit made before the key is passed on to
    the toolkit's handler, which removes the character at the cursor. *)
Definition basic_delete (b : Buffer) : Buffer :=
  let t := btext b in
  let insert_iter := insert_mark b in
  let (iter, do_smart_delete) := delete_scan (S (length t)) t insert_iter in
  if do_smart_delete then
    let iter :=
      if negb (starts_line t insert_iter) then delete_skip_loop (length t) t iter
      else iter in
    let (iter, moved) := backward_char iter in
    if moved then buffer_erase b insert_iter iter else b
  else b.

(** ** Formatting the buffer with an external formatter *)

(** The two statements that put a newline at the end of a buffer whose last
    line is not empty. *)
Definition append_final_newline (b : Buffer) : Buffer :=
  let t := btext b in
  let iter := get_iter_at_line t (get_line_count t - 1) in
  if iter =? length t then b else buffer_insert b (length t) [NL].

(** The loop of [auto_indent] over the characters of the formatter's output,
    from index [c] on; at every newline the next line of the buffer is
    replaced by the line of the output that ends there, or that line is
    added when the buffer has no more lines.  The result is the final
    [line_nr] and the buffer. *)
Fixpoint auto_indent_loop (new_text : text) (n c start_line_index line_nr : nat)
         (b : Buffer) : nat * Buffer :=
  match n with
  | O => (line_nr, b)
  | S n' =>
      if (nth c new_text zero =? NL)%char then
        let b1 :=
          if line_nr <? get_line_count (btext b)
          then buffer_erase b (get_iter_at_line (btext b) line_nr)
                            (get_iter_at_line_end (btext b) line_nr)
          else buffer_insert b (length (btext b)) [NL] in
        let iter := get_iter_at_line (btext b1) line_nr in
        let b2 := buffer_insert b1 iter (substr new_text start_line_index
                                                (c - start_line_index)) in
        auto_indent_loop new_text n' (S c) (S c) (S line_nr) b2
      else auto_indent_loop new_text n' (S c) start_line_index line_nr b
  end.

(** The [auto_indent] function of a view of a bracket language.  The
    formatter is an external process: [process] maps the text written to it
    to its exit status and its output (the command line built from the tab
    style and the style file only reaches that process). *)
Definition auto_indent (process : text -> Z * text) (b0 : Buffer) : option Buffer :=
  let b1 := append_final_newline b0 in
  let (exit_status, new_text) := process (btext b1) in
  if (exit_status =? 0)%Z then
    let b2 := begin_user_action b1 in
    let iter := insert_mark b2 in
    let cursor_line_nr := get_line (btext b2) iter in
    let cursor_line_offset := get_line_offset (btext b2) iter in
    let (line_nr, b3) := auto_indent_loop new_text (length new_text) 0 0 0 b2 in
    let b4 := append_final_newline b3 in
    let b5 :=
      if line_nr <? get_line_count (btext b4) - 1
      then buffer_erase b4 (get_iter_at_line (btext b4) line_nr) (length (btext b4))
      else b4 in
    place_cursor_at_line_offset (end_user_action b5)
      (Z.of_nat cursor_line_nr) (Z.of_nat cursor_line_offset)
  else Some b1.

(** ** Pasting, line by line *)

(** The lines of the pasted text that the loops of [paste] close: a line
    ends at a newline or at the last character of the text, so an empty
    line behind a final newline is none of them. *)
Definition pasted_lines (txt : text) : list text :=
  let L := lines txt in
  if is_empty_line (last L []) then removelast L else L.

Definition leading_tabs (tab_char : ascii) (l : text) : nat := fst (count_tabs tab_char l).

Definition only_tabs (tab_char : ascii) (l : text) : bool := snd (count_tabs tab_char l).

(** The least number of leading tab characters among the lines that hold
    another character, starting from [acc]. *)
Fixpoint common_tabs (tab_char : ascii) (acc : option nat) (ls : list text) : option nat :=
  match ls with
  | [] => acc
  | l :: r =>
      common_tabs tab_char
        (if only_tabs tab_char l then acc
         else Some (match acc with
                    | None => leading_tabs tab_char l
                    | Some m => Nat.min m (leading_tabs tab_char l)
                    end))
        r
  end.

(** The indentation taken off the pasted lines: the first line counts when
    it starts with a tab character, a later line when it holds a character
    other than the tab character. *)
Definition paste_common_tabs (tab_char : ascii) (pl : list text) : nat :=
  match pl with
  | [] => 0
  | p :: rest =>
      match common_tabs tab_char
              (if leading_tabs tab_char p =? 0 then None
               else Some (leading_tabs tab_char p)) rest with
      | None => 0
      | Some m => m
      end
  end.

(** The text that [paste] inserts on a line that holds the blanks [prefix]
    only: every pasted line without the common indentation, or without its
    own when that is shorter, and every line but the first one behind a
    newline and [prefix]. *)
Definition paste_text (tab_char : ascii) (prefix : text) (pl : list text) : text :=
  let k := paste_common_tabs tab_char pl in
  let strip := fun l => skipn (Nat.min (leading_tabs tab_char l) k) l in
  match pl with
  | [] => []
  | p :: rest => strip p ++ flat_map (fun l => NL :: prefix ++ strip l) rest
  end.

(** A loop over the indices [c], [c + 1], ... of a text, the shape of the two
    loops of [paste]. *)
Fixpoint index_loop {St : Type} (body : nat -> St -> St) (n c : nat) (st : St) : St :=
  match n with
  | O => st
  | S n' => index_loop body n' (S c) (body c st)
  end.

(** What remains of the pasted text in front of the lines [pl]: every line
    with its newline, or the last line, which is not empty, without one. *)
Definition paste_rest (r : text) (pl : list text) : Prop :=
  r = terminated pl \/ (r = unlines pl /\ last pl [] <> []).

(** The first loop of [paste] line by line; [start] is the index of the
    first character of the first of the lines [pl]. *)
Definition paste_scan_line (tab_char : ascii) (end_line : nat) (line : text)
           (st : PasteScan) : PasteScan :=
  let (tabs, empty_line) := count_tabs tab_char line in
  if ps_first_paste_line st then
    if negb (tabs =? 0)
    then mkPasteScan (end_line + 1) false (N.of_nat tabs) true
    else mkPasteScan (end_line + 1) false (ps_paste_line_tabs st)
                     (ps_first_paste_line_has_tabs st)
  else if negb empty_line then
    mkPasteScan (end_line + 1) false (N.min (ps_paste_line_tabs st) (N.of_nat tabs))
                (ps_first_paste_line_has_tabs st)
  else
    mkPasteScan (end_line + 1) false (ps_paste_line_tabs st)
                (ps_first_paste_line_has_tabs st).

(** A loop that acts once per line, at the index [start + length p] where
    the line [p] ends. *)
Fixpoint lines_fold {St : Type} (line_step : nat -> text -> St -> St) (start : nat)
         (pl : list text) (st : St) : St :=
  match pl with
  | [] => st
  | p :: rest =>
      lines_fold line_step (start + length p + 1) rest (line_step (start + length p) p st)
  end.

(** The second loop of [paste] line by line. *)
Definition paste_insert_line (tab_char : ascii) (prefix_tabs : text)
           (paste_line_tabs : nat) (first_paste_line_has_tabs : bool)
           (end_line : nat) (line : text) (st : PasteInsert) : PasteInsert :=
  let line_tabs := leading_tabs tab_char line in
  let tabs :=
    if negb (pi_first_paste_line st && negb first_paste_line_has_tabs)
       && (line_tabs <? paste_line_tabs)
    then line_tabs else paste_line_tabs in
  let b := pi_buffer st in
  let b' :=
    if pi_first_paste_line st then
      if first_paste_line_has_tabs
      then insert_at_cursor b (skipn tabs line)
      else insert_at_cursor b line
    else insert_at_cursor b (NL :: prefix_tabs ++ skipn tabs line) in
  mkPasteInsert (end_line + 1) false b'.

(** ** The line of an iterator *)

(** [Source::View::get_line(iter)], the text of the line of [iter]; the
    name [get_line] is taken by the line number of an iterator. *)
Definition View_get_line (t : text) (iter : TextIter) : text :=
  get_text t (get_iter_at_line t (get_line t iter)) (get_iter_at_line_end t (get_line t iter)).

(** The loop of Ctrl+Up; it leaves at the start of the buffer, at the end
    iterator, or at the start of a line when both flags are set.  The
    result is the iterator and [empty_line]. *)
Fixpoint paragraph_up_loop (t : text) (iter : TextIter) (empty_line text_found : bool)
  : TextIter * bool :=
  match iter with
  | O => (iter, empty_line)
  | S j =>
      if is_end t iter then (iter, empty_line)
      else
        let (empty_line', text_found') :=
          paragraph_flags t iter (ends_line t iter) empty_line text_found in
        if empty_line' && text_found' && starts_line t iter then (iter, empty_line')
        else paragraph_up_loop t j empty_line' text_found'
  end.

(** Ctrl+Up in [on_key_press_event]. *)
Definition key_paragraph_up (shift : bool) (b0 : Buffer) : Buffer :=
  let b := begin_user_action b0 in
  let t := btext b in
  let selection_start_iter := selection_bound b in
  let iter := get_iter_at_line t (get_line t (insert_mark b)) in
  let iter := fst (backward_char iter) in
  let (iter, empty_line) := paragraph_up_loop t iter false false in
  let iter :=
    if empty_line
    then fst (forward_char t (get_iter_at_line_end t (get_line t iter)))
    else iter in
  end_user_action
    (if shift then select_range b iter selection_start_iter else place_cursor b iter).

(** How many lines Ctrl+Up goes up; [above] are the lines over the line of
    the cursor, the nearest first.  It stops under a line without text once
    a line with text has been passed ([found]).  The first character of
    the buffer is not looked at: on reaching the first line the cursor
    stays under it when the rest of that line holds no text, or, when that
    line is empty, when the line under it holds none ([below_empty]). *)
Fixpoint paragraph_up_lines (found below_empty : bool) (above : list text) : nat :=
  match above with
  | [] => 0
  | l :: rest =>
      match rest with
      | [] =>
          let empty_line :=
            match l with
            | [] => below_empty
            | _ :: tl => negb (has_text tl)
            end in
          if empty_line then 0 else 1
      | _ =>
          if found && negb (has_text l) then 0
          else S (paragraph_up_lines (found || has_text l) (negb (has_text l)) rest)
      end
  end.

(** Where Ctrl+Up puts the cursor after its loop. *)
Definition paragraph_up_target (t : text) (r : TextIter * bool) : TextIter :=
  if snd r then fst (forward_char t (get_iter_at_line_end t (get_line t (fst r))))
  else fst r.

(** * Properties *)

(** [nat_test e v] replaces the comparison [e] of two natural numbers, or
    its negation, by its value [v], which [lia] has to justify. *)
Ltac nat_test_side :=
  symmetry;
  first [ apply Nat.ltb_lt | apply Nat.ltb_ge | apply Nat.leb_le | apply Nat.leb_gt
        | apply Nat.eqb_eq | apply Nat.eqb_neq
        | apply negb_true_iff, Nat.eqb_neq | apply negb_false_iff, Nat.eqb_eq ];
  rewrite ?length_app; cbn [length]; lia.

Ltac nat_test e v := replace e with v by nat_test_side.

(** ** Iterators in a text split at their position *)

Section SplitText.

Variables a r : text.

Lemma deref_app : deref (a ++ r) (length a) = hd zero r.
Proof.
  unfold deref. rewrite app_nth2 by lia. rewrite Nat.sub_diag. destruct r; reflexivity.
Qed.

Lemma deref_app_plus (k : nat) : deref (a ++ r) (length a + k) = nth k r zero.
Proof.
  unfold deref. rewrite app_nth2 by lia. f_equal. lia.
Qed.

Lemma deref_app_lt (k : nat) : k < length a -> deref (a ++ r) k = nth k a zero.
Proof. intros H. unfold deref. apply app_nth1. exact H. Qed.

Lemma is_end_app :
  is_end (a ++ r) (length a) = match r with [] => true | _ => false end.
Proof.
  unfold is_end. rewrite length_app. destruct r; simpl.
  - apply Nat.leb_le. lia.
  - apply Nat.leb_gt. lia.
Qed.

Lemma ends_line_app :
  ends_line (a ++ r) (length a) = match r with [] => true | c :: _ => (c =? NL)%char end.
Proof.
  unfold ends_line. rewrite is_end_app, deref_app. destruct r; reflexivity.
Qed.

Lemma forward_char_app (c : ascii) :
  forward_char (a ++ c :: r) (length a)
  = (S (length a), match r with [] => false | _ => true end).
Proof.
  unfold forward_char. rewrite length_app. simpl.
  nat_test (length a <? length a + S (length r)) true.
  f_equal. destruct r; simpl.
  - apply Nat.ltb_ge. lia.
  - apply Nat.ltb_lt. lia.
Qed.

Lemma fst_forward_char_app (c : ascii) :
  fst (forward_char (a ++ c :: r) (length a)) = S (length a).
Proof. rewrite forward_char_app. reflexivity. Qed.

Lemma app_snoc_cons (c : ascii) : a ++ c :: r = (a ++ [c]) ++ r.
Proof. rewrite <- app_assoc. reflexivity. Qed.

Lemma firstn_length_app : firstn (length a) (a ++ r) = a.
Proof. rewrite firstn_app, firstn_all, Nat.sub_diag. simpl. apply app_nil_r. Qed.

Lemma skipn_length_app : skipn (length a) (a ++ r) = r.
Proof. rewrite skipn_app, skipn_all, Nat.sub_diag. reflexivity. Qed.

Lemma firstn_plus_app (k : nat) : firstn (length a + k) (a ++ r) = a ++ firstn k r.
Proof.
  rewrite firstn_app, firstn_all2 by lia.
  replace (length a + k - length a) with k by lia. reflexivity.
Qed.

Lemma skipn_plus_app (k : nat) : skipn (length a + k) (a ++ r) = skipn k r.
Proof.
  rewrite skipn_app, skipn_all2 by lia.
  replace (length a + k - length a) with k by lia. reflexivity.
Qed.

End SplitText.

Lemma length_snoc (a : text) (c : ascii) : length (a ++ [c]) = S (length a).
Proof. rewrite length_app. simpl. lia. Qed.

Lemma deref_snoc (a r : text) (c : ascii) : deref ((a ++ [c]) ++ r) (length a) = c.
Proof. rewrite <- app_assoc. rewrite deref_app. reflexivity. Qed.

Lemma starts_line_snoc (a r : text) (c : ascii) :
  starts_line ((a ++ [c]) ++ r) (S (length a)) = (c =? NL)%char.
Proof. simpl. rewrite deref_snoc. reflexivity. Qed.

Lemma forward_char_at_end (t : text) (iter : TextIter) :
  length t <= iter -> forward_char t iter = (iter, false).
Proof.
  intros H. unfold forward_char.
  nat_test (iter <? length t) false.
  reflexivity.
Qed.

(** ** Line starts and line numbers *)

Lemma at_line_start_starts_line (pre r : text) :
  at_line_start pre -> starts_line (pre ++ r) (length pre) = true.
Proof.
  intros [->|[p ->]]; [reflexivity|].
  rewrite length_snoc, starts_line_snoc. reflexivity.
Qed.

Lemma at_line_start_nil : at_line_start [].
Proof. left. reflexivity. Qed.

Lemma at_line_start_snoc_nl (a : text) : at_line_start (a ++ [NL]).
Proof. right. exists a. reflexivity. Qed.

Lemma line_closed_nil : line_closed [].
Proof. left. reflexivity. Qed.

Lemma line_closed_nl (q : text) : line_closed (NL :: q).
Proof. right. exists q. reflexivity. Qed.

Lemma count_nl_free (l : text) : nl_free l -> count_occ ascii_dec l NL = 0.
Proof. intros H. apply count_occ_not_In. exact H. Qed.

Lemma nl_free_cons (c : ascii) (l : text) : nl_free (c :: l) <-> c <> NL /\ nl_free l.
Proof.
  unfold nl_free. simpl. split.
  - intros H. split; [intros ->; apply H; auto | intros H'; apply H; auto].
  - intros [H1 H2] [H|H]; [apply H1; auto | apply H2; auto].
Qed.

Lemma nl_free_app (a b : text) : nl_free (a ++ b) <-> nl_free a /\ nl_free b.
Proof.
  unfold nl_free. rewrite in_app_iff. tauto.
Qed.

Lemma nl_free_nil : nl_free [].
Proof. intros []. Qed.

(** The side conditions on the pieces of a text split at a line. *)
Create HintDb lines discriminated.

#[local] Hint Resolve at_line_start_nil at_line_start_snoc_nl line_closed_nil line_closed_nl
  nl_free_nil : lines.

Lemma eqb_NL_false (c : ascii) : c <> NL -> (c =? NL)%char = false.
Proof. intros H. apply Ascii.eqb_neq. exact H. Qed.

Lemma get_iter_at_line_0 (t : text) : get_iter_at_line t 0 = 0.
Proof. destruct t; reflexivity. Qed.

Lemma get_iter_at_line_snoc_nl (p r : text) :
  get_iter_at_line ((p ++ [NL]) ++ r) (count_occ ascii_dec (p ++ [NL]) NL) = S (length p).
Proof.
  induction p as [|c p IH]; simpl.
  - rewrite get_iter_at_line_0. reflexivity.
  - destruct (ascii_dec c NL) as [->|Hc].
    + simpl. f_equal. exact IH.
    + rewrite (eqb_NL_false c Hc).
      destruct (count_occ ascii_dec (p ++ [NL]) NL) eqn:E.
      * exfalso. rewrite count_occ_app in E. simpl in E. lia.
      * f_equal. exact IH.
Qed.

Lemma get_iter_at_line_at_line_start (pre r : text) :
  at_line_start pre ->
  get_iter_at_line (pre ++ r) (count_occ ascii_dec pre NL) = length pre.
Proof.
  intros [->|[p ->]]; [apply get_iter_at_line_0|].
  rewrite get_iter_at_line_snoc_nl, length_snoc. reflexivity.
Qed.

(** The position [length l1] characters into a line that starts behind
    [pre]. *)
Section PositionInLine.

Variables pre l1 r : text.
Hypothesis pre_line_start : at_line_start pre.
Hypothesis l1_nl_free : nl_free l1.

Lemma get_line_in_line :
  get_line (pre ++ l1 ++ r) (length pre + length l1) = count_occ ascii_dec pre NL.
Proof.
  unfold get_line.
  rewrite app_assoc, <- length_app, firstn_length_app.
  rewrite count_occ_app, (count_nl_free l1 l1_nl_free). lia.
Qed.

Lemma get_line_before_in_line :
  get_line_before (pre ++ l1 ++ r) (length pre + length l1) = l1.
Proof.
  unfold get_line_before.
  rewrite get_line_in_line.
  rewrite get_iter_at_line_at_line_start by exact pre_line_start.
  unfold get_text. rewrite skipn_length_app.
  replace (length pre + length l1 - length pre) with (length l1) by lia.
  apply firstn_length_app.
Qed.

Lemma get_line_offset_in_line :
  get_line_offset (pre ++ l1 ++ r) (length pre + length l1) = length l1.
Proof.
  unfold get_line_offset.
  rewrite get_line_in_line.
  rewrite get_iter_at_line_at_line_start by exact pre_line_start. lia.
Qed.

End PositionInLine.

Lemma forward_to_line_end_in_line (a l post : text) (fuel : nat) :
  nl_free l -> line_closed post -> length l <= fuel ->
  forward_to_line_end fuel (a ++ l ++ post) (length a) = length a + length l.
Proof.
  revert a fuel. induction l as [|c l IH]; intros a fuel Hl Hpost Hfuel.
  - simpl. destruct fuel; simpl; [lia|].
    rewrite ends_line_app. destruct Hpost as [->|[q ->]]; simpl; lia.
  - apply nl_free_cons in Hl as [Hc Hl].
    destruct fuel; [simpl in Hfuel; lia|]. simpl.
    rewrite ends_line_app. rewrite (eqb_NL_false c Hc).
    rewrite app_snoc_cons, <- length_snoc with (c := c).
    rewrite IH; auto; [rewrite length_snoc; lia | simpl in Hfuel; lia].
Qed.

Lemma get_iter_at_line_end_in_line (pre l post : text) :
  at_line_start pre -> nl_free l -> line_closed post ->
  get_iter_at_line_end (pre ++ l ++ post) (count_occ ascii_dec pre NL)
  = length pre + length l.
Proof.
  intros Hpre Hl Hpost. unfold get_iter_at_line_end.
  rewrite get_iter_at_line_at_line_start by exact Hpre.
  apply forward_to_line_end_in_line; auto.
  rewrite !length_app. lia.
Qed.

(** ** Lines and their concatenation *)

Lemma lines_nonempty (t : text) : lines t <> [].
Proof.
  destruct t as [|c t]; simpl; [discriminate|].
  destruct (c =? NL)%char; [discriminate|].
  destruct (lines t); discriminate.
Qed.

Lemma unlines_cons (l : text) (ls : list text) :
  ls <> [] -> unlines (l :: ls) = l ++ NL :: unlines ls.
Proof. destruct ls; [congruence | reflexivity]. Qed.

Lemma unlines_line_rest (l : text) (ls : list text) :
  unlines (l :: ls) = l ++ line_rest ls.
Proof. destruct ls; simpl; [rewrite app_nil_r|]; reflexivity. Qed.

Lemma line_rest_closed (ls : list text) : line_closed (line_rest ls).
Proof. destruct ls; simpl; auto with lines. Qed.

Lemma unlines_lines (t : text) : unlines (lines t) = t.
Proof.
  induction t as [|c t IH]; [reflexivity|].
  simpl. destruct (ascii_dec c NL) as [->|Hc].
  - simpl. pose proof (lines_nonempty t) as Hne.
    destruct (lines t) eqn:E; [congruence|]. rewrite <- IH. reflexivity.
  - rewrite (eqb_NL_false c Hc).
    pose proof (lines_nonempty t) as Hne.
    destruct (lines t) as [|l ls] eqn:E; [congruence|].
    rewrite <- IH. destruct ls; reflexivity.
Qed.

Lemma lines_nl_free (t : text) : Forall nl_free (lines t).
Proof.
  induction t as [|c t IH]; simpl.
  - auto with lines.
  - destruct (ascii_dec c NL) as [->|Hc].
    + simpl. auto with lines.
    + rewrite (eqb_NL_false c Hc).
      destruct (lines t) as [|l ls]; [constructor; [|constructor]|].
      * apply nl_free_cons. split; [exact Hc | apply nl_free_nil].
      * inversion IH; subst. constructor; [|assumption].
        apply nl_free_cons. split; assumption.
Qed.

Lemma lines_nl_free_line (l : text) : nl_free l -> lines l = [l].
Proof.
  induction l as [|c l IH]; intros H; [reflexivity|].
  apply nl_free_cons in H as [Hc Hl]. simpl.
  rewrite (eqb_NL_false c Hc), (IH Hl). reflexivity.
Qed.

Lemma lines_app_nl (l r : text) : nl_free l -> lines (l ++ NL :: r) = l :: lines r.
Proof.
  induction l as [|c l IH]; intros H; [reflexivity|].
  apply nl_free_cons in H as [Hc Hl]. simpl.
  rewrite (eqb_NL_false c Hc), (IH Hl). reflexivity.
Qed.

Lemma lines_unlines (ls : list text) :
  ls <> [] -> Forall nl_free ls -> lines (unlines ls) = ls.
Proof.
  induction ls as [|l ls IH]; intros Hne H; [congruence|].
  inversion H as [|? ? Hl Hls]; subst.
  destruct ls as [|l' ls'].
  - simpl. apply lines_nl_free_line. exact Hl.
  - rewrite unlines_cons by discriminate.
    rewrite lines_app_nl by exact Hl. f_equal. apply IH; [discriminate | exact Hls].
Qed.

Lemma unlines_app (ls1 ls2 : list text) :
  ls2 <> [] -> unlines (ls1 ++ ls2) = terminated ls1 ++ unlines ls2.
Proof.
  intros Hne. induction ls1 as [|l ls1 IH]; [reflexivity|].
  simpl app at 1. rewrite unlines_cons by (destruct ls1; simpl; [exact Hne | discriminate]).
  rewrite IH. simpl. rewrite <- !app_assoc. reflexivity.
Qed.

Lemma terminated_app (ls1 ls2 : list text) :
  terminated (ls1 ++ ls2) = terminated ls1 ++ terminated ls2.
Proof. unfold terminated. apply flat_map_app. Qed.

Lemma terminated_snoc (ls : list text) (l : text) :
  terminated (ls ++ [l]) = terminated ls ++ l ++ [NL].
Proof. rewrite terminated_app. simpl. rewrite app_nil_r. reflexivity. Qed.

Lemma at_line_start_terminated (ls : list text) : at_line_start (terminated ls).
Proof.
  destruct ls as [|l ls] using rev_ind; [left; reflexivity|].
  right. rewrite terminated_snoc. exists (terminated ls ++ l).
  rewrite <- app_assoc. reflexivity.
Qed.

Lemma count_terminated (ls : list text) :
  Forall nl_free ls -> count_occ ascii_dec (terminated ls) NL = length ls.
Proof.
  induction 1 as [|l ls Hl Hls IH]; [reflexivity|].
  simpl. rewrite !count_occ_app, (count_nl_free l Hl), IH. simpl. reflexivity.
Qed.

Lemma get_line_count_unlines (ls : list text) :
  ls <> [] -> Forall nl_free ls -> get_line_count (unlines ls) = length ls.
Proof.
  induction ls as [|l ls IH]; intros Hne H; [congruence|].
  inversion H as [|? ? Hl Hls]; subst. unfold get_line_count in *.
  destruct ls as [|l' ls'].
  - simpl. rewrite (count_nl_free l Hl). reflexivity.
  - rewrite unlines_cons by discriminate.
    rewrite count_occ_app, (count_nl_free l Hl). simpl count_occ at 1.
    destruct (ascii_dec NL NL); [|congruence].
    simpl. f_equal. apply IH; [discriminate | exact Hls].
Qed.

(** The text around the line with index [length ls1]. *)
Lemma unlines_split (ls1 ls2 : list text) (l : text) :
  unlines (ls1 ++ l :: ls2) = terminated ls1 ++ l ++ line_rest ls2.
Proof. rewrite unlines_app by discriminate. rewrite unlines_line_rest. reflexivity. Qed.

Lemma update_line_app (ls1 ls2 : list text) (l : text) (f : text -> text) :
  update_line (length ls1) f (ls1 ++ l :: ls2) = ls1 ++ f l :: ls2.
Proof. induction ls1 as [|x ls1 IH]; simpl; [|rewrite IH]; reflexivity. Qed.

(** ** The indentation of a line *)

Lemma is_blank_not_NL (c : ascii) : is_blank c = true -> c <> NL.
Proof. intros H ->. discriminate H. Qed.

Lemma all_blank_nl_free (ws : text) : forallb is_blank ws = true -> nl_free ws.
Proof.
  induction ws as [|c ws IH]; intros H; [apply nl_free_nil|].
  simpl in H. apply andb_true_iff in H as [Hc Hws].
  apply nl_free_cons. split; [apply is_blank_not_NL; exact Hc | apply IH; exact Hws].
Qed.

Lemma leading_blanks_le (l : text) : leading_blanks l <= length l.
Proof. induction l as [|c l IH]; simpl; [lia|]. destruct (is_blank c); simpl; lia. Qed.

Lemma leading_blanks_all_blank (l : text) :
  forallb is_blank (firstn (leading_blanks l) l) = true.
Proof.
  induction l as [|c l IH]; [reflexivity|]. simpl.
  destruct (is_blank c) eqn:E; [|reflexivity]. simpl. rewrite E, IH. reflexivity.
Qed.

Lemma tabs_end_loop_in_line (a l post : text) (fuel : nat) :
  line_closed post -> leading_blanks l <= fuel ->
  tabs_end_loop fuel (a ++ l ++ post) (length a) = length a + leading_blanks l.
Proof.
  revert a fuel. induction l as [|c l IH]; intros a fuel Hpost Hfuel.
  - simpl. destruct fuel; simpl; [lia|].
    rewrite ends_line_app.
    destruct Hpost as [->|[q ->]]; simpl; rewrite andb_false_r; lia.
  - simpl in Hfuel. simpl leading_blanks. destruct (is_blank c) eqn:Hc.
    + destruct fuel; [lia|]. simpl.
      rewrite deref_app, ends_line_app. simpl. rewrite Hc.
      rewrite (eqb_NL_false c (is_blank_not_NL c Hc)). simpl.
      rewrite forward_char_app.
      destruct (match l ++ post with [] => false | _ => true end) eqn:M.
      * rewrite app_snoc_cons, <- length_snoc with (c := c).
        rewrite IH; [rewrite length_snoc; lia | exact Hpost | lia].
      * destruct l; [simpl; lia | discriminate].
    + destruct fuel; simpl; [lia|].
      rewrite deref_app. simpl. rewrite Hc. simpl. lia.
Qed.

(** Every position of a text lies in a line. *)
Lemma first_line_split (t : text) :
  exists l post, t = l ++ post /\ nl_free l /\ line_closed post.
Proof.
  induction t as [|c t (l & post & Ht & Hl & Hpost)].
  - exists [], []. auto with lines.
  - destruct (ascii_dec c NL) as [->|Hc].
    + exists [], (NL :: t). auto with lines.
    + exists (c :: l), post. subst t. repeat split; [|exact Hpost].
      apply nl_free_cons. split; assumption.
Qed.

Lemma position_in_line (t : text) (i : nat) :
  i <= length t ->
  exists pre l1 l2 post,
    t = pre ++ (l1 ++ l2) ++ post /\ at_line_start pre /\ nl_free (l1 ++ l2)
    /\ line_closed post /\ i = length pre + length l1.
Proof.
  revert i. induction t as [|c t IH]; intros i Hi.
  - exists [], [], [], []. simpl in Hi.
    repeat split; auto with lines. simpl; lia.
  - destruct i as [|i].
    + destruct (first_line_split (c :: t)) as (l & post & Ht & Hl & Hpost).
      exists [], [], l, post. repeat split; auto with lines.
    + simpl in Hi. destruct (IH i ltac:(lia)) as (pre & l1 & l2 & post & Ht & Hpre & Hl & Hpost & Hpos).
      destruct Hpre as [->|[p ->]].
      * destruct (ascii_dec c NL) as [->|Hc].
        -- exists [NL], l1, l2, post. subst t. simpl in *.
           repeat split; auto. apply (at_line_start_snoc_nl []).
        -- exists [], (c :: l1), l2, post. subst t. simpl in *.
           repeat split; auto with lines. apply nl_free_cons; split; assumption.
      * exists (c :: p ++ [NL]), l1, l2, post. subst t. simpl in *.
        repeat split; auto. right. exists (c :: p). reflexivity.
Qed.

Lemma get_tabs_end_iter_in_line (pre l post : text) :
  at_line_start pre -> line_closed post ->
  get_tabs_end_iter (pre ++ l ++ post) (count_occ ascii_dec pre NL)
  = length pre + leading_blanks l.
Proof.
  intros Hpre Hpost. unfold get_tabs_end_iter.
  rewrite get_iter_at_line_at_line_start by exact Hpre.
  apply tabs_end_loop_in_line; [exact Hpost|].
  pose proof (leading_blanks_le l). rewrite !length_app. lia.
Qed.

Lemma firstn_nl_free (l : text) (k : nat) : nl_free l -> nl_free (firstn k l).
Proof.
  intros H Hin. apply H. rewrite <- (firstn_skipn k l). apply in_or_app. left. exact Hin.
Qed.

#[local] Hint Resolve line_rest_closed at_line_start_terminated all_blank_nl_free
  firstn_nl_free : lines.

(** The indentation of the line of a position: the text between the line
    start and [get_tabs_end_iter] is the leading run of blanks of the line. *)
Lemma line_indentation_in_line (pre l1 l2 post : text) :
  at_line_start pre -> nl_free (l1 ++ l2) -> line_closed post ->
  let t := pre ++ (l1 ++ l2) ++ post in
  get_line_before t (get_tabs_end_iter t (get_line t (length pre + length l1)))
  = firstn (leading_blanks (l1 ++ l2)) (l1 ++ l2).
Proof.
  intros Hpre Hl Hpost t.
  assert (Hl1 : nl_free l1) by (apply nl_free_app in Hl; tauto).
  assert (E : get_line t (length pre + length l1) = count_occ ascii_dec pre NL).
  { unfold t. rewrite <- (app_assoc l1 l2 post). apply get_line_in_line. exact Hl1. }
  rewrite E. unfold t. rewrite get_tabs_end_iter_in_line by assumption.
  set (l := l1 ++ l2) in *.
  pose proof (leading_blanks_le l) as Hle.
  set (n := leading_blanks l) in *.
  assert (En : length (firstn n l) = n) by (apply firstn_length_le; exact Hle).
  assert (Et : pre ++ l ++ post = pre ++ firstn n l ++ (skipn n l ++ post)).
  { rewrite (app_assoc (firstn n l)), firstn_skipn. reflexivity. }
  rewrite Et.
  replace (length pre + n) with (length pre + length (firstn n l)) by lia.
  apply get_line_before_in_line; auto with lines.
Qed.

Lemma line_indentation_blank (t : text) (i : nat) :
  i <= length t ->
  forallb is_blank (get_line_before t (get_tabs_end_iter t (get_line t i))) = true.
Proof.
  intros Hi. destruct (position_in_line t i Hi) as (pre & l1 & l2 & post & -> & Hpre & Hl & Hpost & ->).
  rewrite line_indentation_in_line by assumption.
  apply leading_blanks_all_blank.
Qed.

(** ** Characters of a line in its text *)

Lemma nth_nl_free (l : text) (k : nat) : nl_free l -> k < length l -> nth k l zero <> NL.
Proof. intros Hl Hk E. apply Hl. rewrite <- E. apply nth_In. exact Hk. Qed.

Lemma forallb_nth (f : ascii -> bool) (w : text) (k : nat) :
  forallb f w = true -> k < length w -> f (nth k w zero) = true.
Proof.
  intros H Hk. rewrite forallb_forall in H. apply H. apply nth_In. exact Hk.
Qed.

(** The line [l] between the texts [pre] and [post]; [k] is an offset into
    the line. *)
Section LineInText.

Variables pre l post : text.
Hypothesis l_nl_free : nl_free l.
Hypothesis post_closed : line_closed post.

Lemma deref_in_line (k : nat) :
  k < length l -> deref (pre ++ l ++ post) (length pre + k) = nth k l zero.
Proof. intros H. rewrite deref_app_plus. apply app_nth1. exact H. Qed.

Lemma is_end_in_line (k : nat) :
  k < length l -> is_end (pre ++ l ++ post) (length pre + k) = false.
Proof. intros H. unfold is_end. apply Nat.leb_gt. rewrite !length_app. lia. Qed.

Lemma ends_line_in_line (k : nat) :
  k < length l -> ends_line (pre ++ l ++ post) (length pre + k) = false.
Proof.
  intros Hk. unfold ends_line. rewrite is_end_in_line by exact Hk.
  rewrite deref_in_line by exact Hk. apply eqb_NL_false, nth_nl_free; assumption.
Qed.

Lemma starts_line_in_line (k : nat) :
  k < length l -> starts_line (pre ++ l ++ post) (length pre + S k) = false.
Proof.
  intros Hk. rewrite Nat.add_succ_r. simpl.
  rewrite deref_in_line by exact Hk. apply eqb_NL_false, nth_nl_free; assumption.
Qed.

Lemma fst_forward_char_in_line (k : nat) :
  k < length l -> fst (forward_char (pre ++ l ++ post) (length pre + k)) = length pre + S k.
Proof.
  intros Hk. unfold forward_char.
  nat_test (length pre + k <? length (pre ++ l ++ post)) true.
  simpl. lia.
Qed.

Lemma ends_line_line_end :
  ends_line (pre ++ l ++ post) (length pre + length l) = true.
Proof.
  rewrite app_assoc, <- length_app, ends_line_app.
  destruct post_closed as [->|[q ->]]; reflexivity.
Qed.

Lemma is_blank_line_end :
  is_blank (deref (pre ++ l ++ post) (length pre + length l)) = false.
Proof.
  rewrite app_assoc, <- length_app, deref_app.
  destruct post_closed as [->|[q ->]]; reflexivity.
Qed.

End LineInText.

(** ** Edits of a buffer *)

Lemma buffer_erase_empty (b : Buffer) (x : TextIter) : buffer_erase b x x = b.
Proof.
  unfold buffer_erase. rewrite Nat.min_id, Nat.max_id, Nat.eqb_refl. reflexivity.
Qed.

Lemma btext_buffer_erase (b : Buffer) (x y : TextIter) :
  btext (buffer_erase b x y) = text_erase (btext b) x y.
Proof.
  unfold buffer_erase. destruct (Nat.min x y =? Nat.max x y) eqn:E.
  - apply Nat.eqb_eq in E. unfold text_erase. rewrite <- E. symmetry. apply firstn_skipn.
  - unfold text_erase. cbn [btext].
    rewrite Nat.min_l, Nat.max_r by lia. reflexivity.
Qed.

Lemma btext_buffer_insert (b : Buffer) (iter : TextIter) (s : text) :
  btext (buffer_insert b iter s) = text_insert (btext b) iter s.
Proof.
  unfold buffer_insert, text_insert. destruct s; [|reflexivity].
  simpl. symmetry. apply firstn_skipn.
Qed.

Lemma text_erase_in_line (a x r : text) :
  text_erase (a ++ x ++ r) (length a) (length a + length x) = a ++ r.
Proof.
  unfold text_erase. rewrite Nat.min_l, Nat.max_r by lia.
  rewrite firstn_length_app, app_assoc, <- length_app, skipn_length_app. reflexivity.
Qed.

Lemma text_insert_in_line (a s r : text) :
  text_insert (a ++ r) (length a) s = a ++ s ++ r.
Proof.
  unfold text_insert. rewrite firstn_length_app, skipn_length_app. reflexivity.
Qed.


(** ** Structural scanner *)

Lemma skip_tab_chars_spec (fuel : nat) (t : text) (tc : ascii) (ins iter : TextIter) :
  let found := skip_tab_chars fuel t tc ins iter in
  iter <= found /\ forall i, iter <= i < found -> deref t i = tc.
Proof.
  revert iter; induction fuel as [|f IH]; intros iter; simpl.
  - split; [lia | intros; lia].
  - destruct (negb (iter =? ins) && (deref t iter =? tc)%char) eqn:E.
    + apply andb_true_iff in E as [_ E]. apply Ascii.eqb_eq in E.
      unfold forward_char. destruct (iter <? length t) eqn:L.
      * destruct (S iter <? length t).
        -- destruct (IH (S iter)) as [H1 H2]. split; [lia|].
           intros i Hi. destruct (Nat.eq_dec i iter) as [->|]; [exact E|].
           apply H2; lia.
        -- split; [lia|]. intros i Hi. assert (i = iter) by lia. subst i; exact E.
      * split; [lia | intros; lia].
    + split; [lia | intros; lia].
Qed.

(** The fuel given to the two forward loops of the scanner is enough: once
    it covers the positions up to the end of the text, more fuel does not
    change the result. *)
Lemma skip_tab_chars_fuel (t : text) (tc : ascii) (ins : TextIter) :
  forall fuel fuel' iter,
    length t - iter <= fuel -> length t - iter <= fuel' ->
    skip_tab_chars fuel t tc ins iter = skip_tab_chars fuel' t tc ins iter.
Proof.
  induction fuel as [|f IH]; intros [|f'] iter H H'; simpl; try reflexivity.
  - destruct (negb (iter =? ins) && (deref t iter =? tc)%char); [|reflexivity].
    rewrite forward_char_at_end by lia. reflexivity.
  - destruct (negb (iter =? ins) && (deref t iter =? tc)%char); [|reflexivity].
    rewrite forward_char_at_end by lia. reflexivity.
  - destruct (negb (iter =? ins) && (deref t iter =? tc)%char); [|reflexivity].
    unfold forward_char. destruct (iter <? length t) eqn:L; [|reflexivity].
    apply Nat.ltb_lt in L.
    destruct (S iter <? length t); [apply IH; lia | reflexivity].
Qed.

Lemma frbf_loop_fuel (t : text) (hl : Highlighter) :
  forall fuel fuel' iter st,
    length t - iter <= fuel -> length t - iter <= fuel' ->
    frbf_loop fuel t hl iter st = frbf_loop fuel' t hl iter st.
Proof.
  induction fuel as [|f IH]; intros [|f'] iter st H H'; simpl; try reflexivity.
  - rewrite forward_char_at_end by lia. reflexivity.
  - rewrite forward_char_at_end by lia. reflexivity.
  - unfold forward_char. destruct (iter <? length t) eqn:L; [|reflexivity].
    apply Nat.ltb_lt in L.
    destruct (S iter <? length t); [|reflexivity].
    destruct (brace_step t hl "}" "{" (S iter) st); [reflexivity|].
    apply IH; lia.
Qed.

Lemma fsce_loop_spec (t : text) (hl : Highlighter) (tc : ascii) (ins : TextIter) :
  forall iter st,
    match fsce_loop t hl tc ins iter st with
    | Some found =>
        exists p, p <= iter
          /\ starts_line t p = true
          /\ closed (run_paren t hl p (iter - p) st) = true
          /\ (forall p', p < p' <= iter -> starts_line t p' = true ->
                         closed (run_paren t hl p' (iter - p') st) = false)
          /\ found = skip_tab_chars (length t) t tc ins p
    | None =>
        forall p, p <= iter -> starts_line t p = true ->
                  closed (run_paren t hl p (iter - p) st) = false
    end.
Proof.
  induction iter as [|j IH]; intros st.
  - simpl. destruct (closed (paren_step t hl 0 st)) eqn:C.
    + exists 0. simpl. repeat split; auto. intros; lia.
    + intros p Hp _. assert (p = 0) by lia. subst. exact C.
  - cbn [fsce_loop].
    destruct (starts_line t (S j) && closed (paren_step t hl (S j) st)) eqn:E.
    + apply andb_true_iff in E as [E1 E2].
      exists (S j). rewrite Nat.sub_diag. cbn [run_paren].
      repeat split; auto. intros; lia.
    + assert (Hshift : forall p, p <= j ->
                run_paren t hl p (S j - p) st
                = run_paren t hl p (j - p) (paren_step t hl (S j) st)).
      { intros p Hp. replace (S j - p) with (S (j - p)) by lia.
        cbn [run_paren]. replace (p + S (j - p)) with (S j) by lia. reflexivity. }
      specialize (IH (paren_step t hl (S j) st)).
      destruct (fsce_loop t hl tc ins j (paren_step t hl (S j) st)) as [found|].
      * destruct IH as (p & Hp & Hs & Hc & Hfirst & Hfound).
        exists p. repeat split; auto.
        -- rewrite Hshift by lia. exact Hc.
        -- intros p' Hp' Hs'. destruct (Nat.eq_dec p' (S j)) as [->|Hne].
           ++ rewrite Nat.sub_diag. cbn [run_paren].
              rewrite Hs' in E. simpl in E. exact E.
           ++ rewrite Hshift by lia. apply Hfirst; auto. lia.
      * intros p Hp Hs. destruct (Nat.eq_dec p (S j)) as [->|Hne].
        -- rewrite Nat.sub_diag. cbn [run_paren]. rewrite Hs in E. exact E.
        -- rewrite Hshift by lia. apply IH; auto. lia.
Qed.

(** The scan seen from its lower end: the last step is the one at [p]. *)
Lemma run_paren_bottom (t : text) (hl : Highlighter) (p : nat) :
  forall d st,
    run_paren t hl p (S d) st = paren_step t hl p (run_paren t hl (S p) d st).
Proof.
  induction d as [|d IH]; intros st.
  - cbn [run_paren]. replace (p + 1) with (S p) by lia. reflexivity.
  - change (run_paren t hl p (S (S d)) st)
      with (run_paren t hl p (S d) (paren_step t hl (p + S (S d)) st)).
    rewrite IH. cbn [run_paren].
    replace (S p + S d) with (p + S (S d)) by lia. reflexivity.
Qed.

Lemma balance_at_step (t : text) (hl : Highlighter) (pos p : TextIter) :
  p < pos -> balance_at t hl pos p = paren_step t hl p (balance_at t hl pos (S p)).
Proof.
  intros H. unfold balance_at. replace (pos - p) with (S (pos - S p)) by lia.
  apply run_paren_bottom.
Qed.

(** What one step does to the counters and to the flag. *)
Lemma paren_step_effect (t : text) (hl : Highlighter) (p : TextIter) (st : Balance) :
  let test c := plain_context hl p && negb (ignore st) && (deref t p =? c)%char in
  count1 (paren_step t hl p st)
  = (count1 st + Z.b2z (test ")"%char) - Z.b2z (test "("%char))%Z
  /\ count2 (paren_step t hl p st)
     = (count2 st + Z.b2z (test "]"%char) - Z.b2z (test "["%char))%Z
  /\ ignore (paren_step t hl p st) = xorb (ignore st) (toggling_quote t hl p).
Proof.
  destruct st as [c1 c2 ig]. unfold paren_step, toggling_quote.
  cbn [count1 count2 ignore].
  generalize (quote_toggles t p) (deref t p). intros q c.
  destruct (plain_context hl p); cbn [andb];
    [|destruct ig; cbn; repeat split; try reflexivity; lia].
  destruct (Ascii.eqb_spec c QUOTE) as [->|H0];
    [destruct q, ig; cbn; repeat split; try reflexivity; lia|].
  destruct (Ascii.eqb_spec c ")") as [->|H1];
    [destruct ig; cbn; repeat split; try reflexivity; lia|].
  destruct (Ascii.eqb_spec c "]") as [->|H2];
    [destruct ig; cbn; repeat split; try reflexivity; lia|].
  destruct (Ascii.eqb_spec c "(") as [->|H3];
    [destruct ig; cbn; repeat split; try reflexivity; lia|].
  destruct (Ascii.eqb_spec c "[") as [->|H4];
    [destruct ig; cbn; repeat split; try reflexivity; lia|].
  destruct ig; cbn; repeat split; try reflexivity; lia.
Qed.

Lemma counted_occurrences_step (t : text) (hl : Highlighter) (pos p : TextIter) (c : ascii) :
  p <= pos ->
  counted_occurrences t hl pos p c
  = (Z.b2z (plain_context hl p && negb (in_char_literal t hl pos p) && (deref t p =? c)%char)
     + (if (p <? pos)%nat then counted_occurrences t hl pos (S p) c else 0))%Z.
Proof.
  intros H. unfold counted_occurrences.
  replace (S pos - p) with (S (pos - p)) by lia. cbn [seq filter].
  assert (E : (if p <? pos
               then Z.of_nat (length (filter (fun i => plain_context hl i
                                                && negb (in_char_literal t hl pos i)
                                                && (deref t i =? c)%char)
                                             (seq (S p) (S pos - S p))))
               else 0%Z)
              = Z.of_nat (length (filter (fun i => plain_context hl i
                                                && negb (in_char_literal t hl pos i)
                                                && (deref t i =? c)%char)
                                         (seq (S p) (pos - p))))).
  { destruct (Nat.ltb_spec p pos) as [L|L].
    - reflexivity.
    - replace (pos - p) with 0 by lia. reflexivity. }
  rewrite E.
  destruct (plain_context hl p && negb (in_char_literal t hl pos p) && (deref t p =? c)%char);
    cbn [length Z.b2z]; lia.
Qed.

(** The counters of the scan are the counts of the specification: closing
    symbols minus opening symbols among the characters scanned so far that
    are in plain context and outside a char literal. *)
Lemma balance_at_counts (t : text) (hl : Highlighter) (pos : TextIter) :
  forall k p, p + k = pos ->
    count1 (balance_at t hl pos p) = round_balance t hl pos p
    /\ count2 (balance_at t hl pos p) = square_balance t hl pos p
    /\ ignore (balance_at t hl pos p)
       = Nat.odd (length (filter (toggling_quote t hl) (seq p (S pos - p)))).
Proof.
  assert (Hodd : forall p, p <= pos ->
             Nat.odd (length (filter (toggling_quote t hl) (seq p (S pos - p))))
             = xorb (in_char_literal t hl pos p) (toggling_quote t hl p)).
  { intros p Hp. unfold in_char_literal.
    replace (S pos - p) with (S (pos - p)) by lia. cbn [seq filter].
    destruct (toggling_quote t hl p); cbn [length].
    - rewrite Nat.odd_succ, <- Nat.negb_odd.
      destruct (Nat.odd _); reflexivity.
    - destruct (Nat.odd _); reflexivity. }
  induction k as [|k IH]; intros p Hk.
  - assert (p = pos) by lia. subst p.
    unfold balance_at. rewrite Nat.sub_diag. cbn [run_paren].
    destruct (paren_step_effect t hl pos balance0) as (H1 & H2 & H3).
    cbv zeta in H1, H2. cbn [balance0 count1 count2 ignore negb] in H1, H2, H3.
    assert (Hlit : in_char_literal t hl pos pos = false).
    { unfold in_char_literal. rewrite Nat.sub_diag. reflexivity. }
    unfold round_balance, square_balance.
    rewrite (counted_occurrences_step t hl pos pos ")"),
      (counted_occurrences_step t hl pos pos "("),
      (counted_occurrences_step t hl pos pos "]"),
      (counted_occurrences_step t hl pos pos "[") by lia.
    rewrite Nat.ltb_irrefl, Hlit.
    cbn [negb]. rewrite H1, H2, H3, Hodd, Hlit by lia.
    repeat split; lia.
  - assert (Hlt : p < pos) by lia.
    destruct (IH (S p) ltac:(lia)) as (I1 & I2 & I3).
    assert (Hig : ignore (balance_at t hl pos (S p)) = in_char_literal t hl pos p).
    { rewrite I3. unfold in_char_literal. reflexivity. }
    rewrite (balance_at_step t hl pos p Hlt).
    destruct (paren_step_effect t hl p (balance_at t hl pos (S p))) as (H1 & H2 & H3).
    cbv zeta in H1, H2. rewrite Hig in H1, H2, H3.
    unfold round_balance, square_balance in *.
    rewrite (counted_occurrences_step t hl pos p ")"),
      (counted_occurrences_step t hl pos p "("),
      (counted_occurrences_step t hl pos p "]"),
      (counted_occurrences_step t hl pos p "[") by lia.
    assert (L : (p <? pos) = true) by (apply Nat.ltb_lt; exact Hlt).
    rewrite L, H1, H2, H3, Hodd, I1, I2 by lia.
    repeat split; lia.
Qed.

Lemma closed_balance_at (t : text) (hl : Highlighter) (pos p : TextIter) :
  p <= pos -> closed (balance_at t hl pos p) = closed_at t hl pos p.
Proof.
  intros H. destruct (balance_at_counts t hl pos (pos - p) p ltac:(lia)) as (H1 & H2 & _).
  unfold closed, closed_at. rewrite H1, H2. reflexivity.
Qed.

(** The advance over the indentation: every position passed holds
    [tab_char] and is not the cursor, and the advance stops at the cursor, at
    a character that is not [tab_char], or at the end of the text. *)
Lemma skip_tab_chars_stops (t : text) (tc : ascii) (ins : TextIter) :
  forall fuel iter,
    length t - iter <= fuel ->
    let found := skip_tab_chars fuel t tc ins iter in
    iter <= found
    /\ (forall i, iter <= i < found -> deref t i = tc /\ i <> ins)
    /\ (found = ins \/ deref t found <> tc \/ length t <= found).
Proof.
  induction fuel as [|f IH]; intros iter Hf; cbn [skip_tab_chars].
  - split; [lia|]. split; [intros; lia|]. right. right. lia.
  - destruct (negb (iter =? ins) && (deref t iter =? tc)%char) eqn:E.
    + apply andb_true_iff in E as [E1 E2].
      apply negb_true_iff, Nat.eqb_neq in E1. apply Ascii.eqb_eq in E2.
      unfold forward_char. destruct (iter <? length t) eqn:L.
      * apply Nat.ltb_lt in L. destruct (S iter <? length t) eqn:L'.
        -- destruct (IH (S iter) ltac:(lia)) as (H1 & H2 & H3).
           split; [lia|]. split; [|exact H3].
           intros i Hi. destruct (Nat.eq_dec i iter) as [->|Hne]; [split; assumption|].
           apply H2. lia.
        -- apply Nat.ltb_ge in L'. split; [lia|]. split.
           ++ intros i Hi. assert (i = iter) by lia. subst i. split; assumption.
           ++ right. right. exact L'.
      * apply Nat.ltb_ge in L. split; [lia|]. split; [intros; lia|]. right. right. exact L.
    + split; [lia|]. split; [intros; lia|].
      apply andb_false_iff in E as [E|E].
      * left. apply negb_false_iff, Nat.eqb_eq in E. exact E.
      * right. left. intros H. apply Ascii.eqb_neq in E. contradiction.
Qed.

Lemma skip_tab_chars_at_end (fuel : nat) (t : text) (tc : ascii) (ins iter : TextIter) :
  length t <= iter -> skip_tab_chars fuel t tc ins iter = iter.
Proof.
  intros H. destruct fuel as [|f]; cbn [skip_tab_chars]; [reflexivity|].
  destruct (negb (iter =? ins) && (deref t iter =? tc)%char); [|reflexivity].
  rewrite forward_char_at_end by exact H. reflexivity.
Qed.

(** C1 (as the code has it): the backward scan of
    [find_start_of_closed_expression] stops at the first line start [p], in
    scan order from [pos], at which closing minus opening symbols, counted
    among the characters from [p] to [pos] that are in plain context and
    outside a char literal, is <= 0 for both kinds; no line start scanned
    before it qualifies.  The position returned is [p] advanced over
    [tab_char] characters: the advance stops at the cursor, at the first
    character that is not [tab_char], or at the end of the text, so the
    result is [p] itself exactly when one of the three holds at [p].  When no
    scanned line start qualifies the result is not-found. *)
Theorem C1_find_start_of_closed_expression_first_closed_line :
  forall (t : text) (hl : Highlighter) (tab_char : ascii) (insert_iter pos : TextIter),
    match find_start_of_closed_expression t hl tab_char insert_iter pos with
    | Some found =>
        exists p, p <= pos
          /\ starts_line t p = true
          /\ closed_at t hl pos p = true
          /\ (forall p', p < p' <= pos -> starts_line t p' = true ->
                         closed_at t hl pos p' = false)
          /\ p <= found
          /\ (forall i, p <= i < found -> deref t i = tab_char /\ i <> insert_iter)
          /\ (found = insert_iter \/ deref t found <> tab_char \/ length t <= found)
          /\ (found = p <->
              p = insert_iter \/ deref t p <> tab_char \/ length t <= p)
    | None =>
        forall p, p <= pos -> starts_line t p = true -> closed_at t hl pos p = false
    end.
Proof.
  intros t hl tc ins pos. unfold find_start_of_closed_expression.
  pose proof (fsce_loop_spec t hl tc ins pos balance0) as H.
  fold (balance_at t hl pos) in H.
  destruct (fsce_loop t hl tc ins pos balance0) as [found|].
  - destruct H as (p & Hp & Hs & Hc & Hfirst & Hfound).
    destruct (skip_tab_chars_stops t tc ins (length t) p ltac:(lia)) as (S1 & S2 & S3).
    rewrite <- Hfound in S1, S2, S3.
    exists p. split; [exact Hp|]. split; [exact Hs|].
    split; [rewrite <- closed_balance_at by exact Hp; exact Hc|].
    split.
    { intros p' Hp' Hs'. rewrite <- closed_balance_at by lia. apply Hfirst; assumption. }
    split; [exact S1|]. split; [exact S2|]. split; [exact S3|].
    split.
    + intros E. rewrite E in S3. exact S3.
    + intros [E|[E|E]].
      * destruct (Nat.eq_dec found p) as [|Hne]; [assumption|].
        destruct (S2 p ltac:(lia)) as [_ Hn]. contradiction.
      * destruct (Nat.eq_dec found p) as [|Hne]; [assumption|].
        destruct (S2 p ltac:(lia)) as [Hd _]. contradiction.
      * rewrite Hfound. apply skip_tab_chars_at_end. exact E.
  - intros p Hp Hs. rewrite <- closed_balance_at by exact Hp. apply H; assumption.
Qed.

(** C1 as stated fails: with two-space indentation in front of [f(] and the
    cursor at the end of the line, the qualifying line start is offset 0 but
    the position returned is offset 2, which is not a line start. *)
Lemma C1_returned_position_not_line_start :
  let t := chars "  f(" in
  find_start_of_closed_expression t all_plain SPACE 4 4 = Some 2
  /\ starts_line t 2 = false
  /\ starts_line t 0 = true
  /\ closed (balance_at t all_plain 4 0) = true.
Proof. vm_compute. repeat split. Qed.

(** A character in a comment or a string changes neither the counters nor
    the ignore flag. *)
Lemma paren_step_not_plain (t : text) (hl : Highlighter) (iter : TextIter) (st : Balance) :
  plain_context hl iter = false -> paren_step t hl iter st = st.
Proof. intros H. unfold paren_step. rewrite H. reflexivity. Qed.

Lemma brace_step_not_plain (t : text) (hl : Highlighter) (close open : ascii)
      (iter : TextIter) (st : BraceBalance) :
  plain_context hl iter = false -> brace_step t hl close open iter st = BraceNext st.
Proof. intros H. unfold brace_step. rewrite H. reflexivity. Qed.

(** While the ignore flag is set no character changes a counter. *)
Lemma paren_step_ignore (t : text) (hl : Highlighter) (iter : TextIter) (st : Balance) :
  ignore st = true ->
  count1 (paren_step t hl iter st) = count1 st /\ count2 (paren_step t hl iter st) = count2 st.
Proof.
  intros H. unfold paren_step.
  destruct (plain_context hl iter); [|auto].
  destruct (deref t iter =? QUOTE)%char.
  - destruct (quote_toggles t iter); auto.
  - rewrite H. auto.
Qed.

Lemma brace_step_ignore (t : text) (hl : Highlighter) (close open : ascii)
      (iter : TextIter) (st : BraceBalance) :
  bignore st = true ->
  exists st', brace_step t hl close open iter st = BraceNext st' /\ count st' = count st.
Proof.
  intros H. unfold brace_step.
  destruct (plain_context hl iter); [|eexists; split; reflexivity].
  destruct (deref t iter =? QUOTE)%char.
  - destruct (quote_toggles t iter); eexists; split; reflexivity.
  - rewrite H. eexists; split; reflexivity.
Qed.

(** A quote in plain context toggles the flag exactly when [quote_toggles]
    holds, and two or more characters into the buffer this is the absence of
    an unescaped backslash in front of it. *)
Lemma paren_step_quote (t : text) (hl : Highlighter) (iter : TextIter) (st : Balance) :
  plain_context hl iter = true -> deref t iter = QUOTE ->
  ignore (paren_step t hl iter st) = xorb (ignore st) (quote_toggles t iter).
Proof.
  intros Hp Hq. unfold paren_step. rewrite Hp, Hq. simpl.
  destruct (quote_toggles t iter); simpl.
  - destruct (ignore st); reflexivity.
  - destruct (ignore st); reflexivity.
Qed.

Lemma quote_toggles_interior (t : text) (iter : TextIter) :
  quote_toggles t (S (S iter))
  = negb ((deref t (S iter) =? BACKSLASH)%char && negb (deref t iter =? BACKSLASH)%char).
Proof.
  unfold quote_toggles. simpl.
  destruct (deref t (S iter) =? BACKSLASH)%char, (deref t iter =? BACKSLASH)%char; reflexivity.
Qed.

(** C2, at the start of the buffer: a quote at offset 1 behind a backslash at
    offset 0 is escaped, yet it toggles the ignore flag, because the iterator
    meant to read the character two places back cannot move and reads the
    backslash itself.  The right brace behind it is then not seen by
    [find_right_bracket_forward]; one character further into the buffer the
    same text is scanned as intended. *)
Theorem C2_escaped_quote_at_buffer_start_toggles :
  let t := chars "\'}" in
  deref t 0 = BACKSLASH
  /\ deref t 1 = QUOTE
  /\ quote_toggles t 1 = true
  /\ ignore (paren_step t all_plain 1 balance0) = true
  /\ brace_step t all_plain "}" "{" 1 (mkBrace 0 false) = BraceNext (mkBrace 0 true)
  /\ find_right_bracket_forward t all_plain 0 = None
  /\ find_right_bracket_forward (chars " \'}") all_plain 0 = Some 3.
Proof. vm_compute. repeat split. Qed.

(** ** Paste *)

Lemma insert_at_cursor_at (a r s : text) (j : list Event) :
  s <> [] ->
  insert_at_cursor (mkBuffer (a ++ r) (length a) (length a) j) s
  = mkBuffer ((a ++ s) ++ r) (length (a ++ s)) (length (a ++ s)) (j ++ [Inserted (length a) s]).
Proof.
  intros Hs. unfold insert_at_cursor, buffer_insert.
  destruct s as [|c s]; [congruence|].
  cbn [btext insert_mark selection_bound journal].
  rewrite text_insert_in_line. unfold mark_after_insert. rewrite Nat.leb_refl.
  rewrite <- app_assoc, length_app. reflexivity.
Qed.

(** The second loop of [paste] on the three lines of the example, for any
    buffer. *)
Lemma paste_insert_loop_example (b0 : Buffer) :
  pi_buffer (paste_insert_loop TAB [ "a"; NL; TAB; "b"; NL; TAB; "c" ] [TAB; TAB] 1 false 7 0
               (mkPasteInsert 0 true b0))
  = insert_at_cursor (insert_at_cursor (insert_at_cursor b0 ["a"]) [NL; TAB; TAB; "b"])
                     [NL; TAB; TAB; "c"].
Proof. reflexivity. Qed.

(** C4 (as the code has it): with tab as the tab character, no selection and
    the cursor behind the two tabs of a line holding nothing else, pasting
    the three lines [a], tab [b], tab [c] leaves [a] behind the two tabs and
    gives the second and third line two tabs each: their common indentation
    of one tab is removed and the two tabs of the destination are put in
    front.  The three insertions lie in one user action and the cursor ends
    behind the pasted text. *)
Theorem C4_paste_reindents_onto_two_tabs :
  forall (pre post : text) (j : list Event),
    at_line_start pre -> line_closed post ->
    let c := length pre + 2 in
    paste TAB [ "a"; NL; TAB; "b"; NL; TAB; "c" ] (mkBuffer (pre ++ [TAB; TAB] ++ post) c c j)
    = mkBuffer (pre ++ [TAB; TAB; "a"; NL; TAB; TAB; "b"; NL; TAB; TAB; "c"] ++ post)
               (c + 9) (c + 9)
               (j ++ [BeginUserAction; Inserted c ["a"];
                      Inserted (c + 1) [NL; TAB; TAB; "b"];
                      Inserted (c + 5) [NL; TAB; TAB; "c"]; EndUserAction]).
Proof.
  intros pre post j Hpre Hpost c.
  set (t := pre ++ [TAB; TAB] ++ post).
  assert (Hfree : nl_free [TAB; TAB]).
  { intros H. simpl in H. destruct H as [H|[H|H]]; [discriminate H | discriminate H | exact H]. }
  assert (Hline : get_line t c = count_occ ascii_dec pre NL).
  { unfold t, c. change 2 with (length [TAB; TAB]). apply get_line_in_line. exact Hfree. }
  assert (Htabs : get_tabs_end_iter t (count_occ ascii_dec pre NL) = c).
  { unfold t, c. rewrite get_tabs_end_iter_in_line by assumption. reflexivity. }
  assert (Hend : ends_line t c = true).
  { unfold t, c. change 2 with (length [TAB; TAB]). apply ends_line_line_end. exact Hpost. }
  assert (Hprefix : get_line_before t c = [TAB; TAB]).
  { unfold t, c. change 2 with (length [TAB; TAB]).
    apply get_line_before_in_line; assumption. }
  unfold paste. cbn [btext insert_mark selection_bound].
  unfold get_has_selection. cbn [insert_mark selection_bound].
  rewrite Nat.eqb_refl, Hline, Htabs, Hend, Hprefix. cbn [negb andb].
  change (replace_carriage_returns [ "a"; NL; TAB; "b"; NL; TAB; "c" ])
    with [ "a"; NL; TAB; "b"; NL; TAB; "c" ].
  change (paste_scan_loop TAB [ "a"; NL; TAB; "b"; NL; TAB; "c" ] 7 0
            (mkPasteScan 0 true SIZE_MAX false))
    with (mkPasteScan 7 false 1%N false).
  cbn [ps_paste_line_tabs ps_first_paste_line_has_tabs length].
  change (if (1 =? SIZE_MAX)%N then 0 else N.to_nat 1) with 1.
  unfold begin_user_action. cbn [btext insert_mark selection_bound journal].
  assert (Hc : c = length (pre ++ [TAB; TAB])) by (unfold c; rewrite length_app; reflexivity).
  assert (Ht : t = (pre ++ [TAB; TAB]) ++ post) by (unfold t; rewrite <- app_assoc; reflexivity).
  rewrite Ht, Hc.
  rewrite paste_insert_loop_example.
  rewrite !insert_at_cursor_at by discriminate.
  unfold place_cursor, end_user_action. cbn [btext insert_mark selection_bound journal].
  rewrite !length_app. cbn [length].
  rewrite <- !app_assoc. cbn [app].
  unfold c.
  replace (length pre + 2 + 1 + 4 + 4) with (length pre + 2 + 9) by lia.
  replace (length pre + 2 + 1 + 4) with (length pre + 2 + 5) by lia.
  reflexivity.
Qed.

Lemma C4_paste_reindents_witness :
  paste TAB [ "a"; NL; TAB; "b"; NL; TAB; "c" ] (mkBuffer ([] ++ [TAB; TAB] ++ []) (0 + 2) (0 + 2) [])
  = mkBuffer ([] ++ [TAB; TAB; "a"; NL; TAB; TAB; "b"; NL; TAB; TAB; "c"] ++ [])
             (0 + 2 + 9) (0 + 2 + 9)
             ([] ++ [BeginUserAction; Inserted (0 + 2) ["a"];
                     Inserted (0 + 2 + 1) [NL; TAB; TAB; "b"];
                     Inserted (0 + 2 + 5) [NL; TAB; TAB; "c"]; EndUserAction]).
Proof.
  apply (C4_paste_reindents_onto_two_tabs [] [] []).
  - left. reflexivity.
  - left. reflexivity.
Defined.

(** C4 as stated fails: the second and third pasted line do not come out
    with three tabs. *)
Lemma C4_paste_not_three_tabs :
  btext (paste TAB [ "a"; NL; TAB; "b"; NL; TAB; "c" ] (mkBuffer [TAB; TAB] 2 2 []))
  <> [TAB; TAB; "a"; NL; TAB; TAB; TAB; "b"; NL; TAB; TAB; TAB; "c"].
Proof. vm_compute. discriminate. Qed.

(** ** Cursor placement *)

Lemma get_line_count_pos (t : text) : 1 <= get_line_count t.
Proof. unfold get_line_count. lia. Qed.

(** For an offset that is not negative the clamping of
    [place_cursor_at_line_offset] yields a line of the buffer and an offset
    within that line. *)
Lemma place_cursor_at_line_offset_clamps (t : text) (line offset : Z) :
  (0 <= offset)%Z ->
  let (line', offset') := place_cursor_at_line_offset_address t line offset in
  valid_position t line' offset' = true
  /\ (0 <= line' < Z.of_nat (get_line_count t))%Z
  /\ (0 <= offset' <= Z.of_nat (get_line_offset t (get_iter_at_line_end t (Z.to_nat line'))))%Z.
Proof.
  intros Hoff. unfold place_cursor_at_line_offset_address.
  pose proof (get_line_count_pos t) as Hc.
  set (l1 := Z.min line (Z.of_nat (get_line_count t) - 1)).
  set (l2 := if (l1 <? 0)%Z then 0%Z else l1).
  assert (Hl2 : (0 <= l2 < Z.of_nat (get_line_count t))%Z).
  { unfold l2. destruct (l1 <? 0)%Z eqn:E.
    - lia.
    - apply Z.ltb_ge in E. unfold l1 in *. lia. }
  set (len := Z.of_nat (get_line_offset t (get_iter_at_line_end t (Z.to_nat l2)))).
  assert (Ho : (0 <= Z.min offset len <= len)%Z) by (unfold len; lia).
  split; [|split; assumption].
  unfold valid_position. fold len.
  repeat (apply andb_true_iff; split).
  - apply Z.leb_le. lia.
  - apply Z.ltb_lt. lia.
  - apply Z.leb_le. lia.
  - apply Z.leb_le. lia.
Qed.

(** C10, at a negative offset: the line is clamped from both sides but the
    offset only from above, so a negative offset reaches the buffer as it is
    and the position addressed lies outside the document. *)
Theorem C10_negative_offset_is_not_clamped :
  forall (b : Buffer),
    place_cursor_at_line_offset_address (btext b) 0 (-1) = (0%Z, (-1)%Z)
    /\ valid_position (btext b) 0 (-1) = false
    /\ place_cursor_at_line_offset b 0 (-1) = None.
Proof.
  intros b.
  assert (H : place_cursor_at_line_offset_address (btext b) 0 (-1) = (0%Z, (-1)%Z)).
  { unfold place_cursor_at_line_offset_address.
    pose proof (get_line_count_pos (btext b)).
    rewrite Z.min_l by lia. simpl. f_equal. lia. }
  assert (V : valid_position (btext b) 0 (-1) = false).
  { unfold valid_position. change (0 <=? -1)%Z with false.
    rewrite andb_false_r. reflexivity. }
  split; [exact H|]. split; [exact V|].
  unfold place_cursor_at_line_offset. rewrite H.
  unfold get_iter_at_line_offset. rewrite V. reflexivity.
Qed.

(** ** Key handling *)

(** The edit of smart Backspace: the run of blanks between the line start
    and the cursor goes in one erasure and the cursor lands on the line
    start. *)
Lemma basic_backspace_erases_run (pre ws post : text) (j : list Event) :
  at_line_start pre -> ws <> [] -> forallb is_blank ws = true ->
  basic_backspace
    (mkBuffer (pre ++ ws ++ post) (length pre + length ws) (length pre + length ws) j)
  = mkBuffer (pre ++ post) (length pre) (length pre)
             (j ++ [Erased (length pre) (length pre + length ws)]).
Proof.
  intros Hpre Hne Hws. unfold basic_backspace. cbn [btext insert_mark].
  rewrite get_line_before_in_line by auto with lines.
  rewrite Hws. unfold backward_chars.
  assert (Hlen : 0 < length ws) by (destruct ws; [congruence | simpl; lia]).
  nat_test (negb (length ws =? 0)) true.
  nat_test (negb (length pre + length ws =? 0)) true.
  cbn [andb]. unfold buffer_erase. cbn [btext insert_mark selection_bound journal].
  replace (length pre + length ws - length ws) with (length pre) by lia.
  rewrite Nat.min_r, Nat.max_l by lia.
  nat_test (length pre =? length pre + length ws) false.
  f_equal.
  - unfold text_erase. rewrite Nat.min_l, Nat.max_r by lia.
    rewrite firstn_length_app.
    rewrite app_assoc, <- length_app, skipn_length_app. reflexivity.
  - unfold mark_after_erase.
    nat_test (length pre + length ws <=? length pre) false.
    rewrite Nat.leb_refl. reflexivity.
  - unfold mark_after_erase.
    nat_test (length pre + length ws <=? length pre) false.
    rewrite Nat.leb_refl. reflexivity.
Qed.

(** C8 (as the code has it): Backspace with no selection behind a run of
    blanks that reaches back to the line start erases the whole run with one
    erasure, inside the user action of the keystroke; the key is then still
    handed to the toolkit's handler [dflt] inside the same user action, which
    acts on the buffer with the run removed and the cursor on the line
    start. *)
Theorem C8_smart_backspace_one_erasure_then_default :
  forall (v : View) (dflt : DefaultHandler) (pre ws post : text) (j : list Event),
    at_line_start pre -> ws <> [] -> forallb is_blank ws = true ->
    on_key_press_event_basic v dflt Key_BackSpace
      (mkBuffer (pre ++ ws ++ post) (length pre + length ws) (length pre + length ws) j)
    = Some (end_user_action
              (dflt Key_BackSpace
                 (mkBuffer (pre ++ post) (length pre) (length pre)
                           (j ++ [BeginUserAction;
                                  Erased (length pre) (length pre + length ws)])))).
Proof.
  intros v dflt pre ws post j Hpre Hne Hws.
  unfold on_key_press_event_basic, begin_user_action, get_has_selection.
  cbn [btext insert_mark selection_bound journal].
  rewrite Nat.eqb_refl. cbn [negb].
  rewrite basic_backspace_erases_run by assumption.
  rewrite <- app_assoc. reflexivity.
Qed.

Lemma C8_smart_backspace_witness :
  on_key_press_event_basic (mkView SPACE 4 false false) toolkit_key_press Key_BackSpace
    (mkBuffer ([ "a"; NL ] ++ [SPACE; SPACE; SPACE] ++ []) (2 + 3) (2 + 3) [])
  = Some (end_user_action
            (toolkit_key_press Key_BackSpace
               (mkBuffer ([ "a"; NL ] ++ []) 2 2 ([] ++ [BeginUserAction; Erased 2 (2 + 3)])))).
Proof.
  apply (C8_smart_backspace_one_erasure_then_default
           (mkView SPACE 4 false false) toolkit_key_press
           [ "a"; NL ] [SPACE; SPACE; SPACE] [] []).
  - right. exists ["a"]. reflexivity.
  - discriminate.
  - reflexivity.
Defined.

(** In a bracket language Backspace and Shift-Tab pass through the bracket
    handler, which opens and closes a user action of its own without an
    edit, to the basic handler. *)
Lemma on_key_press_event_bracket_language_passes (v : View) (hl : Highlighter)
      (dflt : DefaultHandler) (rest : ReturnContinuation) (b : Buffer) :
  on_key_press_event_bracket_language v hl dflt rest Key_BackSpace b
  = on_key_press_event_basic v dflt Key_BackSpace (end_user_action (begin_user_action b))
  /\ on_key_press_event_bracket_language v hl dflt rest Key_ShiftTab b
     = on_key_press_event_basic v dflt Key_ShiftTab (end_user_action (begin_user_action b)).
Proof. split; reflexivity. Qed.

(** C8 as stated fails: on a second line holding three spaces, with the
    toolkit's handler deleting the character in front of the cursor, the
    keystroke removes the three spaces and the line break in front of them,
    which is more than the run of blanks. *)
Lemma C8_net_change_is_more_than_the_run :
  let b := mkBuffer (chars "a" ++ [NL; SPACE; SPACE; SPACE]) 5 5 [] in
  option_map btext
    (on_key_press_event_basic (mkView SPACE 4 false false) toolkit_key_press Key_BackSpace b)
  = Some (chars "a")
  /\ text_erase (btext b) 2 5 = chars "a" ++ [NL]
  /\ chars "a" <> text_erase (btext b) 2 5.
Proof. vm_compute. repeat split. discriminate. Qed.

Lemma skip_tab_chars_bound (fuel : nat) (t : text) (tc : ascii) (ins iter : TextIter) :
  iter <= length t -> skip_tab_chars fuel t tc ins iter <= length t.
Proof.
  revert iter. induction fuel as [|f IH]; intros iter Hi; simpl; [exact Hi|].
  destruct (negb (iter =? ins) && (deref t iter =? tc)%char); [|exact Hi].
  unfold forward_char. destruct (iter <? length t) eqn:L; [|exact Hi].
  apply Nat.ltb_lt in L.
  destruct (S iter <? length t); [apply IH; lia | lia].
Qed.

Lemma find_start_of_closed_expression_bound (t : text) (hl : Highlighter) (tc : ascii)
      (ins pos found : TextIter) :
  pos <= length t ->
  find_start_of_closed_expression t hl tc ins pos = Some found -> found <= length t.
Proof.
  intros Hpos H. unfold find_start_of_closed_expression in H.
  pose proof (fsce_loop_spec t hl tc ins pos balance0) as S.
  rewrite H in S. destruct S as (p & Hp & _ & _ & _ & ->).
  apply skip_tab_chars_bound. lia.
Qed.

Lemma end_blank_loop_stops (fuel : nat) (t : text) (iter : TextIter) :
  is_blank (deref t iter) = false -> end_blank_loop fuel t iter = iter.
Proof. intros H. destruct fuel; simpl; [|rewrite H]; reflexivity. Qed.

Lemma start_blank_loop_stops (w : bool) (t : text) (iter : TextIter) :
  is_blank (deref t iter) = false -> ends_line t iter = false ->
  start_blank_loop w t iter = iter.
Proof.
  intros H1 H2. destruct iter; simpl; [reflexivity|].
  rewrite H1, H2, andb_false_r. reflexivity.
Qed.



(** Return reaches the bracket handler when the language is a bracket
    language, nothing is selected and the character in front of the cursor is
    neither comment nor string. *)
Lemma on_key_press_event_bracket_dispatch (v : View) (hl : Highlighter) (dflt : DefaultHandler)
      (rest : ReturnContinuation) (key : Key) (t : text) (c : nat) (j : list Event) :
  is_bracket_language v = true -> plain_context hl c = true ->
  on_key_press_event v hl dflt rest key (mkBuffer t (S c) (S c) j)
  = on_key_press_event_bracket_language v hl dflt rest key (mkBuffer t (S c) (S c) j).
Proof.
  intros Hb Hp. unfold on_key_press_event, get_has_selection. cbn [insert_mark selection_bound].
  rewrite Nat.eqb_refl. cbn [negb]. unfold plain_context in Hp.
  apply andb_true_iff in Hp as [H1 H2].
  apply negb_true_iff in H1, H2. rewrite H1, H2, Hb. reflexivity.
Qed.

(** ** Whitespace cleanup *)

(** A line is its stripped part followed by blanks, and the stripped part
    is empty or ends in a character that is not a blank. *)
Lemma strip_trailing_blanks_snoc (l : text) (c : ascii) :
  strip_trailing_blanks (l ++ [c])
  = if is_blank c then strip_trailing_blanks l else l ++ [c].
Proof.
  unfold strip_trailing_blanks. rewrite rev_app_distr. simpl.
  rewrite length_snoc. destruct (is_blank c).
  - replace (S (length l) - S (leading_blanks (rev l)))
      with (length l - leading_blanks (rev l)) by lia.
    rewrite firstn_app.
    replace (length l - leading_blanks (rev l) - length l) with 0 by lia.
    simpl. apply app_nil_r.
  - rewrite Nat.sub_0_r, <- length_snoc with (c := c). apply firstn_all.
Qed.

Lemma strip_trailing_blanks_spec (l : text) :
  exists w, l = strip_trailing_blanks l ++ w
            /\ forallb is_blank w = true
            /\ (strip_trailing_blanks l = []
                \/ exists s y, strip_trailing_blanks l = s ++ [y] /\ is_blank y = false).
Proof.
  induction l as [|c l (w & El & Hw & Hs)] using rev_ind.
  - exists []. repeat split. left. reflexivity.
  - rewrite strip_trailing_blanks_snoc. destruct (is_blank c) eqn:Hc.
    + exists (w ++ [c]). repeat split.
      * rewrite app_assoc, <- El. reflexivity.
      * rewrite forallb_app, Hw. simpl. rewrite Hc. reflexivity.
      * exact Hs.
    + exists []. repeat split; [rewrite app_nil_r; reflexivity|].
      right. exists l, c. split; [reflexivity | exact Hc].
Qed.

Lemma strip_trailing_blanks_nl_free (l : text) : nl_free l -> nl_free (strip_trailing_blanks l).
Proof. intros H. unfold strip_trailing_blanks. apply firstn_nl_free. exact H. Qed.

(** The backward loop of the cleanup, step by step. *)
Lemma cleanup_backward_step (t : text) (j : nat) :
  deref t j <> NL -> (is_blank (deref t (S j)) || ends_line t (S j)) = true ->
  cleanup_backward t (S j) = cleanup_backward t j.
Proof.
  intros H1 H2. simpl. rewrite (eqb_NL_false _ H1), H2. reflexivity.
Qed.

Lemma cleanup_backward_stop (t : text) (iter : nat) :
  starts_line t iter = true \/ (is_blank (deref t iter) || ends_line t iter) = false ->
  cleanup_backward t iter = iter.
Proof.
  intros H. destruct iter; [reflexivity|].
  cbn [cleanup_backward]. destruct H as [H|H]; rewrite H; [|rewrite andb_false_r]; reflexivity.
Qed.

(** Over the blanks [w] at the end of the line [s ++ w] the loop runs back
    to the end of [s]. *)
Lemma cleanup_backward_blanks (pre s w post : text) (k : nat) :
  nl_free (s ++ w) -> forallb is_blank w = true -> line_closed post -> k <= length w ->
  cleanup_backward (pre ++ (s ++ w) ++ post) (length pre + (length s + k))
  = cleanup_backward (pre ++ (s ++ w) ++ post) (length pre + length s).
Proof.
  intros Hl Hw Hpost. induction k as [|k IH]; intros Hk.
  - rewrite Nat.add_0_r. reflexivity.
  - rewrite <- IH by lia.
    replace (length pre + (length s + S k)) with (S (length pre + (length s + k))) by lia.
    assert (Hin : length s + k < length (s ++ w)) by (rewrite length_app; lia).
    apply cleanup_backward_step.
    + rewrite deref_in_line by exact Hin. apply nth_nl_free; assumption.
    + destruct (Nat.eq_dec (S k) (length w)) as [E|E].
      * replace (S (length pre + (length s + k))) with (length pre + length (s ++ w))
          by (rewrite length_app; lia).
        rewrite ends_line_line_end by exact Hpost. apply orb_true_r.
      * replace (S (length pre + (length s + k))) with (length pre + (length s + S k)) by lia.
        rewrite deref_in_line by (rewrite length_app; lia).
        rewrite app_nth2 by lia.
        replace (length s + S k - length s) with (S k) by lia.
        rewrite forallb_nth by (auto; lia). reflexivity.
Qed.

(** The iterator from which a line is erased: the end of its stripped
    part. *)
Lemma cleanup_erase_start (pre s w post : text) :
  at_line_start pre -> nl_free (s ++ w) -> forallb is_blank w = true -> line_closed post ->
  s ++ w <> [] ->
  (s = [] \/ exists s' y, s = s' ++ [y] /\ is_blank y = false) ->
  let t := pre ++ (s ++ w) ++ post in
  let iter := cleanup_backward t (length pre + length (s ++ w)) in
  (if negb (is_blank (deref t iter)) then fst (forward_char t iter) else iter)
  = length pre + length s.
Proof.
  intros Hpre Hl Hw Hpost Hne Hs t iter.
  assert (E1 : iter = cleanup_backward t (length pre + length s)).
  { unfold iter, t. rewrite length_app. apply cleanup_backward_blanks; auto. }
  destruct Hs as [->|(s' & y & -> & Hy)].
  - simpl in *. rewrite Nat.add_0_r in E1.
    rewrite cleanup_backward_stop in E1
      by (left; apply at_line_start_starts_line; exact Hpre).
    rewrite E1. destruct w as [|x w]; [congruence|].
    unfold t. rewrite deref_app. simpl. simpl in Hw.
    apply andb_true_iff in Hw as [Hx _]. rewrite Hx. simpl. lia.
  - assert (Hin : length s' < length ((s' ++ [y]) ++ w)).
    { rewrite !length_app. simpl. lia. }
    assert (Hy' : deref t (length pre + length s') = y).
    { unfold t. rewrite deref_in_line by exact Hin.
      rewrite <- app_assoc. rewrite app_nth2 by lia. rewrite Nat.sub_diag. reflexivity. }
    assert (E2 : iter = length pre + length s').
    { rewrite E1, length_snoc.
      replace (length pre + S (length s')) with (S (length pre + length s')) by lia.
      rewrite cleanup_backward_step.
      - apply cleanup_backward_stop. right. rewrite Hy', Hy. simpl.
        unfold t. apply ends_line_in_line; assumption.
      - rewrite Hy'. apply nth_nl_free with (l := (s' ++ [y]) ++ w) (k := length s') in Hl.
        + rewrite <- app_assoc in Hl. rewrite app_nth2 in Hl by lia.
          rewrite Nat.sub_diag in Hl. exact Hl.
        + exact Hin.
      - destruct w as [|x w].
        + replace (S (length pre + length s')) with (length pre + length ((s' ++ [y]) ++ []))
            by (rewrite !length_app; simpl; lia).
          unfold t. rewrite ends_line_line_end by exact Hpost. apply orb_true_r.
        + replace (S (length pre + length s')) with (length pre + length (s' ++ [y]))
            by (rewrite length_snoc; lia).
          unfold t. rewrite <- app_assoc, app_assoc, <- length_app, deref_app.
          simpl. simpl in Hw. apply andb_true_iff in Hw as [Hx _]. rewrite Hx. reflexivity. }
    rewrite E2, Hy', Hy. simpl. unfold t.
    rewrite fst_forward_char_in_line by exact Hin. rewrite length_snoc. reflexivity.
Qed.

Lemma cleanup_line_text (b : Buffer) (ls1 ls2 : list text) (l : text) :
  Forall nl_free ls1 -> nl_free l ->
  btext b = unlines (ls1 ++ l :: ls2) ->
  btext (cleanup_line b (length ls1)) = unlines (ls1 ++ strip_trailing_blanks l :: ls2).
Proof.
  intros Hls1 Hl Hb.
  destruct (strip_trailing_blanks_spec l) as (w & El & Hw & Hs).
  remember (strip_trailing_blanks l) as s eqn:Es.
  rewrite !unlines_split in *.
  pose proof (at_line_start_terminated ls1) as Hpre.
  pose proof (line_rest_closed ls2) as Hpost.
  unfold cleanup_line. rewrite Hb.
  rewrite <- (count_terminated ls1 Hls1).
  rewrite get_iter_at_line_at_line_start by exact Hpre.
  rewrite get_iter_at_line_end_in_line by assumption.
  destruct (length (terminated ls1) =? length (terminated ls1) + length l) eqn:E0.
  - apply Nat.eqb_eq in E0. destruct l as [|c l']; [|simpl in E0; lia].
    rewrite Es. exact Hb.
  - apply Nat.eqb_neq in E0. assert (Hne : s ++ w <> []).
    { rewrite <- El. destruct l; [simpl in E0; lia | discriminate]. }
    assert (Hl' : nl_free (s ++ w)) by (rewrite <- El; exact Hl).
    pose proof (cleanup_erase_start (terminated ls1) s w (line_rest ls2)
                  Hpre Hl' Hw Hpost Hne Hs) as K.
    cbv zeta in K. rewrite <- El in K. rewrite K. clear K.
    assert (Hlen : length l = length s + length w) by (rewrite El at 1; apply length_app).
    destruct (length (terminated ls1) + length s =? length (terminated ls1) + length l) eqn:E1.
    + apply Nat.eqb_eq in E1.
      assert (w = []) by (destruct w; [reflexivity | simpl in Hlen; lia]).
      subst w. rewrite app_nil_r in El. rewrite Hb, <- El. reflexivity.
    + rewrite btext_buffer_erase, Hb. rewrite El at 1. rewrite Hlen.
      rewrite <- app_assoc, app_assoc, Nat.add_assoc, <- length_app.
      rewrite text_erase_in_line. rewrite <- app_assoc. reflexivity.
Qed.

Lemma get_line_count_split (ls1 ls2 : list text) :
  Forall nl_free (ls1 ++ ls2) -> ls1 ++ ls2 <> [] ->
  get_line_count (unlines (ls1 ++ ls2)) = length ls1 + length ls2.
Proof.
  intros H Hne. rewrite get_line_count_unlines by assumption. apply length_app.
Qed.

Lemma cleanup_loop_text (ls2 : list text) :
  forall (ls1 : list text) (b : Buffer) (fuel : nat),
    Forall nl_free ls1 -> Forall nl_free ls2 -> ls1 ++ ls2 <> [] ->
    btext b = unlines (ls1 ++ ls2) -> length ls2 <= fuel ->
    btext (cleanup_loop fuel (length ls1) b)
    = unlines (ls1 ++ map strip_trailing_blanks ls2).
Proof.
  induction ls2 as [|l ls2 IH]; intros ls1 b fuel H1 H2 Hne Hb Hfuel.
  - simpl. rewrite app_nil_r in *. destruct fuel; simpl; [exact Hb|].
    rewrite Hb, get_line_count_unlines by assumption.
    rewrite Nat.ltb_irrefl. exact Hb.
  - destruct fuel; [simpl in Hfuel; lia|]. simpl in Hfuel.
    inversion H2 as [|? ? Hl Hls2]; subst.
    cbn [cleanup_loop]. rewrite Hb.
    rewrite get_line_count_split by (auto; apply Forall_app; split; assumption).
    nat_test (length ls1 <? length ls1 + length (l :: ls2)) true.
    pose proof (cleanup_line_text b ls1 ls2 l H1 Hl Hb) as Hstep.
    replace (S (length ls1)) with (length (ls1 ++ [strip_trailing_blanks l]))
      by (rewrite length_app; simpl; lia).
    rewrite (IH (ls1 ++ [strip_trailing_blanks l])).
    + rewrite <- app_assoc. reflexivity.
    + apply Forall_app. split; [exact H1|].
      constructor; [apply strip_trailing_blanks_nl_free; exact Hl | constructor].
    + exact Hls2.
    + destruct ls1; discriminate.
    + rewrite Hstep, <- app_assoc. reflexivity.
    + lia.
Qed.

(** The end of a text is a line start exactly when its last line is
    empty. *)
Lemma starts_line_end_app (a r : text) :
  r <> [] -> starts_line (a ++ r) (length (a ++ r)) = starts_line r (length r).
Proof.
  intros Hr. destruct r as [|c r] using rev_ind; [congruence|]. clear IHr.
  rewrite app_assoc, !length_snoc. cbn [starts_line].
  rewrite !deref_app. reflexivity.
Qed.

Lemma starts_line_end_line (l : text) :
  nl_free l -> starts_line l (length l) = match l with [] => true | _ => false end.
Proof.
  intros Hl. destruct l as [|c l] using rev_ind; [reflexivity|]. clear IHl.
  rewrite length_snoc. cbn [starts_line]. rewrite deref_app. cbn [hd].
  apply nl_free_app in Hl as [_ Hc]. apply nl_free_cons in Hc as [Hc _].
  rewrite (eqb_NL_false c Hc). destruct l; reflexivity.
Qed.

Lemma starts_line_end_unlines (ls : list text) :
  Forall nl_free ls -> ls <> [] ->
  starts_line (unlines ls) (length (unlines ls))
  = match last ls [] with [] => true | _ => false end.
Proof.
  induction ls as [|l ls IH]; intros H Hne; [congruence|].
  inversion H as [|? ? Hl Hls]; subst.
  destruct ls as [|l' ls'].
  - simpl. apply starts_line_end_line. exact Hl.
  - rewrite unlines_cons by discriminate.
    rewrite app_snoc_cons.
    change (last (l :: l' :: ls') []) with (last (l' :: ls') []).
    destruct (unlines (l' :: ls')) eqn:E.
    + rewrite app_nil_r, length_snoc. cbn [starts_line]. rewrite deref_app. cbn [hd].
      rewrite <- IH by (auto; discriminate). reflexivity.
    + rewrite starts_line_end_app by discriminate.
      apply IH; [exact Hls | discriminate].
Qed.

(** C9: the cleanup replaces every line by the line without its trailing
    run of spaces and tabs, and then appends a newline when the last line is
    not empty; each line is its cleaned line followed by blanks, so no other
    character changes.  A save with the option enabled, a file path and a
    modified buffer leaves the buffer in this state and writes its text. *)
Theorem C9_cleanup_strips_trailing_blanks :
  forall (b : Buffer),
    let ls := map strip_trailing_blanks (lines (btext b)) in
    btext (cleanup_whitespace_characters b)
    = unlines ls ++ match last ls [] with [] => [] | _ => [NL] end
    /\ Forall2 (fun l l' => exists w, l = l' ++ w /\ forallb is_blank w = true
                                      /\ (l' = [] \/ exists s y, l' = s ++ [y] /\ is_blank y = false))
               (lines (btext b)) ls
    /\ save false true true b
       = (cleanup_whitespace_characters b, Some (btext (cleanup_whitespace_characters b)))
    /\ save false true false b = (b, Some (btext b)).
Proof.
  intros b ls.
  pose proof (lines_nl_free (btext b)) as Hnl.
  pose proof (lines_nonempty (btext b)) as Hne.
  assert (Hls : Forall nl_free ls).
  { unfold ls. apply Forall_map. eapply Forall_impl; [|exact Hnl].
    intros l. apply strip_trailing_blanks_nl_free. }
  assert (Hlsne : ls <> []).
  { unfold ls. destruct (lines (btext b)); [congruence | discriminate]. }
  split; [|split; [|split; reflexivity]].
  - unfold cleanup_whitespace_characters.
    assert (H1 : btext (cleanup_loop (get_line_count (btext b)) 0 (begin_user_action b))
                 = unlines ls).
    { rewrite <- (unlines_lines (btext b)) at 1.
      rewrite get_line_count_unlines by assumption.
      apply (cleanup_loop_text (lines (btext b)) [] (begin_user_action b)); auto.
      simpl. symmetry. apply unlines_lines. }
    cbn [end_user_action btext].
    set (b1 := cleanup_loop (get_line_count (btext b)) 0 (begin_user_action b)) in *.
    rewrite H1, starts_line_end_unlines by assumption.
    destruct (last ls []); cbn [negb].
    + rewrite H1, app_nil_r. reflexivity.
    + rewrite btext_buffer_insert, H1.
      rewrite <- (app_nil_r (unlines ls)) at 1.
      rewrite text_insert_in_line. reflexivity.
  - unfold ls. clear. induction (lines (btext b)) as [|l r IH]; simpl; constructor; [|exact IH].
    destruct (strip_trailing_blanks_spec l) as (w & El & Hw & Hs). exists w. auto.
Qed.

(** The newline is appended by looking at the last line once its trailing
    blanks are gone: a last line of blanks only becomes empty and gets none. *)
Example cleanup_whitespace_characters_runs :
  btext (cleanup_whitespace_characters (mkBuffer (chars "a  " ++ NL :: chars "b ") 0 0 []))
  = chars "a" ++ NL :: chars "b" ++ [NL]
  /\ btext (cleanup_whitespace_characters (mkBuffer (chars "a" ++ NL :: chars "  ") 0 0 []))
     = chars "a" ++ [NL].
Proof. split; reflexivity. Qed.

(** ** Outdenting with Shift-Tab *)

Lemma line_index (ls1 : list text) :
  Forall nl_free ls1 -> length ls1 = count_occ ascii_dec (terminated ls1) NL.
Proof. intros H. symmetry. apply count_terminated. exact H. Qed.

Lemma get_iter_at_line_unlines (ls1 ls2 : list text) (l : text) :
  Forall nl_free ls1 ->
  get_iter_at_line (unlines (ls1 ++ l :: ls2)) (length ls1) = length (terminated ls1).
Proof.
  intros H. rewrite unlines_split, (line_index ls1 H).
  apply get_iter_at_line_at_line_start. auto with lines.
Qed.

Lemma get_tabs_end_iter_unlines (ls1 ls2 : list text) (l : text) :
  Forall nl_free ls1 ->
  get_tabs_end_iter (unlines (ls1 ++ l :: ls2)) (length ls1)
  = length (terminated ls1) + leading_blanks l.
Proof.
  intros H. rewrite unlines_split, (line_index ls1 H).
  apply get_tabs_end_iter_in_line; auto with lines.
Qed.

Lemma leading_blanks_zero_first (l : text) :
  l <> [] -> leading_blanks l = 0 -> is_blank (nth 0 l zero) = false.
Proof.
  destruct l as [|c l]; [congruence|]. simpl. intros _.
  destruct (is_blank c); [discriminate | reflexivity].
Qed.

(** At the end of the indentation of a line. *)
Lemma tabs_end_facts (pre l post : text) :
  at_line_start pre -> nl_free l -> line_closed post ->
  let t := pre ++ l ++ post in
  let lb := leading_blanks l in
  starts_line t (length pre + lb) = (lb =? 0)
  /\ ends_line t (length pre + lb) = (lb =? length l)
  /\ get_line_before t (length pre + lb) = firstn lb l.
Proof.
  intros Hpre Hl Hpost t lb.
  pose proof (leading_blanks_le l) as Hle. fold lb in Hle.
  split; [|split].
  - destruct lb as [|k] eqn:E.
    + rewrite Nat.add_0_r. apply at_line_start_starts_line. exact Hpre.
    + apply starts_line_in_line; [exact Hl | lia].
  - destruct (Nat.eq_dec lb (length l)) as [E|E].
    + rewrite E, Nat.eqb_refl. apply ends_line_line_end. exact Hpost.
    + replace (lb =? length l) with false by (symmetry; apply Nat.eqb_neq; exact E).
      apply ends_line_in_line; [exact Hl | lia].
  - assert (Efl : length (firstn lb l) = lb) by (apply firstn_length_le; exact Hle).
    assert (Et : t = pre ++ firstn lb l ++ (skipn lb l ++ post)).
    { unfold t. rewrite (app_assoc (firstn lb l)), firstn_skipn. reflexivity. }
    rewrite Et.
    replace (length pre + lb) with (length pre + length (firstn lb l)) by lia.
    apply get_line_before_in_line; auto with lines.
Qed.

(** The first loop of Shift-Tab over the lines [seg]. *)
Lemma outdent_scan_lines (hs : bool) (se : TextIter) (t : text) (seg : list text) :
  forall (ls1 rest : list text) (steps : nat) (ign : list bool),
    t = unlines (ls1 ++ seg ++ rest) ->
    Forall nl_free ls1 -> Forall nl_free seg ->
    outdent_scan t hs se (length seg) (length ls1) steps ign
    = if has_unindented (outdent_touches t hs se) (length ls1) seg then None
      else Some (min_leading (outdent_touches t hs se) (length ls1) seg steps,
                 ign ++ ignore_entries (outdent_touches t hs se) (length ls1) seg).
Proof.
  induction seg as [|l seg IH]; intros ls1 rest steps ign Ht H1 H2.
  - simpl. rewrite app_nil_r. reflexivity.
  - pose proof (Forall_inv H2) as Hl. pose proof (Forall_inv_tail H2) as Hseg.
    assert (Ht' : t = unlines ((ls1 ++ [l]) ++ seg ++ rest)).
    { rewrite Ht, <- app_assoc. reflexivity. }
    assert (H1' : Forall nl_free (ls1 ++ [l])).
    { apply Forall_app. split; [exact H1 | constructor; [exact Hl | constructor]]. }
    assert (Hlen : S (length ls1) = length (ls1 ++ [l])) by (rewrite length_app; simpl; lia).
    cbn [outdent_scan has_unindented min_leading ignore_entries length].
    destruct (outdent_touches t hs se (length ls1)) eqn:Ht0.
    + assert (Etabs : get_tabs_end_iter t (length ls1)
                      = length (terminated ls1) + leading_blanks l).
      { rewrite Ht. simpl app. apply get_tabs_end_iter_unlines. exact H1. }
      assert (Etext : t = terminated ls1 ++ l ++ line_rest (seg ++ rest)).
      { rewrite Ht. simpl app. apply unlines_split. }
      pose proof (tabs_end_facts (terminated ls1) l (line_rest (seg ++ rest))
                    (at_line_start_terminated ls1) Hl (line_rest_closed (seg ++ rest)))
        as Hfacts.
      cbv zeta in Hfacts. rewrite <- Etext in Hfacts.
      destruct Hfacts as (Hst & Hel & Hlb).
      rewrite Etabs, Hst, Hel, Hlb.
      pose proof (leading_blanks_le l) as Hle.
      rewrite firstn_length_le by exact Hle.
      rewrite Hlen. cbn [andb].
      destruct l as [|c l'].
      * cbn [leading_blanks is_empty_line negb andb orb length Nat.eqb].
        rewrite (IH _ rest _ _ Ht' H1' Hseg).
        rewrite <- app_assoc. reflexivity.
      * cbn [is_empty_line negb andb].
        destruct (leading_blanks (c :: l')) as [|k] eqn:Elb.
        -- reflexivity.
        -- cbn [Nat.eqb andb orb Nat.ltb Nat.leb].
           rewrite (IH _ rest _ _ Ht' H1' Hseg).
           rewrite <- app_assoc. reflexivity.
    + cbn [andb orb app].
      rewrite Hlen, (IH _ rest _ _ Ht' H1' Hseg). reflexivity.
Qed.

Lemma skipn_nl_free (l : text) (k : nat) : nl_free l -> nl_free (skipn k l).
Proof.
  intros H Hin. apply H. rewrite <- (firstn_skipn k l). apply in_or_app. right. exact Hin.
Qed.

(** The second loop of Shift-Tab over the lines [seg]. *)
Lemma outdent_erase_lines (t0 : text) (hs : bool) (se : TextIter) (line_start k : nat)
      (ign : list bool) (seg : list text) :
  forall (ls1 rest : list text) (b : Buffer),
    btext b = unlines (ls1 ++ seg ++ rest) ->
    Forall nl_free ls1 -> Forall nl_free seg ->
    (forall j l, nth_error seg j = Some l ->
                 outdent_touches t0 hs se (length ls1 + j) = true ->
                 nth_error ign (length ls1 + j - line_start) = Some (is_empty_line l)) ->
    (forall j l, nth_error seg j = Some l ->
                 outdent_touches t0 hs se (length ls1 + j) = true ->
                 l <> [] -> k <= leading_blanks l) ->
    exists b',
      outdent_erase t0 hs se line_start k ign (length seg) (length ls1) b = Some b'
      /\ btext b' = unlines (ls1 ++ outdent_lines (outdent_touches t0 hs se) k (length ls1) seg
                                 ++ rest).
Proof.
  induction seg as [|l seg IH]; intros ls1 rest b Hb H1 H2 Hign Hk.
  - exists b. split; [reflexivity | exact Hb].
  - pose proof (Forall_inv H2) as Hl. pose proof (Forall_inv_tail H2) as Hseg.
    assert (Hlen : forall x : text, S (length ls1) = length (ls1 ++ [x]))
      by (intros; rewrite length_app; simpl; lia).
    assert (Hshift : forall (x : text) j, length (ls1 ++ [x]) + j = length ls1 + S j)
      by (intros; rewrite length_app; simpl; lia).
    assert (H1' : forall x : text, nl_free x -> Forall nl_free (ls1 ++ [x])).
    { intros x Hx. apply Forall_app. split; [exact H1 | constructor; [exact Hx | constructor]]. }
    cbn [outdent_erase outdent_lines length].
    assert (Hit : get_iter_at_line (btext b) (length ls1) = length (terminated ls1)).
    { rewrite Hb. simpl app. apply get_iter_at_line_unlines. exact H1. }
    rewrite Hit.
    destruct (outdent_touches t0 hs se (length ls1)) eqn:Ht0.
    + assert (Hi0 : nth_error ign (length ls1 - line_start) = Some (is_empty_line l)).
      { specialize (Hign 0 l eq_refl). rewrite Nat.add_0_r in Hign. apply Hign. exact Ht0. }
      rewrite Hi0. cbn [andb].
      destruct l as [|c l'] eqn:El.
      * cbn [is_empty_line negb].
        destruct (IH (ls1 ++ [[]]) rest b) as (b' & Hr & Hb'); auto.
        -- rewrite Hb, <- app_assoc. reflexivity.
        -- intros j x Hx Ht. rewrite Hshift in *. apply (Hign (S j) x Hx Ht).
        -- intros j x Hx Ht. rewrite Hshift in *. apply (Hk (S j) x Hx Ht).
        -- exists b'. rewrite (Hlen []). split; [exact Hr|].
           rewrite Hb', <- app_assoc. reflexivity.
      * rewrite <- El in *. replace (is_empty_line l) with false by (rewrite El; reflexivity).
        cbn [negb].
        assert (Hkl : k <= leading_blanks l).
        { specialize (Hk 0 l eq_refl). rewrite Nat.add_0_r in Hk. apply Hk; [exact Ht0|].
          rewrite El. discriminate. }
        pose proof (leading_blanks_le l) as Hle.
        assert (Hfk : length (firstn k l) = k) by (apply firstn_length_le; lia).
        assert (Et : btext b = terminated ls1 ++ (firstn k l ++ skipn k l)
                                 ++ line_rest (seg ++ rest)).
        { rewrite Hb, firstn_skipn. simpl app. apply unlines_split. }
        assert (Hfc : fst (forward_chars (btext b) (length (terminated ls1)) k)
                      = length (terminated ls1) + length (firstn k l)).
        { unfold forward_chars. cbn [fst]. rewrite Hfk. apply Nat.min_l.
          rewrite Et, !length_app, Hfk. lia. }
        rewrite Hfc.
        set (b1 := buffer_erase b (length (terminated ls1))
                                (length (terminated ls1) + length (firstn k l))).
        assert (Hb1 : btext b1 = unlines ((ls1 ++ [skipn k l]) ++ seg ++ rest)).
        { unfold b1. rewrite btext_buffer_erase, Et.
          rewrite <- (app_assoc (firstn k l)). rewrite text_erase_in_line.
          rewrite <- app_assoc. simpl app. symmetry. apply unlines_split. }
        destruct (IH (ls1 ++ [skipn k l]) rest b1) as (b' & Hr & Hb'); auto.
        -- apply H1'. apply skipn_nl_free. exact Hl.
        -- intros j x Hx Ht. rewrite Hshift in *. apply (Hign (S j) x Hx Ht).
        -- intros j x Hx Ht. rewrite Hshift in *. apply (Hk (S j) x Hx Ht).
        -- exists b'. rewrite (Hlen (skipn k l)). split; [exact Hr|].
           rewrite Hb', <- app_assoc. reflexivity.
    + cbn [andb].
      destruct (IH (ls1 ++ [l]) rest b) as (b' & Hr & Hb'); auto.
      * rewrite Hb, <- app_assoc. reflexivity.
      * intros j x Hx Ht. rewrite Hshift in *. apply (Hign (S j) x Hx Ht).
      * intros j x Hx Ht. rewrite Hshift in *. apply (Hk (S j) x Hx Ht).
      * exists b'. rewrite (Hlen l). split; [exact Hr|].
        rewrite Hb', <- app_assoc. reflexivity.
Qed.

Lemma min_leading_le (touched : nat -> bool) (seg : list text) :
  forall i k0, min_leading touched i seg k0 <= k0.
Proof.
  induction seg as [|l seg IH]; intros i k0; simpl; [lia|].
  destruct (touched i && negb (is_empty_line l)).
  - specialize (IH (S i) (Nat.min k0 (leading_blanks l))). lia.
  - apply IH.
Qed.

Lemma min_leading_bound (touched : nat -> bool) (seg : list text) :
  forall i k0 j l,
    nth_error seg j = Some l -> touched (i + j) = true -> l <> [] ->
    min_leading touched i seg k0 <= leading_blanks l.
Proof.
  induction seg as [|x seg IH]; intros i k0 j l Hj Ht Hl.
  - destruct j; discriminate.
  - destruct j as [|j]; simpl in Hj.
    + inversion Hj; subst x. rewrite Nat.add_0_r in Ht. simpl. rewrite Ht.
      replace (is_empty_line l) with false by (destruct l; [congruence | reflexivity]).
      simpl. pose proof (min_leading_le touched seg (S i) (Nat.min k0 (leading_blanks l))). lia.
    + simpl. apply (IH (S i) _ j l Hj); [|exact Hl].
      replace (S i + j) with (i + S j) by lia. exact Ht.
Qed.

Lemma ignore_entries_nth (touched : nat -> bool) (seg : list text) :
  forall i j l,
    (forall j', j' < j -> touched (i + j') = true) ->
    nth_error seg j = Some l -> touched (i + j) = true ->
    nth_error (ignore_entries touched i seg) j = Some (is_empty_line l).
Proof.
  induction seg as [|x seg IH]; intros i j l Hbefore Hj Ht.
  - destruct j; discriminate.
  - destruct j as [|j]; simpl in Hj.
    + inversion Hj; subst x. rewrite Nat.add_0_r in Ht. simpl. rewrite Ht. reflexivity.
    + assert (H0 : touched i = true).
      { pose proof (Hbefore 0 ltac:(lia)) as H0. rewrite Nat.add_0_r in H0. exact H0. }
      simpl. rewrite H0. simpl. apply (IH (S i) j l); auto.
      * intros j' Hj'. replace (S i + j') with (i + S j') by lia. apply Hbefore. lia.
      * replace (S i + j) with (i + S j) by lia. exact Ht.
Qed.

Lemma length_lines (t : text) : length (lines t) = get_line_count t.
Proof.
  rewrite <- (unlines_lines t) at 2. symmetry.
  apply get_line_count_unlines; [apply lines_nonempty | apply lines_nl_free].
Qed.

Lemma get_line_lt (t : text) (i : nat) : get_line t i < length (lines t).
Proof.
  rewrite length_lines. unfold get_line, get_line_count.
  rewrite <- (firstn_skipn i t) at 2. rewrite count_occ_app. lia.
Qed.

Lemma list_split_at (ls : list text) (i : nat) :
  i < length ls -> exists ls1 l ls2, ls = ls1 ++ l :: ls2 /\ length ls1 = i.
Proof.
  intros Hi. exists (firstn i ls).
  destruct (skipn i ls) as [|l ls2] eqn:E.
  - exfalso. pose proof (length_skipn i ls) as Hs. rewrite E in Hs. simpl in Hs. lia.
  - exists l, ls2. split.
    + rewrite <- E. symmetry. apply firstn_skipn.
    + apply firstn_length_le. lia.
Qed.

Lemma get_line_get_iter_at_line (t : text) (i : nat) :
  i < length (lines t) -> get_line t (get_iter_at_line t i) = i.
Proof.
  intros Hi. destruct (list_split_at (lines t) i Hi) as (ls1 & l & ls2 & E & Hlen).
  pose proof (lines_nl_free t) as Hnl. rewrite E in Hnl.
  apply Forall_app in Hnl as [H1 _].
  rewrite <- (unlines_lines t), E, <- Hlen.
  rewrite get_iter_at_line_unlines by exact H1.
  rewrite unlines_split.
  replace (length (terminated ls1)) with (length (terminated ls1) + length (@nil ascii))
    by (simpl; lia).
  change (l ++ line_rest ls2) with ([] ++ l ++ line_rest ls2).
  rewrite get_line_in_line by auto with lines.
  apply count_terminated. exact H1.
Qed.

(** A line of the range that is not touched is the line on which the
    selection ends. *)
Lemma untouched_is_last (t : text) (hs : bool) (se : TextIter) (i : nat) :
  i < length (lines t) -> outdent_touches t hs se i = false -> i = get_line t se.
Proof.
  intros Hi H. unfold outdent_touches in H.
  apply orb_false_iff in H as [_ H]. apply negb_false_iff, Nat.eqb_eq in H.
  rewrite <- H. symmetry. apply get_line_get_iter_at_line. exact Hi.
Qed.

Lemma outdent_lines_length (touched : nat -> bool) (k : nat) (seg : list text) :
  forall i, length (outdent_lines touched k i seg) = length seg.
Proof. induction seg as [|l seg IH]; intros i; simpl; [|rewrite IH]; reflexivity. Qed.

Lemma outdent_lines_nl_free (touched : nat -> bool) (k : nat) (seg : list text) :
  forall i, Forall nl_free seg -> Forall nl_free (outdent_lines touched k i seg).
Proof.
  induction seg as [|l seg IH]; intros i H; simpl; [constructor|].
  pose proof (Forall_inv H) as Hl. pose proof (Forall_inv_tail H) as Hseg.
  constructor; [|apply IH; exact Hseg].
  destruct (touched i && negb (is_empty_line l)); [apply skipn_nl_free|]; exact Hl.
Qed.

Lemma firstn_all_blank (l : text) (k : nat) :
  k <= leading_blanks l -> forallb is_blank (firstn k l) = true.
Proof.
  revert k. induction l as [|c l IH]; intros k Hk; [destruct k; reflexivity|].
  destruct k as [|k]; [reflexivity|]. simpl in *.
  destruct (is_blank c); [|lia]. simpl. apply IH. lia.
Qed.

(** C5: Shift-Tab over the lines of the selection.  [seg] are the lines
    from the first to the last line of the selection, a line being touched
    unless the selection ends at its very start.  If a touched line that is
    not empty has no leading blank, the handler returns without an edit and
    the text is as before.  Otherwise the lines in front of and behind the
    range stay, and every touched line that is not empty loses its first
    [k] characters, all of them blanks, where [k] is the minimum of the tab
    size and of the leading runs of blanks of these lines. *)
Theorem C5_shift_tab_outdent :
  forall (v : View) (dflt : DefaultHandler) (b : Buffer),
    let t := btext b in
    let selection_start := fst (get_selection_bounds b) in
    let selection_end := snd (get_selection_bounds b) in
    let line_start := get_line t selection_start in
    let line_end := get_line t selection_end in
    let touched := outdent_touches t (get_has_selection b) selection_end in
    let before := firstn line_start (lines t) in
    let seg := firstn (S line_end - line_start) (skipn line_start (lines t)) in
    let after := skipn (S line_end - line_start) (skipn line_start (lines t)) in
    let k := min_leading touched line_start seg (tab_size v) in
    lines t = before ++ seg ++ after
    /\ if has_unindented touched line_start seg
       then on_key_press_event_basic v dflt Key_ShiftTab b
            = Some (end_user_action (begin_user_action b))
       else exists b',
           on_key_press_event_basic v dflt Key_ShiftTab b = Some b'
           /\ lines (btext b') = before ++ outdent_lines touched k line_start seg ++ after
           /\ k <= tab_size v
           /\ (forall j l, nth_error seg j = Some l -> touched (line_start + j) = true ->
                           l <> [] ->
                           k <= leading_blanks l /\ forallb is_blank (firstn k l) = true).
Proof.
  intros v dflt b t selection_start selection_end line_start line_end touched
         before seg after k.
  assert (Hsplit : lines t = before ++ seg ++ after).
  { unfold before, seg, after. rewrite firstn_skipn, firstn_skipn. reflexivity. }
  split; [exact Hsplit|].
  pose proof (lines_nl_free t) as Hnl. rewrite Hsplit in Hnl.
  apply Forall_app in Hnl as [Hnb Hnl]. apply Forall_app in Hnl as [Hns Hna].
  pose proof (get_line_lt t selection_start) as Hls. fold line_start in Hls.
  pose proof (get_line_lt t selection_end) as Hle. fold line_end in Hle.
  assert (Hlb : length before = line_start) by (unfold before; apply firstn_length_le; lia).
  assert (Hlseg : length seg = S line_end - line_start).
  { unfold seg. apply firstn_length_le. rewrite length_skipn. lia. }
  assert (Ht : t = unlines (before ++ seg ++ after)).
  { rewrite <- Hsplit. symmetry. apply unlines_lines. }
  assert (Hscan := outdent_scan_lines (get_has_selection b) selection_end t seg
                     before after (tab_size v) [] Ht Hnb Hns).
  rewrite Hlb, Hlseg in Hscan. fold touched in Hscan. fold k in Hscan.
  unfold on_key_press_event_basic, basic_shift_tab.
  change (btext (begin_user_action b)) with t.
  change (get_has_selection (begin_user_action b)) with (get_has_selection b).
  change (get_selection_bounds (begin_user_action b))
    with (selection_start, selection_end).
  cbv beta iota. fold line_start line_end.
  rewrite Hscan.
  destruct (has_unindented touched line_start seg) eqn:Hun; [reflexivity|].
  cbn [app].
  assert (Hk : forall j l, nth_error seg j = Some l -> touched (line_start + j) = true ->
                           l <> [] -> k <= leading_blanks l).
  { intros j l Hj Htj Hl. unfold k. eapply min_leading_bound; eauto. }
  destruct (outdent_erase_lines t (get_has_selection b) selection_end line_start k
              (ignore_entries touched line_start seg) seg before after (begin_user_action b))
    as (b' & Hr & Hb'); auto.
  - intros j l Hj Htj. rewrite Hlb in *.
    replace (line_start + j - line_start) with j by lia.
    apply ignore_entries_nth; auto.
    intros j' Hj'.
    destruct (touched (line_start + j')) eqn:E; [reflexivity|].
    exfalso. apply untouched_is_last in E.
    + assert (j < length seg) by (apply nth_error_Some; congruence).
      fold line_end in E. lia.
    + assert (j < length seg) by (apply nth_error_Some; congruence). lia.
  - intros j l Hj Htj Hl. rewrite Hlb in *. apply Hk with (j := j); assumption.
  - rewrite Hlb, Hlseg in Hr. fold touched in Hr. rewrite Hr.
    exists (end_user_action b'). split; [reflexivity|].
    cbn [end_user_action btext]. rewrite Hlb in Hb'. fold touched in Hb'.
    split; [|split; [apply min_leading_le|]].
    + rewrite Hb'. apply lines_unlines.
      * intros E. apply (f_equal (@length text)) in E.
        rewrite !length_app, outdent_lines_length in E.
        pose proof (lines_nonempty t) as Hne. rewrite Hsplit in Hne.
        apply Hne. apply length_zero_iff_nil. rewrite !length_app. simpl in E. lia.
      * apply Forall_app. split; [exact Hnb|]. apply Forall_app. split; [|exact Hna].
        apply outdent_lines_nl_free. exact Hns.
    + intros j l Hj Htj Hl. split; [eapply Hk; eauto|].
      apply firstn_all_blank. eapply Hk; eauto.
Qed.

(** ** Comment toggling *)

Lemma comment_prefixes_ok : Forall comment_prefix_ok comment_prefixes.
Proof.
  unfold comment_prefixes.
  repeat constructor;
    try (intros H; simpl in H; repeat destruct H as [H|H]; try discriminate H; exact H);
    eexists; eexists; split; reflexivity.
Qed.

(** The prefix test in the text of a line. *)
Lemma match_comment_in_line (cc : text) :
  forall (a body post : text),
    nl_free body -> line_closed post ->
    match_comment (a ++ body ++ post) cc (length a) = match_comment_line cc body.
Proof.
  induction cc as [|ch more IH]; intros a body post Hb Hpost; [reflexivity|].
  cbn [match_comment match_comment_line].
  destruct body as [|x body'].
  - simpl app. rewrite ends_line_app.
    destruct Hpost as [->|[q ->]]; reflexivity.
  - apply nl_free_cons in Hb as [Hx Hb].
    simpl app. rewrite ends_line_app, deref_app. cbn [hd].
    rewrite (eqb_NL_false x Hx).
    destruct (x =? ch)%char; [|reflexivity].
    rewrite fst_forward_char_app.
    destruct more as [|ch' more'].
    + f_equal. rewrite app_snoc_cons, <- length_snoc with (c := x), deref_app.
      destruct body' as [|y body'']; [|reflexivity].
      simpl. destruct Hpost as [->|[q ->]]; reflexivity.
    + rewrite app_snoc_cons, <- length_snoc with (c := x).
      apply IH; assumption.
Qed.

Lemma leading_blanks_full (l : text) :
  leading_blanks l = length l -> forallb is_blank l = true.
Proof.
  induction l as [|c l IH]; intros H; [reflexivity|]. simpl in *.
  destruct (is_blank c); [|discriminate]. simpl. apply IH. lia.
Qed.

(** The scan of a line from a position inside its indentation. *)
Lemma comment_scan_line_in_line (cc : text) (l2 : text) :
  forall (a post : text) (fuel : nat) (ind : Z),
    nl_free l2 -> line_closed post -> length l2 < fuel ->
    comment_scan_line fuel (a ++ l2 ++ post) cc (length a) ind
    = if leading_blanks l2 =? length l2 then None
      else let (c, e) := match_comment_line cc (skipn (leading_blanks l2) l2) in
           Some ((ind + Z.of_nat (leading_blanks l2))%Z, c, e).
Proof.
  induction l2 as [|x l2 IH]; intros a post fuel ind Hl Hpost Hfuel.
  - destruct fuel; [simpl in Hfuel; lia|]. simpl.
    rewrite ends_line_app. destruct Hpost as [->|[q ->]]; reflexivity.
  - apply nl_free_cons in Hl as [Hx Hl].
    destruct fuel; [simpl in Hfuel; lia|]. simpl in Hfuel.
    cbn [comment_scan_line]. simpl app.
    rewrite ends_line_app, deref_app. cbn [hd]. rewrite (eqb_NL_false x Hx).
    cbn [leading_blanks length].
    destruct (is_blank x) eqn:Bx.
    + rewrite fst_forward_char_app.
      rewrite app_snoc_cons, <- length_snoc with (c := x).
      rewrite IH by (auto; lia).
      cbn [Nat.eqb skipn].
      destruct (leading_blanks l2 =? length l2); [reflexivity|].
      destruct (match_comment_line cc (skipn (leading_blanks l2) l2)).
      do 3 f_equal. lia.
    + cbn [Nat.eqb skipn].
      change (a ++ x :: l2 ++ post) with (a ++ (x :: l2) ++ post).
      rewrite (match_comment_in_line cc a (x :: l2) post)
        by (auto; apply nl_free_cons; split; assumption).
      destruct (match_comment_line cc (x :: l2)). do 3 f_equal. lia.
Qed.

Lemma comment_scan_line_unlines (cc : text) (ls1 ls2 : list text) (l : text) :
  Forall nl_free ls1 -> nl_free l ->
  let t := unlines (ls1 ++ l :: ls2) in
  comment_scan_line (S (length t)) t cc (get_iter_at_line t (length ls1)) 0
  = comment_info cc l.
Proof.
  intros H1 Hl t. unfold t. rewrite get_iter_at_line_unlines by exact H1.
  rewrite unlines_split.
  rewrite comment_scan_line_in_line;
    [ | exact Hl | apply line_rest_closed | rewrite !length_app; lia ].
  unfold comment_info. destruct (leading_blanks l =? length l); reflexivity.
Qed.

(** The scanning loop over the lines [seg]. *)
Lemma comment_scan_loop_lines (cc : text) (t : text) (seg : list text) :
  forall (ls1 rest : list text) (st : CommentScan),
    t = unlines (ls1 ++ seg ++ rest) ->
    Forall nl_free ls1 -> Forall nl_free seg ->
    comment_scan_loop t cc (length seg) (length ls1) st
    = comment_scan_lines cc (length ls1) seg st.
Proof.
  induction seg as [|l seg IH]; intros ls1 rest st Ht H1 H2; [reflexivity|].
  pose proof (Forall_inv H2) as Hl. pose proof (Forall_inv_tail H2) as Hseg.
  cbn [comment_scan_loop comment_scan_lines length].
  assert (Hlen : S (length ls1) = length (ls1 ++ [l])) by (rewrite length_app; simpl; lia).
  assert (Hbody : comment_scan_body t cc (length ls1) st
                  = match comment_info cc l with
                    | None => st
                    | Some (indentation, line_commented, extra_space) =>
                        mkCommentScan (cs_lines st ++ [length ls1])
                          (cs_lines_commented st && line_commented)
                          (cs_extra_spaces st && extra_space)
                          (if (cs_min_indentation st =? -1)%Z
                              || (indentation <? cs_min_indentation st)%Z
                           then indentation else cs_min_indentation st)
                    end).
  { unfold comment_scan_body. rewrite Ht. simpl app.
    rewrite (comment_scan_line_unlines cc ls1 (seg ++ rest) l H1 Hl). reflexivity. }
  rewrite Hbody, Hlen.
  apply (IH (ls1 ++ [l]) rest).
  - rewrite Ht, <- app_assoc. reflexivity.
  - apply Forall_app. split; [exact H1 | constructor; [exact Hl | constructor]].
  - exact Hseg.
Qed.

Lemma fst_forward_char_min (t : text) (iter : TextIter) :
  iter <= length t -> fst (forward_char t iter) = Nat.min (S iter) (length t).
Proof.
  intros H. unfold forward_char. destruct (iter <? length t) eqn:E.
  - apply Nat.ltb_lt in E. cbn [fst]. lia.
  - apply Nat.ltb_ge in E. cbn [fst]. lia.
Qed.

(** The loop that moves the two iterators over the blanks in front of the
    prefix. *)
Lemma uncomment_skip_blanks (w : text) :
  forall (a r : text) (fuel : nat) (ei : TextIter),
    forallb is_blank w = true -> is_blank (hd zero r) = false ->
    length w <= fuel -> ei <= length (a ++ w ++ r) ->
    uncomment_skip fuel (a ++ w ++ r) (length a) ei
    = (length a + length w, Nat.min (ei + length w) (length (a ++ w ++ r))).
Proof.
  induction w as [|x w IH]; intros a r fuel ei Hw Hr Hfuel Hei.
  - simpl app in *. simpl length. rewrite !Nat.add_0_r, Nat.min_l by exact Hei.
    destruct fuel; [reflexivity|]. cbn [uncomment_skip].
    rewrite deref_app, Hr. reflexivity.
  - simpl in Hw. apply andb_true_iff in Hw as [Hx Hw].
    destruct fuel; [simpl in Hfuel; lia|]. simpl in Hfuel.
    cbn [uncomment_skip]. simpl app. rewrite deref_app. cbn [hd]. rewrite Hx.
    rewrite fst_forward_char_app.
    rewrite fst_forward_char_min by (simpl app in Hei; exact Hei).
    simpl app in Hei.
    rewrite app_snoc_cons in *. rewrite <- length_snoc with (c := x).
    rewrite IH; auto; [|lia|lia].
    rewrite length_snoc. f_equal; [simpl; lia|]. simpl length. lia.
Qed.

Lemma leading_blanks_next (l : text) (post : text) :
  line_closed post -> is_blank (hd zero (skipn (leading_blanks l) l ++ post)) = false.
Proof.
  intros Hpost. induction l as [|c l IH]; simpl.
  - destruct Hpost as [->|[q ->]]; reflexivity.
  - destruct (is_blank c) eqn:E; [exact IH | simpl; exact E].
Qed.

Lemma leading_blanks_firstn (l : text) : forallb is_blank (firstn (leading_blanks l) l) = true.
Proof. apply leading_blanks_all_blank. Qed.

Lemma forallb_skipn (f : ascii -> bool) (l : text) (k : nat) :
  forallb f l = true -> forallb f (skipn k l) = true.
Proof.
  intros H. rewrite forallb_forall in *. intros x Hx. apply H.
  rewrite <- (firstn_skipn k l). apply in_or_app. right. exact Hx.
Qed.

(** The edit of one line by [toggle_line]. *)
Lemma toggle_line_text (cc : text) (st : CommentScan) (b : Buffer)
      (ls1 ls2 : list text) (l : text) :
  Forall nl_free ls1 -> nl_free l ->
  btext b = unlines (ls1 ++ l :: ls2) ->
  Z.to_nat (cs_min_indentation st) <= leading_blanks l ->
  (cs_lines_commented st = true ->
   leading_blanks l + length cc + (if cs_extra_spaces st then 1 else 0) <= length l) ->
  btext (toggle_line cc st b (length ls1))
  = unlines (ls1 ++ (if cs_lines_commented st
                     then firstn (leading_blanks l) l
                            ++ skipn (leading_blanks l + length cc
                                      + (if cs_extra_spaces st then 1 else 0)) l
                     else firstn (Z.to_nat (cs_min_indentation st)) l
                            ++ cc ++ [SPACE] ++ skipn (Z.to_nat (cs_min_indentation st)) l)
                   :: ls2).
Proof.
  intros H1 Hl Hb Hm Hc. unfold toggle_line.
  set (m := Z.to_nat (cs_min_indentation st)) in *.
  set (lb := leading_blanks l) in *.
  set (e := if cs_extra_spaces st then 1 else 0) in *.
  set (pre := terminated ls1).
  set (post := line_rest ls2).
  pose proof (leading_blanks_le l) as Hle. fold lb in Hle.
  assert (Et : btext b = pre ++ l ++ post) by (rewrite Hb; apply unlines_split).
  assert (Hit : get_iter_at_line (btext b) (length ls1) = length pre).
  { rewrite Hb. apply get_iter_at_line_unlines. exact H1. }
  assert (Hlen : length (btext b) = length pre + length l + length post).
  { rewrite Et, !length_app. lia. }
  assert (Hfm : length (firstn m l) = m) by (apply firstn_length_le; lia).
  assert (Hiter : fst (forward_chars (btext b) (length pre) m) = length pre + m).
  { unfold forward_chars. cbn [fst]. apply Nat.min_l. lia. }
  rewrite Hit, Hiter.
  rewrite !unlines_split. fold pre post.
  destruct (cs_lines_commented st) eqn:Ecom.
  - specialize (Hc eq_refl).
    assert (Hend : fst (forward_chars (btext b) (length pre + m) (length cc + e))
                   = length pre + m + length cc + e).
    { unfold forward_chars. cbn [fst]. rewrite Nat.min_l by lia. lia. }
    rewrite Hend.
    (* the text split at the minimum indentation and at the indentation *)
    set (w0 := firstn lb l). set (body := skipn lb l).
    assert (El : l = w0 ++ body) by (symmetry; apply firstn_skipn).
    assert (Hw0 : length w0 = lb) by (apply firstn_length_le; exact Hle).
    assert (Hw0b : forallb is_blank w0 = true) by apply leading_blanks_all_blank.
    assert (Esk : btext b = (pre ++ firstn m w0) ++ skipn m w0 ++ (body ++ post)).
    { rewrite Et, El. rewrite <- !app_assoc.
      rewrite (app_assoc (firstn m w0)), firstn_skipn. reflexivity. }
    assert (Hfm0 : length (firstn m w0) = m) by (apply firstn_length_le; lia).
    assert (Hsm0 : length (skipn m w0) = lb - m) by (rewrite length_skipn; lia).
    assert (Hskip : uncomment_skip (length (btext b)) (btext b) (length pre + m)
                                   (length pre + m + length cc + e)
                    = (length pre + lb, length pre + lb + length cc + e)).
    { rewrite Esk at 2.
      replace (length pre + m) with (length (pre ++ firstn m w0)) at 1
        by (rewrite length_app; lia).
      rewrite uncomment_skip_blanks.
      - rewrite <- Esk. rewrite length_app, Hfm0, Hsm0.
        f_equal; [lia|]. apply eq_trans with (length pre + m + length cc + e + (lb - m)); [|lia].
        apply Nat.min_l. lia.
      - apply forallb_skipn. exact Hw0b.
      - apply leading_blanks_next. apply line_rest_closed.
      - lia.
      - rewrite <- Esk. lia. }
    rewrite Hskip. rewrite btext_buffer_erase.
    assert (Eer : btext b = (pre ++ w0) ++ firstn (length cc + e) body
                              ++ (skipn (length cc + e) body ++ post)).
    { rewrite Et, El. rewrite <- !app_assoc.
      rewrite (app_assoc (firstn (length cc + e) body)), firstn_skipn. reflexivity. }
    assert (Hfb : length (firstn (length cc + e) body) = length cc + e).
    { apply firstn_length_le. unfold body. rewrite length_skipn. lia. }
    rewrite Eer.
    replace (length pre + lb) with (length (pre ++ w0)) by (rewrite length_app; lia).
    replace (length (pre ++ w0) + length cc + e)
      with (length (pre ++ w0) + length (firstn (length cc + e) body)) by lia.
    rewrite text_erase_in_line.
    unfold body. rewrite skipn_skipn.
    replace (length cc + e + lb) with (lb + length cc + e) by lia.
    rewrite <- !app_assoc. reflexivity.
  - rewrite btext_buffer_insert.
    assert (Ein : btext b = (pre ++ firstn m l) ++ skipn m l ++ post).
    { rewrite Et. rewrite <- app_assoc, (app_assoc (firstn m l)), firstn_skipn. reflexivity. }
    rewrite Ein.
    replace (length pre + m) with (length (pre ++ firstn m l)) by (rewrite length_app; lia).
    rewrite text_insert_in_line. rewrite <- !app_assoc. reflexivity.
Qed.

Lemma cs_lines_scan (cc : text) (seg : list text) :
  forall i st,
    cs_lines (comment_scan_lines cc i seg st) = cs_lines st ++ counted_indices cc i seg.
Proof.
  induction seg as [|l seg IH]; intros i st; simpl; [rewrite app_nil_r; reflexivity|].
  rewrite IH. unfold counted.
  destruct (comment_info cc l) as [[[ind c] e]|]; simpl.
  - rewrite <- app_assoc. reflexivity.
  - reflexivity.
Qed.

(** The flags after the scan: every counted line is commented, and has the
    extra space, when the flag says so. *)
Lemma cs_flags_scan (cc : text) (seg : list text) :
  forall i st,
    (cs_lines_commented (comment_scan_lines cc i seg st) = true ->
     cs_lines_commented st = true
     /\ forall l ind c e, In l seg -> comment_info cc l = Some (ind, c, e) -> c = true)
    /\ (cs_extra_spaces (comment_scan_lines cc i seg st) = true ->
        cs_extra_spaces st = true
        /\ forall l ind c e, In l seg -> comment_info cc l = Some (ind, c, e) -> e = true).
Proof.
  induction seg as [|l seg IH]; intros i st; simpl.
  - split; intros H; (split; [exact H | intros ? ? ? ? []]).
  - destruct (comment_info cc l) as [[[ind c] e]|] eqn:E.
    + destruct (IH (S i) (mkCommentScan (cs_lines st ++ [i]) (cs_lines_commented st && c)
                                         (cs_extra_spaces st && e)
                                         (if (cs_min_indentation st =? -1)%Z
                                             || (ind <? cs_min_indentation st)%Z
                                          then ind else cs_min_indentation st)))
        as [IH1 IH2].
      split; intros H.
      * destruct (IH1 H) as [H0 Hall]. simpl in H0. apply andb_true_iff in H0 as [Hs Hc].
        split; [exact Hs|]. intros l' ind' c' e' [<-|Hin] Hinfo.
        -- rewrite E in Hinfo. injection Hinfo as E1 E2 E3. rewrite <- E2. exact Hc.
        -- eapply Hall; eauto.
      * destruct (IH2 H) as [H0 Hall]. simpl in H0. apply andb_true_iff in H0 as [Hs He].
        split; [exact Hs|]. intros l' ind' c' e' [<-|Hin] Hinfo.
        -- rewrite E in Hinfo. injection Hinfo as E1 E2 E3. rewrite <- E3. exact He.
        -- eapply Hall; eauto.
    + destruct (IH (S i) st) as [IH1 IH2].
      split; intros H.
      * destruct (IH1 H) as [H0 Hall]. split; [exact H0|].
        intros l' ind' c' e' [<-|Hin] Hinfo; [congruence | eapply Hall; eauto].
      * destruct (IH2 H) as [H0 Hall]. split; [exact H0|].
        intros l' ind' c' e' [<-|Hin] Hinfo; [congruence | eapply Hall; eauto].
Qed.

Lemma cs_flags_scan_true (cc : text) (seg : list text) :
  forall i st,
    cs_lines_commented st = true -> cs_extra_spaces st = true ->
    (forall l ind c e, In l seg -> comment_info cc l = Some (ind, c, e) -> c = true /\ e = true) ->
    cs_lines_commented (comment_scan_lines cc i seg st) = true
    /\ cs_extra_spaces (comment_scan_lines cc i seg st) = true.
Proof.
  induction seg as [|l seg IH]; intros i st Hc He Hall; simpl; [auto|].
  destruct (comment_info cc l) as [[[ind c] e]|] eqn:E.
  - destruct (Hall l ind c e (or_introl eq_refl) E) as [-> ->].
    apply IH; simpl; [rewrite Hc | rewrite He |]; auto.
    intros l' ? ? ? Hin. apply Hall. right. exact Hin.
  - apply IH; auto. intros l' ? ? ? Hin. apply Hall. right. exact Hin.
Qed.

(** The minimum indentation after the scan is at most the indentation of
    every counted line. *)
Lemma cs_min_scan (cc : text) (seg : list text) :
  forall i st,
    (-1 <= cs_min_indentation st)%Z ->
    (-1 <= cs_min_indentation (comment_scan_lines cc i seg st))%Z
    /\ (0 <= cs_min_indentation st ->
        0 <= cs_min_indentation (comment_scan_lines cc i seg st) <= cs_min_indentation st)%Z
    /\ forall l ind c e, In l seg -> comment_info cc l = Some (ind, c, e) ->
                         (0 <= cs_min_indentation (comment_scan_lines cc i seg st) <= ind)%Z.
Proof.
  induction seg as [|l seg IH]; intros i st Hst; simpl.
  - split; [exact Hst|]. split; [lia|]. intros ? ? ? ? [].
  - destruct (comment_info cc l) as [[[ind c] e]|] eqn:E.
    + assert (Hind : (0 <= ind)%Z).
      { unfold comment_info in E. destruct (leading_blanks l =? length l); [discriminate|].
        destruct (match_comment_line cc (skipn (leading_blanks l) l)).
        inversion E; subst. lia. }
      set (st1 := mkCommentScan (cs_lines st ++ [i]) (cs_lines_commented st && c)
                                (cs_extra_spaces st && e)
                                (if (cs_min_indentation st =? -1)%Z
                                    || (ind <? cs_min_indentation st)%Z
                                 then ind else cs_min_indentation st)).
      assert (Hst1 : (0 <= cs_min_indentation st1 <= ind)%Z
                     /\ (0 <= cs_min_indentation st ->
                         cs_min_indentation st1 <= cs_min_indentation st)%Z).
      { unfold st1. cbn [cs_min_indentation].
        destruct (cs_min_indentation st =? -1)%Z eqn:E1; cbn [orb].
        - apply Z.eqb_eq in E1. lia.
        - apply Z.eqb_neq in E1.
          destruct (ind <? cs_min_indentation st)%Z eqn:E2.
          + apply Z.ltb_lt in E2. lia.
          + apply Z.ltb_ge in E2. lia. }
      destruct (IH (S i) st1 ltac:(lia)) as (I1 & I2 & I3).
      split; [exact I1|]. split.
      * intros H0. specialize (I2 ltac:(lia)). lia.
      * intros l' ind' c' e' [<-|Hin] Hinfo.
        -- rewrite E in Hinfo. injection Hinfo as E1 E2 E3.
           specialize (I2 ltac:(lia)). lia.
        -- eapply I3; eauto.
    + destruct (IH (S i) st Hst) as (I1 & I2 & I3).
      split; [exact I1|]. split; [exact I2|].
      intros l' ind' c' e' [<-|Hin] Hinfo; [congruence | eapply I3; eauto].
Qed.

Lemma match_comment_line_true (cc : text) :
  forall body x,
    match_comment_line cc body = (true, x) ->
    exists body', body = cc ++ body' /\ x = (nth 0 body' zero =? SPACE)%char.
Proof.
  induction cc as [|ch more IH]; intros body x H; [discriminate|].
  destruct body as [|y body']; [discriminate|]. cbn [match_comment_line] in H.
  destruct (y =? ch)%char eqn:E; [|discriminate]. apply Ascii.eqb_eq in E. subst y.
  destruct more as [|ch' more'].
  - inversion H; subst. exists body'. split; reflexivity.
  - destruct (IH body' x H) as (b'' & -> & Hx). exists b''. split; [reflexivity | exact Hx].
Qed.

Lemma match_comment_line_prefix (cc r : text) :
  cc <> [] -> match_comment_line cc (cc ++ SPACE :: r) = (true, true).
Proof.
  induction cc as [|ch more IH]; intros Hne; [congruence|].
  cbn [match_comment_line app]. rewrite Ascii.eqb_refl.
  destruct more as [|ch' more']; [reflexivity|]. apply IH. discriminate.
Qed.

Lemma comment_info_counted (cc l : text) (ind : Z) (c e : bool) :
  comment_info cc l = Some (ind, c, e) ->
  ind = Z.of_nat (leading_blanks l) /\ leading_blanks l < length l
  /\ match_comment_line cc (skipn (leading_blanks l) l) = (c, e).
Proof.
  unfold comment_info. intros H.
  destruct (leading_blanks l =? length l) eqn:E; [discriminate|].
  apply Nat.eqb_neq in E. pose proof (leading_blanks_le l).
  destruct (match_comment_line cc (skipn (leading_blanks l) l)) as [c' e'].
  inversion H; subst. repeat split. lia.
Qed.

Lemma toggle_text_nl_free (cc : text) (st : CommentScan) (l : text) :
  nl_free cc -> nl_free l -> nl_free (toggle_text cc st l).
Proof.
  intros Hcc Hl. unfold toggle_text.
  destruct (counted cc l); [|exact Hl].
  destruct (cs_lines_commented st).
  - apply nl_free_app. split; [apply firstn_nl_free | apply skipn_nl_free]; exact Hl.
  - apply nl_free_app. split; [apply firstn_nl_free; exact Hl|].
    apply nl_free_app. split; [exact Hcc|].
    apply nl_free_cons. split; [discriminate | apply skipn_nl_free; exact Hl].
Qed.

(** The loop over the counted lines. *)
Lemma toggle_fold_lines (cc : text) (st : CommentScan) (seg : list text) :
  forall (ls1 rest : list text) (b : Buffer),
    nl_free cc -> Forall nl_free ls1 -> Forall nl_free seg ->
    btext b = unlines (ls1 ++ seg ++ rest) ->
    (forall l, In l seg -> counted cc l = true -> toggle_fits cc st l) ->
    btext (fold_left (toggle_line cc st) (counted_indices cc (length ls1) seg) b)
    = unlines (ls1 ++ map (toggle_text cc st) seg ++ rest).
Proof.
  induction seg as [|l seg IH]; intros ls1 rest b Hcc H1 H2 Hb Hfit; [exact Hb|].
  pose proof (Forall_inv H2) as Hl. pose proof (Forall_inv_tail H2) as Hseg.
  assert (Hlen : forall x : text, S (length ls1) = length (ls1 ++ [x]))
    by (intros; rewrite length_app; simpl; lia).
  assert (H1' : forall x : text, nl_free x -> Forall nl_free (ls1 ++ [x])).
  { intros x Hx. apply Forall_app. split; [exact H1 | constructor; [exact Hx | constructor]]. }
  cbn [counted_indices map]. rewrite fold_left_app.
  assert (Hstep : btext (fold_left (toggle_line cc st)
                                   (if counted cc l then [length ls1] else []) b)
                  = unlines ((ls1 ++ [toggle_text cc st l]) ++ seg ++ rest)).
  { rewrite <- app_assoc. simpl app. unfold toggle_text.
    destruct (counted cc l) eqn:Ec; [|exact Hb].
    cbn [fold_left]. destruct (Hfit l (or_introl eq_refl) Ec) as [Hm Hc].
    apply toggle_line_text; auto. }
  rewrite (Hlen (toggle_text cc st l)).
  rewrite (IH (ls1 ++ [toggle_text cc st l]) rest); auto.
  - rewrite <- app_assoc. reflexivity.
  - apply H1'. apply toggle_text_nl_free; assumption.
  - intros l' Hin. apply Hfit. right. exact Hin.
Qed.

(** After the scan every counted line fits. *)
Lemma scan_toggle_fits (cc : text) (seg : list text) (i : nat) :
  forall l, In l seg -> counted cc l = true ->
            toggle_fits cc (comment_scan_lines cc i seg comment_scan0) l.
Proof.
  intros l Hin Hc. unfold counted in Hc.
  destruct (comment_info cc l) as [[[ind c] e]|] eqn:E; [|discriminate].
  destruct (comment_info_counted cc l ind c e E) as (Hind & Hlt & Hm).
  destruct (cs_min_scan cc seg i comment_scan0 ltac:(simpl; lia)) as (_ & _ & Hmin).
  specialize (Hmin l ind c e Hin E).
  destruct (cs_flags_scan cc seg i comment_scan0) as [Hf1 Hf2].
  split; [lia|]. intros Hcom.
  destruct (Hf1 Hcom) as [_ Hall]. specialize (Hall l ind c e Hin E). subst c.
  destruct (match_comment_line_true cc _ e Hm) as (body' & Hbody & He).
  assert (Hlen : length l = leading_blanks l + length cc + length body').
  { rewrite <- (firstn_skipn (leading_blanks l) l) at 1.
    rewrite length_app, Hbody, length_app, firstn_length_le by lia. lia. }
  destruct (cs_extra_spaces (comment_scan_lines cc i seg comment_scan0)) eqn:Ex; [|lia].
  destruct (Hf2 eq_refl) as [_ Hall2]. specialize (Hall2 l ind true e Hin E).
  rewrite He in Hall2.
  destruct body' as [|y body'']; [discriminate Hall2|]. simpl in Hlen. lia.
Qed.

Lemma uncounted_toggle_text (cc : text) (st : CommentScan) (seg : list text) (i : nat) :
  counted_indices cc i seg = [] -> map (toggle_text cc st) seg = seg.
Proof.
  revert i. induction seg as [|l seg IH]; intros i H; [reflexivity|].
  simpl in H. cbn [map].
  assert (El : toggle_text cc st l = l).
  { unfold toggle_text. destruct (counted cc l); [discriminate | reflexivity]. }
  rewrite El. f_equal. apply (IH (S i)).
  destruct (counted cc l); [discriminate | exact H].
Qed.

(** One application of the toggle to the lines [seg] of a text. *)
Lemma toggle_comments_range_text (cc : text) (b : Buffer) (before seg after : list text) :
  nl_free cc -> Forall nl_free before -> Forall nl_free seg -> seg <> [] ->
  btext b = unlines (before ++ seg ++ after) ->
  btext (toggle_comments_range cc (length before) (length before + length seg - 1) b)
  = unlines (before
               ++ map (toggle_text cc (comment_scan_lines cc (length before) seg comment_scan0)) seg
               ++ after).
Proof.
  intros Hcc Hb1 Hs Hne Hb. unfold toggle_comments_range.
  assert (Hn : S (length before + length seg - 1) - length before = length seg).
  { destruct seg; [congruence | cbn [length]; lia]. }
  rewrite Hn.
  rewrite (comment_scan_loop_lines cc (btext b) seg before after _ Hb Hb1 Hs).
  fold comment_scan0.
  set (st := comment_scan_lines cc (length before) seg comment_scan0).
  assert (Hlines : cs_lines st = counted_indices cc (length before) seg).
  { unfold st. rewrite cs_lines_scan. reflexivity. }
  destruct (cs_lines st) as [|i0 more] eqn:El.
  - rewrite (uncounted_toggle_text cc st seg (length before)) by (symmetry; exact Hlines).
    exact Hb.
  - cbn [end_user_action btext]. rewrite Hlines.
    apply toggle_fold_lines; auto.
    intros l Hin Hc. apply scan_toggle_fits; assumption.
Qed.

Lemma leading_blanks_app (w r : text) :
  forallb is_blank w = true -> leading_blanks (w ++ r) = length w + leading_blanks r.
Proof.
  induction w as [|c w IH]; intros H; [reflexivity|].
  simpl in *. apply andb_true_iff in H as [Hc Hw]. rewrite Hc, IH by exact Hw. reflexivity.
Qed.

(** A counted line with the prefix and a space inserted at a column within
    its indentation. *)
Lemma commented_line_info (cc l : text) (m : nat) :
  comment_prefix_ok cc -> m <= leading_blanks l ->
  let l1 := firstn m l ++ cc ++ [SPACE] ++ skipn m l in
  leading_blanks l1 = m
  /\ comment_info cc l1 = Some (Z.of_nat m, true, true)
  /\ firstn m l1 ++ skipn (m + length cc + 1) l1 = l.
Proof.
  intros (Hnl & c0 & more & Ecc & Hc0) Hm l1.
  pose proof (leading_blanks_le l) as Hle.
  assert (Hfm : length (firstn m l) = m) by (apply firstn_length_le; lia).
  assert (Hbl : forallb is_blank (firstn m l) = true) by (apply firstn_all_blank; exact Hm).
  assert (Hlb : leading_blanks l1 = m).
  { unfold l1. rewrite leading_blanks_app by exact Hbl.
    rewrite Ecc. simpl. rewrite Hc0. lia. }
  assert (Hsk : skipn m l1 = cc ++ SPACE :: skipn m l).
  { unfold l1. rewrite <- Hfm at 1. rewrite skipn_length_app. reflexivity. }
  split; [exact Hlb|]. split.
  - unfold comment_info. rewrite Hlb, Hsk.
    replace (m =? length l1) with false.
    + rewrite match_comment_line_prefix by (rewrite Ecc; discriminate). reflexivity.
    + symmetry. apply Nat.eqb_neq. unfold l1. rewrite !length_app, Hfm, Ecc. simpl. lia.
  - assert (E1 : firstn m l1 = firstn m l).
    { unfold l1. rewrite <- Hfm at 1. apply firstn_length_app. }
    assert (E2 : skipn (m + length cc + 1) l1 = skipn m l).
    { unfold l1. rewrite !app_assoc.
      replace (m + length cc + 1) with (length ((firstn m l ++ cc) ++ [SPACE]))
        by (rewrite !length_app, Hfm; simpl; lia).
      apply skipn_length_app. }
    rewrite E1, E2. apply firstn_skipn.
Qed.

Lemma toggle_text_insert_info (cc : text) (st : CommentScan) (l : text) :
  comment_prefix_ok cc -> cs_lines_commented st = false ->
  (counted cc l = true -> Z.to_nat (cs_min_indentation st) <= leading_blanks l) ->
  forall ind c e, comment_info cc (toggle_text cc st l) = Some (ind, c, e) ->
                  c = true /\ e = true.
Proof.
  intros Hcc Hst Hm ind c e H. unfold toggle_text in H.
  destruct (counted cc l) eqn:Ec.
  - rewrite Hst in H.
    destruct (commented_line_info cc l _ Hcc (Hm eq_refl)) as (_ & Hinfo & _).
    cbv zeta in Hinfo. rewrite Hinfo in H. injection H as _ <- <-. auto.
  - unfold counted in Ec. rewrite H in Ec. discriminate.
Qed.

Lemma toggle_text_round_trip (cc : text) (st st' : CommentScan) (l : text) :
  comment_prefix_ok cc -> cs_lines_commented st = false ->
  (counted cc l = true -> Z.to_nat (cs_min_indentation st) <= leading_blanks l) ->
  cs_lines_commented st' = true -> cs_extra_spaces st' = true ->
  toggle_text cc st' (toggle_text cc st l) = l.
Proof.
  intros Hcc Hst Hm Hc' He'. unfold toggle_text at 2.
  destruct (counted cc l) eqn:Ec.
  - rewrite Hst.
    destruct (commented_line_info cc l _ Hcc (Hm eq_refl)) as (Hlb & Hinfo & Hback).
    cbv zeta in Hlb, Hinfo, Hback. unfold toggle_text, counted.
    rewrite Hinfo, Hc', He', Hlb. exact Hback.
  - unfold toggle_text. rewrite Ec. reflexivity.
Qed.

(** One application of the toggle over the lines [seg], and the second
    application after a first one that inserts. *)
Lemma toggle_comments_range_apply_and_undo :
  forall (cc : text) (b : Buffer) (before seg after : list text),
    comment_prefix_ok cc ->
    Forall nl_free before -> Forall nl_free seg -> seg <> [] ->
    btext b = unlines (before ++ seg ++ after) ->
    let line_start := length before in
    let line_end := length before + length seg - 1 in
    let st := comment_scan_lines cc line_start seg comment_scan0 in
    let b1 := toggle_comments_range cc line_start line_end b in
    btext b1 = unlines (before ++ map (toggle_text cc st) seg ++ after)
    /\ (cs_lines_commented st = false ->
        btext (toggle_comments_range cc line_start line_end b1) = btext b).
Proof.
  intros cc b before seg after Hcc Hb1 Hs Hne Hb line_start line_end st b1.
  subst line_start line_end.
  assert (Hnl : nl_free cc) by (destruct Hcc; assumption).
  assert (H1 : btext b1 = unlines (before ++ map (toggle_text cc st) seg ++ after)).
  { unfold b1, st. apply toggle_comments_range_text; assumption. }
  split; [exact H1|]. intros Hst.
  set (seg' := map (toggle_text cc st) seg) in *.
  assert (Hs' : Forall nl_free seg').
  { unfold seg'. apply Forall_map. eapply Forall_impl; [|exact Hs].
    intros l Hl. apply toggle_text_nl_free; assumption. }
  assert (Hne' : seg' <> []) by (unfold seg'; destruct seg; [congruence | discriminate]).
  assert (Hlen' : length seg' = length seg) by (unfold seg'; apply length_map).
  assert (Hfit : forall l, In l seg -> counted cc l = true ->
                           Z.to_nat (cs_min_indentation st) <= leading_blanks l).
  { intros l Hin Hc. apply (scan_toggle_fits cc seg (length before) l Hin Hc). }
  set (st' := comment_scan_lines cc (length before) seg' comment_scan0).
  assert (Hflags : cs_lines_commented st' = true /\ cs_extra_spaces st' = true).
  { unfold st'. apply cs_flags_scan_true; [reflexivity | reflexivity |].
    intros l' ind c e Hin Hinfo. unfold seg' in Hin. apply in_map_iff in Hin as (l & <- & Hin).
    eapply toggle_text_insert_info; eauto. }
  destruct Hflags as [Hc' He'].
  rewrite <- Hlen'.
  rewrite (toggle_comments_range_text cc b1 before seg' after Hnl Hb1 Hs' Hne' H1).
  fold st'. rewrite Hb. do 2 f_equal.
  unfold seg'. rewrite map_map. rewrite <- (map_id seg) at 2. f_equal.
  apply map_ext_in. intros l Hin.
  apply toggle_text_round_trip; auto.
Qed.

Lemma get_line_mono (t : text) (i j : nat) : i <= j -> get_line t i <= get_line t j.
Proof.
  intros H. unfold get_line.
  replace (firstn i t) with (firstn i (firstn j t))
    by (rewrite firstn_firstn; f_equal; lia).
  rewrite <- (firstn_skipn i (firstn j t)) at 2. rewrite count_occ_app. lia.
Qed.

(** The lines of the selection form a range of lines of the buffer that is
    not empty. *)
Lemma selected_lines_range (b : Buffer) :
  fst (selected_lines b) <= snd (selected_lines b)
  /\ snd (selected_lines b) < length (lines (btext b)).
Proof.
  unfold selected_lines, get_selection_bounds.
  set (ss := Nat.min (insert_mark b) (selection_bound b)).
  set (se := Nat.max (insert_mark b) (selection_bound b)).
  pose proof (get_line_mono (btext b) ss se ltac:(unfold ss, se; lia)) as Hm.
  pose proof (get_line_lt (btext b) se) as Hlt.
  destruct (negb (get_line (btext b) ss =? get_line (btext b) se)
            && starts_line (btext b) se) eqn:E; cbn [fst snd].
  - apply andb_true_iff in E as [E _]. apply negb_true_iff, Nat.eqb_neq in E. lia.
  - lia.
Qed.

(** C7 (as the code has it): one application of the toggle changes, among
    the lines [seg] of the selection, the counted lines only: when not all of
    them carry the prefix, each gets the prefix and one space at the minimum
    indentation of the counted lines; when they all do, each loses the prefix
    and, if every counted line has it, the space behind it.  When the first
    application inserts, a second application over the same lines restores
    the text exactly. *)
Theorem C7_toggle_comments_apply_and_undo :
  forall (cc : text) (b : Buffer),
    comment_prefix_ok cc ->
    let t := btext b in
    let line_start := fst (selected_lines b) in
    let line_end := snd (selected_lines b) in
    let before := firstn line_start (lines t) in
    let seg := firstn (S line_end - line_start) (skipn line_start (lines t)) in
    let after := skipn (S line_end - line_start) (skipn line_start (lines t)) in
    let st := comment_scan_lines cc line_start seg comment_scan0 in
    let b1 := toggle_comments cc b in
    lines t = before ++ seg ++ after
    /\ lines (btext b1) = before ++ map (toggle_text cc st) seg ++ after
    /\ (cs_lines_commented st = false ->
        btext (toggle_comments_range cc line_start line_end b1) = t).
Proof.
  intros cc b Hcc t line_start line_end before seg after st b1.
  destruct (selected_lines_range b) as [Hle Hlt]. fold line_start line_end t in Hle, Hlt.
  assert (Hsplit : lines t = before ++ seg ++ after).
  { unfold before, seg, after. rewrite firstn_skipn, firstn_skipn. reflexivity. }
  pose proof (lines_nl_free t) as Hnl. rewrite Hsplit in Hnl.
  apply Forall_app in Hnl as [Hnb Hnl]. apply Forall_app in Hnl as [Hns Hna].
  assert (Hlb : length before = line_start) by (unfold before; apply firstn_length_le; lia).
  assert (Hlseg : length seg = S line_end - line_start).
  { unfold seg. apply firstn_length_le. rewrite length_skipn. lia. }
  assert (Hne : seg <> []).
  { intros E. rewrite E in Hlseg. cbn [length] in Hlseg. lia. }
  assert (Ht : btext b = unlines (before ++ seg ++ after)).
  { rewrite <- Hsplit. symmetry. apply unlines_lines. }
  assert (Hend : length before + length seg - 1 = line_end) by lia.
  assert (Hb1 : b1 = toggle_comments_range cc line_start line_end b).
  { unfold b1, toggle_comments, line_start, line_end.
    destruct (selected_lines b). reflexivity. }
  destruct (toggle_comments_range_apply_and_undo cc b before seg after Hcc Hnb Hns Hne Ht)
    as [H1 H2].
  rewrite ?Hend, ?Hlb in H1, H2. fold st in H1, H2. rewrite <- Hb1 in H1, H2.
  split; [exact Hsplit|]. split; [|exact H2].
  rewrite H1. apply lines_unlines.
  - destruct before; [destruct seg; [congruence | discriminate] | discriminate].
  - apply Forall_app. split; [exact Hnb|]. apply Forall_app. split; [|exact Hna].
    apply Forall_map. eapply Forall_impl; [|exact Hns].
    intros l Hl. apply toggle_text_nl_free; [destruct Hcc | ]; assumption.
Qed.

Lemma C7_toggle_comments_witness :
  let cc := chars "//" in
  let b := mkBuffer (chars "a" ++ NL :: chars "  b") 0 5 [] in
  let t := btext b in
  let line_start := fst (selected_lines b) in
  let line_end := snd (selected_lines b) in
  let before := firstn line_start (lines t) in
  let seg := firstn (S line_end - line_start) (skipn line_start (lines t)) in
  let after := skipn (S line_end - line_start) (skipn line_start (lines t)) in
  let st := comment_scan_lines cc line_start seg comment_scan0 in
  let b1 := toggle_comments cc b in
  lines t = before ++ seg ++ after
  /\ lines (btext b1) = before ++ map (toggle_text cc st) seg ++ after
  /\ (cs_lines_commented st = false ->
      btext (toggle_comments_range cc line_start line_end b1) = t).
Proof.
  apply (C7_toggle_comments_apply_and_undo
           (chars "//") (mkBuffer (chars "a" ++ NL :: chars "  b") 0 5 [])).
  split.
  - intros H. simpl in H. destruct H as [H|[H|H]]; [discriminate H | discriminate H | exact H].
  - exists "/", ["/"]. split; reflexivity.
Defined.

(** The two applications on the text of the witness: the prefix is put in
    front of both lines and taken away again. *)
Example toggle_comments_twice :
  let b := mkBuffer (chars "a" ++ NL :: chars "  b") 0 5 [] in
  btext (toggle_comments (chars "//") b) = chars "// a" ++ NL :: chars "//   b"
  /\ btext (toggle_comments (chars "//") (toggle_comments (chars "//") b)) = btext b.
Proof. vm_compute. split; reflexivity. Qed.

(** C7 as stated fails: a line commented with two spaces behind the prefix
    loses the prefix and one space, and gets the prefix back one column to
    the right; the line after two applications has the length of the
    original line and differs from it. *)
Lemma C7_round_trip_moves_prefix :
  let cc := chars "//" in
  let b := mkBuffer (chars "//  a") 0 0 [] in
  let b2 := toggle_comments cc (toggle_comments cc b) in
  btext (toggle_comments cc b) = chars " a"
  /\ btext b2 = chars " // a"
  /\ length (btext b2) = length (btext b)
  /\ btext b2 <> btext b
  /\ comment_info cc (btext b) = Some (0%Z, true, true).
Proof. vm_compute. repeat split. discriminate. Qed.

(** ** Tab style detection *)

Lemma hist_incr_Forall {K : Type} (P : K * nat -> Prop) (eqb : K -> K -> bool)
      (k : K) (h : list (K * nat)) :
  Forall P h -> P (k, 1) -> (forall k' n, P (k', n) -> P (k', S n)) ->
  Forall P (hist_incr eqb k h).
Proof.
  intros Hh H1 HS. induction h as [|[k' n] h IH]; simpl.
  - constructor; [exact H1 | constructor].
  - pose proof (Forall_inv Hh) as Hk. pose proof (Forall_inv_tail Hh) as Ht.
    destruct (eqb k k'); constructor; auto.
Qed.

Lemma count_indent_char_ok (s : TabScan) (c : ascii) :
  c = SPACE \/ c = TAB -> tab_hist_ok s -> tab_hist_ok (count_indent_char s c).
Proof.
  intros Hc [H1 H2]. split; [|exact H2]. cbn [count_indent_char set_tab_count set_tab_chars ts_tab_chars].
  apply hist_incr_Forall; [exact H1 | simpl; split; [exact Hc | lia] |].
  simpl. intros k' n [Hk Hn]. split; [exact Hk | lia].
Qed.

Lemma record_tab_size_ok (s : TabScan) : tab_hist_ok s -> tab_hist_ok (record_tab_size s).
Proof.
  intros [H1 H2]. unfold record_tab_size.
  destruct (negb (ts_tab_count s =? ts_last_tab_count s)%Z); [|split; assumption].
  split; [exact H1|]. cbn [set_tab_sizes ts_tab_sizes].
  apply hist_incr_Forall; [exact H2 | simpl; lia | simpl; intros; lia].
Qed.

Lemma record_tab_size_iter (s : TabScan) : ts_iter (record_tab_size s) = ts_iter s.
Proof. unfold record_tab_size. destruct (negb _); reflexivity. Qed.

(** Each part of the two loop bodies keeps the histograms well formed. *)
Lemma bracket_line_start_ok (t : text) (s : TabScan) :
  tab_hist_ok s -> tab_hist_ok (bracket_line_start t s)
                   /\ ts_iter (bracket_line_start t s) = ts_iter s.
Proof.
  intros H. unfold bracket_line_start. destruct (starts_line t (ts_iter s)); split; auto.
Qed.

Lemma get_iter_at_line_next (t : text) :
  forall i, i < length t -> i < get_iter_at_line t (S (get_line t i)).
Proof.
  induction t as [|c t IH]; intros i Hi; [simpl in Hi; lia|].
  destruct i as [|i].
  - simpl. lia.
  - simpl in Hi. unfold get_line. cbn [firstn count_occ].
    fold (get_line t i).
    destruct (ascii_dec c NL) as [->|Hc].
    + cbn [get_iter_at_line]. rewrite Ascii.eqb_refl.
      specialize (IH i ltac:(lia)). lia.
    + cbn [get_iter_at_line]. rewrite (eqb_NL_false c Hc).
      specialize (IH i ltac:(lia)). lia.
Qed.

Lemma bracket_measure_ok (t : text) (s : TabScan) :
  tab_hist_ok s ->
  tab_hist_ok (fst (bracket_measure t s))
  /\ (snd (bracket_measure t s) = false -> ts_iter (fst (bracket_measure t s)) = ts_iter s)
  /\ (snd (bracket_measure t s) = true -> ts_iter s < length t ->
      ts_iter s < ts_iter (fst (bracket_measure t s))).
Proof.
  intros H. unfold bracket_measure.
  assert (Hstay : forall s', tab_hist_ok s' -> ts_iter s' = ts_iter s ->
            tab_hist_ok (fst (s', false))
            /\ (snd (s', false) = false -> ts_iter (fst (s', false)) = ts_iter s)
            /\ (snd (s', false) = true -> ts_iter s < length t ->
                ts_iter s < ts_iter (fst (s', false)))).
  { intros s' Hok Hit. cbn [fst snd]. split; [exact Hok|].
    split; [intros _; exact Hit | intros Hx; discriminate Hx]. }
  destruct (ts_bracket_last_line s && negb (ts_tab_count s =? -1)%Z);
    [|apply Hstay; auto].
  destruct (deref t (ts_iter s) =? SPACE)%char.
  { apply Hstay; [apply count_indent_char_ok; auto | reflexivity]. }
  destruct (deref t (ts_iter s) =? TAB)%char.
  { apply Hstay; [apply count_indent_char_ok; auto | reflexivity]. }
  destruct ((last_line_char_loop (S (length t)) t (ts_iter s) zero =? ":")%char
            || (deref t (ts_iter s) =? "#")%char).
  - destruct (get_line t (ts_iter s) + 1 <? get_line_count t).
    + cbn [fst snd]. split; [exact H|].
      split; [intros Hx; discriminate Hx|].
      intros _ Hlt. cbn [set_iter ts_iter]. rewrite Nat.add_1_r.
      apply get_iter_at_line_next. exact Hlt.
    + apply Hstay; [exact H | reflexivity].
  - destruct (negb (ends_line t (ts_iter s))).
    + apply Hstay; [|apply record_tab_size_iter].
      destruct (record_tab_size_ok s H) as [R1 R2]. split; assumption.
    + apply Hstay; [exact H | reflexivity].
Qed.

Lemma quote_flags_ok (t : text) (s : TabScan) :
  ts_tab_chars (fst (quote_flags t s)) = ts_tab_chars s
  /\ ts_tab_sizes (fst (quote_flags t s)) = ts_tab_sizes s
  /\ ts_iter (fst (quote_flags t s)) = ts_iter s.
Proof.
  unfold quote_flags.
  destruct (negb (ts_double_quoted s) && (deref t (ts_iter s) =? QUOTE)%char
            && quote_toggles t (ts_iter s)); [repeat split|].
  destruct (negb (ts_single_quoted s) && (deref t (ts_iter s) =? DQUOTE)%char
            && quote_toggles t (ts_iter s)); repeat split.
Qed.

Lemma forward_char_progress (t : text) (i : nat) :
  i <= fst (forward_char t i) /\ (i < length t -> i < fst (forward_char t i)).
Proof.
  unfold forward_char. destruct (i <? length t) eqn:E; cbn [fst].
  - split; lia.
  - apply Nat.ltb_ge in E. split; lia.
Qed.

Lemma bracket_lexical_ok (t : text) (s : TabScan) :
  ts_tab_chars (bracket_lexical t s) = ts_tab_chars s
  /\ ts_tab_sizes (bracket_lexical t s) = ts_tab_sizes s
  /\ (ts_iter s < length t -> ts_iter s < ts_iter (bracket_lexical t s)).
Proof.
  unfold bracket_lexical.
  destruct (quote_flags_ok t s) as (Q1 & Q2 & Q3).
  destruct (quote_flags t s) as [s1 neither]. cbn [fst] in Q1, Q2, Q3.
  set (s2 := if neither && negb (ts_single_quoted s1) && negb (ts_double_quoted s1)
             then _ else s1).
  assert (H2 : ts_tab_chars s2 = ts_tab_chars s /\ ts_tab_sizes s2 = ts_tab_sizes s
               /\ ts_iter s <= ts_iter s2
               /\ (ts_iter s2 = ts_iter s
                   \/ ts_iter s2 = fst (forward_char t (fst (forward_char t (ts_iter s)))))).
  { unfold s2.
    destruct (neither && negb (ts_single_quoted s1) && negb (ts_double_quoted s1));
      [|rewrite Q3; auto].
    destruct ((deref t (ts_iter s) =? "/")%char
              && (deref t (fst (forward_char t (ts_iter s))) =? "/")%char);
      [cbn; rewrite Q3; auto|].
    destruct ((deref t (ts_iter s) =? "/")%char
              && (deref t (fst (forward_char t (ts_iter s))) =? "*")%char);
      [cbn; rewrite Q3; auto|].
    destruct ((deref t (ts_iter s) =? "*")%char
              && (deref t (fst (forward_char t (ts_iter s))) =? "/")%char);
      [|rewrite Q3; auto].
    cbn. repeat split; auto.
    pose proof (forward_char_progress t (ts_iter s)).
    pose proof (forward_char_progress t (fst (forward_char t (ts_iter s)))). lia. }
  clearbody s2. destruct H2 as (A1 & A2 & A3 & A4).
  match goal with
  | |- context [if ?c then set_last_char s2 ?x else s2] =>
      set (s3 := if c then set_last_char s2 x else s2)
  end.
  assert (H3 : ts_tab_chars s3 = ts_tab_chars s /\ ts_tab_sizes s3 = ts_tab_sizes s
               /\ ts_iter s3 = ts_iter s2).
  { unfold s3. match goal with |- context [if ?c then _ else _] => destruct c end; auto. }
  clearbody s3. destruct H3 as (B1 & B2 & B3).
  rewrite <- B3.
  match goal with
  | |- context [if ?c then set_last_tab_count s3 ?x else s3] =>
      set (s4 := if c then set_last_tab_count s3 x else s3)
  end.
  assert (H4 : ts_tab_chars s4 = ts_tab_chars s /\ ts_tab_sizes s4 = ts_tab_sizes s
               /\ ts_iter s4 = ts_iter s3).
  { unfold s4. match goal with |- context [if ?c then _ else _] => destruct c end; auto. }
  clearbody s4. destruct H4 as (C1 & C2 & C3).
  match goal with
  | |- context [if ?c then set_tab_count s4 ?x else s4] =>
      set (s5 := if c then set_tab_count s4 x else s4)
  end.
  assert (H5 : ts_tab_chars s5 = ts_tab_chars s /\ ts_tab_sizes s5 = ts_tab_sizes s).
  { unfold s5. match goal with |- context [if ?c then _ else _] => destruct c end; auto. }
  clearbody s5. destruct H5 as (D1 & D2).
  cbn [set_iter ts_tab_chars ts_tab_sizes ts_iter].
  repeat split; auto.
  intros Hlt. rewrite B3.
  pose proof (forward_char_progress t (ts_iter s2)) as [P1 P2].
  destruct A4 as [A4|A4].
  - rewrite A4 in *. apply P2. exact Hlt.
  - pose proof (forward_char_progress t (ts_iter s)) as [P3 P4].
    pose proof (forward_char_progress t (fst (forward_char t (ts_iter s)))) as [P5 P6].
    specialize (P4 Hlt). lia.
Qed.

Lemma plain_measure_ok (t : text) (s : TabScan) :
  tab_hist_ok s ->
  tab_hist_ok (plain_measure t s) /\ ts_iter (plain_measure t s) = ts_iter s.
Proof.
  intros H. unfold plain_measure.
  set (s1 := if starts_line t (ts_iter s) then set_tab_count s 0 else s).
  assert (H1 : tab_hist_ok s1 /\ ts_iter s1 = ts_iter s).
  { unfold s1. destruct (starts_line t (ts_iter s)); split; auto. }
  clearbody s1. destruct H1 as [H1 E1].
  destruct (negb (ts_tab_count s1 =? -1)%Z && (ts_para_count s1 =? 0)%Z
            && negb (ts_single_quoted s1) && negb (ts_double_quoted s1)); [|auto].
  destruct (deref t (ts_iter s) =? SPACE)%char.
  { split; [apply count_indent_char_ok; auto | exact E1]. }
  destruct (deref t (ts_iter s) =? TAB)%char.
  { split; [apply count_indent_char_ok; auto | exact E1]. }
  destruct (negb (ends_line t (ts_iter s))); [|auto].
  split.
  - destruct (record_tab_size_ok s1 H1) as [R1 R2]. split; assumption.
  - cbn [set_last_tab_count ts_iter]. rewrite record_tab_size_iter. exact E1.
Qed.

Lemma plain_lexical_ok (t : text) (s : TabScan) :
  ts_tab_chars (plain_lexical t s) = ts_tab_chars s
  /\ ts_tab_sizes (plain_lexical t s) = ts_tab_sizes s
  /\ (ts_iter s < length t -> ts_iter s < ts_iter (plain_lexical t s)).
Proof.
  unfold plain_lexical.
  destruct (quote_flags_ok t s) as (Q1 & Q2 & Q3).
  destruct (quote_flags t s) as [s1 neither]. cbn [fst] in Q1, Q2, Q3.
  match goal with
  | |- context [set_iter (if ?c5 then set_tab_count ?s2 ?x else ?s2') _] =>
      set (s5 := if c5 then set_tab_count s2 x else s2')
  end.
  assert (H5 : ts_tab_chars s5 = ts_tab_chars s /\ ts_tab_sizes s5 = ts_tab_sizes s).
  { unfold s5.
    repeat match goal with |- context [if ?c then _ else _] => destruct c end; auto. }
  clearbody s5. destruct H5 as (D1 & D2).
  cbn [set_iter ts_tab_chars ts_tab_sizes ts_iter].
  repeat split; auto.
  intros Hlt. apply forward_char_progress. exact Hlt.
Qed.

Lemma tab_hist_ok_same (s s' : TabScan) :
  ts_tab_chars s' = ts_tab_chars s -> ts_tab_sizes s' = ts_tab_sizes s ->
  tab_hist_ok s -> tab_hist_ok s'.
Proof. intros E1 E2 [H1 H2]. split; [rewrite E1 | rewrite E2]; assumption. Qed.

Lemma bracket_scan_body_ok (t : text) (s : TabScan) :
  tab_hist_ok s ->
  tab_hist_ok (bracket_scan_body t s)
  /\ (ts_iter s < length t -> ts_iter s < ts_iter (bracket_scan_body t s)).
Proof.
  intros H. unfold bracket_scan_body.
  destruct (bracket_line_start_ok t s H) as [H1 E1].
  destruct (bracket_measure_ok t (bracket_line_start t s) H1) as (H2 & E2 & P2).
  destruct (bracket_measure t (bracket_line_start t s)) as [s2 continued].
  cbn [fst snd] in *. destruct continued.
  - split; [exact H2|]. intros Hlt. rewrite <- E1. apply P2; [reflexivity | rewrite E1; exact Hlt].
  - destruct (bracket_lexical_ok t s2) as (L1 & L2 & L3).
    split; [eapply tab_hist_ok_same; eauto|].
    intros Hlt. rewrite <- E1, <- (E2 eq_refl). apply L3.
    rewrite (E2 eq_refl), E1. exact Hlt.
Qed.

Lemma plain_scan_body_ok (t : text) (s : TabScan) :
  tab_hist_ok s ->
  tab_hist_ok (plain_scan_body t s)
  /\ (ts_iter s < length t -> ts_iter s < ts_iter (plain_scan_body t s)).
Proof.
  intros H. unfold plain_scan_body.
  destruct (plain_measure_ok t s H) as [H1 E1].
  destruct (plain_lexical_ok t (plain_measure t s)) as (L1 & L2 & L3).
  split; [eapply tab_hist_ok_same; eauto|].
  intros Hlt. rewrite <- E1. apply L3. rewrite E1. exact Hlt.
Qed.

(** The loop ends with the iterator at the end of the document, and the
    histograms stay well formed. *)
Lemma tab_scan_loop_ok (body : TabScan -> TabScan) (t : text) :
  (forall s, tab_hist_ok s ->
             tab_hist_ok (body s) /\ (ts_iter s < length t -> ts_iter s < ts_iter (body s))) ->
  forall fuel s,
    tab_hist_ok s -> length t - ts_iter s <= fuel ->
    tab_hist_ok (tab_scan_loop body fuel t s)
    /\ is_end t (ts_iter (tab_scan_loop body fuel t s)) = true.
Proof.
  intros Hbody. induction fuel as [|fuel IH]; intros s Hs Hfuel.
  - simpl. split; [exact Hs|]. unfold is_end. apply Nat.leb_le. lia.
  - cbn [tab_scan_loop]. destruct (is_end t (ts_iter s)) eqn:E; [auto|].
    unfold is_end in E. apply Nat.leb_gt in E.
    destruct (Hbody s Hs) as [H1 H2]. specialize (H2 E).
    apply IH; [exact H1 | lia].
Qed.

Lemma gather_tab_data_ok (bracket_branch : bool) (t : text) :
  tab_hist_ok (gather_tab_data bracket_branch t)
  /\ is_end t (ts_iter (gather_tab_data bracket_branch t)) = true.
Proof.
  unfold gather_tab_data. apply tab_scan_loop_ok.
  - destruct bracket_branch; [apply bracket_scan_body_ok | apply plain_scan_body_ok].
  - split; constructor.
  - simpl. lia.
Qed.

(** The final loops pick an entry with the highest count. *)
Lemma select_max_spec {K : Type} (entries : list (K * nat)) :
  forall (found : K) (occ : nat),
    (select_max entries found occ = found
     /\ forall k n, In (k, n) entries -> n <= occ)
    \/ (exists n, In (select_max entries found occ, n) entries /\ occ < n
                  /\ forall k' n', In (k', n') entries -> n' <= n).
Proof.
  induction entries as [|[k n] r IH]; intros found occ.
  - left. split; [reflexivity | intros ? ? []].
  - cbn [select_max]. destruct (occ <? n) eqn:E.
    + apply Nat.ltb_lt in E. right.
      destruct (IH k n) as [[Hr Hall]|(n2 & Hin & Hlt & Hall)].
      * exists n. rewrite Hr. split; [left; reflexivity|]. split; [exact E|].
        intros k' n' [Heq|Hin]; [inversion Heq; lia | eapply Hall; eauto].
      * exists n2. split; [right; exact Hin|]. split; [lia|].
        intros k' n' [Heq|Hin']; [inversion Heq; lia | eapply Hall; eauto].
    + apply Nat.ltb_ge in E.
      destruct (IH found occ) as [[Hr Hall]|(n2 & Hin & Hlt & Hall)].
      * left. split; [exact Hr|].
        intros k' n' [Heq|Hin]; [inversion Heq; lia | eapply Hall; eauto].
      * right. exists n2. split; [right; exact Hin|]. split; [exact Hlt|].
        intros k' n' [Heq|Hin']; [inversion Heq; lia | eapply Hall; eauto].
Qed.

Lemma select_max_has_max {K : Type} (entries : list (K * nat)) (found : K) :
  entries <> [] -> Forall (fun p => 1 <= snd p) entries ->
  has_max_count entries (select_max entries found 0).
Proof.
  intros Hne Hpos.
  destruct (select_max_spec entries found 0) as [[_ Hall]|(n & Hin & _ & Hall)].
  - destruct entries as [|[k n] r]; [congruence|].
    pose proof (Forall_inv Hpos) as Hn. simpl in Hn.
    specialize (Hall k n (or_introl eq_refl)). lia.
  - exists n. split; assumption.
Qed.

(** Whatever the order in which the two histograms are enumerated, the
    final loops return a character and a width with the highest counts of
    their histograms, when these are not empty; the scanning loop reads the
    document to its end. *)
Lemma select_tab_char_and_size_most_frequent :
  forall (bracket_branch : bool) (t : text)
         (chars_order : Enumeration ascii) (sizes_order : Enumeration Z),
    enumerates chars_order -> enumerates sizes_order ->
    let s := gather_tab_data bracket_branch t in
    let found := find_tab_char_and_size chars_order sizes_order bracket_branch t in
    is_end t (ts_iter s) = true
    /\ (ts_tab_chars s <> [] ->
        (fst found = SPACE \/ fst found = TAB) /\ has_max_count (ts_tab_chars s) (fst found))
    /\ (ts_tab_sizes s <> [] -> has_max_count (ts_tab_sizes s) (snd found))
    /\ (ts_tab_chars s = [] -> fst found = zero)
    /\ (ts_tab_sizes s = [] -> snd found = 0%Z).
Proof.
  intros bb t co so Hco Hso s found.
  pose proof (Permutation_sym (Hco (ts_tab_chars s))) as Pc.
  pose proof (Permutation_sym (Hso (ts_tab_sizes s))) as Ps.
  unfold found, find_tab_char_and_size. fold s.
  set (ec := co (ts_tab_chars s)) in *. set (es := so (ts_tab_sizes s)) in *.
  destruct (gather_tab_data_ok bb t) as [[Hc Hs] Hend]. fold s in Hc, Hs, Hend.
  assert (Hmax : forall (K : Type) (e h : list (K * nat)) (k : K),
             Permutation e h -> has_max_count e k -> has_max_count h k).
  { intros K e h k P (n & Hin & Hall). exists n. split.
    - eapply Permutation_in; eauto.
    - intros k' n' Hin'. apply (Hall k' n'). eapply Permutation_in; [symmetry|]; eauto. }
  split; [exact Hend|]. split; [|split; [|split]].
  - intros Hne.
    assert (Hne' : ec <> []).
    { intros E. rewrite E in Pc. apply Permutation_nil in Pc. congruence. }
    assert (Hc' : Forall (fun p => (fst p = SPACE \/ fst p = TAB) /\ 1 <= snd p) ec).
    { eapply Permutation_Forall; [symmetry; exact Pc | exact Hc]. }
    assert (Hm : has_max_count ec (fst (select_tab_char_and_size ec es))).
    { unfold select_tab_char_and_size. cbn [fst].
      apply select_max_has_max; [exact Hne'|].
      eapply Forall_impl; [|exact Hc']. intros p [_ Hp]. exact Hp. }
    split; [|eapply Hmax; eauto].
    destruct Hm as (n & Hin & _). rewrite Forall_forall in Hc'.
    destruct (Hc' _ Hin) as [Hk _]. exact Hk.
  - intros Hne.
    assert (Hne' : es <> []).
    { intros E. rewrite E in Ps. apply Permutation_nil in Ps. congruence. }
    assert (Hs' : Forall (fun p : Z * nat => 1 <= snd p) es).
    { eapply Permutation_Forall; [symmetry; exact Ps | exact Hs]. }
    eapply Hmax; [exact Ps|].
    unfold select_tab_char_and_size. cbn [snd].
    apply select_max_has_max; assumption.
  - intros He. rewrite He in Pc. apply Permutation_sym, Permutation_nil in Pc.
    rewrite Pc. reflexivity.
  - intros He. rewrite He in Ps. apply Permutation_sym, Permutation_nil in Ps.
    rewrite Ps. reflexivity.
Qed.

(** The histograms of the documents used below hold one entry at most, so
    the order of enumeration does not matter for them. *)
Lemma enumerates_nil {K : Type} (order : Enumeration K) : enumerates order -> order [] = [].
Proof. intros H. apply Permutation_nil. apply H. Qed.

Lemma enumerates_one {K : Type} (order : Enumeration K) (e : K * nat) :
  enumerates order -> order [e] = [e].
Proof. intros H. apply Permutation_length_1_inv. apply H. Qed.

(** C3 fails on the code: in a document whose only indented line holds
    nothing behind its two spaces, the spaces are counted and no width is
    recorded.  The width histogram is empty, so no width has a highest
    count; the detector returns the space with the width 0, and as the
    character is not 0 the view replaces the configured tab size by 0. *)
Theorem C3_counted_character_without_width :
  forall (chars_order : Enumeration ascii) (sizes_order : Enumeration Z)
         (bracket_branch : bool) (default_tab_char : ascii) (default_tab_size : Z),
    enumerates chars_order -> enumerates sizes_order ->
    let t := chars "f() {" ++ NL :: chars "  " ++ NL :: chars "}" in
    let s := gather_tab_data bracket_branch t in
    let found := find_tab_char_and_size chars_order sizes_order bracket_branch t in
    ts_tab_chars s = [(SPACE, 2)]
    /\ ts_tab_sizes s = []
    /\ found = (SPACE, 0%Z)
    /\ initial_tab_style default_tab_char default_tab_size true found = (SPACE, 0%Z).
Proof.
  intros co so bb dc ds Hco Hso t s found.
  assert (E1 : ts_tab_chars s = [(SPACE, 2)]) by (destruct bb; vm_compute; reflexivity).
  assert (E2 : ts_tab_sizes s = []) by (destruct bb; vm_compute; reflexivity).
  assert (E : found = (SPACE, 0%Z)).
  { unfold found, find_tab_char_and_size. fold t. fold s.
    rewrite E1, E2, (enumerates_one co _ Hco), (enumerates_nil so Hso). reflexivity. }
  rewrite E. repeat split; assumption || reflexivity.
Qed.

Lemma C3_counted_character_without_width_witness :
  let t := chars "f() {" ++ NL :: chars "  " ++ NL :: chars "}" in
  let s := gather_tab_data true t in
  let found := find_tab_char_and_size (fun h => h) (fun h => h) true t in
  ts_tab_chars s = [(SPACE, 2)]
  /\ ts_tab_sizes s = []
  /\ found = (SPACE, 0%Z)
  /\ initial_tab_style TAB 4%Z true found = (SPACE, 0%Z).
Proof.
  apply (C3_counted_character_without_width (fun h => h) (fun h => h) true TAB 4%Z).
  - intros h. apply Permutation_refl.
  - intros h. apply Permutation_refl.
Defined.

(** The detector on a file indented with one tab per level, on a file
    indented with four spaces per level, and on a file without indentation,
    for which the configured style is kept. *)
Example find_tab_char_and_size_tab_1 :
  forall (chars_order : Enumeration ascii) (sizes_order : Enumeration Z),
    enumerates chars_order -> enumerates sizes_order ->
    find_tab_char_and_size chars_order sizes_order true
      (chars "if (x) {" ++ NL :: TAB :: chars "foo();" ++ NL :: chars "}") = (TAB, 1%Z).
Proof.
  intros co so Hco Hso. unfold find_tab_char_and_size.
  set (s := gather_tab_data _ _).
  assert (E1 : ts_tab_chars s = [(TAB, 1)]) by (vm_compute; reflexivity).
  assert (E2 : ts_tab_sizes s = [(1%Z, 1)]) by (vm_compute; reflexivity).
  rewrite E1, E2, (enumerates_one co _ Hco), (enumerates_one so _ Hso). reflexivity.
Qed.

Example find_tab_char_and_size_space_4 :
  forall (chars_order : Enumeration ascii) (sizes_order : Enumeration Z),
    enumerates chars_order -> enumerates sizes_order ->
    find_tab_char_and_size chars_order sizes_order true
      (chars "if (x) {" ++ NL :: chars "    foo();" ++ NL :: chars "}") = (SPACE, 4%Z).
Proof.
  intros co so Hco Hso. unfold find_tab_char_and_size.
  set (s := gather_tab_data _ _).
  assert (E1 : ts_tab_chars s = [(SPACE, 4)]) by (vm_compute; reflexivity).
  assert (E2 : ts_tab_sizes s = [(4%Z, 1)]) by (vm_compute; reflexivity).
  rewrite E1, E2, (enumerates_one co _ Hco), (enumerates_one so _ Hso). reflexivity.
Qed.

Example find_tab_char_and_size_undetermined :
  forall (chars_order : Enumeration ascii) (sizes_order : Enumeration Z),
    enumerates chars_order -> enumerates sizes_order ->
    find_tab_char_and_size chars_order sizes_order false (chars "abc") = (zero, 0%Z)
    /\ initial_tab_style TAB 8 true
         (find_tab_char_and_size chars_order sizes_order false (chars "abc")) = (TAB, 8%Z).
Proof.
  intros co so Hco Hso. unfold find_tab_char_and_size.
  set (s := gather_tab_data _ _).
  assert (E1 : ts_tab_chars s = []) by (vm_compute; reflexivity).
  assert (E2 : ts_tab_sizes s = []) by (vm_compute; reflexivity).
  rewrite E1, E2, (enumerates_nil co Hco), (enumerates_nil so Hso).
  split; reflexivity.
Qed.

(** * Further properties *)

(** ** Carriage returns in a pasted text *)

Lemma replace_carriage_returns_facts :
  forall n s, length s <= n ->
    ~ In CR (replace_carriage_returns s)
    /\ length (replace_carriage_returns s) <= length s
    /\ (~ In CR s -> replace_carriage_returns s = s).
Proof.
  induction n as [|n IH]; intros s Hn.
  - destruct s; [|simpl in Hn; lia]. simpl. repeat split; auto.
  - destruct s as [|c s]; [simpl; repeat split; auto|].
    simpl in Hn. cbn [replace_carriage_returns].
    destruct (c =? CR)%char eqn:Ec.
    + apply Ascii.eqb_eq in Ec. subst c.
      destruct s as [|c' s].
      * repeat split.
        -- intros [H|[]]. discriminate H.
        -- simpl. lia.
        -- intros H. exfalso. apply H. left. reflexivity.
      * destruct (c' =? NL)%char eqn:Ec'.
        -- destruct (IH s) as (H1 & H2 & _); [simpl in Hn; lia|].
           repeat split.
           ++ intros [H|H]; [discriminate H | exact (H1 H)].
           ++ simpl. lia.
           ++ intros H. exfalso. apply H. left. reflexivity.
        -- destruct (IH (c' :: s)) as (H1 & H2 & _); [lia|].
           repeat split.
           ++ intros [H|H]; [discriminate H | exact (H1 H)].
           ++ simpl in *. lia.
           ++ intros H. exfalso. apply H. left. reflexivity.
    + apply Ascii.eqb_neq in Ec.
      destruct (IH s) as (H1 & H2 & H3); [lia|].
      repeat split.
      * intros [H|H]; [congruence | exact (H1 H)].
      * simpl. lia.
      * intros H. f_equal. apply H3. intros H'. apply H. right. exact H'.
Qed.

Lemma replace_carriage_returns_app (u x : text) :
  ~ In CR u -> replace_carriage_returns (u ++ x) = u ++ replace_carriage_returns x.
Proof.
  induction u as [|c u IH]; intros H; [reflexivity|].
  cbn [app replace_carriage_returns].
  destruct (Ascii.eqb_spec c CR) as [E|E].
  - exfalso. apply H. left. exact E.
  - f_equal. apply IH. intros H'. apply H. right. exact H'.
Qed.

(** X1: the loop at the head of [paste] keeps the characters in front of a
    carriage return and turns the carriage return into one newline, together
    with the newline behind it when there is one.  Its result holds no
    carriage return, is not longer than the text, and is left as it is by a
    second run. *)
Theorem replace_carriage_returns_one_newline_each :
  forall (u r : text),
    ~ In CR u ->
    replace_carriage_returns u = u
    /\ replace_carriage_returns (u ++ CR :: NL :: r) = u ++ NL :: replace_carriage_returns r
    /\ (hd_error r <> Some NL ->
        replace_carriage_returns (u ++ CR :: r) = u ++ NL :: replace_carriage_returns r)
    /\ ~ In CR (replace_carriage_returns r)
    /\ length (replace_carriage_returns r) <= length r
    /\ replace_carriage_returns (replace_carriage_returns r) = replace_carriage_returns r.
Proof.
  intros u r Hu.
  destruct (replace_carriage_returns_facts (length r) r (le_n _)) as (H1 & H2 & _).
  split.
  { apply (replace_carriage_returns_facts _ _ (le_n _)). exact Hu. }
  split.
  { rewrite replace_carriage_returns_app by exact Hu. reflexivity. }
  split.
  { intros Hr. rewrite replace_carriage_returns_app by exact Hu. f_equal.
    cbn [replace_carriage_returns]. change (CR =? CR)%char with true. cbv iota.
    destruct r as [|c r']; [reflexivity|].
    destruct (Ascii.eqb_spec c NL) as [E|E]; [|reflexivity].
    exfalso. apply Hr. rewrite E. reflexivity. }
  split; [exact H1|]. split; [exact H2|].
  apply (replace_carriage_returns_facts _ _ (le_n _)). exact H1.
Qed.

Lemma replace_carriage_returns_one_newline_each_witness :
  let u := chars "ab" in
  let r := chars "c" ++ [CR] in
  replace_carriage_returns u = u
  /\ replace_carriage_returns (u ++ CR :: NL :: r) = u ++ NL :: replace_carriage_returns r
  /\ (hd_error r <> Some NL ->
      replace_carriage_returns (u ++ CR :: r) = u ++ NL :: replace_carriage_returns r)
  /\ ~ In CR (replace_carriage_returns r)
  /\ length (replace_carriage_returns r) <= length r
  /\ replace_carriage_returns (replace_carriage_returns r) = replace_carriage_returns r.
Proof.
  apply (replace_carriage_returns_one_newline_each (chars "ab") (chars "c" ++ [CR])).
  intros H. simpl in H. destruct H as [H|[H|H]]; [discriminate H | discriminate H | exact H].
Defined.

(** ** Tokens *)

Lemma deref_end (t : text) (iter : TextIter) : length t <= iter -> deref t iter = zero.
Proof. intros H. unfold deref. apply nth_overflow. exact H. Qed.

Lemma is_token_char_lt (t : text) (iter : TextIter) :
  is_token_char (deref t iter) = true -> iter < length t.
Proof.
  intros H. destruct (Nat.lt_ge_cases iter (length t)) as [L|L]; [exact L|].
  rewrite deref_end in H by exact L. discriminate H.
Qed.

(** The first loop of [get_token]: from a token character the start moves
    back to the first character of the run; from another character it stays
    where it was. *)
Lemma token_start_spec (t : text) :
  forall iter start,
    if is_token_char (deref t iter) then
      token_start t iter start <= iter
      /\ (forall p, token_start t iter start <= p <= iter -> is_token_char (deref t p) = true)
      /\ (token_start t iter start = 0
          \/ is_token_char (deref t (token_start t iter start - 1)) = false)
    else token_start t iter start = start.
Proof.
  induction iter as [|j IH]; intros start.
  - simpl. destruct (is_token_char (deref t 0)) eqn:E; [|reflexivity].
    repeat split; auto. intros p Hp. replace p with 0 by lia. exact E.
  - cbn [token_start]. destruct (is_token_char (deref t (S j))) eqn:E; [|reflexivity].
    specialize (IH (S j)). destruct (is_token_char (deref t j)) eqn:Ej.
    + destruct IH as (H1 & H2 & H3). repeat split; [lia | | exact H3].
      intros p Hp. destruct (Nat.eq_dec p (S j)) as [->|Hne]; [exact E|].
      apply H2. lia.
    + rewrite IH. repeat split; [lia | |].
      * intros p Hp. replace p with (S j) by lia. exact E.
      * right. simpl. rewrite Nat.sub_0_r. exact Ej.
Qed.

(** The second loop: the end moves forward to the first position behind the
    run. *)
Lemma token_end_spec (t : text) :
  forall fuel e, length t - e <= fuel ->
    e <= token_end fuel t e
    /\ (e <= length t -> token_end fuel t e <= length t)
    /\ (forall p, e <= p < token_end fuel t e -> is_token_char (deref t p) = true)
    /\ is_token_char (deref t (token_end fuel t e)) = false.
Proof.
  induction fuel as [|f IH]; intros e Hf.
  - simpl. repeat split; [lia | lia | intros; lia |].
    rewrite deref_end by lia. reflexivity.
  - cbn [token_end]. destruct (is_token_char (deref t e)) eqn:E.
    + pose proof (is_token_char_lt t e E) as L.
      unfold forward_char. nat_test (e <? length t) true.
      destruct (S e <? length t) eqn:L'.
      * destruct (IH (S e)) as (H1 & H2 & H3 & H4); [lia|].
        repeat split; [lia | intros; apply H2; lia | | exact H4].
        intros p Hp. destruct (Nat.eq_dec p e) as [->|Hne]; [exact E|]. apply H3. lia.
      * apply Nat.ltb_ge in L'. repeat split; [lia | lia | |].
        -- intros p Hp. replace p with e by lia. exact E.
        -- rewrite deref_end by lia. reflexivity.
    + repeat split; [lia | lia | intros; lia | exact E].
Qed.

Lemma forallb_get_text (f : ascii -> bool) (t : text) (a b : nat) :
  b <= length t -> (forall p, a <= p < b -> f (deref t p) = true) ->
  forallb f (get_text t a b) = true.
Proof.
  intros Hb H. unfold get_text. apply forallb_forall. intros x Hx.
  apply In_nth with (d := zero) in Hx. destruct Hx as (k & Hk & <-).
  rewrite length_firstn, length_skipn in Hk.
  rewrite nth_firstn. nat_test (k <? b - a) true.
  rewrite nth_skipn. apply H. lia.
Qed.

Lemma last_firstn_deref (t : text) (s : nat) :
  0 < s -> s <= length t -> last (firstn s t) zero = deref t (s - 1).
Proof.
  intros H0 Hs. rewrite <- (firstn_skipn s t) at 2.
  assert (Hl : length (firstn s t) = s) by (apply firstn_length_le; exact Hs).
  destruct (firstn s t) as [|c r] eqn:E using rev_ind; [simpl in Hl; lia|].
  clear IHr. rewrite last_last. rewrite length_snoc in Hl.
  replace (s - 1) with (length r) by lia. rewrite deref_snoc. reflexivity.
Qed.

Lemma hd_skipn_deref (t : text) (e : nat) : hd zero (skipn e t) = deref t e.
Proof.
  unfold deref. revert e. induction t as [|c t IH]; intros [|e]; simpl; auto.
Qed.

Lemma get_text_split (t : text) (a b : nat) :
  a <= b -> b <= length t ->
  t = firstn a t ++ get_text t a b ++ skipn b t /\ length (get_text t a b) = b - a.
Proof.
  intros Hab Hb. unfold get_text. split.
  - rewrite <- (firstn_skipn a t) at 1. f_equal.
    rewrite <- (firstn_skipn (b - a) (skipn a t)) at 1. f_equal.
    rewrite skipn_skipn. f_equal. lia.
  - rewrite length_firstn, length_skipn. lia.
Qed.

(** X2: [get_token] returns the maximal run of identifier characters that
    contains the position: the token holds identifier characters only, the
    position lies in it, and the characters next to it on both sides, if
    any, are not identifier characters.  At a position that does not hold
    an identifier character the token is empty, also when an identifier ends
    right in front of it. *)
Theorem get_token_is_the_maximal_run :
  forall (t : text) (iter : TextIter),
    forallb is_token_char (get_token t iter) = true
    /\ if is_token_char (deref t iter) then
         exists a r,
           t = a ++ get_token t iter ++ r
           /\ length a <= iter < length a + length (get_token t iter)
           /\ is_token_char (last a zero) = false
           /\ is_token_char (hd zero r) = false
       else get_token t iter = [].
Proof.
  intros t iter. unfold get_token.
  pose proof (token_start_spec t iter iter) as Hs.
  destruct (is_token_char (deref t iter)) eqn:E.
  - pose proof (is_token_char_lt t iter E) as L.
    destruct Hs as (S1 & S2 & S3).
    destruct (token_end_spec t (length t) iter ltac:(lia)) as (E1 & E2 & E3 & E4).
    specialize (E2 ltac:(lia)).
    set (s := token_start t iter iter) in *. set (e := token_end (length t) t iter) in *.
    assert (Hlt : iter < e).
    { destruct (Nat.eq_dec e iter) as [Q|Q]; [|lia]. rewrite Q in E4. congruence. }
    split.
    + apply forallb_get_text; [exact E2|]. intros p Hp.
      destruct (Nat.le_gt_cases p iter); [apply S2 | apply E3]; lia.
    + destruct (get_text_split t s e ltac:(lia) E2) as (Ht & Hlen).
      exists (firstn s t), (skipn e t). split; [exact Ht|].
      rewrite Hlen, firstn_length_le by lia. split; [lia|]. split.
      * destruct S3 as [S3|S3]; [rewrite S3; reflexivity|].
        destruct (Nat.eq_dec s 0) as [Q|Q]; [rewrite Q; reflexivity|].
        rewrite last_firstn_deref by lia. exact S3.
      * rewrite hd_skipn_deref. exact E4.
  - rewrite Hs. split.
    + destruct (length t); simpl; rewrite ?E; unfold get_text; rewrite Nat.sub_diag;
        reflexivity.
    + destruct (length t); simpl; rewrite ?E; unfold get_text; rewrite Nat.sub_diag;
        reflexivity.
Qed.

(** ** Double click *)

(** X3: a double click changes neither the text nor the journal and never
    shrinks the selection: its start moves back and its end moves forward
    over identifier characters only, the end stops in front of a character
    that is not one, and so does the start when the selection started on an
    identifier character; otherwise the start stays. *)
Theorem on_button_press_event_extends_selection :
  forall (dflt_button : Buffer -> Buffer) (b : Buffer),
    selection_bound b <= length (btext b) -> insert_mark b <= length (btext b) ->
    let t := btext b in
    let s0 := fst (get_selection_bounds b) in
    let e0 := snd (get_selection_bounds b) in
    let b' := on_button_press_event dflt_button true b in
    btext b' = t /\ journal b' = journal b
    /\ insert_mark b' <= s0 /\ e0 <= selection_bound b' <= length t
    /\ (forall p, insert_mark b' <= p < s0 \/ e0 <= p < selection_bound b' ->
                  is_token_char (deref t p) = true)
    /\ is_token_char (deref t (selection_bound b')) = false
    /\ (if is_token_char (deref t s0)
        then is_token_char (last (firstn (insert_mark b') t) zero) = false
        else insert_mark b' = s0).
Proof.
  intros dflt b Hsb Him t s0 e0 b'.
  unfold b', on_button_press_event, get_selection_bounds, select_range.
  cbn [btext insert_mark selection_bound journal]. fold t.
  unfold s0, e0, get_selection_bounds. cbn [fst snd].
  set (s := Nat.min (insert_mark b) (selection_bound b)).
  set (e := Nat.max (insert_mark b) (selection_bound b)).
  assert (He : e <= length t) by (unfold e, t; lia).
  pose proof (token_start_spec t s s) as Hs.
  destruct (token_end_spec t (length t) e ltac:(lia)) as (E1 & E2 & E3 & E4).
  specialize (E2 He).
  split; [reflexivity|]. split; [reflexivity|].
  destruct (is_token_char (deref t s)) eqn:E.
  - destruct Hs as (S1 & S2 & S3).
    split; [exact S1|]. split; [lia|]. split.
    + intros p [Hp|Hp]; [apply S2 | apply E3]; lia.
    + split; [exact E4|].
      destruct S3 as [S3|S3]; [rewrite S3; reflexivity|].
      destruct (Nat.eq_dec (token_start t s s) 0) as [Q|Q]; [rewrite Q; reflexivity|].
      rewrite last_firstn_deref by (unfold s, t in *; lia). exact S3.
  - rewrite Hs. split; [lia|]. split; [lia|]. split.
    + intros p [Hp|Hp]; [lia | apply E3; lia].
    + split; [exact E4 | reflexivity].
Qed.

Lemma on_button_press_event_extends_selection_witness :
  let b := mkBuffer (chars "x = foo_1;") 6 6 [] in
  let t := btext b in
  let s0 := fst (get_selection_bounds b) in
  let e0 := snd (get_selection_bounds b) in
  let b' := on_button_press_event (fun b => b) true b in
  btext b' = t /\ journal b' = journal b
  /\ insert_mark b' <= s0 /\ e0 <= selection_bound b' <= length t
  /\ (forall p, insert_mark b' <= p < s0 \/ e0 <= p < selection_bound b' ->
                is_token_char (deref t p) = true)
  /\ is_token_char (deref t (selection_bound b')) = false
  /\ (if is_token_char (deref t s0)
      then is_token_char (last (firstn (insert_mark b') t) zero) = false
      else insert_mark b' = s0).
Proof.
  intros b.
  apply (on_button_press_event_extends_selection (fun b => b) b); simpl; lia.
Defined.

Example on_button_press_event_word :
  on_button_press_event (fun b => b) true (mkBuffer (chars "x = foo_1;") 6 6 [])
  = mkBuffer (chars "x = foo_1;") 4 9 []
  /\ on_button_press_event (fun b => b) true (mkBuffer (chars "x = foo_1;") 9 9 [])
     = mkBuffer (chars "x = foo_1;") 9 9 [].
Proof. split; reflexivity. Qed.

(** ** The right brace key *)

Lemma repeat_nl_free (c : ascii) (n : nat) : c <> NL -> nl_free (repeat c n).
Proof. intros Hc H. apply repeat_spec in H. congruence. Qed.

Lemma forallb_repeat_eqb (c : ascii) (n : nat) :
  forallb (fun x => (x =? c)%char) (repeat c n) = true.
Proof. induction n as [|n IH]; simpl; [|rewrite Ascii.eqb_refl, IH]; reflexivity. Qed.

(** X4: typing a right brace behind [n >= tab_size] characters of
    indentation that fill the line up to the cursor takes one tab unit from
    the start of the line and then inserts the brace, in one user action;
    the cursor ends behind the brace. *)
Theorem bracket_brace_right_unindents :
  forall (v : View) (pre post : text) (n : nat) (j : list Event),
    at_line_start pre -> tab_char v <> NL -> tab_size v <= n ->
    let c := length pre + n in
    bracket_brace_right v (mkBuffer (pre ++ repeat (tab_char v) n ++ post) c c j)
    = mkBuffer (pre ++ repeat (tab_char v) (n - tab_size v) ++ "}" :: post)
               (c - tab_size v + 1) (c - tab_size v + 1)
               (j ++ BeginUserAction
                  :: (if tab_size v =? 0 then []
                      else [Erased (length pre) (length pre + tab_size v)])
                  ++ [Inserted (c - tab_size v) ["}"]; EndUserAction]).
Proof.
  intros v pre post n j Hpre Hnl Hts c.
  set (tc := tab_char v) in *. set (ts := tab_size v) in *.
  assert (Hfree : nl_free (repeat tc n)) by (apply repeat_nl_free; exact Hnl).
  assert (Hn : length (repeat tc n) = n) by apply repeat_length.
  assert (Hlb : get_line_before (pre ++ repeat tc n ++ post) c = repeat tc n).
  { unfold c. replace (length pre + n) with (length pre + length (repeat tc n)) by lia.
    apply get_line_before_in_line; assumption. }
  assert (Hgl : get_line (pre ++ repeat tc n ++ post) c = count_occ ascii_dec pre NL).
  { unfold c. replace (length pre + n) with (length pre + length (repeat tc n)) by lia.
    apply get_line_in_line; assumption. }
  unfold bracket_brace_right, begin_user_action.
  cbn [btext insert_mark selection_bound journal]. fold tc ts.
  rewrite Hlb, Hgl.
  rewrite get_iter_at_line_at_line_start by assumption.
  rewrite Hn, forallb_repeat_eqb. nat_test (ts <=? n) true.
  assert (Hfw : fst (forward_chars (pre ++ repeat tc n ++ post) (length pre) ts)
                = length pre + ts).
  { unfold forward_chars. cbn [fst]. rewrite !length_app, Hn. lia. }
  rewrite Hfw.
  assert (Hsplit : repeat tc n = repeat tc ts ++ repeat tc (n - ts)).
  { rewrite <- repeat_app. f_equal. lia. }
  destruct (ts =? 0) eqn:E0.
  - apply Nat.eqb_eq in E0. rewrite E0, Nat.add_0_r, buffer_erase_empty.
    rewrite Nat.sub_0_r.
    replace (pre ++ repeat tc n ++ post) with ((pre ++ repeat tc n) ++ post)
      by (rewrite <- app_assoc; reflexivity).
    replace c with (length (pre ++ repeat tc n)) by (rewrite length_app; lia).
    rewrite insert_at_cursor_at by discriminate.
    unfold end_user_action. cbn [btext insert_mark selection_bound journal].
    rewrite !length_app. cbn [length]. rewrite <- !app_assoc. cbn [app].
    rewrite !Nat.sub_0_r. reflexivity.
  - apply Nat.eqb_neq in E0.
    unfold buffer_erase. cbn [btext insert_mark selection_bound journal].
    rewrite Nat.min_l, Nat.max_r by lia.
    nat_test (length pre =? length pre + ts) false.
    assert (Hm : mark_after_erase (length pre) (length pre + ts) c
                 = length (pre ++ repeat tc (n - ts))).
    { unfold mark_after_erase, c. rewrite length_app, repeat_length.
      nat_test (length pre + n <=? length pre) false.
      destruct (length pre + n <=? length pre + ts) eqn:E1.
      - apply Nat.leb_le in E1. lia.
      - apply Nat.leb_gt in E1. lia. }
    rewrite Hm.
    assert (Ht : text_erase (pre ++ repeat tc n ++ post) (length pre) (length pre + ts)
                 = (pre ++ repeat tc (n - ts)) ++ post).
    { rewrite Hsplit, <- (app_assoc (repeat tc ts)).
      replace (length pre + ts) with (length pre + length (repeat tc ts))
        by (rewrite repeat_length; reflexivity).
      rewrite text_erase_in_line, app_assoc. reflexivity. }
    rewrite Ht, insert_at_cursor_at by discriminate.
    unfold end_user_action. cbn [btext insert_mark selection_bound journal].
    rewrite !length_app, repeat_length. cbn [length].
    rewrite <- !app_assoc. cbn [app].
    replace (c - ts) with (length pre + (n - ts)) by (unfold c; lia).
    reflexivity.
Qed.

Lemma bracket_brace_right_unindents_witness :
  bracket_brace_right (mkView SPACE 2 true true)
    (mkBuffer ([ "{"; NL ] ++ repeat SPACE 4 ++ []) (2 + 4) (2 + 4) [])
  = mkBuffer ([ "{"; NL ] ++ repeat SPACE (4 - 2) ++ [ "}" ]) (2 + 4 - 2 + 1) (2 + 4 - 2 + 1)
             ([] ++ BeginUserAction :: [Erased 2 (2 + 2)]
                 ++ [Inserted (2 + 4 - 2) ["}"]; EndUserAction]).
Proof.
  apply (bracket_brace_right_unindents (mkView SPACE 2 true true) [ "{"; NL ] [] 4 []).
  - right. exists ["{"]. reflexivity.
  - discriminate.
  - simpl. lia.
Defined.

(** ** Matching braces and parentheses *)

Lemma quote_free_spec (t : text) (hl : Highlighter) (a b : nat) :
  quote_free t hl a b = true ->
  forall p, a <= p < b -> plain_context hl p = true -> deref t p <> QUOTE.
Proof.
  unfold quote_free. intros H p Hp Hpl Hq.
  rewrite forallb_forall in H.
  specialize (H p). rewrite Hpl, Hq in H. simpl in H.
  assert (In p (seq a (b - a))) by (apply in_seq; lia).
  specialize (H ltac:(assumption)). discriminate H.
Qed.

Lemma quote_free_sub (t : text) (hl : Highlighter) (a b a' b' : nat) :
  a <= a' -> b' <= b -> quote_free t hl a b = true -> quote_free t hl a' b' = true.
Proof.
  unfold quote_free. intros Ha Hb H. rewrite forallb_forall in *.
  intros p Hp. apply H. apply in_seq. apply in_seq in Hp. lia.
Qed.

Lemma count_plain_snoc (t : text) (hl : Highlighter) (c : ascii) :
  forall n a,
    count_plain t hl c a (S n)
    = count_plain t hl c a n
      + (if plain_context hl (a + n) && (deref t (a + n) =? c)%char then 1 else 0).
Proof.
  induction n as [|n IH]; intros a.
  - cbn [count_plain]. replace (a + 0) with a by lia. lia.
  - change (count_plain t hl c a (S (S n)))
      with ((if plain_context hl a && (deref t a =? c)%char then 1 else 0)
            + count_plain t hl c (S a) (S n)).
    rewrite IH. cbn [count_plain].
    replace (S a + n) with (a + S n) by lia. lia.
Qed.

(** The value of a counted position, from what is known of it. *)
Lemma count_here_not_plain (hl : Highlighter) (t : text) (c : ascii) (p : nat) :
  plain_context hl p = false ->
  (if plain_context hl p && (deref t p =? c)%char then 1 else 0) = 0.
Proof. intros ->. reflexivity. Qed.

Lemma count_here_is (hl : Highlighter) (t : text) (c : ascii) (p : nat) :
  plain_context hl p = true -> deref t p = c ->
  (if plain_context hl p && (deref t p =? c)%char then 1 else 0) = 1.
Proof. intros -> ->. rewrite Ascii.eqb_refl. reflexivity. Qed.

Lemma count_here_other (hl : Highlighter) (t : text) (c : ascii) (p : nat) :
  deref t p <> c ->
  (if plain_context hl p && (deref t p =? c)%char then 1 else 0) = 0.
Proof.
  intros H. apply Ascii.eqb_neq in H. rewrite H, andb_false_r. reflexivity.
Qed.

Lemma count_plain_shift (t : text) (hl : Highlighter) (i : nat) (c : ascii) (k : nat) :
  i < k ->
  count_plain t hl c (S i) (S k - S i)
  = (if plain_context hl (S i) && (deref t (S i) =? c)%char then 1 else 0)
    + count_plain t hl c (S (S i)) (S k - S (S i)).
Proof.
  intros Hk. replace (S k - S i) with (S (S k - S (S i))) by lia. reflexivity.
Qed.

(** The loop of [find_right_bracket_forward] with [cnt] left braces open
    behind it. *)
Lemma frbf_loop_spec (t : text) (hl : Highlighter) :
  forall fuel iter cnt,
    length t - iter <= fuel -> (0 <= cnt)%Z -> quote_free t hl (S iter) (length t) = true ->
    match frbf_loop fuel t hl iter (mkBrace cnt false) with
    | Some f =>
        iter < f < length t /\ deref t f = "}" /\ plain_context hl f = true
        /\ (cnt + Z.of_nat (count_plain t hl "{" (S iter) (f - S iter))
            = Z.of_nat (count_plain t hl "}" (S iter) (f - S iter)))%Z
        /\ forall k, iter < k < f -> plain_context hl k = true -> deref t k = "}" ->
             (Z.of_nat (count_plain t hl "}" (S iter) (k - S iter))
              < cnt + Z.of_nat (count_plain t hl "{" (S iter) (k - S iter)))%Z
    | None =>
        forall k, iter < k < length t -> plain_context hl k = true -> deref t k = "}" ->
             (Z.of_nat (count_plain t hl "}" (S iter) (k - S iter))
              < cnt + Z.of_nat (count_plain t hl "{" (S iter) (k - S iter)))%Z
    end.
Proof.
  induction fuel as [|fuel IH]; intros iter cnt Hfuel Hcnt Hq.
  - simpl. intros k Hk. lia.
  - cbn [frbf_loop]. unfold forward_char.
    destruct (iter <? length t) eqn:L; [|intros k Hk; apply Nat.ltb_ge in L; lia].
    apply Nat.ltb_lt in L.
    destruct (S iter <? length t) eqn:L'; [|intros k Hk; apply Nat.ltb_ge in L'; lia].
    apply Nat.ltb_lt in L'.
    assert (Hq' : quote_free t hl (S (S iter)) (length t) = true)
      by (apply (quote_free_sub t hl (S iter) (length t)); auto).
    unfold brace_step. cbn [count bignore negb].
    destruct (plain_context hl (S iter)) eqn:P.
    + assert (Hnq : deref t (S iter) <> QUOTE)
        by (apply (quote_free_spec t hl (S iter) (length t)); auto; lia).
      apply Ascii.eqb_neq in Hnq. rewrite Hnq.
      destruct (deref t (S iter) =? "}")%char eqn:Ec.
      * apply Ascii.eqb_eq in Ec.
        destruct (cnt =? 0)%Z eqn:E0.
        -- apply Z.eqb_eq in E0. subst cnt. rewrite Nat.sub_diag. simpl.
           repeat split; try lia; auto; intros; lia.
        -- apply Z.eqb_neq in E0.
           specialize (IH (S iter) (cnt - 1)%Z ltac:(lia) ltac:(lia) Hq').
           assert (H1 : forall k, iter < k ->
                     count_plain t hl "}" (S iter) (S k - S iter)
                     = 1 + count_plain t hl "}" (S (S iter)) (S k - S (S iter))).
           { intros k Hk. rewrite (count_plain_shift t hl iter) by exact Hk.
             rewrite count_here_is by assumption. reflexivity. }
           assert (H0 : forall k, iter < k ->
                     count_plain t hl "{" (S iter) (S k - S iter)
                     = count_plain t hl "{" (S (S iter)) (S k - S (S iter))).
           { intros k Hk. rewrite (count_plain_shift t hl iter) by exact Hk.
             rewrite count_here_other by (rewrite Ec; discriminate). reflexivity. }
           destruct (frbf_loop fuel t hl (S iter) (mkBrace (cnt - 1) false)) as [f|].
           ++ destruct IH as (I1 & I2 & I3 & I4 & I5).
              destruct f as [|f']; [lia|].
              repeat split; try lia; auto.
              ** rewrite H1, H0 by lia. lia.
              ** intros k Hk Hpk Hdk. destruct k as [|k']; [lia|].
                 destruct (Nat.eq_dec k' iter) as [->|Hne].
                 --- rewrite Nat.sub_diag. simpl. lia.
                 --- rewrite H1, H0 by lia.
                     specialize (I5 (S k') ltac:(lia) Hpk Hdk). lia.
           ++ intros k Hk Hpk Hdk. destruct k as [|k']; [lia|].
              destruct (Nat.eq_dec k' iter) as [->|Hne].
              ** rewrite Nat.sub_diag. simpl. lia.
              ** rewrite H1, H0 by lia.
                 specialize (IH (S k') ltac:(lia) Hpk Hdk). lia.
      * apply Ascii.eqb_neq in Ec.
        assert (H1 : forall k, iter < k ->
                  count_plain t hl "}" (S iter) (S k - S iter)
                  = count_plain t hl "}" (S (S iter)) (S k - S (S iter))).
        { intros k Hk. rewrite (count_plain_shift t hl iter) by exact Hk.
          rewrite count_here_other by exact Ec. reflexivity. }
        destruct (deref t (S iter) =? "{")%char eqn:Eo.
        -- apply Ascii.eqb_eq in Eo.
           specialize (IH (S iter) (cnt + 1)%Z ltac:(lia) ltac:(lia) Hq').
           assert (H0 : forall k, iter < k ->
                     count_plain t hl "{" (S iter) (S k - S iter)
                     = 1 + count_plain t hl "{" (S (S iter)) (S k - S (S iter))).
           { intros k Hk. rewrite (count_plain_shift t hl iter) by exact Hk.
             rewrite count_here_is by assumption. reflexivity. }
           destruct (frbf_loop fuel t hl (S iter) (mkBrace (cnt + 1) false)) as [f|].
           ++ destruct IH as (I1 & I2 & I3 & I4 & I5).
              destruct f as [|f']; [lia|].
              repeat split; try lia; auto.
              ** rewrite H1, H0 by lia. lia.
              ** intros k Hk Hpk Hdk. destruct k as [|k']; [lia|].
                 destruct (Nat.eq_dec k' iter) as [->|Hne]; [congruence|].
                 rewrite H1, H0 by lia.
                 specialize (I5 (S k') ltac:(lia) Hpk Hdk). lia.
           ++ intros k Hk Hpk Hdk. destruct k as [|k']; [lia|].
              destruct (Nat.eq_dec k' iter) as [->|Hne]; [congruence|].
              rewrite H1, H0 by lia.
              specialize (IH (S k') ltac:(lia) Hpk Hdk). lia.
        -- apply Ascii.eqb_neq in Eo.
           specialize (IH (S iter) cnt ltac:(lia) Hcnt Hq').
           assert (H0 : forall k, iter < k ->
                     count_plain t hl "{" (S iter) (S k - S iter)
                     = count_plain t hl "{" (S (S iter)) (S k - S (S iter))).
           { intros k Hk. rewrite (count_plain_shift t hl iter) by exact Hk.
             rewrite count_here_other by exact Eo. reflexivity. }
           destruct (frbf_loop fuel t hl (S iter) (mkBrace cnt false)) as [f|].
           ++ destruct IH as (I1 & I2 & I3 & I4 & I5).
              destruct f as [|f']; [lia|].
              repeat split; try lia; auto.
              ** rewrite H1, H0 by lia. lia.
              ** intros k Hk Hpk Hdk. destruct k as [|k']; [lia|].
                 destruct (Nat.eq_dec k' iter) as [->|Hne]; [congruence|].
                 rewrite H1, H0 by lia.
                 specialize (I5 (S k') ltac:(lia) Hpk Hdk). lia.
           ++ intros k Hk Hpk Hdk. destruct k as [|k']; [lia|].
              destruct (Nat.eq_dec k' iter) as [->|Hne]; [congruence|].
              rewrite H1, H0 by lia.
              specialize (IH (S k') ltac:(lia) Hpk Hdk). lia.
    + specialize (IH (S iter) cnt ltac:(lia) Hcnt Hq').
      assert (H01 : forall c k, iter < k ->
                count_plain t hl c (S iter) (S k - S iter)
                = count_plain t hl c (S (S iter)) (S k - S (S iter))).
      { intros c k Hk. rewrite (count_plain_shift t hl iter) by exact Hk.
        rewrite count_here_not_plain by exact P. reflexivity. }
      destruct (frbf_loop fuel t hl (S iter) (mkBrace cnt false)) as [f|].
      * destruct IH as (I1 & I2 & I3 & I4 & I5).
        destruct f as [|f']; [lia|].
        repeat split; try lia; auto.
        -- rewrite !H01 by lia. lia.
        -- intros k Hk Hpk Hdk. destruct k as [|k']; [lia|].
           destruct (Nat.eq_dec k' iter) as [->|Hne]; [congruence|].
           rewrite !H01 by lia.
           specialize (I5 (S k') ltac:(lia) Hpk Hdk). lia.
      * intros k Hk Hpk Hdk. destruct k as [|k']; [lia|].
        destruct (Nat.eq_dec k' iter) as [->|Hne]; [congruence|].
        rewrite !H01 by lia.
        specialize (IH (S k') ltac:(lia) Hpk Hdk). lia.
Qed.

(** X5: when no quote character stands in plain context behind the
    starting position, [find_right_bracket_forward] returns the first right
    brace in plain context behind it that has no matching left brace behind
    the starting position: between the two there are as many left as right
    braces, and every right brace in between closes a left brace that comes
    after the start.  It reports not-found exactly when every right brace is
    matched in this way. *)
Theorem find_right_bracket_forward_first_unmatched :
  forall (t : text) (hl : Highlighter) (iter : TextIter),
    quote_free t hl (S iter) (length t) = true ->
    let opens k := count_plain t hl "{" (S iter) (k - S iter) in
    let closes k := count_plain t hl "}" (S iter) (k - S iter) in
    match find_right_bracket_forward t hl iter with
    | Some f =>
        iter < f < length t /\ deref t f = "}" /\ plain_context hl f = true
        /\ opens f = closes f
        /\ forall k, iter < k < f -> plain_context hl k = true -> deref t k = "}" ->
                     closes k < opens k
    | None =>
        forall k, iter < k < length t -> plain_context hl k = true -> deref t k = "}" ->
                  closes k < opens k
    end.
Proof.
  intros t hl iter Hq opens closes. unfold find_right_bracket_forward.
  pose proof (frbf_loop_spec t hl (length t) iter 0%Z ltac:(lia) ltac:(lia) Hq) as H.
  destruct (frbf_loop (length t) t hl iter (mkBrace 0 false)) as [f|].
  - destruct H as (H1 & H2 & H3 & H4 & H5). unfold opens, closes.
    repeat split; try lia; auto.
    intros k Hk Hp Hd. specialize (H5 k Hk Hp Hd). lia.
  - intros k Hk Hp Hd. specialize (H k Hk Hp Hd). unfold opens, closes. lia.
Qed.

Lemma find_right_bracket_forward_first_unmatched_witness :
  let t := chars "{ a { b } c } d" in
  let opens k := count_plain t all_plain "{" 1 (k - 1) in
  let closes k := count_plain t all_plain "}" 1 (k - 1) in
  match find_right_bracket_forward t all_plain 0 with
  | Some f =>
      0 < f < length t /\ deref t f = "}" /\ plain_context all_plain f = true
      /\ opens f = closes f
      /\ forall k, 0 < k < f -> plain_context all_plain k = true -> deref t k = "}" ->
                   closes k < opens k
  | None =>
      forall k, 0 < k < length t -> plain_context all_plain k = true -> deref t k = "}" ->
                closes k < opens k
  end.
Proof.
  apply (find_right_bracket_forward_first_unmatched (chars "{ a { b } c } d") all_plain 0).
  reflexivity.
Defined.

Lemma count_plain_extend (t : text) (hl : Highlighter) (c : ascii) (k j : nat) :
  k < j ->
  count_plain t hl c (S k) (S j - S k)
  = count_plain t hl c (S k) (j - S k)
    + (if plain_context hl j && (deref t j =? c)%char then 1 else 0).
Proof.
  intros Hk. replace (S j - S k) with (S (j - S k)) by lia.
  rewrite count_plain_snoc. replace (S k + (j - S k)) with j by lia. reflexivity.
Qed.

(** The loop of [find_left_bracket_backward] with [cnt] right braces open in
    front of it. *)
Lemma flbb_loop_spec (t : text) (hl : Highlighter) :
  forall iter cnt,
    (0 <= cnt)%Z -> quote_free t hl 0 iter = true ->
    match flbb_loop t hl iter (mkBrace cnt false) with
    | Some f =>
        f < iter /\ deref t f = "{" /\ plain_context hl f = true
        /\ (cnt + Z.of_nat (count_plain t hl "}" (S f) (iter - S f))
            = Z.of_nat (count_plain t hl "{" (S f) (iter - S f)))%Z
        /\ forall k, f < k < iter -> plain_context hl k = true -> deref t k = "{" ->
             (Z.of_nat (count_plain t hl "{" (S k) (iter - S k))
              < cnt + Z.of_nat (count_plain t hl "}" (S k) (iter - S k)))%Z
    | None =>
        forall k, k < iter -> plain_context hl k = true -> deref t k = "{" ->
             (Z.of_nat (count_plain t hl "{" (S k) (iter - S k))
              < cnt + Z.of_nat (count_plain t hl "}" (S k) (iter - S k)))%Z
    end.
Proof.
  induction iter as [|j IH]; intros cnt Hcnt Hq.
  - simpl. intros k Hk. lia.
  - cbn [flbb_loop].
    assert (Hq' : quote_free t hl 0 j = true)
      by (apply (quote_free_sub t hl 0 (S j)); auto).
    unfold brace_step. cbn [count bignore negb].
    destruct (plain_context hl j) eqn:P.
    + assert (Hnq : deref t j <> QUOTE)
        by (apply (quote_free_spec t hl 0 (S j)); auto; lia).
      apply Ascii.eqb_neq in Hnq. rewrite Hnq.
      destruct (deref t j =? "{")%char eqn:Eo.
      * apply Ascii.eqb_eq in Eo.
        destruct (cnt =? 0)%Z eqn:E0.
        -- apply Z.eqb_eq in E0. subst cnt. rewrite Nat.sub_diag. simpl.
           repeat split; try lia; auto; intros; lia.
        -- apply Z.eqb_neq in E0.
           specialize (IH (cnt - 1)%Z ltac:(lia) Hq').
           assert (H1 : forall k, k < j ->
                     count_plain t hl "{" (S k) (S j - S k)
                     = count_plain t hl "{" (S k) (j - S k) + 1).
           { intros k Hk. rewrite count_plain_extend by exact Hk.
             rewrite count_here_is by assumption. reflexivity. }
           assert (H0 : forall k, k < j ->
                     count_plain t hl "}" (S k) (S j - S k)
                     = count_plain t hl "}" (S k) (j - S k)).
           { intros k Hk. rewrite count_plain_extend by exact Hk.
             rewrite count_here_other by (rewrite Eo; discriminate). lia. }
           destruct (flbb_loop t hl j (mkBrace (cnt - 1) false)) as [f|].
           ++ destruct IH as (I1 & I2 & I3 & I4 & I5).
              repeat split; try lia; auto.
              ** rewrite H1, H0 by lia. lia.
              ** intros k Hk Hpk Hdk.
                 destruct (Nat.eq_dec k j) as [->|Hne].
                 --- rewrite Nat.sub_diag. simpl. lia.
                 --- rewrite H1, H0 by lia.
                     specialize (I5 k ltac:(lia) Hpk Hdk). lia.
           ++ intros k Hk Hpk Hdk.
              destruct (Nat.eq_dec k j) as [->|Hne].
              ** rewrite Nat.sub_diag. simpl. lia.
              ** rewrite H1, H0 by lia.
                 specialize (IH k ltac:(lia) Hpk Hdk). lia.
      * apply Ascii.eqb_neq in Eo.
        assert (H1 : forall k, k < j ->
                  count_plain t hl "{" (S k) (S j - S k)
                  = count_plain t hl "{" (S k) (j - S k)).
        { intros k Hk. rewrite count_plain_extend by exact Hk.
          rewrite count_here_other by exact Eo. lia. }
        destruct (deref t j =? "}")%char eqn:Ec.
        -- apply Ascii.eqb_eq in Ec.
           specialize (IH (cnt + 1)%Z ltac:(lia) Hq').
           assert (H0 : forall k, k < j ->
                     count_plain t hl "}" (S k) (S j - S k)
                     = count_plain t hl "}" (S k) (j - S k) + 1).
           { intros k Hk. rewrite count_plain_extend by exact Hk.
             rewrite count_here_is by assumption. reflexivity. }
           destruct (flbb_loop t hl j (mkBrace (cnt + 1) false)) as [f|].
           ++ destruct IH as (I1 & I2 & I3 & I4 & I5).
              repeat split; try lia; auto.
              ** rewrite H1, H0 by lia. lia.
              ** intros k Hk Hpk Hdk.
                 destruct (Nat.eq_dec k j) as [->|Hne]; [congruence|].
                 rewrite H1, H0 by lia.
                 specialize (I5 k ltac:(lia) Hpk Hdk). lia.
           ++ intros k Hk Hpk Hdk.
              destruct (Nat.eq_dec k j) as [->|Hne]; [congruence|].
              rewrite H1, H0 by lia.
              specialize (IH k ltac:(lia) Hpk Hdk). lia.
        -- apply Ascii.eqb_neq in Ec.
           specialize (IH cnt Hcnt Hq').
           assert (H0 : forall k, k < j ->
                     count_plain t hl "}" (S k) (S j - S k)
                     = count_plain t hl "}" (S k) (j - S k)).
           { intros k Hk. rewrite count_plain_extend by exact Hk.
             rewrite count_here_other by exact Ec. lia. }
           destruct (flbb_loop t hl j (mkBrace cnt false)) as [f|].
           ++ destruct IH as (I1 & I2 & I3 & I4 & I5).
              repeat split; try lia; auto.
              ** rewrite H1, H0 by lia. lia.
              ** intros k Hk Hpk Hdk.
                 destruct (Nat.eq_dec k j) as [->|Hne]; [congruence|].
                 rewrite H1, H0 by lia.
                 specialize (I5 k ltac:(lia) Hpk Hdk). lia.
           ++ intros k Hk Hpk Hdk.
              destruct (Nat.eq_dec k j) as [->|Hne]; [congruence|].
              rewrite H1, H0 by lia.
              specialize (IH k ltac:(lia) Hpk Hdk). lia.
    + specialize (IH cnt Hcnt Hq').
      assert (H01 : forall c k, k < j ->
                count_plain t hl c (S k) (S j - S k)
                = count_plain t hl c (S k) (j - S k)).
      { intros c k Hk. rewrite count_plain_extend by exact Hk.
        rewrite count_here_not_plain by exact P. lia. }
      destruct (flbb_loop t hl j (mkBrace cnt false)) as [f|].
      * destruct IH as (I1 & I2 & I3 & I4 & I5).
        repeat split; try lia; auto.
        -- rewrite !H01 by lia. lia.
        -- intros k Hk Hpk Hdk.
           destruct (Nat.eq_dec k j) as [->|Hne]; [congruence|].
           rewrite !H01 by lia.
           specialize (I5 k ltac:(lia) Hpk Hdk). lia.
      * intros k Hk Hpk Hdk.
        destruct (Nat.eq_dec k j) as [->|Hne]; [congruence|].
        rewrite !H01 by lia.
        specialize (IH k ltac:(lia) Hpk Hdk). lia.
Qed.

(** X6: when no quote character stands in plain context in front of the
    starting position, [find_left_bracket_backward] returns the nearest left
    brace in plain context in front of it that is still open there: between
    it and the starting position there are as many right as left braces, and
    every left brace in between is closed before the starting position.  It
    reports not-found exactly when every left brace is closed in this way. *)
Theorem find_left_bracket_backward_nearest_open :
  forall (t : text) (hl : Highlighter) (iter : TextIter),
    quote_free t hl 0 iter = true ->
    let opens k := count_plain t hl "{" (S k) (iter - S k) in
    let closes k := count_plain t hl "}" (S k) (iter - S k) in
    match find_left_bracket_backward t hl iter with
    | Some f =>
        f < iter /\ deref t f = "{" /\ plain_context hl f = true
        /\ opens f = closes f
        /\ forall k, f < k < iter -> plain_context hl k = true -> deref t k = "{" ->
                     opens k < closes k
    | None =>
        forall k, k < iter -> plain_context hl k = true -> deref t k = "{" ->
                  opens k < closes k
    end.
Proof.
  intros t hl iter Hq opens closes. unfold find_left_bracket_backward.
  pose proof (flbb_loop_spec t hl iter 0%Z ltac:(lia) Hq) as H.
  destruct (flbb_loop t hl iter (mkBrace 0 false)) as [f|].
  - destruct H as (H1 & H2 & H3 & H4 & H5). unfold opens, closes.
    repeat split; try lia; auto.
    intros k Hk Hp Hd. specialize (H5 k Hk Hp Hd). lia.
  - intros k Hk Hp Hd. specialize (H k Hk Hp Hd). unfold opens, closes. lia.
Qed.

Lemma find_left_bracket_backward_nearest_open_witness :
  let t := chars "f { a { b } c: " in
  let opens k := count_plain t all_plain "{" (S k) (13 - S k) in
  let closes k := count_plain t all_plain "}" (S k) (13 - S k) in
  match find_left_bracket_backward t all_plain 13 with
  | Some f =>
      f < 13 /\ deref t f = "{" /\ plain_context all_plain f = true
      /\ opens f = closes f
      /\ forall k, f < k < 13 -> plain_context all_plain k = true -> deref t k = "{" ->
                   opens k < closes k
  | None =>
      forall k, k < 13 -> plain_context all_plain k = true -> deref t k = "{" ->
                opens k < closes k
  end.
Proof.
  apply (find_left_bracket_backward_nearest_open (chars "f { a { b } c: ") all_plain 13).
  reflexivity.
Defined.

Lemma count_plain_1_cases (t : text) (hl : Highlighter) (c : ascii) (j : nat) :
  count_plain t hl c j 1 = 0
  \/ (count_plain t hl c j 1 = 1 /\ deref t j = c /\ plain_context hl j = true).
Proof.
  cbn [count_plain]. destruct (plain_context hl j); [|left; reflexivity].
  destruct (deref t j =? c)%char eqn:E; [|left; reflexivity].
  right. apply Ascii.eqb_eq in E. auto.
Qed.

Lemma count_plain_extend1 (t : text) (hl : Highlighter) (c : ascii) (k j : nat) :
  k <= j ->
  count_plain t hl c k (S j - k) = count_plain t hl c k (j - k) + count_plain t hl c j 1.
Proof.
  intros Hk. replace (S j - k) with (S (j - k)) by lia.
  rewrite count_plain_snoc. replace (k + (j - k)) with j by lia.
  cbn [count_plain]. lia.
Qed.

(** The step shared by the two parenthesis scans, outside a character
    literal: each counter moves by the closing minus the opening symbols of
    its kind at the position. *)
Lemma paren_step_counts (t : text) (hl : Highlighter) (j : nat) (c1 c2 : Z) :
  (plain_context hl j = true -> deref t j <> QUOTE) ->
  paren_step t hl j (mkBalance c1 c2 false)
  = mkBalance (c1 + Z.of_nat (count_plain t hl ")" j 1) - Z.of_nat (count_plain t hl "(" j 1))
              (c2 + Z.of_nat (count_plain t hl "]" j 1) - Z.of_nat (count_plain t hl "[" j 1))
              false.
Proof.
  intros Hq. unfold paren_step. cbn [count_plain count1 count2 ignore negb].
  destruct (plain_context hl j) eqn:P; cbn [andb].
  - specialize (Hq eq_refl). apply Ascii.eqb_neq in Hq. rewrite Hq.
    destruct (deref t j =? ")")%char eqn:E1.
    { apply Ascii.eqb_eq in E1. rewrite E1. simpl. f_equal; lia. }
    destruct (deref t j =? "]")%char eqn:E2.
    { apply Ascii.eqb_eq in E2. rewrite E2. simpl. f_equal; lia. }
    destruct (deref t j =? "(")%char eqn:E3.
    { apply Ascii.eqb_eq in E3. rewrite E3. simpl. f_equal; lia. }
    destruct (deref t j =? "[")%char eqn:E4.
    { simpl. f_equal; lia. }
    simpl. f_equal; lia.
  - simpl. f_equal; lia.
Qed.

(** The loop of [find_open_expression_symbol] with the counters at [c1] and
    [c2]. *)
Lemma foes_loop_spec (t : text) (hl : Highlighter) (until_iter : TextIter) :
  forall iter c1 c2,
    (0 <= c1)%Z -> (0 <= c2)%Z ->
    (forall p, p < iter -> (until_iter <= iter -> until_iter <= p) ->
               plain_context hl p = true -> deref t p <> QUOTE) ->
    match foes_loop t hl until_iter iter (mkBalance c1 c2 false) with
    | Some f =>
        f < iter /\ (until_iter <= iter -> until_iter <= f) /\ plain_context hl f = true
        /\ ((deref t f = "("
             /\ (c1 + Z.of_nat (count_plain t hl ")" f (iter - f))
                 - Z.of_nat (count_plain t hl "(" f (iter - f)) = -1)%Z
             /\ (0 <= c2 + Z.of_nat (count_plain t hl "]" f (iter - f))
                      - Z.of_nat (count_plain t hl "[" f (iter - f)))%Z)
            \/ (deref t f = "["
                /\ (c2 + Z.of_nat (count_plain t hl "]" f (iter - f))
                    - Z.of_nat (count_plain t hl "[" f (iter - f)) = -1)%Z
                /\ (0 <= c1 + Z.of_nat (count_plain t hl ")" f (iter - f))
                         - Z.of_nat (count_plain t hl "(" f (iter - f)))%Z))
        /\ forall k, f < k < iter ->
             (0 <= c1 + Z.of_nat (count_plain t hl ")" k (iter - k))
                   - Z.of_nat (count_plain t hl "(" k (iter - k)))%Z
             /\ (0 <= c2 + Z.of_nat (count_plain t hl "]" k (iter - k))
                      - Z.of_nat (count_plain t hl "[" k (iter - k)))%Z
    | None =>
        forall k, k < iter -> (until_iter <= iter -> until_iter <= k) ->
             (0 <= c1 + Z.of_nat (count_plain t hl ")" k (iter - k))
                   - Z.of_nat (count_plain t hl "(" k (iter - k)))%Z
             /\ (0 <= c2 + Z.of_nat (count_plain t hl "]" k (iter - k))
                      - Z.of_nat (count_plain t hl "[" k (iter - k)))%Z
    end.
Proof.
  induction iter as [|j IH]; intros c1 c2 H1 H2 Hq.
  - simpl. intros k Hk. lia.
  - cbn [foes_loop]. destruct (S j =? until_iter) eqn:Eu.
    + apply Nat.eqb_eq in Eu. intros k Hk Hu. lia.
    + apply Nat.eqb_neq in Eu.
      rewrite paren_step_counts by (apply Hq; lia).
      cbn [count1 count2].
      set (a1 := count_plain t hl ")" j 1). set (o1 := count_plain t hl "(" j 1).
      set (a2 := count_plain t hl "]" j 1). set (o2 := count_plain t hl "[" j 1).
      assert (Hext : forall c k, k <= j ->
                count_plain t hl c k (S j - k)
                = count_plain t hl c k (j - k) + count_plain t hl c j 1)
        by (intros; apply count_plain_extend1; assumption).
      assert (Hjj : forall c, count_plain t hl c j (S j - j) = count_plain t hl c j 1)
        by (intros; replace (S j - j) with 1 by lia; reflexivity).
      pose proof (count_plain_1_cases t hl ")" j) as Ca1. fold a1 in Ca1.
      pose proof (count_plain_1_cases t hl "(" j) as Co1. fold o1 in Co1.
      pose proof (count_plain_1_cases t hl "]" j) as Ca2. fold a2 in Ca2.
      pose proof (count_plain_1_cases t hl "[" j) as Co2. fold o2 in Co2.
      destruct (plain_context hl j
                && ((c1 + Z.of_nat a1 - Z.of_nat o1 <? 0)%Z
                    || (c2 + Z.of_nat a2 - Z.of_nat o2 <? 0)%Z)) eqn:Found.
      * apply andb_true_iff in Found as [P Neg].
        split; [lia|]. split; [lia|]. split; [exact P|]. split; [|intros k Hk; lia].
        rewrite !Hjj. fold a1 o1 a2 o2.
        apply orb_true_iff in Neg as [Neg|Neg]; apply Z.ltb_lt in Neg.
        -- left. destruct Co1 as [Co1|(Co1 & D & _)]; [lia|].
           split; [exact D|]. split; [lia|].
           destruct Co2 as [Co2|(_ & D' & _)]; [lia | congruence].
        -- right. destruct Co2 as [Co2|(Co2 & D & _)]; [lia|].
           split; [exact D|]. split; [lia|].
           destruct Co1 as [Co1|(_ & D' & _)]; [lia | congruence].
      * assert (Hnn : (0 <= c1 + Z.of_nat a1 - Z.of_nat o1)%Z
                      /\ (0 <= c2 + Z.of_nat a2 - Z.of_nat o2)%Z).
        { apply andb_false_iff in Found as [P|Neg].
          - destruct Co1 as [Co1|(_ & _ & P')]; [|congruence].
            destruct Co2 as [Co2|(_ & _ & P')]; [|congruence]. lia.
          - apply orb_false_iff in Neg as [N1 N2].
            apply Z.ltb_ge in N1, N2. lia. }
        destruct Hnn as [Hn1 Hn2].
        specialize (IH _ _ Hn1 Hn2).
        assert (Hq' : forall p, p < j -> (until_iter <= j -> until_iter <= p) ->
                        plain_context hl p = true -> deref t p <> QUOTE)
          by (intros p Hp Hu; apply Hq; lia).
        specialize (IH Hq').
        destruct (foes_loop t hl until_iter j _) as [f|].
        -- destruct IH as (I1 & I2 & I3 & I4 & I5).
           split; [lia|]. split; [lia|]. split; [exact I3|]. split.
           ++ rewrite !Hext by lia. fold a1 o1 a2 o2.
              destruct I4 as [(D & E1 & E2)|(D & E1 & E2)]; [left | right];
                (split; [exact D|]; lia).
           ++ intros k Hk. destruct (Nat.eq_dec k j) as [->|Hne].
              ** rewrite !Hjj. fold a1 o1 a2 o2. lia.
              ** rewrite !Hext by lia. fold a1 o1 a2 o2.
                 specialize (I5 k ltac:(lia)). lia.
        -- intros k Hk Hu. destruct (Nat.eq_dec k j) as [->|Hne].
           ++ rewrite !Hjj. fold a1 o1 a2 o2. lia.
           ++ rewrite !Hext by lia. fold a1 o1 a2 o2.
              specialize (IH k ltac:(lia) ltac:(lia)). lia.
Qed.

(** X7: when no quote character stands in plain context between
    [until_iter] and the starting position, [find_open_expression_symbol]
    returns the nearest left parenthesis or left square bracket in plain
    context, not in front of [until_iter], that is still open at the
    starting position: up to there its kind has one more opening than
    closing symbol, and nowhere in between does either kind have more
    opening than closing symbols.  It reports not-found when neither kind
    is open anywhere in the range. *)
Theorem find_open_expression_symbol_nearest_open :
  forall (t : text) (hl : Highlighter) (iter until_iter : TextIter),
    until_iter <= iter -> quote_free t hl until_iter iter = true ->
    let opens c k := count_plain t hl c k (iter - k) in
    match find_open_expression_symbol t hl iter until_iter with
    | Some f =>
        until_iter <= f < iter /\ plain_context hl f = true
        /\ ((deref t f = "(" /\ opens "(" f = opens ")" f + 1 /\ opens "[" f <= opens "]" f)
            \/ (deref t f = "[" /\ opens "[" f = opens "]" f + 1
                /\ opens "(" f <= opens ")" f))
        /\ forall k, f < k < iter -> opens "(" k <= opens ")" k /\ opens "[" k <= opens "]" k
    | None =>
        forall k, until_iter <= k < iter ->
                  opens "(" k <= opens ")" k /\ opens "[" k <= opens "]" k
    end.
Proof.
  intros t hl iter until_iter Hu Hq opens. unfold find_open_expression_symbol, balance0.
  assert (Hq' : forall p, p < iter -> (until_iter <= iter -> until_iter <= p) ->
                  plain_context hl p = true -> deref t p <> QUOTE).
  { intros p Hp Hup. apply (quote_free_spec t hl until_iter iter Hq). split; auto. }
  pose proof (foes_loop_spec t hl until_iter iter 0%Z 0%Z ltac:(lia) ltac:(lia) Hq') as H.
  destruct (foes_loop t hl until_iter iter (mkBalance 0 0 false)) as [f|].
  - destruct H as (H1 & H2 & H3 & H4 & H5). unfold opens.
    split; [split; [apply H2; exact Hu | exact H1]|]. split; [exact H3|]. split.
    + destruct H4 as [(D & E1 & E2)|(D & E1 & E2)]; [left | right];
        (split; [exact D|]; lia).
    + intros k Hk. specialize (H5 k Hk). lia.
  - intros k Hk. specialize (H k ltac:(lia) ltac:(lia)). unfold opens. lia.
Qed.

Lemma find_open_expression_symbol_nearest_open_witness :
  let t := chars "  f(a[1], g(b)," in
  let opens c k := count_plain t all_plain c k (15 - k) in
  match find_open_expression_symbol t all_plain 15 2 with
  | Some f =>
      2 <= f < 15 /\ plain_context all_plain f = true
      /\ ((deref t f = "(" /\ opens "(" f = opens ")" f + 1 /\ opens "[" f <= opens "]" f)
          \/ (deref t f = "[" /\ opens "[" f = opens "]" f + 1
              /\ opens "(" f <= opens ")" f))
      /\ forall k, f < k < 15 -> opens "(" k <= opens ")" k /\ opens "[" k <= opens "]" k
  | None =>
      forall k, 2 <= k < 15 -> opens "(" k <= opens ")" k /\ opens "[" k <= opens "]" k
  end.
Proof.
  apply (find_open_expression_symbol_nearest_open (chars "  f(a[1], g(b),") all_plain 15 2).
  - lia.
  - reflexivity.
Defined.

(** ** The history of an entry *)

Lemma text_eqb_eq (a b : text) : text_eqb a b = true <-> a = b.
Proof.
  unfold text_eqb. destruct (list_eq_dec ascii_dec a b); split; auto; discriminate.
Qed.

Lemma text_eqb_refl (a : text) : text_eqb a a = true.
Proof. apply text_eqb_eq. reflexivity. Qed.

Lemma text_eqb_neq (a b : text) : text_eqb a b = false <-> a <> b.
Proof.
  unfold text_eqb. destruct (list_eq_dec ascii_dec a b); split; auto; try discriminate.
  intros H. congruence.
Qed.

(** Reading [entry_histories] after a change through a reference. *)
Lemma history_of_update (f : list text -> list text) (k k' : text) (h : Histories) :
  history_of (histories_update f k h) k'
  = if text_eqb k' k then f (history_of h k) else history_of h k'.
Proof.
  unfold history_of. induction h as [|[k0 v] r IH]; simpl.
  - destruct (text_eqb k' k); reflexivity.
  - destruct (text_eqb k k0) eqn:E.
    + apply text_eqb_eq in E. subst k0. simpl.
      rewrite ?text_eqb_refl. destruct (text_eqb k' k); reflexivity.
    + simpl. destruct (text_eqb k' k0) eqn:E'.
      * apply text_eqb_eq in E'. subst k0.
        assert (Hne : text_eqb k' k = false).
        { apply text_eqb_neq. apply text_eqb_neq in E. congruence. }
        rewrite Hne. reflexivity.
      * exact IH.
Qed.

Lemma history_of_touch (k k' : text) (h : Histories) :
  history_of (histories_update (fun v => v) k h) k' = history_of h k'.
Proof.
  rewrite history_of_update. destruct (text_eqb k' k) eqn:E; [|reflexivity].
  apply text_eqb_eq in E. subst. reflexivity.
Qed.

(** One event: the handler does not leave the history, the entry stays in
    bounds, and every history keeps its old content behind what is added. *)
Lemma entry_step_in_bounds (ev : EntryEvent) (h : Histories) (e : Entry) :
  entry_in_bounds h e ->
  exists h' e',
    entry_step ev h e = Some (h', e')
    /\ entry_in_bounds h' e'
    /\ placeholder_text e' = placeholder_text e
    /\ forall k, exists added, history_of h' k = added ++ history_of h k.
Proof.
  intros Hb. destruct ev as [s| |key]; cbn [entry_step].
  - eexists _, _. split; [reflexivity|]. split; [exact Hb|]. split; [reflexivity|].
    intros k. exists []. reflexivity.
  - unfold entry_activate. destruct (on_activate_set e) eqn:Ea; cbn [fst].
    + eexists _, _. split; [reflexivity|]. split; [left; reflexivity|].
      split; [reflexivity|].
      intros k. rewrite history_of_update. destruct (text_eqb k (placeholder_text e)) eqn:E.
      * apply text_eqb_eq in E. subst k.
        destruct (_ || _); [exists [entry_text e] | exists []]; reflexivity.
      * exists []. reflexivity.
    + eexists _, _. split; [reflexivity|]. split; [exact Hb|]. split; [reflexivity|].
      intros k. exists []. reflexivity.
  - assert (Hk : forall k, exists added : list text,
               history_of (histories_update (fun v => v) (placeholder_text e) h) k
               = added ++ history_of h k)
      by (intros k; exists []; rewrite history_of_touch; reflexivity).
    destruct key; cbn [entry_key_press].
    + rewrite history_of_touch.
      set (H := history_of h (placeholder_text e)) in *.
      destruct (0 <? length H) eqn:E0.
      * apply Nat.ltb_lt in E0.
        set (sel := if length H <=? S (selected_history e)
                    then length H - 1 else S (selected_history e)).
        assert (Hsel : sel < length H).
        { unfold sel. destruct (length H <=? S (selected_history e)) eqn:E1.
          - lia.
          - apply Nat.leb_gt in E1. exact E1. }
        destruct (nth_error H sel) as [s|] eqn:En.
        -- eexists _, _. split; [reflexivity|]. split; [|split; [reflexivity | exact Hk]].
           right. cbn [selected_history placeholder_text]. rewrite history_of_touch. exact Hsel.
        -- apply nth_error_None in En. lia.
      * eexists _, _. split; [reflexivity|]. split; [|split; [reflexivity | exact Hk]].
        apply Nat.ltb_ge in E0. left. destruct Hb as [Hb|Hb]; [exact Hb|].
        fold H in Hb. lia.
    + rewrite history_of_touch.
      set (H := history_of h (placeholder_text e)) in *.
      destruct (0 <? length H) eqn:E0.
      * apply Nat.ltb_lt in E0.
        set (sel := if negb (selected_history e =? 0)
                    then selected_history e - 1 else selected_history e).
        assert (Hsel : sel < length H).
        { unfold sel. destruct (selected_history e =? 0) eqn:E1; cbn [negb].
          - apply Nat.eqb_eq in E1. lia.
          - apply Nat.eqb_neq in E1. destruct Hb as [Hb|Hb]; [lia|]. fold H in Hb. lia. }
        destruct (nth_error H sel) as [s|] eqn:En.
        -- eexists _, _. split; [reflexivity|]. split; [|split; [reflexivity | exact Hk]].
           right. cbn [selected_history placeholder_text]. rewrite history_of_touch. exact Hsel.
        -- apply nth_error_None in En. lia.
      * eexists _, _. split; [reflexivity|]. split; [|split; [reflexivity | exact Hk]].
        apply Nat.ltb_ge in E0. left. destruct Hb as [Hb|Hb]; [exact Hb|].
        fold H in Hb. lia.
    + eexists _, _. split; [reflexivity|]. split; [exact Hb|]. split; [reflexivity|].
      intros k. exists []. reflexivity.
Qed.

Lemma entry_in_bounds_grow (h h' : Histories) (e : Entry) :
  (forall k, exists added, history_of h' k = added ++ history_of h k) ->
  entry_in_bounds h e -> entry_in_bounds h' e.
Proof.
  intros Hg [Hb|Hb]; [left; exact Hb|]. right.
  destruct (Hg (placeholder_text e)) as [added ->]. rewrite length_app. lia.
Qed.

Lemma Forall_firstn_skipn {A : Type} (P : A -> Prop) (n : nat) (l : list A) :
  Forall P l -> Forall P (firstn n l) /\ Forall P (skipn n l).
Proof. intros H. apply Forall_app. rewrite firstn_skipn. exact H. Qed.

(** X8: in an entry box whose entries hold indices within their histories
    (as fresh entries do), no sequence of edits, activations and key presses,
    in whatever entries, makes a handler index a history out of range; the
    indices stay within the histories, and a history only ever grows at its
    front. *)
Theorem entry_box_run_stays_in_bounds :
  forall (evs : list (nat * EntryEvent)) (h : Histories) (es : list Entry),
    Forall (entry_in_bounds h) es ->
    exists h' es',
      entry_box_run evs h es = Some (h', es')
      /\ Forall (entry_in_bounds h') es'
      /\ length es' = length es
      /\ forall k, exists added, history_of h' k = added ++ history_of h k.
Proof.
  induction evs as [|[i ev] more IH]; intros h es Hok.
  - exists h, es. repeat split; auto. intros k. exists []. reflexivity.
  - cbn [entry_box_run]. destruct (nth_error es i) as [e|] eqn:En.
    + assert (He : entry_in_bounds h e).
      { rewrite Forall_forall in Hok. apply Hok. eapply nth_error_In. exact En. }
      destruct (entry_step_in_bounds ev h e He) as (h1 & e1 & Hs & Hb1 & _ & Hg).
      rewrite Hs.
      assert (Hok1 : Forall (entry_in_bounds h1) (firstn i es ++ e1 :: skipn (S i) es)).
      { apply Forall_app. split; [|constructor; [exact Hb1|]].
        - apply Forall_firstn_skipn. eapply Forall_impl; [|exact Hok].
          intros x. apply entry_in_bounds_grow. exact Hg.
        - apply (Forall_firstn_skipn _ (S i)). eapply Forall_impl; [|exact Hok].
          intros x. apply entry_in_bounds_grow. exact Hg. }
      destruct (IH h1 _ Hok1) as (h' & es' & Hr & Hok' & Hlen & Hg').
      exists h', es'. split; [exact Hr|]. split; [exact Hok'|]. split.
      * rewrite Hlen, length_app. cbn [length]. rewrite length_firstn, length_skipn.
        assert (i < length es) by (apply nth_error_Some; congruence). lia.
      * intros k. destruct (Hg k) as [a1 E1]. destruct (Hg' k) as [a2 E2].
        exists (a2 ++ a1). rewrite E2, E1, app_assoc. reflexivity.
    + apply IH. exact Hok.
Qed.

Lemma entry_box_run_stays_in_bounds_witness :
  exists h' es',
    entry_box_run [(0, Entry_Edit (chars "abc")); (0, Entry_Activate);
                   (1, Entry_Key EntryKey_Up); (0, Entry_Key EntryKey_Down)]
                  [] [mkEntry (chars "Find") [] 0 true; mkEntry (chars "Find") [] 0 true]
    = Some (h', es')
    /\ Forall (entry_in_bounds h') es'
    /\ length es' = length [mkEntry (chars "Find") [] 0 true; mkEntry (chars "Find") [] 0 true]
    /\ forall k, exists added, history_of h' k = added ++ history_of [] k.
Proof.
  apply (entry_box_run_stays_in_bounds
           [(0, Entry_Edit (chars "abc")); (0, Entry_Activate);
            (1, Entry_Key EntryKey_Up); (0, Entry_Key EntryKey_Down)]
           [] [mkEntry (chars "Find") [] 0 true; mkEntry (chars "Find") [] 0 true]).
  repeat constructor.
Defined.

(** One press of Up or Down in an entry whose index lies within a history
    that is not empty. *)
Lemma entry_key_press_up (h : Histories) (e : Entry) :
  let H := history_of h (placeholder_text e) in
  selected_history e < length H ->
  let sel := Nat.min (S (selected_history e)) (length H - 1) in
  entry_key_press EntryKey_Up h e
  = Some (histories_update (fun v => v) (placeholder_text e) h,
          mkEntry (placeholder_text e) (nth sel H []) sel (on_activate_set e)).
Proof.
  intros H Hs sel. cbn [entry_key_press]. rewrite history_of_touch. fold H.
  nat_test (0 <? length H) true.
  assert (Q : (if length H <=? S (selected_history e)
               then length H - 1 else S (selected_history e)) = sel).
  { unfold sel. destruct (length H <=? S (selected_history e)) eqn:E.
    - apply Nat.leb_le in E. lia.
    - apply Nat.leb_gt in E. lia. }
  rewrite Q. rewrite (nth_error_nth' H []) by (unfold sel; lia). reflexivity.
Qed.

Lemma entry_key_press_down (h : Histories) (e : Entry) :
  let H := history_of h (placeholder_text e) in
  selected_history e < length H ->
  let sel := selected_history e - 1 in
  entry_key_press EntryKey_Down h e
  = Some (histories_update (fun v => v) (placeholder_text e) h,
          mkEntry (placeholder_text e) (nth sel H []) sel (on_activate_set e)).
Proof.
  intros H Hs sel. cbn [entry_key_press]. rewrite history_of_touch. fold H.
  nat_test (0 <? length H) true.
  assert (Q : (if negb (selected_history e =? 0)
               then selected_history e - 1 else selected_history e) = sel).
  { unfold sel. destruct (selected_history e =? 0) eqn:E; cbn [negb]; [|reflexivity].
    apply Nat.eqb_eq in E. lia. }
  rewrite Q. rewrite (nth_error_nth' H []) by (unfold sel; lia). reflexivity.
Qed.

Lemma entry_keys_up (k : nat) :
  forall (h : Histories) (e : Entry),
    let H := history_of h (placeholder_text e) in
    selected_history e < length H ->
    let sel := Nat.min (selected_history e + S k) (length H - 1) in
    exists h',
      entry_keys (repeat EntryKey_Up (S k)) h e
      = Some (h', mkEntry (placeholder_text e) (nth sel H []) sel (on_activate_set e))
      /\ forall key, history_of h' key = history_of h key.
Proof.
  induction k as [|k IH]; intros h e H Hs sel.
  - cbn [repeat entry_keys]. rewrite entry_key_press_up by exact Hs. fold H.
    eexists. split.
    + unfold sel. replace (selected_history e + 1) with (S (selected_history e)) by lia.
      reflexivity.
    + intros key. apply history_of_touch.
  - change (repeat EntryKey_Up (S (S k))) with (EntryKey_Up :: repeat EntryKey_Up (S k)).
    cbn [entry_keys]. rewrite entry_key_press_up by exact Hs. fold H.
    set (e1 := mkEntry _ _ _ _).
    set (h1 := histories_update (fun v => v) (placeholder_text e) h).
    assert (H1 : history_of h1 (placeholder_text e1) = H) by apply history_of_touch.
    destruct (IH h1 e1) as (h' & Hr & Hh).
    { rewrite H1. cbn [e1 selected_history]. lia. }
    exists h'. split.
    + rewrite Hr, H1. cbn [e1 selected_history placeholder_text on_activate_set].
      replace (Nat.min (Nat.min (S (selected_history e)) (length H - 1) + S k)
                       (length H - 1)) with sel by (unfold sel; lia).
      reflexivity.
    + intros key. rewrite Hh. apply history_of_touch.
Qed.

Lemma entry_keys_down (k : nat) :
  forall (h : Histories) (e : Entry),
    let H := history_of h (placeholder_text e) in
    selected_history e < length H ->
    let sel := selected_history e - S k in
    exists h',
      entry_keys (repeat EntryKey_Down (S k)) h e
      = Some (h', mkEntry (placeholder_text e) (nth sel H []) sel (on_activate_set e))
      /\ forall key, history_of h' key = history_of h key.
Proof.
  induction k as [|k IH]; intros h e H Hs sel.
  - cbn [repeat entry_keys]. rewrite entry_key_press_down by exact Hs. fold H.
    eexists. split; [reflexivity|]. intros key. apply history_of_touch.
  - change (repeat EntryKey_Down (S (S k)))
      with (EntryKey_Down :: repeat EntryKey_Down (S k)).
    cbn [entry_keys]. rewrite entry_key_press_down by exact Hs. fold H.
    set (e1 := mkEntry _ _ _ _).
    set (h1 := histories_update (fun v => v) (placeholder_text e) h).
    assert (H1 : history_of h1 (placeholder_text e1) = H) by apply history_of_touch.
    destruct (IH h1 e1) as (h' & Hr & Hh).
    { rewrite H1. cbn [e1 selected_history]. lia. }
    exists h'. split.
    + rewrite Hr, H1. cbn [e1 selected_history placeholder_text on_activate_set].
      replace (selected_history e - 1 - S k) with sel by (unfold sel; lia).
      reflexivity.
    + intros key. rewrite Hh. apply history_of_touch.
Qed.

Lemma entry_keys_app (ks1 ks2 : list EntryKey) (h : Histories) (e : Entry) :
  entry_keys (ks1 ++ ks2) h e
  = match entry_keys ks1 h e with
    | Some (h', e') => entry_keys ks2 h' e'
    | None => None
    end.
Proof.
  revert h e. induction ks1 as [|key ks1 IH]; intros h e; [reflexivity|].
  cbn [app entry_keys]. destruct (entry_key_press key h e) as [[h' e']|]; [apply IH | reflexivity].
Qed.

(** X9: in an entry showing the newest element of a history of [n]
    elements, [k] presses of Up show the element with index [k], or the
    oldest one once [k >= n - 1]: the index stops at the last element.  The
    same number of presses of Down then leads back to the newest element.
    The history itself is not changed on the way. *)
Theorem entry_keys_up_then_down :
  forall (h : Histories) (e : Entry) (k : nat),
    let H := history_of h (placeholder_text e) in
    H <> [] -> selected_history e = 0 ->
    let i := Nat.min (S k) (length H - 1) in
    exists h1 h2,
      entry_keys (repeat EntryKey_Up (S k)) h e
      = Some (h1, mkEntry (placeholder_text e) (nth i H []) i (on_activate_set e))
      /\ entry_keys (repeat EntryKey_Up (S k) ++ repeat EntryKey_Down (S k)) h e
         = Some (h2, mkEntry (placeholder_text e) (nth 0 H []) 0 (on_activate_set e))
      /\ forall key, history_of h2 key = history_of h key.
Proof.
  intros h e k H Hne H0 i.
  assert (Hlen : 0 < length H) by (destruct H; [congruence | simpl; lia]).
  destruct (entry_keys_up k h e) as (h1 & Hu & Hh1); [fold H; lia|].
  fold H in Hu. rewrite H0 in Hu. cbn [Nat.add] in Hu. fold i in Hu.
  set (e1 := mkEntry (placeholder_text e) (nth i H []) i (on_activate_set e)) in *.
  assert (H1 : history_of h1 (placeholder_text e1) = H) by apply Hh1.
  destruct (entry_keys_down k h1 e1) as (h2 & Hd & Hh2).
  { rewrite H1. cbn [e1 selected_history]. unfold i. lia. }
  rewrite H1 in Hd. cbn [e1 selected_history placeholder_text on_activate_set] in Hd.
  replace (i - S k) with 0 in Hd by (unfold i; lia).
  exists h1, h2. split; [exact Hu|]. split.
  - rewrite entry_keys_app, Hu. exact Hd.
  - intros key. rewrite Hh2. apply Hh1.
Qed.

Lemma entry_keys_up_then_down_witness :
  let h := [(chars "Find", [chars "c"; chars "b"; chars "a"])] in
  let e := mkEntry (chars "Find") (chars "c") 0 true in
  let H := history_of h (placeholder_text e) in
  let i := Nat.min (S 4) (length H - 1) in
  exists h1 h2,
    entry_keys (repeat EntryKey_Up (S 4)) h e
    = Some (h1, mkEntry (placeholder_text e) (nth i H []) i (on_activate_set e))
    /\ entry_keys (repeat EntryKey_Up (S 4) ++ repeat EntryKey_Down (S 4)) h e
       = Some (h2, mkEntry (placeholder_text e) (nth 0 H []) 0 (on_activate_set e))
    /\ forall key, history_of h2 key = history_of h key.
Proof.
  intros h e.
  apply (entry_keys_up_then_down h e 4).
  - discriminate.
  - reflexivity.
Defined.

Lemma option_eq_dec_text (o : option text) (txt : text) : {o = Some txt} + {o <> Some txt}.
Proof.
  destruct o as [x|]; [|right; discriminate].
  destruct (list_eq_dec ascii_dec x txt) as [->|N]; [left; reflexivity|].
  right. intros H. injection H as ->. apply N. reflexivity.
Qed.

Lemma push_front_twice (txt : text) (v : list text) :
  let push (history : list text) :=
    if (length history =? 0)
       || ((0 <? length history) && negb (text_eqb (hd [] history) txt))
    then txt :: history else history in
  hd_error (push v) = Some txt
  /\ (hd_error v = Some txt -> push v = v)
  /\ (hd_error v <> Some txt -> push v = txt :: v)
  /\ push (push v) = push v.
Proof.
  intros push.
  assert (P1 : forall w, hd_error w = Some txt -> push w = w).
  { intros w Hw. destruct w as [|x w]; [discriminate|]. injection Hw as ->.
    unfold push. cbn [length hd]. rewrite text_eqb_refl. reflexivity. }
  assert (P2 : hd_error v <> Some txt -> push v = txt :: v).
  { intros Hv. destruct v as [|x v]; [reflexivity|].
    unfold push. cbn [length hd].
    assert (E : text_eqb x txt = false) by (apply text_eqb_neq; intros ->; apply Hv; reflexivity).
    rewrite E. reflexivity. }
  assert (P0 : hd_error (push v) = Some txt).
  { destruct (option_eq_dec_text (hd_error v) txt) as [Q|Q].
    - rewrite (P1 v Q). exact Q.
    - rewrite (P2 Q). reflexivity. }
  repeat split; auto.
Qed.

(** X10: activating an entry that has a callback hands its text to the
    callback, resets the index into the history and makes the text the
    newest element of the history of its placeholder text: the text is put in
    front unless it is the newest element already.  The histories of other
    placeholder texts are untouched, and activating again at once stores
    nothing more. *)
Theorem entry_activate_stores_once :
  forall (h : Histories) (e : Entry),
    on_activate_set e = true ->
    let k := placeholder_text e in
    let h1 := fst (fst (entry_activate h e)) in
    let e1 := snd (fst (entry_activate h e)) in
    snd (entry_activate h e) = Some (entry_text e)
    /\ e1 = mkEntry k (entry_text e) 0 true
    /\ hd_error (history_of h1 k) = Some (entry_text e)
    /\ (hd_error (history_of h k) = Some (entry_text e) -> history_of h1 k = history_of h k)
    /\ (hd_error (history_of h k) <> Some (entry_text e) ->
        history_of h1 k = entry_text e :: history_of h k)
    /\ (forall k', k' <> k -> history_of h1 k' = history_of h k')
    /\ (forall k', history_of (fst (fst (entry_activate h1 e1))) k' = history_of h1 k').
Proof.
  intros h e Ha k h1 e1.
  unfold h1, e1, entry_activate. rewrite Ha. cbn [fst snd].
  cbn [on_activate_set entry_text placeholder_text]. fold k.
  destruct (push_front_twice (entry_text e) (history_of h k)) as (P0 & P1 & P2 & P3).
  cbv zeta in P0, P1, P2, P3.
  split; [reflexivity|]. split; [reflexivity|].
  rewrite history_of_update, text_eqb_refl.
  split; [exact P0|]. split; [exact P1|]. split; [exact P2|]. split.
  - intros k' Hk. rewrite history_of_update.
    apply text_eqb_neq in Hk. rewrite Hk. reflexivity.
  - intros k'. cbn [fst]. rewrite !history_of_update.
    destruct (text_eqb k' k) eqn:E; [|reflexivity].
    rewrite text_eqb_refl. exact P3.
Qed.

Lemma entry_activate_stores_once_witness :
  let h := [(chars "Find", [chars "b"; chars "a"])] in
  let e := mkEntry (chars "Find") (chars "c") 1 true in
  let k := placeholder_text e in
  let h1 := fst (fst (entry_activate h e)) in
  let e1 := snd (fst (entry_activate h e)) in
  snd (entry_activate h e) = Some (entry_text e)
  /\ e1 = mkEntry k (entry_text e) 0 true
  /\ hd_error (history_of h1 k) = Some (entry_text e)
  /\ (hd_error (history_of h k) = Some (entry_text e) -> history_of h1 k = history_of h k)
  /\ (hd_error (history_of h k) <> Some (entry_text e) ->
      history_of h1 k = entry_text e :: history_of h k)
  /\ (forall k', k' <> k -> history_of h1 k' = history_of h k')
  /\ (forall k', history_of (fst (fst (entry_activate h1 e1))) k' = history_of h1 k').
Proof.
  intros h e.
  apply (entry_activate_stores_once h e).
  reflexivity.
Defined.

(** ** Whitespace cleanup, once more *)

(** The text after the cleanup, line by line. *)
Lemma cleanup_whitespace_characters_text (b : Buffer) :
  let ls := map strip_trailing_blanks (lines (btext b)) in
  btext (cleanup_whitespace_characters b)
  = unlines ls ++ match last ls [] with [] => [] | _ => [NL] end.
Proof.
  intros ls.
  pose proof (lines_nl_free (btext b)) as Hnl.
  pose proof (lines_nonempty (btext b)) as Hne.
  assert (Hls : Forall nl_free ls).
  { unfold ls. apply Forall_map. eapply Forall_impl; [|exact Hnl].
    intros l. apply strip_trailing_blanks_nl_free. }
  assert (Hlsne : ls <> []).
  { unfold ls. destruct (lines (btext b)); [congruence | discriminate]. }
  unfold cleanup_whitespace_characters.
  assert (H1 : btext (cleanup_loop (get_line_count (btext b)) 0 (begin_user_action b))
               = unlines ls).
  { rewrite <- (unlines_lines (btext b)) at 1.
    rewrite get_line_count_unlines by assumption.
    apply (cleanup_loop_text (lines (btext b)) [] (begin_user_action b)); auto.
    simpl. symmetry. apply unlines_lines. }
  cbn [end_user_action btext].
  set (b1 := cleanup_loop (get_line_count (btext b)) 0 (begin_user_action b)) in *.
  rewrite H1, starts_line_end_unlines by assumption.
  destruct (last ls []); cbn [negb].
  - rewrite H1, app_nil_r. reflexivity.
  - rewrite btext_buffer_insert, H1.
    rewrite <- (app_nil_r (unlines ls)) at 1.
    rewrite text_insert_in_line. reflexivity.
Qed.

Lemma strip_trailing_blanks_fixed (l : text) :
  strip_trailing_blanks (strip_trailing_blanks l) = strip_trailing_blanks l.
Proof.
  destruct (strip_trailing_blanks_spec l) as (w & _ & _ & [E|(s & y & E & Hy)]).
  - rewrite E. reflexivity.
  - rewrite E, strip_trailing_blanks_snoc, Hy. reflexivity.
Qed.

Lemma terminated_unlines (ls : list text) :
  ls <> [] -> terminated ls = unlines ls ++ [NL].
Proof.
  induction ls as [|l ls IH]; intros Hne; [congruence|].
  destruct ls as [|l' ls'].
  - simpl. rewrite app_nil_r. reflexivity.
  - rewrite unlines_cons by discriminate.
    change (terminated (l :: l' :: ls')) with ((l ++ [NL]) ++ terminated (l' :: ls')).
    rewrite IH by discriminate. rewrite <- !app_assoc. reflexivity.
Qed.

Lemma unlines_snoc_empty (ls : list text) :
  ls <> [] -> unlines (ls ++ [[]]) = unlines ls ++ [NL].
Proof.
  intros Hne. rewrite unlines_app by discriminate. simpl. rewrite app_nil_r.
  apply terminated_unlines. exact Hne.
Qed.

(** The lines of a text that is the result of a cleanup. *)
Lemma cleanup_normal_form_lines (ls : list text) :
  ls <> [] -> Forall nl_free ls ->
  let t := unlines ls ++ match last ls [] with [] => [] | _ => [NL] end in
  lines t = match last ls [] with [] => ls | _ => ls ++ [[]] end
  /\ last (lines t) [] = [].
Proof.
  intros Hne Hnl t. unfold t. destruct (last ls []) as [|c r] eqn:El.
  - rewrite app_nil_r, lines_unlines by assumption. split; [reflexivity | exact El].
  - rewrite <- unlines_snoc_empty by exact Hne.
    rewrite lines_unlines.
    + split; [reflexivity | apply last_last].
    + destruct ls; discriminate.
    + apply Forall_app. split; [exact Hnl|]. constructor; [apply nl_free_nil | constructor].
Qed.

(** X11: after the cleanup no line ends in a space or a tab, the text is
    empty or ends in a newline, and a second cleanup leaves the text as it
    is. *)
Theorem cleanup_whitespace_characters_idempotent :
  forall (b : Buffer),
    let b1 := cleanup_whitespace_characters b in
    Forall (fun l => strip_trailing_blanks l = l) (lines (btext b1))
    /\ last (lines (btext b1)) [] = []
    /\ btext (cleanup_whitespace_characters b1) = btext b1.
Proof.
  intros b b1.
  pose proof (cleanup_whitespace_characters_text b) as H1. cbv zeta in H1. fold b1 in H1.
  set (ls := map strip_trailing_blanks (lines (btext b))) in *.
  assert (Hls : Forall nl_free ls).
  { unfold ls. apply Forall_map. eapply Forall_impl; [|exact (lines_nl_free (btext b))].
    intros l. apply strip_trailing_blanks_nl_free. }
  assert (Hne : ls <> []).
  { unfold ls. pose proof (lines_nonempty (btext b)).
    destruct (lines (btext b)); [congruence | discriminate]. }
  assert (Hfix : Forall (fun l => strip_trailing_blanks l = l) ls).
  { unfold ls. apply Forall_map, Forall_forall. intros l _.
    apply strip_trailing_blanks_fixed. }
  destruct (cleanup_normal_form_lines ls Hne Hls) as (Hlines & Hlast).
  cbv zeta in Hlines, Hlast. rewrite <- H1 in Hlines, Hlast.
  assert (Hfix1 : Forall (fun l => strip_trailing_blanks l = l) (lines (btext b1))).
  { rewrite Hlines. destruct (last ls []); [exact Hfix|].
    apply Forall_app. split; [exact Hfix | constructor; [reflexivity | constructor]]. }
  split; [exact Hfix1|]. split; [exact Hlast|].
  rewrite (cleanup_whitespace_characters_text b1).
  assert (Hmap : map strip_trailing_blanks (lines (btext b1)) = lines (btext b1)).
  { clear -Hfix1. induction Hfix1 as [|l r Hl _ IH]; [reflexivity|].
    simpl. rewrite Hl, IH. reflexivity. }
  rewrite Hmap, Hlast, app_nil_r. apply unlines_lines.
Qed.

(** ** A line of a text and what surrounds it *)

Lemma line_view (t : text) (i : nat) :
  i < length (lines t) ->
  exists pre l post,
    t = pre ++ l ++ post /\ at_line_start pre /\ nl_free l /\ line_closed post
    /\ count_occ ascii_dec pre NL = i /\ nth i (lines t) [] = l
    /\ get_iter_at_line t i = length pre
    /\ exists ls1 ls2, lines t = ls1 ++ l :: ls2 /\ length ls1 = i
                       /\ pre = terminated ls1 /\ post = line_rest ls2.
Proof.
  intros Hi. destruct (list_split_at (lines t) i Hi) as (ls1 & l & ls2 & E & Hlen).
  pose proof (lines_nl_free t) as Hnl. rewrite E in Hnl.
  apply Forall_app in Hnl as [H1 H2].
  exists (terminated ls1), l, (line_rest ls2).
  assert (Ht : t = terminated ls1 ++ l ++ line_rest ls2).
  { rewrite <- (unlines_lines t) at 1. rewrite E. apply unlines_split. }
  split; [exact Ht|]. split; [auto with lines|].
  split; [exact (Forall_inv H2)|]. split; [auto with lines|].
  split; [rewrite count_terminated by exact H1; exact Hlen|].
  split; [rewrite E, app_nth2, Hlen, Nat.sub_diag by lia; reflexivity|].
  split.
  - rewrite Ht at 1. rewrite <- Hlen, <- (count_terminated ls1 H1).
    apply get_iter_at_line_at_line_start. auto with lines.
  - exists ls1, ls2. auto.
Qed.

(** ** Cursor placement at a line and an offset *)

(** X12: for an offset that is not negative, [place_cursor_at_line_offset]
    always succeeds, leaves the text alone and puts the cursor, with no
    selection, on the line number clamped into the buffer, at the offset
    clamped to the length of that line. *)
Theorem place_cursor_at_line_offset_lands_in_line :
  forall (b : Buffer) (line offset : Z),
    (0 <= offset)%Z ->
    let t := btext b in
    let l := Z.to_nat (Z.max 0 (Z.min line (Z.of_nat (get_line_count t) - 1))) in
    let col := Nat.min (Z.to_nat offset) (length (nth l (lines t) [])) in
    exists iter,
      place_cursor_at_line_offset b line offset = Some (mkBuffer t iter iter (journal b))
      /\ iter <= length t /\ get_line t iter = l /\ get_line_offset t iter = col.
Proof.
  intros b line offset Hoff t l col.
  pose proof (get_line_count_pos t) as Hc.
  assert (Hl : l < length (lines t)) by (rewrite length_lines; unfold l; lia).
  destruct (line_view t l Hl) as (pre & ln & post & Ht & Hpre & Hln & Hpost & Hcnt & Hnth & Hit & _).
  unfold place_cursor_at_line_offset, place_cursor_at_line_offset_address. fold t.
  set (l1 := Z.min line (Z.of_nat (get_line_count t) - 1)).
  set (l2 := if (l1 <? 0)%Z then 0%Z else l1).
  assert (El2 : Z.to_nat l2 = l).
  { unfold l2, l. fold l1. destruct (l1 <? 0)%Z eqn:E.
    - apply Z.ltb_lt in E. lia.
    - apply Z.ltb_ge in E. lia. }
  assert (Hl2 : (0 <= l2 < Z.of_nat (get_line_count t))%Z).
  { unfold l2. destruct (l1 <? 0)%Z eqn:E; [lia|]. apply Z.ltb_ge in E. unfold l1 in *. lia. }
  rewrite El2.
  assert (Hend : get_iter_at_line_end t l = length pre + length ln).
  { rewrite Ht at 1. rewrite <- Hcnt. apply get_iter_at_line_end_in_line; assumption. }
  assert (Hoe : get_line_offset t (length pre + length ln) = length ln).
  { rewrite Ht at 1. apply get_line_offset_in_line; assumption. }
  rewrite Hend, Hoe.
  unfold get_iter_at_line_offset, valid_position. rewrite El2, Hend, Hoe.
  replace ((0 <=? l2)%Z) with true by (symmetry; apply Z.leb_le; lia).
  replace ((l2 <? Z.of_nat (get_line_count t))%Z) with true
    by (symmetry; apply Z.ltb_lt; lia).
  replace ((0 <=? Z.min offset (Z.of_nat (length ln)))%Z) with true
    by (symmetry; apply Z.leb_le; lia).
  replace ((Z.min offset (Z.of_nat (length ln)) <=? Z.of_nat (length ln))%Z) with true
    by (symmetry; apply Z.leb_le; lia).
  cbn [andb]. rewrite Hit.
  assert (Ecol : Z.to_nat (Z.min offset (Z.of_nat (length ln))) = col).
  { unfold col. rewrite Hnth. lia. }
  rewrite Ecol.
  assert (Hcol : col <= length ln) by (unfold col; rewrite Hnth; lia).
  exists (length pre + col). split; [reflexivity|].
  assert (Hf : length (firstn col ln) = col) by (apply firstn_length_le; exact Hcol).
  assert (Ht' : t = pre ++ firstn col ln ++ (skipn col ln ++ post)).
  { rewrite (app_assoc (firstn col ln)), firstn_skipn. exact Ht. }
  split; [rewrite Ht at 1; rewrite !length_app; lia|].
  pose proof (get_line_in_line pre (firstn col ln) (skipn col ln ++ post)
                (firstn_nl_free ln col Hln)) as G1.
  pose proof (get_line_offset_in_line pre (firstn col ln) (skipn col ln ++ post)
                Hpre (firstn_nl_free ln col Hln)) as G2.
  rewrite <- Ht', Hf in G1, G2.
  split; [rewrite G1; exact Hcnt | exact G2].
Qed.

Lemma place_cursor_at_line_offset_lands_in_line_witness :
  let b := mkBuffer (chars "ab" ++ NL :: chars "cde") 0 0 [] in
  let t := btext b in
  let l := Z.to_nat (Z.max 0 (Z.min 7 (Z.of_nat (get_line_count t) - 1))) in
  let col := Nat.min (Z.to_nat 9) (length (nth l (lines t) [])) in
  exists iter,
    place_cursor_at_line_offset b 7 9 = Some (mkBuffer t iter iter (journal b))
    /\ iter <= length t /\ get_line t iter = l /\ get_line_offset t iter = col.
Proof.
  intros b.
  apply (place_cursor_at_line_offset_lands_in_line b 7 9).
  lia.
Defined.

(** ** Comment toggling on blank lines *)

Lemma leading_blanks_all (l : text) : forallb is_blank l = true -> leading_blanks l = length l.
Proof.
  induction l as [|c l IH]; intros H; [reflexivity|].
  simpl in H. apply andb_true_iff in H as [Hc Hl]. simpl. rewrite Hc, (IH Hl). reflexivity.
Qed.

Lemma counted_indices_blank (cc : text) (seg : list text) :
  Forall (fun l => forallb is_blank l = true) seg ->
  forall i, counted_indices cc i seg = [].
Proof.
  induction 1 as [|l seg Hl _ IH]; intros i; [reflexivity|].
  cbn [counted_indices]. rewrite IH. unfold counted, comment_info.
  rewrite (leading_blanks_all l Hl), Nat.eqb_refl. reflexivity.
Qed.

(** X13: when every line of the selected range holds spaces and tabs only
    (or nothing), [toggle_comments] leaves the buffer exactly as it is: no
    edit is made and no user action is opened. *)
Theorem toggle_comments_blank_selection :
  forall (cc : text) (b : Buffer),
    let t := btext b in
    let line_start := fst (selected_lines b) in
    let line_end := snd (selected_lines b) in
    let seg := firstn (S line_end - line_start) (skipn line_start (lines t)) in
    Forall (fun l => forallb is_blank l = true) seg ->
    toggle_comments cc b = b.
Proof.
  intros cc b t line_start line_end seg Hblank.
  destruct (selected_lines_range b) as [Hle Hlt]. fold line_start line_end t in Hle, Hlt.
  set (before := firstn line_start (lines t)).
  set (after := skipn (S line_end - line_start) (skipn line_start (lines t))).
  assert (Hsplit : lines t = before ++ seg ++ after).
  { unfold before, seg, after. rewrite firstn_skipn, firstn_skipn. reflexivity. }
  pose proof (lines_nl_free t) as Hnl. rewrite Hsplit in Hnl.
  apply Forall_app in Hnl as [Hnb Hnl]. apply Forall_app in Hnl as [Hns Hna].
  assert (Hlb : length before = line_start) by (unfold before; apply firstn_length_le; lia).
  assert (Hlseg : length seg = S line_end - line_start).
  { unfold seg. apply firstn_length_le. rewrite length_skipn. lia. }
  assert (Ht : t = unlines (before ++ seg ++ after)).
  { rewrite <- Hsplit. symmetry. apply unlines_lines. }
  assert (Hb1 : toggle_comments cc b = toggle_comments_range cc line_start line_end b).
  { unfold toggle_comments, line_start, line_end. destruct (selected_lines b). reflexivity. }
  rewrite Hb1. unfold toggle_comments_range. fold t.
  rewrite <- Hlseg, <- Hlb.
  rewrite (comment_scan_loop_lines cc t seg before after _ Ht Hnb Hns).
  rewrite cs_lines_scan, counted_indices_blank by exact Hblank. reflexivity.
Qed.

Lemma toggle_comments_blank_selection_witness :
  let cc := chars "//" in
  let b := mkBuffer (chars "a" ++ NL :: chars "  " ++ NL :: NL :: chars "b") 3 5 [] in
  toggle_comments cc b = b.
Proof.
  intros cc b.
  apply (toggle_comments_blank_selection cc b).
  repeat constructor.
Defined.

(** ** Smart Home and End *)

Lemma start_sentence_loop_tabs_end (t : text) :
  forall fuel iter, start_sentence_loop fuel t iter = tabs_end_loop fuel t iter.
Proof.
  induction fuel as [|f IH]; intros iter; [reflexivity|].
  cbn [start_sentence_loop tabs_end_loop]. rewrite andb_comm.
  destruct (is_blank (deref t iter) && negb (ends_line t iter)); [|reflexivity].
  destruct (forward_char t iter) as [i' m]. destruct m; [apply IH | reflexivity].
Qed.

Lemma get_line_within_line (pre l post : text) (c : nat) :
  nl_free l -> c <= length l ->
  get_line (pre ++ l ++ post) (length pre + c) = count_occ ascii_dec pre NL.
Proof.
  intros Hl Hc.
  assert (Hf : length (firstn c l) = c) by (apply firstn_length_le; exact Hc).
  pose proof (get_line_in_line pre (firstn c l) (skipn c l ++ post)
                (firstn_nl_free l c Hl)) as G.
  rewrite (app_assoc (firstn c l)), firstn_skipn, Hf in G. exact G.
Qed.

(** X14: the Home key leaves the text alone and moves the cursor within its
    line between two columns: from behind the indentation, or from column 0,
    it goes to the end of the indentation; from inside the indentation or
    from its end it goes to column 0.  With the shift modifier the other end
    of the selection stays, without it the selection collapses. *)
Theorem basic_home_toggles :
  forall (shift : bool) (pre l post : text) (c sb : nat) (j : list Event),
    at_line_start pre -> nl_free l -> line_closed post -> c <= length l ->
    let lb := leading_blanks l in
    let target := length pre + (if (lb <? c) || (c =? 0) then lb else 0) in
    basic_home shift (mkBuffer (pre ++ l ++ post) (length pre + c) sb j)
    = mkBuffer (pre ++ l ++ post) target (if shift then sb else target)
               (j ++ [BeginUserAction; EndUserAction]).
Proof.
  intros shift pre l post c sb j Hpre Hl Hpost Hc lb target.
  unfold basic_home, begin_user_action. cbn [btext insert_mark selection_bound journal].
  rewrite get_line_within_line by assumption.
  rewrite get_iter_at_line_at_line_start by assumption.
  rewrite start_sentence_loop_tabs_end.
  rewrite tabs_end_loop_in_line
    by (auto; pose proof (leading_blanks_le l); rewrite !length_app; lia).
  fold lb.
  assert (E1 : (length pre + lb <? length pre + c) = (lb <? c)).
  { destruct (lb <? c) eqn:E; [apply Nat.ltb_lt in E; apply Nat.ltb_lt; lia|].
    apply Nat.ltb_ge in E. apply Nat.ltb_ge. lia. }
  assert (E2 : (length pre + c =? length pre) = (c =? 0)).
  { destruct (c =? 0) eqn:E; [apply Nat.eqb_eq in E; apply Nat.eqb_eq; lia|].
    apply Nat.eqb_neq in E. apply Nat.eqb_neq. lia. }
  rewrite E1, E2.
  unfold target, end_user_action, move_insert_mark, place_cursor.
  destruct ((lb <? c) || (c =? 0)), shift;
    cbn [btext insert_mark selection_bound journal];
    rewrite <- app_assoc, ?Nat.add_0_r; reflexivity.
Qed.

Lemma basic_home_toggles_witness :
  let l := chars "    x = 1;" in
  let lb := leading_blanks l in
  let target := length [ "{"; NL ] + (if (lb <? 7) || (7 =? 0) then lb else 0) in
  basic_home false (mkBuffer ([ "{"; NL ] ++ l ++ []) (length [ "{"; NL ] + 7) 0 [])
  = mkBuffer ([ "{"; NL ] ++ l ++ []) target (if false then 0 else target)
             ([] ++ [BeginUserAction; EndUserAction]).
Proof.
  intros l.
  apply (basic_home_toggles false [ "{"; NL ] l [] 7 0 []).
  - right. exists ["{"]. reflexivity.
  - intros H. simpl in H. repeat (destruct H as [H|H]; [discriminate H|]). exact H.
  - left. reflexivity.
  - simpl. lia.
Defined.

(** The backward loop of the End key from the end of a line: it stops on
    the last character of the line without its trailing blanks, or at the
    line start. *)
Lemma cleanup_backward_line_end (pre s w post : text) :
  at_line_start pre -> nl_free (s ++ w) -> forallb is_blank w = true -> line_closed post ->
  (s = [] \/ exists s' y, s = s' ++ [y] /\ is_blank y = false) ->
  cleanup_backward (pre ++ (s ++ w) ++ post) (length pre + length (s ++ w))
  = length pre + (length s - 1).
Proof.
  intros Hpre Hl Hw Hpost Hs.
  set (t := pre ++ (s ++ w) ++ post).
  assert (E1 : cleanup_backward t (length pre + length (s ++ w))
               = cleanup_backward t (length pre + length s)).
  { unfold t. rewrite length_app. apply cleanup_backward_blanks; auto. }
  rewrite E1. destruct Hs as [->|(s' & y & -> & Hy)].
  - cbn [length]. rewrite Nat.add_0_r. cbn [Nat.sub].  rewrite Nat.add_0_r.
    apply cleanup_backward_stop. left. apply at_line_start_starts_line. exact Hpre.
  - rewrite length_snoc. cbn [Nat.sub]. rewrite Nat.sub_0_r.
    assert (Hin : length s' < length ((s' ++ [y]) ++ w)).
    { rewrite !length_app. simpl. lia. }
    assert (Hy' : deref t (length pre + length s') = y).
    { unfold t. rewrite deref_in_line by exact Hin.
      rewrite <- app_assoc. rewrite app_nth2 by lia. rewrite Nat.sub_diag. reflexivity. }
    assert (Hynl : y <> NL).
    { intros ->. apply Hl. apply in_or_app. left. apply in_or_app. right. left. reflexivity. }
    replace (length pre + S (length s')) with (S (length pre + length s')) by lia.
    rewrite cleanup_backward_step.
    + apply cleanup_backward_stop. right. rewrite Hy', Hy. simpl.
      unfold t. apply ends_line_in_line; assumption.
    + rewrite Hy'. exact Hynl.
    + destruct w as [|x w].
      * replace (S (length pre + length s')) with (length pre + length ((s' ++ [y]) ++ []))
          by (rewrite !length_app; simpl; lia).
        unfold t. rewrite ends_line_line_end by exact Hpost. apply orb_true_r.
      * replace (S (length pre + length s')) with (length pre + length (s' ++ [y]))
          by (rewrite length_snoc; lia).
        unfold t. rewrite <- app_assoc, app_assoc, <- length_app, deref_app.
        simpl. simpl in Hw. apply andb_true_iff in Hw as [Hx _]. rewrite Hx. reflexivity.
Qed.

(** X15: the End key leaves the text alone and moves the cursor within its
    line: from anywhere but the end of the line it goes to the end of the
    line; from the end of the line it goes behind the last character that is
    not a space or a tab, when the line without its trailing blanks has at
    least two characters, and to column 0 otherwise (a line of blanks only,
    or a single character followed by blanks). *)
Theorem basic_end_toggles :
  forall (shift : bool) (pre l post : text) (c sb : nat) (j : list Event),
    at_line_start pre -> nl_free l -> line_closed post -> c <= length l ->
    let s := strip_trailing_blanks l in
    let target :=
      length pre + (if c =? length l
                    then (if 2 <=? length s then length s else 0)
                    else length l) in
    basic_end shift (mkBuffer (pre ++ l ++ post) (length pre + c) sb j)
    = mkBuffer (pre ++ l ++ post) target (if shift then sb else target)
               (j ++ [BeginUserAction; EndUserAction]).
Proof.
  intros shift pre l post c sb j Hpre Hl Hpost Hc s target.
  destruct (strip_trailing_blanks_spec l) as (w & El & Hw & Hs). fold s in El, Hs.
  set (t := pre ++ l ++ post).
  assert (Hlen : length l = length s + length w) by (rewrite El at 1; apply length_app).
  assert (Hcb : cleanup_backward t (length pre + length l) = length pre + (length s - 1)).
  { unfold t. rewrite El at 1 2.
    apply cleanup_backward_line_end; auto. rewrite <- El. exact Hl. }
  assert (Hes : (if negb (ends_line t (length pre + (length s - 1)))
                    && negb (starts_line t (length pre + (length s - 1)))
                 then fst (forward_char t (length pre + (length s - 1)))
                 else length pre + (length s - 1))
                = length pre + (if 2 <=? length s then length s else 0)).
  { destruct (2 <=? length s) eqn:E2.
    - apply Nat.leb_le in E2.
      assert (K : length s - 1 < length l) by lia.
      unfold t. rewrite ends_line_in_line by assumption.
      replace (length s - 1) with (S (length s - 2)) at 1 by lia.
      rewrite starts_line_in_line by (auto; lia). cbn [negb andb].
      rewrite fst_forward_char_in_line by exact K. lia.
    - apply Nat.leb_gt in E2.
      replace (length s - 1) with 0 by lia. rewrite Nat.add_0_r.
      unfold t. rewrite at_line_start_starts_line by exact Hpre.
      cbn [negb]. rewrite andb_false_r. reflexivity. }
  assert (Hgl : get_line t (length pre + c) = count_occ ascii_dec pre NL)
    by (unfold t; apply get_line_within_line; assumption).
  unfold basic_end, begin_user_action. cbn [btext insert_mark selection_bound journal].
  fold t. rewrite Hgl.
  assert (Hend : get_iter_at_line_end t (count_occ ascii_dec pre NL)
                 = length pre + length l)
    by (apply get_iter_at_line_end_in_line; assumption).
  rewrite Hend, Hcb, Hes.
  assert (E1 : (length pre + c =? length pre + length l) = (c =? length l)).
  { destruct (c =? length l) eqn:E; [apply Nat.eqb_eq in E; apply Nat.eqb_eq; lia|].
    apply Nat.eqb_neq in E. apply Nat.eqb_neq. lia. }
  rewrite E1.
  unfold target, end_user_action, move_insert_mark, place_cursor.
  destruct (c =? length l), shift;
    cbn [btext insert_mark selection_bound journal];
    rewrite <- app_assoc; reflexivity.
Qed.

Lemma basic_end_toggles_witness :
  let l := chars "x = 1;  " in
  let s := strip_trailing_blanks l in
  let target :=
    length [ "{"; NL ] + (if 8 =? length l
                          then (if 2 <=? length s then length s else 0)
                          else length l) in
  basic_end false (mkBuffer ([ "{"; NL ] ++ l ++ []) (length [ "{"; NL ] + 8) 0 [])
  = mkBuffer ([ "{"; NL ] ++ l ++ []) target (if false then 0 else target)
             ([] ++ [BeginUserAction; EndUserAction]).
Proof.
  intros l.
  apply (basic_end_toggles false [ "{"; NL ] l [] 8 0 []).
  - right. exists ["{"]. reflexivity.
  - intros H. simpl in H. repeat (destruct H as [H|H]; [discriminate H|]). exact H.
  - left. reflexivity.
  - simpl. lia.
Defined.

(** The End key on a line holding one character and blanks: from the end of
    the line the cursor goes to column 0, in front of the character. *)
Example basic_end_single_character :
  basic_end false (mkBuffer (chars "x  ") 3 3 [])
  = mkBuffer (chars "x  ") 0 0 [BeginUserAction; EndUserAction]
  /\ basic_end false (mkBuffer (chars "ab  ") 4 4 [])
     = mkBuffer (chars "ab  ") 2 2 [BeginUserAction; EndUserAction].
Proof. split; reflexivity. Qed.

(** ** Positions as line and column *)

Lemma get_iter_at_line_app (p y : text) :
  forall a,
    get_iter_at_line (p ++ y) a
    = if a <=? count_occ ascii_dec p NL then get_iter_at_line p a
      else length p + get_iter_at_line y (a - count_occ ascii_dec p NL).
Proof.
  induction p as [|c p IH]; intros a.
  - simpl. destruct a; [rewrite !get_iter_at_line_0; reflexivity|]. reflexivity.
  - destruct a as [|a]; [reflexivity|].
    cbn [app get_iter_at_line count_occ length].
    destruct (ascii_dec c NL) as [->|Hc].
    + rewrite Ascii.eqb_refl. rewrite IH. cbn [Nat.leb Nat.sub].
      destruct (a <=? count_occ ascii_dec p NL); lia.
    + rewrite (eqb_NL_false c Hc). rewrite IH.
      destruct (S a <=? count_occ ascii_dec p NL); lia.
Qed.

Lemma get_iter_at_line_le (t : text) :
  forall a, get_iter_at_line t a <= length t.
Proof.
  induction t as [|c t IH]; intros [|a]; simpl; try lia.
  destruct (c =? NL)%char; [specialize (IH a) | specialize (IH (S a))]; lia.
Qed.

(** The start of the line of a position is not behind the position. *)
Lemma line_start_le (t : text) (m : nat) :
  m <= length t -> get_iter_at_line t (get_line t m) <= m.
Proof.
  intros Hm. unfold get_line.
  rewrite <- (firstn_skipn m t) at 1.
  rewrite get_iter_at_line_app, Nat.leb_refl.
  pose proof (get_iter_at_line_le (firstn m t) (count_occ ascii_dec (firstn m t) NL)) as H.
  rewrite firstn_length_le in H by exact Hm. exact H.
Qed.

Lemma get_line_app_ge (p y : text) (m : nat) :
  length p <= m ->
  get_line (p ++ y) m = count_occ ascii_dec p NL + get_line y (m - length p).
Proof.
  intros Hm. unfold get_line. rewrite firstn_app, firstn_all2 by exact Hm.
  apply count_occ_app.
Qed.

Lemma get_line_app_lt (p y : text) (m : nat) :
  m <= length p -> get_line (p ++ y) m = get_line p m.
Proof.
  intros Hm. unfold get_line. rewrite firstn_app.
  replace (m - length p) with 0 by lia. simpl. rewrite app_nil_r. reflexivity.
Qed.

Lemma get_line_le_count (t : text) (m : nat) : get_line t m <= count_occ ascii_dec t NL.
Proof.
  unfold get_line. rewrite <- (firstn_skipn m t) at 2. rewrite count_occ_app. lia.
Qed.

(** A mark when a text without newline is inserted at the start of a line:
    the mark stays on its line, and its column grows by the length of the
    text when that line is its own. *)
Lemma mark_after_insert_line_col (pre r tb : text) (m : nat) :
  at_line_start pre -> nl_free tb -> m <= length (pre ++ r) ->
  let t := pre ++ r in
  let t' := pre ++ tb ++ r in
  let m' := mark_after_insert (length pre) (length tb) m in
  m' <= length t'
  /\ get_line t' m' = get_line t m
  /\ get_line_offset t' m'
     = get_line_offset t m
       + (if get_line t m =? count_occ ascii_dec pre NL then length tb else 0).
Proof.
  intros Hpre Htb Hm t t' m'. unfold m', mark_after_insert.
  pose proof (count_nl_free tb Htb) as Hc0.
  destruct (length pre <=? m) eqn:E.
  - apply Nat.leb_le in E.
    assert (HL : get_line t m = count_occ ascii_dec pre NL + get_line r (m - length pre))
      by (apply get_line_app_ge; exact E).
    assert (HL' : get_line t' (m + length tb) = get_line t m).
    { unfold t'. rewrite get_line_app_ge by lia. rewrite HL. f_equal.
      replace (m + length tb - length pre) with (length tb + (m - length pre)) by lia.
      rewrite get_line_app_ge by lia. rewrite Hc0.
      replace (length tb + (m - length pre) - length tb) with (m - length pre) by lia.
      reflexivity. }
    split; [unfold t'; rewrite !length_app in *; lia|]. split; [exact HL'|].
    unfold get_line_offset. rewrite HL'. rewrite HL.
    unfold t, t'. rewrite !get_iter_at_line_app.
    destruct (get_line r (m - length pre)) as [|a] eqn:Ea.
    + rewrite Nat.add_0_r, Nat.leb_refl, Nat.eqb_refl.
      pose proof (get_iter_at_line_at_line_start pre [] Hpre) as G.
      rewrite app_nil_r in G. rewrite G. lia.
    + nat_test (count_occ ascii_dec pre NL + S a <=? count_occ ascii_dec pre NL) false.
      nat_test (count_occ ascii_dec pre NL + S a =? count_occ ascii_dec pre NL) false.
      replace (count_occ ascii_dec pre NL + S a - count_occ ascii_dec pre NL) with (S a)
        by lia.
      rewrite Hc0. cbn [Nat.leb Nat.sub].
      assert (K : get_iter_at_line r (S a) <= m - length pre).
      { rewrite <- Ea. apply line_start_le. unfold t in Hm. rewrite length_app in Hm. lia. }
      lia.
  - apply Nat.leb_gt in E.
    assert (HL : get_line t m = get_line pre m) by (apply get_line_app_lt; lia).
    assert (HL' : get_line t' m = get_line pre m) by (apply get_line_app_lt; lia).
    split; [unfold t'; rewrite !length_app; lia|]. split; [congruence|].
    unfold get_line_offset. rewrite HL', HL. unfold t, t'.
    rewrite !get_iter_at_line_app.
    pose proof (get_line_le_count pre m) as Hle.
    nat_test (get_line pre m <=? count_occ ascii_dec pre NL) true.
    destruct (get_line pre m =? count_occ ascii_dec pre NL) eqn:Eq; [|lia].
    exfalso. apply Nat.eqb_eq in Eq.
    pose proof (line_start_le pre m ltac:(lia)) as K. rewrite Eq in K.
    pose proof (get_iter_at_line_at_line_start pre [] Hpre) as G.
    rewrite app_nil_r in G. rewrite G in K. lia.
Qed.

(** ** The Tab key *)

Lemma marks_buffer_insert (b : Buffer) (iter : TextIter) (s : text) :
  insert_mark (buffer_insert b iter s) = mark_after_insert iter (length s) (insert_mark b)
  /\ selection_bound (buffer_insert b iter s)
     = mark_after_insert iter (length s) (selection_bound b).
Proof.
  unfold buffer_insert, mark_after_insert. destruct s; [|split; reflexivity].
  simpl. split; [destruct (iter <=? insert_mark b) | destruct (iter <=? selection_bound b)];
    lia.
Qed.

Lemma mark_after_insert_mono (iter n m1 m2 : nat) :
  m1 <= m2 -> mark_after_insert iter n m1 <= mark_after_insert iter n m2.
Proof.
  intros H. unfold mark_after_insert.
  destruct (iter <=? m1) eqn:E1, (iter <=? m2) eqn:E2;
    try apply Nat.leb_le in E1; try apply Nat.leb_gt in E1;
    try apply Nat.leb_le in E2; try apply Nat.leb_gt in E2; lia.
Qed.

Lemma mark_after_insert_inj (iter n m1 m2 : nat) :
  (mark_after_insert iter n m1 =? mark_after_insert iter n m2) = (m1 =? m2).
Proof.
  unfold mark_after_insert.
  destruct (Nat.leb_spec iter m1), (Nat.leb_spec iter m2);
    match goal with
    | |- (?a =? ?b) = (?c =? ?d) => destruct (Nat.eqb_spec a b), (Nat.eqb_spec c d)
    end; try reflexivity; exfalso; lia.
Qed.

Lemma get_has_selection_buffer_insert (b : Buffer) (iter : TextIter) (s : text) :
  get_has_selection (buffer_insert b iter s) = get_has_selection b.
Proof.
  unfold get_has_selection. destruct (marks_buffer_insert b iter s) as [-> ->].
  rewrite mark_after_insert_inj. reflexivity.
Qed.

Lemma indent_track_mono (v : View) (t0 : text) (se : TextIter) (n : nat) :
  forall line b m1 m2,
    m1 <= m2 -> indent_track v t0 se n line b m1 <= indent_track v t0 se n line b m2.
Proof.
  induction n as [|n IH]; intros line b m1 m2 H; [exact H|].
  cbn [indent_track].
  destruct (outdent_touches t0 (get_has_selection b) se line); apply IH;
    [apply mark_after_insert_mono|]; exact H.
Qed.

(** The loop of the Tab key on the lines [seg] that follow the lines [ls1]:
    the text it leaves, and where it leaves the marks. *)
Lemma indent_loop_spec (v : View) (t0 : text) (se : TextIter) (seg : list text) :
  forall (ls1 rest : list text) (b : Buffer),
    btext b = unlines (ls1 ++ seg ++ rest) ->
    Forall nl_free ls1 -> Forall nl_free seg -> nl_free (tab v) ->
    let touched := outdent_touches t0 (get_has_selection b) se in
    let b' := indent_loop v t0 se (length seg) (length ls1) b in
    btext b' = unlines (ls1 ++ indent_lines touched (tab v) (length ls1) seg ++ rest)
    /\ get_has_selection b' = get_has_selection b
    /\ insert_mark b' = indent_track v t0 se (length seg) (length ls1) b (insert_mark b)
    /\ selection_bound b'
       = indent_track v t0 se (length seg) (length ls1) b (selection_bound b)
    /\ forall m, m <= length (btext b) ->
         let m' := indent_track v t0 se (length seg) (length ls1) b m in
         let a := get_line (btext b) m in
         m' <= length (btext b')
         /\ get_line (btext b') m' = a
         /\ get_line_offset (btext b') m'
            = get_line_offset (btext b) m
              + (if (length ls1 <=? a) && (a <? length ls1 + length seg) && touched a
                 then length (tab v) else 0).
Proof.
  induction seg as [|l seg IH]; intros ls1 rest b Hb H1 H2 Htab touched b'.
  - unfold b'. cbn [length indent_loop indent_track indent_lines].
    repeat split; auto.
    destruct (length ls1 <=? get_line (btext b) m) eqn:E1,
             (get_line (btext b) m <? length ls1 + 0) eqn:E2; cbn [andb]; try lia.
    apply Nat.leb_le in E1. apply Nat.ltb_lt in E2. lia.
  - set (l' := if touched (length ls1) then tab v ++ l else l).
    set (b1 := if touched (length ls1)
               then buffer_insert b (length (terminated ls1)) (tab v) else b).
    assert (Hit : get_iter_at_line (btext b) (length ls1) = length (terminated ls1)).
    { rewrite Hb. simpl app. apply get_iter_at_line_unlines. exact H1. }
    assert (Hsplit : btext b = terminated ls1 ++ l ++ line_rest (seg ++ rest)).
    { rewrite Hb. simpl app. apply unlines_split. }
    assert (Hb1 : btext b1 = unlines ((ls1 ++ [l']) ++ seg ++ rest)).
    { rewrite <- app_assoc. simpl app. rewrite unlines_split. unfold b1, l'.
      destruct (touched (length ls1)); [|exact Hsplit].
      rewrite btext_buffer_insert, Hsplit, text_insert_in_line, <- app_assoc.
      reflexivity. }
    assert (Hhs : get_has_selection b1 = get_has_selection b).
    { unfold b1. destruct (touched (length ls1)); [|reflexivity].
      apply get_has_selection_buffer_insert. }
    assert (Hlen : length (ls1 ++ [l']) = S (length ls1))
      by (rewrite length_app; simpl; lia).
    pose proof (Forall_inv H2) as Hl. pose proof (Forall_inv_tail H2) as Hseg.
    assert (H1' : Forall nl_free (ls1 ++ [l'])).
    { apply Forall_app. split; [exact H1|]. constructor; [|constructor].
      unfold l'. destruct (touched (length ls1)); [|exact Hl].
      apply nl_free_app. split; assumption. }
    pose proof (IH (ls1 ++ [l']) rest b1 Hb1 H1' Hseg Htab) as IH'.
    cbv zeta in IH'. rewrite Hlen, Hhs in IH'. fold touched in IH'.
    destruct IH' as (I1 & I2 & I3 & I4 & I5).
    set (step := fun m => if touched (length ls1)
                          then mark_after_insert (length (terminated ls1))
                                                 (length (tab v)) m
                          else m).
    assert (Hb' : b' = indent_loop v t0 se (length seg) (S (length ls1)) b1).
    { unfold b', b1. cbn [length indent_loop]. rewrite Hit. reflexivity. }
    assert (Htr : forall m,
               indent_track v t0 se (S (length seg)) (length ls1) b m
               = indent_track v t0 se (length seg) (S (length ls1)) b1 (step m)).
    { intros m. cbn [indent_track]. rewrite Hit. unfold b1, step. fold touched.
      destruct (touched (length ls1)); reflexivity. }
    assert (Hmarks : insert_mark b1 = step (insert_mark b)
                     /\ selection_bound b1 = step (selection_bound b)).
    { unfold b1, step. destruct (touched (length ls1)); [|split; reflexivity].
      apply marks_buffer_insert. }
    destruct Hmarks as [Him Hsb].
    cbn [length]. rewrite Hb'.
    split; [rewrite I1; cbn [indent_lines]; rewrite <- app_assoc; reflexivity|].
    split; [exact I2|].
    split; [rewrite I3, Htr, Him; reflexivity|].
    split; [rewrite I4, Htr, Hsb; reflexivity|].
    intros m Hm. rewrite Htr.
    assert (S1 : step m <= length (btext b1)
                 /\ get_line (btext b1) (step m) = get_line (btext b) m
                 /\ get_line_offset (btext b1) (step m)
                    = get_line_offset (btext b) m
                      + (if (get_line (btext b) m =? length ls1) && touched (length ls1)
                         then length (tab v) else 0)).
    { unfold step, b1. destruct (touched (length ls1)).
      - rewrite btext_buffer_insert, Hsplit, text_insert_in_line.
        rewrite (line_index ls1 H1), Bool.andb_true_r.
        apply mark_after_insert_line_col;
          [apply at_line_start_terminated | exact Htab | rewrite <- Hsplit; exact Hm].
      - rewrite Bool.andb_false_r. repeat split; auto. }
    destruct S1 as (S1a & S1b & S1c).
    destruct (I5 (step m) S1a) as (J1 & J2 & J3).
    rewrite S1b in J2, J3.
    split; [exact J1|]. split; [exact J2|].
    rewrite J3, S1c.
    set (a := get_line (btext b) m).
    destruct (lt_eq_lt_dec a (length ls1)) as [[Ha|Ha]|Ha].
    + nat_test (a =? length ls1) false. nat_test (length ls1 <=? a) false.
      nat_test (S (length ls1) <=? a) false. cbn [andb]. lia.
    + rewrite Ha. rewrite Nat.eqb_refl, Nat.leb_refl.
      nat_test (S (length ls1) <=? length ls1) false.
      nat_test (length ls1 <? length ls1 + S (length seg)) true.
      cbn [andb]. lia.
    + nat_test (a =? length ls1) false. nat_test (length ls1 <=? a) true.
      nat_test (S (length ls1) <=? a) true.
      destruct (a <? S (length ls1) + length seg) eqn:E.
      * apply Nat.ltb_lt in E. nat_test (a <? length ls1 + S (length seg)) true.
        cbn [andb]. lia.
      * apply Nat.ltb_ge in E. nat_test (a <? length ls1 + S (length seg)) false.
        cbn [andb]. lia.
Qed.

Lemma indent_lines_length (touched : nat -> bool) (tb : text) (seg : list text) :
  forall i, length (indent_lines touched tb i seg) = length seg.
Proof. induction seg as [|l seg IH]; intros i; simpl; [|rewrite IH]; reflexivity. Qed.

Lemma indent_lines_nl_free (touched : nat -> bool) (tb : text) (seg : list text) :
  nl_free tb ->
  forall i, Forall nl_free seg -> Forall nl_free (indent_lines touched tb i seg).
Proof.
  intros Htb. induction seg as [|l seg IH]; intros i H; simpl; [constructor|].
  pose proof (Forall_inv H) as Hl. pose proof (Forall_inv_tail H) as Hseg.
  constructor; [|apply IH; exact Hseg].
  destruct (touched i); [apply nl_free_app; split; assumption | exact Hl].
Qed.

Lemma tab_nl_free (v : View) : tab_char v <> NL -> nl_free (tab v).
Proof. intros H. unfold tab. apply repeat_nl_free. exact H. Qed.

(** The lines of a text around the lines of its selection. *)
Lemma selection_lines_split (b : Buffer) :
  let t := btext b in
  let line_start := get_line t (fst (get_selection_bounds b)) in
  let line_end := get_line t (snd (get_selection_bounds b)) in
  let before := firstn line_start (lines t) in
  let seg := firstn (S line_end - line_start) (skipn line_start (lines t)) in
  let after := skipn (S line_end - line_start) (skipn line_start (lines t)) in
  lines t = before ++ seg ++ after
  /\ t = unlines (before ++ seg ++ after)
  /\ length before = line_start
  /\ length seg = S line_end - line_start
  /\ line_start <= line_end
  /\ line_end < length (lines t)
  /\ Forall nl_free before /\ Forall nl_free seg /\ Forall nl_free after.
Proof.
  intros t line_start line_end before seg after.
  assert (Hsplit : lines t = before ++ seg ++ after).
  { unfold before, seg, after. rewrite firstn_skipn, firstn_skipn. reflexivity. }
  pose proof (lines_nl_free t) as Hnl. rewrite Hsplit in Hnl.
  apply Forall_app in Hnl as [Hnb Hnl]. apply Forall_app in Hnl as [Hns Hna].
  pose proof (get_line_lt t (fst (get_selection_bounds b))) as Hls. fold line_start in Hls.
  pose proof (get_line_lt t (snd (get_selection_bounds b))) as Hle. fold line_end in Hle.
  assert (Hord : line_start <= line_end).
  { apply get_line_mono. unfold get_selection_bounds. cbn [fst snd]. lia. }
  repeat split; auto.
  - rewrite <- Hsplit. symmetry. apply unlines_lines.
  - unfold before. apply firstn_length_le. lia.
  - unfold seg. apply firstn_length_le. rewrite length_skipn. lia.
Qed.

(** When the Tab key reaches its loop over the lines of the selection. *)
Lemma basic_tab_loop (v : View) (tab_indents_line : bool) (b : Buffer) :
  let t := btext b in
  let selection_end := snd (get_selection_bounds b) in
  let line_start := get_line t (fst (get_selection_bounds b)) in
  let line_end := get_line t selection_end in
  get_has_selection b = true
  \/ (tab_indents_line = true
      /\ starts_line t (insert_mark b) && ends_line t (insert_mark b) = false) ->
  basic_tab v tab_indents_line b
  = end_user_action
      (indent_loop v t selection_end (S line_end - line_start) line_start
                   (begin_user_action b)).
Proof.
  intros t selection_end line_start line_end H. unfold basic_tab.
  change (get_has_selection (begin_user_action b)) with (get_has_selection b).
  change (btext (begin_user_action b)) with t.
  change (insert_mark (begin_user_action b)) with (insert_mark b).
  change (get_selection_bounds (begin_user_action b)) with (get_selection_bounds b).
  destruct H as [H|[H1 H2]].
  - rewrite H. cbn [negb]. rewrite !Bool.andb_false_r. reflexivity.
  - rewrite H1, H2. cbn [negb andb]. reflexivity.
Qed.

(** X16: the Tab key when there is a selection, or when Tab is set to indent
    the line and the cursor is not on an empty line.  A line is touched
    unless the selection ends at its very start.  The lines in front of and
    behind the lines of the selection stay, every touched line of the
    selection gets [tab] in front, also when the cursor or the bounds of
    the selection are in the middle of a line, and the selection is neither
    lost nor created. *)
Theorem basic_tab_indents_lines :
  forall (v : View) (tab_indents_line : bool) (b : Buffer),
    let t := btext b in
    let selection_start := fst (get_selection_bounds b) in
    let selection_end := snd (get_selection_bounds b) in
    let line_start := get_line t selection_start in
    let line_end := get_line t selection_end in
    let touched := outdent_touches t (get_has_selection b) selection_end in
    let before := firstn line_start (lines t) in
    let seg := firstn (S line_end - line_start) (skipn line_start (lines t)) in
    let after := skipn (S line_end - line_start) (skipn line_start (lines t)) in
    tab_char v <> NL ->
    get_has_selection b = true
    \/ (tab_indents_line = true
        /\ starts_line t (insert_mark b) && ends_line t (insert_mark b) = false) ->
    lines t = before ++ seg ++ after
    /\ lines (btext (basic_tab v tab_indents_line b))
       = before ++ indent_lines touched (tab v) line_start seg ++ after
    /\ get_has_selection (basic_tab v tab_indents_line b) = get_has_selection b.
Proof.
  intros v til b t selection_start selection_end line_start line_end touched
         before seg after Htc H.
  rewrite (basic_tab_loop v til b H).
  destruct (selection_lines_split b)
    as (Hsplit & Ht & Hlb & Hlseg & Hord & Hlt & Hnb & Hns & Hna).
  fold t selection_start selection_end line_start line_end before seg after
    in Hsplit, Ht, Hlb, Hlseg, Hord, Hlt, Hnb, Hns, Hna |- *.
  clearbody before seg after line_start line_end.
  split; [exact Hsplit|].
  destruct (indent_loop_spec v t selection_end seg before after (begin_user_action b)
              Ht Hnb Hns (tab_nl_free v Htc)) as (I1 & I2 & _).
  rewrite Hlb, Hlseg in I1, I2.
  change (get_has_selection (begin_user_action b)) with (get_has_selection b) in I1, I2.
  fold touched in I1.
  split.
  - cbn [end_user_action btext]. rewrite I1. apply lines_unlines.
    + intros E. apply (f_equal (@length text)) in E.
      rewrite !length_app, indent_lines_length in E. simpl in E. lia.
    + apply Forall_app. split; [exact Hnb|]. apply Forall_app. split; [|exact Hna].
      apply indent_lines_nl_free; [apply tab_nl_free; exact Htc | exact Hns].
  - exact I2.
Qed.

Lemma basic_tab_indents_lines_witness :
  let v := mkView SPACE 2 false false in
  let b := mkBuffer (chars "ab" ++ NL :: chars "cd" ++ NL :: chars "ef") 1 6 [] in
  lines (btext b) = [] ++ [chars "ab"; chars "cd"] ++ [chars "ef"]
  /\ lines (btext (basic_tab v true b)) = [chars "  ab"; chars "  cd"; chars "ef"]
  /\ get_has_selection (basic_tab v true b) = true.
Proof.
  intros v b.
  apply (basic_tab_indents_lines v true b); [discriminate | left; reflexivity].
Defined.

(** ** Shift-Tab after Tab *)

(** An iterator is the start of line [j] when it is on that line at
    column 0. *)
Lemma line_start_eqb (t : text) (j m : nat) :
  j < length (lines t) -> m <= length t ->
  (get_iter_at_line t j =? m) = (j =? get_line t m) && (get_line_offset t m =? 0).
Proof.
  intros Hj Hm. unfold get_line_offset.
  pose proof (line_start_le t m Hm) as Hle.
  destruct (Nat.eqb_spec (get_iter_at_line t j) m) as [E|E].
  - assert (Hl : get_line t m = j) by (rewrite <- E; apply get_line_get_iter_at_line; exact Hj).
    rewrite Hl, Nat.eqb_refl, E, Nat.sub_diag. reflexivity.
  - destruct (Nat.eqb_spec j (get_line t m)) as [E1|E1]; [|reflexivity].
    rewrite <- E1 in *. cbn [andb]. symmetry. apply Nat.eqb_neq. lia.
Qed.

Lemma has_unindented_ext (f g : nat -> bool) (seg : list text) :
  forall i, (forall j, j < length seg -> f (i + j) = g (i + j)) ->
            has_unindented f i seg = has_unindented g i seg.
Proof.
  induction seg as [|l seg IH]; intros i H; [reflexivity|]. cbn [has_unindented].
  pose proof (H 0 ltac:(simpl; lia)) as H0. rewrite Nat.add_0_r in H0. rewrite H0.
  f_equal. apply IH. intros j Hj. replace (S i + j) with (i + S j) by lia.
  apply H. simpl. lia.
Qed.

Lemma min_leading_ext (f g : nat -> bool) (seg : list text) :
  forall i k, (forall j, j < length seg -> f (i + j) = g (i + j)) ->
              min_leading f i seg k = min_leading g i seg k.
Proof.
  induction seg as [|l seg IH]; intros i k H; [reflexivity|]. cbn [min_leading].
  pose proof (H 0 ltac:(simpl; lia)) as H0. rewrite Nat.add_0_r in H0. rewrite H0.
  apply IH. intros j Hj. replace (S i + j) with (i + S j) by lia.
  apply H. simpl. lia.
Qed.

Lemma outdent_lines_ext (f g : nat -> bool) (k : nat) (seg : list text) :
  forall i, (forall j, j < length seg -> f (i + j) = g (i + j)) ->
            outdent_lines f k i seg = outdent_lines g k i seg.
Proof.
  induction seg as [|l seg IH]; intros i H; [reflexivity|]. cbn [outdent_lines].
  pose proof (H 0 ltac:(simpl; lia)) as H0. rewrite Nat.add_0_r in H0. rewrite H0.
  f_equal. apply IH. intros j Hj. replace (S i + j) with (i + S j) by lia.
  apply H. simpl. lia.
Qed.

(** The lines after one unit of indentation made of blanks: none of the
    touched lines is without indentation, the least indentation is no less
    than the unit, and removing the unit gives the lines back. *)
Lemma indent_lines_outdent (touched : nat -> bool) (tb : text) (seg : list text) :
  forallb is_blank tb = true -> tb <> [] ->
  forall i,
    has_unindented touched i (indent_lines touched tb i seg) = false
    /\ (forall k, k <= length tb ->
                  min_leading touched i (indent_lines touched tb i seg) k = k)
    /\ outdent_lines touched (length tb) i (indent_lines touched tb i seg) = seg.
Proof.
  intros Hb Hne. induction seg as [|l seg IH]; intros i.
  - repeat split; reflexivity.
  - destruct (IH (S i)) as (I1 & I2 & I3).
    cbn [indent_lines has_unindented min_leading outdent_lines].
    rewrite I1, I3. destruct (touched i) eqn:E; cbn [andb orb].
    + assert (Hem : is_empty_line (tb ++ l) = false).
      { destruct tb; [congruence | reflexivity]. }
      assert (Hlb : leading_blanks (tb ++ l) = length tb + leading_blanks l)
        by (apply leading_blanks_app; exact Hb).
      assert (Hpos : 0 < length tb) by (destruct tb; [congruence | simpl; lia]).
      rewrite Hem, Hlb. cbn [negb]. repeat split.
      * nat_test (length tb + leading_blanks l =? 0) false. reflexivity.
      * intros k Hk. rewrite Nat.min_l by lia. apply I2. exact Hk.
      * rewrite skipn_app, Nat.sub_diag, skipn_all. reflexivity.
    + repeat split; auto.
Qed.

(** Shift-Tab on a buffer whose lines are given around the lines of the
    selection, when no touched line that is not empty lacks indentation. *)
Lemma basic_shift_tab_lines (v : View) (b : Buffer) (bef sg aft : list text) :
  let t := btext b in
  let selection_start := fst (get_selection_bounds b) in
  let selection_end := snd (get_selection_bounds b) in
  let touched := outdent_touches t (get_has_selection b) selection_end in
  t = unlines (bef ++ sg ++ aft) ->
  Forall nl_free bef -> Forall nl_free sg -> Forall nl_free aft ->
  length bef = get_line t selection_start ->
  length sg = S (get_line t selection_end) - get_line t selection_start ->
  has_unindented touched (length bef) sg = false ->
  exists b',
    basic_shift_tab v b = Some b'
    /\ btext b'
       = unlines (bef ++ outdent_lines touched
                           (min_leading touched (length bef) sg (tab_size v))
                           (length bef) sg ++ aft).
Proof.
  intros t selection_start selection_end touched Ht Hnb Hns Hna Hlb Hlseg Hun.
  set (k := min_leading touched (length bef) sg (tab_size v)).
  assert (Hord : get_line t selection_start <= get_line t selection_end).
  { apply get_line_mono. unfold selection_start, selection_end, get_selection_bounds.
    cbn [fst snd]. lia. }
  assert (Hlines : lines t = bef ++ sg ++ aft).
  { rewrite Ht. apply lines_unlines.
    - intros E. apply (f_equal (@length text)) in E. rewrite !length_app in E.
      simpl in E. lia.
    - apply Forall_app. split; [exact Hnb|]. apply Forall_app. split; assumption. }
  assert (Hscan := outdent_scan_lines (get_has_selection b) selection_end t sg
                     bef aft (tab_size v) [] Ht Hnb Hns).
  fold touched in Hscan. rewrite Hun in Hscan. fold k in Hscan. cbn [app] in Hscan.
  unfold basic_shift_tab.
  change (get_selection_bounds b) with (selection_start, selection_end).
  cbv beta iota. fold t. rewrite <- Hlseg, <- Hlb, Hscan.
  destruct (outdent_erase_lines t (get_has_selection b) selection_end (length bef) k
              (ignore_entries touched (length bef) sg) sg bef aft b)
    as (b' & Hr & Hb'); auto.
  - intros j l Hj Htj.
    replace (length bef + j - length bef) with j by lia.
    apply ignore_entries_nth; auto.
    intros j' Hj'.
    destruct (touched (length bef + j')) eqn:E; [reflexivity|].
    exfalso.
    assert (Hjl : j < length sg) by (apply nth_error_Some; congruence).
    apply untouched_is_last in E.
    + lia.
    + rewrite Hlines, !length_app. lia.
  - intros j l Hj Htj Hl. unfold k. eapply min_leading_bound; eauto.
  - fold touched in Hr. rewrite Hr. exists (end_user_action b').
    split; [reflexivity|]. exact Hb'.
Qed.

Lemma min_max_mono (f : nat -> nat) (x y : nat) :
  (forall m1 m2, m1 <= m2 -> f m1 <= f m2) ->
  Nat.min (f x) (f y) = f (Nat.min x y) /\ Nat.max (f x) (f y) = f (Nat.max x y).
Proof.
  intros Hf. destruct (Nat.le_ge_cases x y) as [H|H].
  - pose proof (Hf x y H). rewrite !Nat.min_l, !Nat.max_r by assumption. auto.
  - pose proof (Hf y x H). rewrite !Nat.min_r, !Nat.max_l by assumption. auto.
Qed.

(** X17: Shift-Tab undoes Tab.  When the unit of indentation is made of
    spaces or tabs and the Tab key has indented the lines of the selection
    (or the line of the cursor), Shift-Tab, pressed next, gives back the
    text as it was before the Tab key: the marks were moved by the
    insertions so that the same lines are touched, each of them starts with
    the unit, and exactly the unit is removed. *)
Theorem shift_tab_undoes_tab :
  forall (v : View) (dflt : DefaultHandler) (tab_indents_line : bool) (b : Buffer),
    let t := btext b in
    is_blank (tab_char v) = true -> 0 < tab_size v ->
    insert_mark b <= length t -> selection_bound b <= length t ->
    get_has_selection b = true
    \/ (tab_indents_line = true
        /\ starts_line t (insert_mark b) && ends_line t (insert_mark b) = false) ->
    exists b',
      on_key_press_event_basic v dflt Key_ShiftTab (basic_tab v tab_indents_line b)
      = Some b'
      /\ btext b' = t.
Proof.
  intros v dflt til b t Hblank Hsize Him Hsb H.
  pose proof (tab_nl_free v (is_blank_not_NL _ Hblank)) as Htab.
  rewrite (basic_tab_loop v til b H).
  destruct (selection_lines_split b)
    as (Hsplit & Ht & Hlb & Hlseg & Hord & Hlt & Hnb & Hns & Hna).
  fold t in Hsplit, Ht, Hlb, Hlseg, Hord, Hlt, Hnb, Hns, Hna |- *.
  set (selection_start := fst (get_selection_bounds b)) in *.
  set (selection_end := snd (get_selection_bounds b)) in *.
  set (line_start := get_line t selection_start) in *.
  set (line_end := get_line t selection_end) in *.
  set (before := firstn line_start (lines t)) in *.
  set (seg := firstn (S line_end - line_start) (skipn line_start (lines t))) in *.
  set (after := skipn (S line_end - line_start) (skipn line_start (lines t))) in *.
  clearbody before seg after.
  assert (Hbl : forallb is_blank (tab v) = true).
  { unfold tab. apply forallb_forall. intros x Hx.
    apply repeat_spec in Hx. rewrite Hx. exact Hblank. }
  assert (Hlt' : length (tab v) = tab_size v) by (unfold tab; apply repeat_length).
  assert (Hne : tab v <> []).
  { intros E. rewrite E in Hlt'. simpl in Hlt'. lia. }
  set (b0 := begin_user_action b).
  destruct (indent_loop_spec v t selection_end seg before after b0 Ht Hnb Hns Htab)
    as (I1 & I2 & I3 & I4 & I5).
  rewrite Hlb, Hlseg in I1, I2, I3, I4, I5.
  change (get_has_selection b0) with (get_has_selection b) in I1, I2, I5.
  change (btext b0) with t in I5.
  set (touched := outdent_touches t (get_has_selection b) selection_end) in *.
  set (L := indent_loop v t selection_end (S line_end - line_start) line_start b0) in *.
  set (tr := indent_track v t selection_end (S line_end - line_start) line_start b0) in *.
  set (seg' := indent_lines touched (tab v) line_start seg) in *.
  assert (Hss : selection_start <= length t)
    by (unfold selection_start, get_selection_bounds; cbn [fst]; lia).
  assert (Hse : selection_end <= length t)
    by (unfold selection_end, get_selection_bounds; cbn [snd]; lia).
  assert (Hmono : forall m1 m2, m1 <= m2 -> tr m1 <= tr m2)
    by (intros; apply indent_track_mono; assumption).
  destruct (min_max_mono tr (insert_mark b) (selection_bound b) Hmono) as [Hmin Hmax].
  set (b2 := begin_user_action (end_user_action L)).
  assert (Hbounds : get_selection_bounds b2 = (tr selection_start, tr selection_end)).
  { unfold get_selection_bounds, b2. cbn [begin_user_action end_user_action insert_mark
                                           selection_bound].
    rewrite I3, I4. change (insert_mark b0) with (insert_mark b).
    change (selection_bound b0) with (selection_bound b). rewrite Hmin, Hmax.
    reflexivity. }
  assert (Hhs2 : get_has_selection b2 = get_has_selection b) by exact I2.
  assert (Ht2 : btext b2 = unlines (before ++ seg' ++ after)) by exact I1.
  destruct (I5 selection_start Hss) as (_ & S2 & _).
  destruct (I5 selection_end Hse) as (E1 & E2 & E3).
  fold line_start in S2. fold line_end in E2, E3.
  change (btext L) with (btext b2) in S2, E1, E2, E3.
  assert (Hlseg' : length seg' = S line_end - line_start)
    by (unfold seg'; rewrite indent_lines_length; exact Hlseg).
  assert (Hns' : Forall nl_free seg')
    by (apply indent_lines_nl_free; assumption).
  assert (Hlines2 : length (lines (btext b2)) = length (lines t)).
  { rewrite Ht2, Hsplit, lines_unlines.
    - rewrite !length_app. lia.
    - intros E. apply (f_equal (@length text)) in E. rewrite !length_app in E.
      simpl in E. lia.
    - apply Forall_app. split; [exact Hnb|]. apply Forall_app. split; assumption. }
  assert (Hext : forall j, j < length seg' ->
             outdent_touches (btext b2) (get_has_selection b2)
                             (snd (get_selection_bounds b2)) (line_start + j)
             = touched (line_start + j)).
  { intros j Hj. rewrite Hbounds, Hhs2. cbn [snd]. unfold touched, outdent_touches.
    destruct (get_has_selection b) eqn:Ehs; [|reflexivity]. cbn [negb orb].
    rewrite (line_start_eqb (btext b2)) by (try exact E1; lia).
    rewrite (line_start_eqb t) by (try exact Hse; lia).
    rewrite E2, E3. fold line_end.
    assert (Htl : touched line_end = negb (get_line_offset t selection_end =? 0)).
    { unfold touched, outdent_touches. cbn [negb orb].
      rewrite (line_start_eqb t) by (try exact Hse; lia).
      fold line_end. rewrite Nat.eqb_refl. reflexivity. }
    rewrite Htl.
    destruct (get_line_offset t selection_end) as [|o] eqn:Eo.
    - cbn [Nat.eqb negb]. rewrite !Bool.andb_false_r. reflexivity.
    - reflexivity. }
  assert (Hun : has_unindented
                  (outdent_touches (btext b2) (get_has_selection b2)
                                   (snd (get_selection_bounds b2))) line_start seg'
                = false).
  { rewrite (has_unindented_ext _ touched) by exact Hext.
    apply indent_lines_outdent; assumption. }
  unfold on_key_press_event_basic. fold b2.
  destruct (basic_shift_tab_lines v b2 before seg' after Ht2 Hnb Hns' Hna)
    as (b' & Hr & Hb').
  - rewrite Hbounds. cbn [fst]. rewrite S2. exact Hlb.
  - rewrite Hbounds. cbn [fst snd]. rewrite S2, E2. exact Hlseg'.
  - rewrite Hlb. exact Hun.
  - exists b'. split; [exact Hr|].
    rewrite Hb', Hlb.
    rewrite (min_leading_ext _ touched), (outdent_lines_ext _ touched) by exact Hext.
    destruct (indent_lines_outdent touched (tab v) seg Hbl Hne line_start)
      as (_ & K2 & K3).
    fold seg' in K2, K3. rewrite Hlt' in K2, K3.
    rewrite K2 by lia. rewrite K3. symmetry. exact Ht.
Qed.

Lemma shift_tab_undoes_tab_witness :
  let v := mkView SPACE 2 false false in
  let b := mkBuffer (chars "ab" ++ NL :: chars "cd" ++ NL :: chars "ef") 1 6 [] in
  exists b',
    on_key_press_event_basic v (fun _ x => x) Key_ShiftTab (basic_tab v true b) = Some b'
    /\ btext b' = chars "ab" ++ NL :: chars "cd" ++ NL :: chars "ef".
Proof.
  intros v b.
  apply (shift_tab_undoes_tab v (fun _ x => x) true b);
    [reflexivity | simpl; lia | simpl; lia | simpl; lia | left; reflexivity].
Defined.

(** ** Moving by paragraphs *)

Lemma paragraph_down_loop_bounds (t : text) :
  forall fuel iter el tf,
    iter <= length t ->
    iter <= paragraph_down_loop fuel t iter el tf <= length t.
Proof.
  induction fuel as [|f IH]; intros iter el tf Hi; [simpl; lia|].
  cbn [paragraph_down_loop]. unfold is_end.
  destruct (Nat.leb_spec (length t) iter) as [E|E]; [lia|].
  destruct (paragraph_flags t iter (starts_line t iter) el tf) as [el' tf'].
  destruct (el' && tf' && ends_line t iter); [lia|].
  unfold forward_char. nat_test (iter <? length t) true. cbn [fst].
  specialize (IH (S iter) el' tf' ltac:(lia)). lia.
Qed.

Lemma starts_line_at (pre l1 r : text) :
  at_line_start pre -> nl_free l1 ->
  starts_line (pre ++ l1 ++ r) (length pre + length l1)
  = match l1 with [] => true | _ => false end.
Proof.
  intros Hpre Hl. destruct l1 as [|c l] using rev_ind.
  - simpl. rewrite Nat.add_0_r. destruct Hpre as [->|[p ->]]; [reflexivity|].
    rewrite length_snoc, starts_line_snoc. reflexivity.
  - clear IHl. apply nl_free_app in Hl as [_ Hc]. apply nl_free_cons in Hc as [Hc _].
    rewrite length_snoc, Nat.add_succ_r, <- length_app, <- app_assoc.
    rewrite (app_assoc pre l), (app_assoc (pre ++ l)).
    rewrite starts_line_snoc, (eqb_NL_false c Hc). destruct l; reflexivity.
Qed.

Lemma has_text_cons (x : ascii) (l : text) :
  has_text (x :: l) = negb (is_blank x) || has_text l.
Proof. unfold has_text. simpl. apply Bool.negb_andb. Qed.

(** The loop of Ctrl+Down from a position in a line that is not the last
    one: it stops at the end of the line or goes on from the start of the
    next line. *)
Lemma paragraph_down_loop_in_line (pre q : text) :
  at_line_start pre ->
  forall (l2 l1 : text) (fuel : nat) (el tf : bool),
    nl_free (l1 ++ l2) -> length l2 < fuel ->
    let t := pre ++ (l1 ++ l2) ++ NL :: q in
    let el' := (match l1 with [] => true | _ => el end) && negb (has_text l2) in
    let tf' := tf || has_text l2 in
    paragraph_down_loop fuel t (length pre + length l1) el tf
    = if el' && tf' then length pre + length l1 + length l2
      else paragraph_down_loop (fuel - S (length l2)) t
             (S (length pre + length l1 + length l2)) el' tf'.
Proof.
  intros Hpre. induction l2 as [|x l2 IH]; intros l1 fuel el tf Hnl Hf t el' tf'.
  - destruct fuel as [|f]; [simpl in Hf; lia|].
    replace (S f - S (length (@nil ascii))) with f by (simpl; lia).
    cbn [paragraph_down_loop length]. rewrite !Nat.add_0_r.
    rewrite app_nil_r in Hnl.
    assert (Ht : t = pre ++ l1 ++ NL :: q).
    { unfold t. rewrite app_nil_r. reflexivity. }
    assert (Ht2 : t = (pre ++ l1) ++ NL :: q) by (rewrite Ht; apply app_assoc).
    assert (Hpos : length pre + length l1 = length (pre ++ l1))
      by (rewrite length_app; reflexivity).
    assert (Hend : is_end t (length pre + length l1) = false).
    { rewrite Hpos, Ht2. apply is_end_app. }
    assert (Hel : ends_line t (length pre + length l1) = true).
    { rewrite Hpos, Ht2, ends_line_app. reflexivity. }
    assert (Hsl : starts_line t (length pre + length l1)
                  = match l1 with [] => true | _ => false end).
    { rewrite Ht. apply starts_line_at; assumption. }
    assert (Hfw : fst (forward_char t (length pre + length l1))
                  = S (length pre + length l1)).
    { rewrite Hpos, Ht2. apply fst_forward_char_app. }
    rewrite Hend, Hfw. unfold paragraph_flags. rewrite Hel, Hsl.
    unfold el', tf', has_text. cbn [forallb negb andb].
    rewrite !Bool.andb_false_r, !Bool.andb_true_r, Bool.orb_false_r.
    destruct l1; reflexivity.
  - destruct fuel as [|f]; [simpl in Hf; lia|].
    assert (Hx : x <> NL).
    { apply nl_free_app in Hnl as [_ Hnl]. apply nl_free_cons in Hnl. tauto. }
    assert (Ht2 : t = (pre ++ l1) ++ x :: l2 ++ NL :: q).
    { unfold t. rewrite <- !app_assoc. reflexivity. }
    assert (Hpos : length pre + length l1 = length (pre ++ l1))
      by (rewrite length_app; reflexivity).
    assert (Hend : is_end t (length pre + length l1) = false).
    { rewrite Hpos, Ht2. apply is_end_app. }
    assert (Hel : ends_line t (length pre + length l1) = false).
    { rewrite Hpos, Ht2, ends_line_app. apply eqb_NL_false. exact Hx. }
    assert (Hd : deref t (length pre + length l1) = x).
    { rewrite Hpos, Ht2, deref_app. reflexivity. }
    assert (Hsl : starts_line t (length pre + length l1)
                  = match l1 with [] => true | _ => false end).
    { unfold t. rewrite <- (app_assoc l1). apply starts_line_at; [exact Hpre|].
      apply nl_free_app in Hnl. tauto. }
    assert (Hfw : fst (forward_char t (length pre + length l1))
                  = S (length pre + length l1)).
    { rewrite Hpos, Ht2. apply fst_forward_char_app. }
    set (el1 := match l1 with [] => true | _ => el end).
    assert (Hstep : paragraph_down_loop (S f) t (length pre + length l1) el tf
                    = paragraph_down_loop f t (S (length pre + length l1))
                        (el1 && is_blank x) (tf || negb (is_blank x))).
    { cbn [paragraph_down_loop]. rewrite Hend, Hfw. unfold paragraph_flags.
      rewrite Hel, Hsl, Hd. unfold el1, is_blank.
      destruct l1, el, tf, (x =? SPACE)%char, (x =? TAB)%char; reflexivity. }
    rewrite Hstep.
    assert (Hnl' : nl_free ((l1 ++ [x]) ++ l2)) by (rewrite <- app_assoc; exact Hnl).
    pose proof (IH (l1 ++ [x]) f (el1 && is_blank x) (tf || negb (is_blank x)) Hnl'
                   ltac:(simpl in Hf; lia)) as IH'.
    cbv zeta in IH'. rewrite <- (app_assoc l1 [x] l2) in IH'. cbn [app] in IH'.
    fold t in IH'. rewrite length_snoc in IH'.
    replace (length pre + S (length l1)) with (S (length pre + length l1)) in IH' by lia.
    rewrite IH'. cbn [length].
    replace (S f - S (S (length l2))) with (f - S (length l2)) by lia.
    replace (length pre + length l1 + S (length l2))
      with (S (length pre + length l1) + length l2) by lia.
    replace (match l1 ++ [x] with [] => true | _ :: _ => el1 && is_blank x end)
      with (el1 && is_blank x) by (destruct l1; reflexivity).
    unfold el', tf'. fold el1. rewrite has_text_cons.
    replace (el1 && is_blank x && negb (has_text l2))
      with (el1 && negb (negb (is_blank x) || has_text l2))
      by (destruct el1, (is_blank x), (has_text l2); reflexivity).
    replace (tf || negb (is_blank x) || has_text l2)
      with (tf || (negb (is_blank x) || has_text l2))
      by (destruct tf, (is_blank x), (has_text l2); reflexivity).
    reflexivity.
Qed.

(** A position in the last line of a text. *)
Lemma get_line_last_line (pre l : text) (r : nat) :
  nl_free l -> length pre <= r -> get_line (pre ++ l) r = count_occ ascii_dec pre NL.
Proof.
  intros Hl Hr. rewrite get_line_app_ge by exact Hr.
  unfold get_line. rewrite (count_nl_free (firstn (r - length pre) l)); [lia|].
  apply firstn_nl_free. exact Hl.
Qed.

Lemma length_unlines_cons (l l' : text) (rest : list text) :
  length (unlines (l :: l' :: rest)) = S (length l + length (unlines (l' :: rest))).
Proof.
  rewrite (unlines_line_rest l). cbn [line_rest]. rewrite length_app. simpl. lia.
Qed.

(** The loop of Ctrl+Down from the start of a line: the line it ends on. *)
Lemma paragraph_down_loop_lines :
  forall (ls ls1 : list text) (fuel : nat) (el tf : bool),
    ls <> [] -> Forall nl_free ls1 -> Forall nl_free ls ->
    length (unlines ls) < fuel ->
    let t := unlines (ls1 ++ ls) in
    get_line t (paragraph_down_loop fuel t (length (terminated ls1)) el tf)
    = length ls1 + paragraph_down_lines tf ls.
Proof.
  induction ls as [|l ls IH]; intros ls1 fuel el tf Hne H1 H2 Hf t; [congruence|].
  pose proof (Forall_inv H2) as Hl. pose proof (Forall_inv_tail H2) as Hls.
  destruct ls as [|l' rest].
  - cbn [paragraph_down_lines]. rewrite Nat.add_0_r.
    assert (Ht : t = terminated ls1 ++ l).
    { unfold t. rewrite unlines_split. simpl. rewrite app_nil_r. reflexivity. }
    pose proof (paragraph_down_loop_bounds t fuel (length (terminated ls1)) el tf) as B.
    rewrite Ht in B at 1. rewrite length_app in B. specialize (B ltac:(lia)).
    rewrite Ht at 1. rewrite get_line_last_line by (try exact Hl; lia).
    symmetry. apply line_index. exact H1.
  - assert (Ht : t = terminated ls1 ++ ([] ++ l) ++ NL :: unlines (l' :: rest)).
    { unfold t. rewrite unlines_split. reflexivity. }
    rewrite length_unlines_cons in Hf.
    pose proof (paragraph_down_loop_in_line (terminated ls1) (unlines (l' :: rest))
                  (at_line_start_terminated ls1) l [] fuel el tf Hl ltac:(lia)) as G.
    cbv zeta in G. rewrite <- Ht in G. cbn [length] in G. rewrite !Nat.add_0_r in G.
    rewrite G. clear G.
    cbn [paragraph_down_lines]. cbn [andb].
    replace (negb (has_text l) && (tf || has_text l)) with (tf && negb (has_text l))
      by (destruct tf, (has_text l); reflexivity).
    destruct (tf && negb (has_text l)).
    + rewrite Nat.add_0_r. rewrite Ht. cbn [app].
      rewrite get_line_in_line by exact Hl. symmetry. apply line_index. exact H1.
    + assert (Hpos : S (length (terminated ls1) + length l) = length (terminated (ls1 ++ [l]))).
      { rewrite terminated_snoc, !length_app. simpl. lia. }
      assert (Ht' : t = unlines ((ls1 ++ [l]) ++ l' :: rest)).
      { unfold t. rewrite <- app_assoc. reflexivity. }
      rewrite Hpos, Ht'. rewrite IH.
      * rewrite length_app. simpl. lia.
      * discriminate.
      * apply Forall_app. split; [exact H1 | constructor; [exact Hl | constructor]].
      * exact Hls.
      * lia.
Qed.

Lemma paragraph_down_lines_cons (found : bool) (l l' : text) (rest : list text) :
  paragraph_down_lines found (l :: l' :: rest)
  = if found && negb (has_text l) then 0
    else S (paragraph_down_lines (found || has_text l) (l' :: rest)).
Proof. reflexivity. Qed.

(** The line on which Ctrl+Down stops: the first line without text that
    comes after a line with text, or the last line. *)
Lemma paragraph_down_lines_spec :
  forall (ls : list text) (found : bool),
    ls <> [] ->
    let n := paragraph_down_lines found ls in
    n < length ls
    /\ (forall k, k < n ->
          (found || existsb has_text (firstn k ls)) && negb (has_text (nth k ls [])) = false)
    /\ (S n < length ls ->
          (found || existsb has_text (firstn n ls)) && negb (has_text (nth n ls [])) = true).
Proof.
  induction ls as [|l ls IH]; intros found Hne n; [congruence|].
  destruct ls as [|l' rest].
  - unfold n. simpl. repeat split; intros; lia.
  - unfold n. rewrite paragraph_down_lines_cons.
    destruct (found && negb (has_text l)) eqn:E.
    + repeat split; [simpl; lia | intros; lia|].
      intros _. cbn [firstn existsb nth]. rewrite Bool.orb_false_r. exact E.
    + destruct (IH (found || has_text l) ltac:(discriminate)) as (I1 & I2 & I3).
      set (n' := paragraph_down_lines (found || has_text l) (l' :: rest)) in *.
      repeat split.
      * cbn [length] in *. lia.
      * intros [|k] Hk.
        -- cbn [firstn existsb nth]. rewrite Bool.orb_false_r. exact E.
        -- cbn [firstn existsb nth]. rewrite Bool.orb_assoc. apply I2. lia.
      * intros Hn. cbn [firstn existsb nth]. rewrite Bool.orb_assoc. apply I3.
        cbn [length] in *. lia.
Qed.

(** X18: Ctrl+Down never changes the text and puts the cursor at the start
    of a line at or below its own: with [ls] the lines from the line of the
    cursor on, it is the first of them that holds no text (nothing but
    spaces and tabs) while a line before it in [ls] holds text, and the last
    line of the buffer when there is none.  With Shift the other end of the
    selection stays, otherwise the selection collapses. *)
Theorem key_paragraph_down_stops :
  forall (shift : bool) (b : Buffer),
    let t := btext b in
    let c := get_line t (insert_mark b) in
    let ls := skipn c (lines t) in
    let n := paragraph_down_lines false ls in
    let target := get_iter_at_line t (c + n) in
    key_paragraph_down shift b
    = mkBuffer t target (if shift then selection_bound b else target)
               (journal b ++ [BeginUserAction; EndUserAction])
    /\ c + n < length (lines t)
    /\ (forall k, k < n ->
          existsb has_text (firstn k ls) && negb (has_text (nth k ls [])) = false)
    /\ (S (c + n) < length (lines t) ->
          existsb has_text (firstn n ls) && negb (has_text (nth n ls [])) = true).
Proof.
  intros shift b t c ls n target.
  pose proof (get_line_lt t (insert_mark b)) as Hc. fold c in Hc.
  set (ls1 := firstn c (lines t)).
  assert (HL : lines t = ls1 ++ ls) by (symmetry; apply firstn_skipn).
  assert (Hl1 : length ls1 = c) by (apply firstn_length_le; lia).
  assert (Hlen : length (lines t) = c + length ls).
  { rewrite HL at 1. rewrite length_app. lia. }
  assert (Hne : ls <> []).
  { intros E. rewrite E in Hlen. simpl in Hlen. lia. }
  pose proof (lines_nl_free t) as Hnl. rewrite HL in Hnl.
  apply Forall_app in Hnl as [H1 H2].
  assert (Ht : t = unlines (ls1 ++ ls)) by (rewrite <- HL; symmetry; apply unlines_lines).
  assert (Hstart : get_iter_at_line t c = length (terminated ls1)).
  { destruct ls as [|l rest]; [congruence|].
    rewrite Ht, <- Hl1. apply get_iter_at_line_unlines. exact H1. }
  assert (Hfuel : length (unlines ls) < S (length t)).
  { rewrite Ht at 1. rewrite unlines_app by exact Hne. rewrite length_app. lia. }
  pose proof (paragraph_down_loop_lines ls ls1 (S (length t)) false false Hne H1 H2 Hfuel)
    as G.
  cbv zeta in G. rewrite <- Ht, <- Hstart, Hl1 in G. fold n in G.
  destruct (paragraph_down_lines_spec ls false Hne) as (S1 & S2 & S3).
  fold n in S1, S2, S3. cbn [orb] in S2, S3.
  split; [|split; [lia | split; [exact S2 | intros Hn; apply S3; lia]]].
  unfold key_paragraph_down.
  change (btext (begin_user_action b)) with t.
  change (insert_mark (begin_user_action b)) with (insert_mark b).
  change (selection_bound (begin_user_action b)) with (selection_bound b).
  cbv zeta. fold c. rewrite G. fold target.
  destruct shift; unfold select_range, place_cursor, end_user_action, begin_user_action;
    cbn [btext insert_mark selection_bound journal]; rewrite <- app_assoc; reflexivity.
Qed.

(** Ctrl+Down in a text of two paragraphs: from the first paragraph the
    cursor goes to the empty line between them, from there to the last
    line. *)
Example key_paragraph_down_twice :
  let t := chars "a" ++ NL :: chars "b" ++ NL :: NL :: chars "c" ++ NL :: chars "d" in
  key_paragraph_down false (mkBuffer t 1 1 [])
  = mkBuffer t 4 4 [BeginUserAction; EndUserAction]
  /\ key_paragraph_down false (mkBuffer t 4 4 []) 
     = mkBuffer t 7 7 [BeginUserAction; EndUserAction].
Proof. split; reflexivity. Qed.

(** ** The Delete key *)

Lemma is_blank_cases (x : ascii) :
  is_blank x = true ->
  negb (x =? SPACE)%char && negb (x =? TAB)%char = false /\ (x =? NL)%char = false.
Proof.
  intros H. split.
  - unfold is_blank in H. destruct (x =? SPACE)%char, (x =? TAB)%char;
      try reflexivity; discriminate H.
  - apply eqb_NL_false, is_blank_not_NL. exact H.
Qed.

(** The first loop of Delete over blanks up to the end of a line that is
    followed by something. *)
Lemma delete_scan_blanks (r : text) :
  r <> [] ->
  forall (ws a : text) (fuel : nat),
    forallb is_blank ws = true -> length ws < fuel ->
    delete_scan fuel (a ++ ws ++ NL :: r) (length a) = (S (length a + length ws), true).
Proof.
  intros Hr. induction ws as [|x ws IH]; intros a fuel Hws Hf.
  - destruct fuel as [|f]; [simpl in Hf; lia|].
    cbn [delete_scan app length]. rewrite ends_line_app, Ascii.eqb_refl.
    rewrite Bool.andb_false_r, forward_char_app, Nat.add_0_r.
    destruct r; [congruence | reflexivity].
  - destruct fuel as [|f]; [simpl in Hf; lia|].
    cbn [forallb] in Hws. apply andb_true_iff in Hws as [Hx Hws].
    destruct (is_blank_cases x Hx) as [C1 C2].
    cbn [delete_scan app]. rewrite deref_app, ends_line_app. cbn [hd].
    rewrite C1, C2. cbn [andb]. rewrite forward_char_app.
    replace (match ws ++ NL :: r with [] => false | _ => true end) with true
      by (destruct ws; reflexivity).
    rewrite app_snoc_cons, <- (length_snoc a x).
    rewrite IH by (try exact Hws; simpl in Hf; lia).
    rewrite length_snoc. cbn [length]. f_equal. lia.
Qed.

(** The first loop of Delete in front of a character that is neither a
    blank nor a newline. *)
Lemma delete_scan_text (x : ascii) (r : text) :
  is_blank x = false -> x <> NL ->
  forall (ws a : text) (fuel : nat),
    forallb is_blank ws = true -> length ws < fuel ->
    snd (delete_scan fuel (a ++ ws ++ x :: r) (length a)) = false.
Proof.
  intros Hx Hnl. induction ws as [|y ws IH]; intros a fuel Hws Hf.
  - destruct fuel as [|f]; [simpl in Hf; lia|].
    cbn [delete_scan app]. rewrite deref_app, ends_line_app. cbn [hd].
    rewrite (eqb_NL_false x Hnl). unfold is_blank in Hx.
    apply Bool.orb_false_iff in Hx as [-> ->]. reflexivity.
  - destruct fuel as [|f]; [simpl in Hf; lia|].
    cbn [forallb] in Hws. apply andb_true_iff in Hws as [Hy Hws].
    destruct (is_blank_cases y Hy) as [C1 C2].
    cbn [delete_scan app]. rewrite deref_app, ends_line_app. cbn [hd].
    rewrite C1, C2. cbn [andb]. rewrite forward_char_app.
    replace (match ws ++ x :: r with [] => false | _ => true end) with true
      by (destruct ws; reflexivity).
    rewrite app_snoc_cons, <- (length_snoc a y).
    apply IH; [exact Hws | simpl in Hf; lia].
Qed.

Lemma delete_skip_blanks (rest : text) :
  is_blank (hd zero rest) = false ->
  forall (ind a : text) (fuel : nat),
    forallb is_blank ind = true -> length ind <= fuel ->
    delete_skip_loop fuel (a ++ ind ++ rest) (length a) = length a + length ind.
Proof.
  intros Hrest. induction ind as [|x ind IH]; intros a fuel Hind Hf.
  - cbn [app length]. rewrite Nat.add_0_r. destruct fuel as [|f]; [reflexivity|].
    cbn [delete_skip_loop]. rewrite deref_app, Hrest. reflexivity.
  - destruct fuel as [|f]; [simpl in Hf; lia|].
    cbn [forallb] in Hind. apply andb_true_iff in Hind as [Hx Hind].
    cbn [delete_skip_loop app]. rewrite deref_app. cbn [hd]. rewrite Hx.
    rewrite forward_char_app.
    destruct (list_eq_dec ascii_dec (ind ++ rest) []) as [E|E].
    + rewrite E. apply app_eq_nil in E as [-> _]. simpl. lia.
    + replace (match ind ++ rest with [] => false | _ => true end) with true
        by (destruct (ind ++ rest); [congruence | reflexivity]).
      rewrite app_snoc_cons, <- (length_snoc a x).
      rewrite IH by (try exact Hind; simpl in Hf; lia).
      rewrite length_snoc. cbn [length]. lia.
Qed.

(** X19: the Delete key with the cursor behind the text [l1] of its line,
    in front of blanks [ws] that reach the end of the line, when something
    follows the newline.  The handler removes the blanks, the newline and,
    unless the cursor is at the start of its line, the indentation [ind] of
    the next line, all but the last of these characters, which is left at
    the cursor for the toolkit's handler to delete; the cursor stays.  When
    the blanks are followed by a character other than a blank or a newline,
    the handler edits nothing. *)
Theorem basic_delete_joins_lines :
  forall (pre l1 ws ind rest : text) (j : list Event),
    at_line_start pre -> nl_free l1 ->
    forallb is_blank ws = true -> forallb is_blank ind = true ->
    is_blank (hd zero rest) = false -> ind ++ rest <> [] ->
    let cursor := length pre + length l1 in
    let b := mkBuffer (pre ++ l1 ++ ws ++ NL :: ind ++ rest) cursor cursor j in
    let skipped := match l1 with [] => [] | _ => ind end in
    let kept := match l1 with [] => ind | _ => [] end in
    btext (basic_delete b) = pre ++ l1 ++ [last (ws ++ NL :: skipped) NL] ++ kept ++ rest
    /\ insert_mark (basic_delete b) = cursor
    /\ forall (x : ascii) (r : text),
         is_blank x = false -> x <> NL ->
         let b' := mkBuffer (pre ++ l1 ++ ws ++ x :: r) cursor cursor j in
         basic_delete b' = b'.
Proof.
  intros pre l1 ws ind rest j Hpre Hl1 Hws Hind Hrest Hne cursor b skipped kept.
  set (a := pre ++ l1).
  assert (Hcur : cursor = length a) by (unfold cursor, a; rewrite length_app; reflexivity).
  set (t := pre ++ l1 ++ ws ++ NL :: ind ++ rest) in *.
  set (gap := ws ++ NL :: skipped).
  assert (Hta : t = a ++ ws ++ NL :: ind ++ rest) by (unfold t, a; apply app_assoc).
  assert (Hgap : gap ++ kept = ws ++ NL :: ind).
  { unfold gap, skipped, kept. rewrite <- app_assoc. cbn [app].
    destruct l1; [reflexivity | rewrite app_nil_r; reflexivity]. }
  assert (Hgne : gap <> []) by (unfold gap; destruct ws; discriminate).
  assert (Hglen : 0 < length gap) by (destruct gap; [congruence | simpl; lia]).
  assert (Hsplit : gap = removelast gap ++ [last gap NL])
    by (apply app_removelast_last; exact Hgne).
  assert (Hrl : length (removelast gap) = length gap - 1).
  { apply (f_equal (@length ascii)) in Hsplit. rewrite length_app in Hsplit.
    simpl in Hsplit. lia. }
  assert (Htg : t = a ++ removelast gap ++ [last gap NL] ++ kept ++ rest).
  { rewrite Hta. f_equal. rewrite (app_assoc (removelast gap)), <- Hsplit.
    rewrite (app_assoc gap), Hgap, <- app_assoc. reflexivity. }
  assert (Hres : basic_delete b = buffer_erase b cursor (cursor + length gap - 1)).
  { unfold basic_delete. cbn [btext insert_mark b]. fold t.
    assert (Hscan : delete_scan (S (length t)) t cursor = (S (length a + length ws), true)).
    { rewrite Hcur, Hta. apply delete_scan_blanks; [exact Hne | exact Hws|].
      rewrite !length_app. lia. }
    rewrite Hscan.
    assert (Hsl : starts_line t cursor = match l1 with [] => true | _ => false end).
    { unfold t, cursor. apply starts_line_at; assumption. }
    rewrite Hsl.
    assert (Hskip : delete_skip_loop (length t) t (S (length a + length ws))
                    = S (length a + length ws) + length ind).
    { replace (S (length a + length ws)) with (length (a ++ ws ++ [NL]))
        by (rewrite !length_app; simpl; lia).
      replace t with ((a ++ ws ++ [NL]) ++ ind ++ rest)
        by (rewrite Hta, <- !app_assoc; reflexivity).
      apply delete_skip_blanks; [exact Hrest | exact Hind|].
      rewrite !length_app. lia. }
    unfold gap, skipped. destruct l1; cbn [negb].
    - cbn [backward_char]. rewrite Hcur, length_app. cbn [length].
      f_equal. lia.
    - rewrite Hskip. cbn [backward_char Nat.add]. rewrite Hcur, length_app. cbn [length].
      f_equal. lia. }
  rewrite Hres. split; [|split].
  - rewrite btext_buffer_erase. cbn [btext b]. fold t. rewrite Htg at 1.
    rewrite Hcur. replace (length a + length gap - 1) with (length a + length (removelast gap))
      by lia.
    rewrite text_erase_in_line. unfold a. rewrite <- app_assoc. reflexivity.
  - unfold buffer_erase.
    destruct (Nat.min cursor (cursor + length gap - 1)
              =? Nat.max cursor (cursor + length gap - 1)); [reflexivity|].
    cbn [insert_mark b]. unfold mark_after_erase.
    rewrite Nat.min_l by lia. rewrite Nat.leb_refl. reflexivity.
  - intros x r Hx Hnl b'. unfold basic_delete. cbn [btext insert_mark b'].
    destruct (delete_scan (S (length (pre ++ l1 ++ ws ++ x :: r)))
                          (pre ++ l1 ++ ws ++ x :: r) cursor) as [it smart] eqn:E.
    assert (Hs : smart = false).
    { change smart with (snd (it, smart)). rewrite <- E, Hcur. unfold a.
      rewrite (app_assoc pre l1). apply delete_scan_text; auto.
      rewrite !length_app. lia. }
    rewrite Hs. reflexivity.
Qed.

Lemma basic_delete_joins_lines_witness :
  let b := mkBuffer (chars "f();  " ++ NL :: chars "    g();") 4 4 [] in
  btext (basic_delete b) = chars "f();" ++ [SPACE] ++ [] ++ chars "g();"
  /\ insert_mark (basic_delete b) = 4
  /\ forall (x : ascii) (r : text),
       is_blank x = false -> x <> NL ->
       let b' := mkBuffer ([] ++ chars "f();" ++ chars "  " ++ x :: r) 4 4 [] in
       basic_delete b' = b'.
Proof.
  intros b.
  apply (basic_delete_joins_lines [] (chars "f();") (chars "  ") (chars "    ")
           (chars "g();") []).
  - left. reflexivity.
  - intros H. simpl in H. repeat (destruct H as [H|H]; [discriminate H|]). exact H.
  - reflexivity.
  - reflexivity.
  - reflexivity.
  - discriminate.
Defined.

(** ** The Return key *)

Lemma end_blank_loop_tabs_end (t : text) :
  forall fuel iter, end_blank_loop fuel t iter = tabs_end_loop fuel t iter.
Proof.
  induction fuel as [|f IH]; intros iter; [reflexivity|].
  cbn [end_blank_loop tabs_end_loop].
  destruct (is_blank (deref t iter) && negb (ends_line t iter)); [|reflexivity].
  destruct (forward_char t iter) as [i m]. destruct m; [apply IH | reflexivity].
Qed.

(** The backward loop of Return runs over blanks of the line down to the
    offset [stop], where it finds the start of the line or a character that
    is no blank. *)
Lemma start_blank_loop_back (a l r : text) (stop : nat) :
  nl_free l ->
  starts_line (a ++ l ++ r) (length a + stop) = true
  \/ is_blank (nth stop l zero) = false ->
  forall d,
    stop + d < length l ->
    (forall i, stop < i <= stop + d -> is_blank (nth i l zero) = true) ->
    start_blank_loop false (a ++ l ++ r) (length a + (stop + d)) = length a + stop.
Proof.
  intros Hl Hstop. induction d as [|d IH]; intros Hd Hbl.
  - rewrite Nat.add_0_r in *.
    destruct (length a + stop) as [|p] eqn:E; [reflexivity|].
    cbn [start_blank_loop].
    destruct Hstop as [H|H].
    + rewrite H, Bool.andb_false_r. reflexivity.
    + rewrite <- E. rewrite deref_in_line by exact Hd. rewrite H. reflexivity.
  - replace (length a + (stop + S d)) with (S (length a + (stop + d))) by lia.
    cbn [start_blank_loop].
    replace (S (length a + (stop + d))) with (length a + S (stop + d)) by lia.
    rewrite deref_in_line by lia.
    rewrite (Hbl (S (stop + d))) by lia.
    rewrite (starts_line_in_line a l r Hl) by lia.
    cbn [orb andb negb]. apply IH; [lia|]. intros i Hi. apply Hbl. lia.
Qed.

(** Erasing a range that holds the cursor of a buffer without selection. *)
Lemma buffer_erase_around_cursor (b : Buffer) (a x r : text) :
  btext b = a ++ x ++ r ->
  length a <= insert_mark b <= length a + length x ->
  selection_bound b = insert_mark b ->
  let b' := buffer_erase b (length a) (length a + length x) in
  btext b' = a ++ r /\ insert_mark b' = length a /\ selection_bound b' = length a.
Proof.
  intros Ht Hc Hsb b'. unfold b'.
  split; [rewrite btext_buffer_erase, Ht; apply text_erase_in_line|].
  unfold buffer_erase. rewrite Nat.min_l, Nat.max_r by lia.
  destruct (Nat.eqb_spec (length a) (length a + length x)) as [E|E].
  - rewrite Hsb. split; lia.
  - cbn [insert_mark selection_bound]. rewrite Hsb. unfold mark_after_erase.
    destruct (Nat.leb_spec (insert_mark b) (length a)); [split; lia|].
    nat_test (insert_mark b <=? length a + length x) true. split; reflexivity.
Qed.

Lemma has_text_strip (l : text) :
  has_text l = true ->
  exists s0 y w, strip_trailing_blanks l = s0 ++ [y] /\ l = (s0 ++ [y]) ++ w
                 /\ is_blank y = false /\ forallb is_blank w = true.
Proof.
  intros H. destruct (strip_trailing_blanks_spec l) as (w & El & Hw & [E|(s & y & E & Hy)]).
  - exfalso. rewrite E in El. simpl in El. subst w. unfold has_text in H.
    rewrite Hw in H. discriminate H.
  - exists s, y, w. rewrite <- E. auto.
Qed.

Lemma leading_blanks_skipn (l : text) : leading_blanks (skipn (leading_blanks l) l) = 0.
Proof.
  induction l as [|c l IH]; [reflexivity|]. simpl.
  destruct (is_blank c) eqn:E; [exact IH | simpl; rewrite E; reflexivity].
Qed.

(** The first step of Return: the blanks around the cursor are removed,
    except those in front of it when nothing else is. *)
Lemma return_erase_blanks (pre l1 l2 post : text) (j : list Event) :
  at_line_start pre -> nl_free (l1 ++ l2) -> line_closed post -> l1 <> [] ->
  let t := pre ++ (l1 ++ l2) ++ post in
  let c := length pre + length l1 in
  let b := mkBuffer t c c j in
  let head := if has_text l1 then strip_trailing_blanks l1 else l1 in
  let tail := skipn (leading_blanks l2) l2 in
  let end_blank_iter := end_blank_loop (length t) t c in
  let start_blank_iter := start_blank_loop false t (fst (backward_char c)) in
  let b1 :=
    if starts_line t start_blank_iter && is_blank (deref t start_blank_iter)
    then buffer_erase b c end_blank_iter
    else buffer_erase b (fst (forward_char t start_blank_iter)) end_blank_iter in
  btext b1 = pre ++ (head ++ tail) ++ post
  /\ insert_mark b1 = length pre + length head
  /\ selection_bound b1 = length pre + length head.
Proof.
  intros Hpre Hl Hpost Hne t c b head tail end_blank_iter start_blank_iter b1.
  assert (Hl1 : 0 < length l1) by (destruct l1; [congruence | simpl; lia]).
  assert (Hsplit2 : l2 = firstn (leading_blanks l2) l2 ++ tail)
    by (symmetry; apply firstn_skipn).
  pose proof (leading_blanks_le l2) as Hlb2.
  assert (Hlf : length (firstn (leading_blanks l2) l2) = leading_blanks l2)
    by (apply firstn_length_le; exact Hlb2).
  assert (Hend : end_blank_iter = c + leading_blanks l2).
  { unfold end_blank_iter. rewrite end_blank_loop_tabs_end.
    unfold t, c. rewrite <- (app_assoc l1), (app_assoc pre l1), <- length_app.
    apply tabs_end_loop_in_line; [exact Hpost|].
    rewrite !length_app. lia. }
  assert (Hback : fst (backward_char c) = length pre + (length l1 - 1)).
  { unfold c. replace (length pre + length l1) with (S (length pre + (length l1 - 1))) by lia.
    reflexivity. }
  unfold b1. rewrite Hend.
  destruct (has_text l1) eqn:Htext.
  - destruct (has_text_strip l1 Htext) as (s0 & y & w & Es & El1 & Hy & Hw).
    assert (Hlen : length l1 = S (length s0) + length w).
    { rewrite El1, !length_app. simpl. lia. }
    assert (Hsb : start_blank_iter = length pre + length s0).
    { unfold start_blank_iter. rewrite Hback.
      replace (length l1 - 1) with (length s0 + length w) by lia.
      apply start_blank_loop_back.
      - exact Hl.
      - right. rewrite El1, <- !app_assoc. rewrite app_nth2 by lia.
        rewrite Nat.sub_diag. exact Hy.
      - rewrite length_app. lia.
      - intros i Hi. rewrite El1, <- !app_assoc. rewrite app_nth2 by lia.
        cbn [app]. replace (i - length s0) with (S (i - S (length s0))) by lia.
        cbn [nth]. rewrite app_nth1 by lia.
        apply forallb_nth; [exact Hw | lia]. }
    assert (Hin : length s0 < length (l1 ++ l2)) by (rewrite length_app; lia).
    assert (Hd : deref t start_blank_iter = y).
    { rewrite Hsb. unfold t. rewrite deref_in_line by exact Hin.
      rewrite El1, <- !app_assoc. rewrite app_nth2 by lia.
      rewrite Nat.sub_diag. reflexivity. }
    rewrite Hd, Hy, Bool.andb_false_r.
    assert (Hfw : fst (forward_char t start_blank_iter) = length (pre ++ s0 ++ [y])).
    { rewrite Hsb. unfold t. rewrite fst_forward_char_in_line by exact Hin.
      rewrite !length_app. simpl. lia. }
    rewrite Hfw.
    set (x := w ++ firstn (leading_blanks l2) l2).
    assert (Ht : t = (pre ++ s0 ++ [y]) ++ x ++ tail ++ post).
    { unfold t, x. rewrite El1, Hsplit2 at 1. rewrite <- !app_assoc. reflexivity. }
    replace (c + leading_blanks l2) with (length (pre ++ s0 ++ [y]) + length x)
      by (unfold c, x; rewrite !length_app, Hlf; simpl; lia).
    destruct (buffer_erase_around_cursor b (pre ++ s0 ++ [y]) x (tail ++ post))
      as (B1 & B2 & B3).
    + exact Ht.
    + cbn [insert_mark b]. unfold c, x. rewrite !length_app. simpl. lia.
    + reflexivity.
    + unfold head. rewrite Es. rewrite B1, B2, B3.
      rewrite <- !app_assoc, !length_app. repeat split; reflexivity.
  - assert (Hbl : forallb is_blank l1 = true).
    { unfold has_text in Htext. apply negb_false_iff in Htext. exact Htext. }
    assert (Hsb : start_blank_iter = length pre + 0).
    { unfold start_blank_iter. rewrite Hback.
      replace (length l1 - 1) with (0 + (length l1 - 1)) by lia.
      apply start_blank_loop_back.
      - exact Hl.
      - left. rewrite Nat.add_0_r. unfold t.
        pose proof (starts_line_at pre [] ((l1 ++ l2) ++ post) Hpre nl_free_nil) as G.
        cbn [app length] in G. rewrite Nat.add_0_r in G. exact G.
      - rewrite length_app. lia.
      - intros i Hi. rewrite app_nth1 by lia. apply forallb_nth; [exact Hbl | lia]. }
    assert (Hsl : starts_line t start_blank_iter = true).
    { rewrite Hsb. unfold t.
      pose proof (starts_line_at pre [] ((l1 ++ l2) ++ post) Hpre nl_free_nil) as G.
      cbn [app length] in G. exact G. }
    assert (Hd : is_blank (deref t start_blank_iter) = true).
    { rewrite Hsb. unfold t. rewrite deref_in_line by (rewrite length_app; lia).
      rewrite app_nth1 by lia. apply forallb_nth; [exact Hbl | lia]. }
    rewrite Hsl, Hd. cbn [andb].
    set (x := firstn (leading_blanks l2) l2).
    assert (Ht : t = (pre ++ l1) ++ x ++ tail ++ post).
    { unfold t, x. rewrite Hsplit2 at 1. rewrite <- !app_assoc. reflexivity. }
    replace c with (length (pre ++ l1)) by (unfold c; rewrite length_app; reflexivity).
    replace (leading_blanks l2) with (length x) by exact Hlf.
    destruct (buffer_erase_around_cursor b (pre ++ l1) x (tail ++ post))
      as (B1 & B2 & B3).
    + exact Ht.
    + cbn [insert_mark b]. unfold c. rewrite !length_app. lia.
    + reflexivity.
    + unfold head. rewrite B1, B2, B3.
      rewrite <- !app_assoc, !length_app. repeat split; reflexivity.
Qed.

Lemma insert_at_cursor_fields (b : Buffer) (a r s : text) :
  btext b = a ++ r -> insert_mark b = length a -> selection_bound b = length a ->
  btext (insert_at_cursor b s) = a ++ s ++ r
  /\ insert_mark (insert_at_cursor b s) = length a + length s
  /\ selection_bound (insert_at_cursor b s) = length a + length s.
Proof.
  intros Ht Hi Hs. unfold insert_at_cursor.
  destruct (marks_buffer_insert b (insert_mark b) s) as [-> ->].
  rewrite btext_buffer_insert, Ht, Hi, Hs, text_insert_in_line.
  unfold mark_after_insert. rewrite Nat.leb_refl. auto.
Qed.

Lemma leading_blanks_text (s z : text) :
  has_text s = true ->
  leading_blanks (s ++ z) = leading_blanks s /\ leading_blanks s < length s.
Proof.
  unfold has_text. induction s as [|c s IH]; intros H; [discriminate H|].
  cbn [forallb] in H. cbn [app leading_blanks length].
  destruct (is_blank c); [|split; lia].
  cbn [andb] in H. destruct (IH H) as [I1 I2]. split; lia.
Qed.

Lemma has_text_app (s w : text) : has_text (s ++ w) = has_text s || has_text w.
Proof. unfold has_text. rewrite forallb_app. apply Bool.negb_andb. Qed.

(** The indentation of the line that Return leaves in front of the
    cursor is that of the line before the key. *)
Lemma return_head_indentation (l1 l2 : text) :
  let head := if has_text l1 then strip_trailing_blanks l1 else l1 in
  let tail := skipn (leading_blanks l2) l2 in
  firstn (leading_blanks (head ++ tail)) (head ++ tail) = firstn (leading_blanks l1) l1.
Proof.
  intros head tail. unfold head. destruct (has_text l1) eqn:Htext.
  - destruct (has_text_strip l1 Htext) as (s0 & y & w & Es & El1 & Hy & Hw).
    rewrite Es.
    assert (Hs : has_text (s0 ++ [y]) = true).
    { rewrite has_text_app. unfold has_text at 2. simpl. rewrite Hy.
      apply Bool.orb_true_r. }
    destruct (leading_blanks_text (s0 ++ [y]) tail Hs) as [E1 E2].
    destruct (leading_blanks_text (s0 ++ [y]) w Hs) as [E3 _].
    rewrite E1. rewrite El1, E3.
    rewrite !firstn_app.
    replace (leading_blanks (s0 ++ [y]) - length (s0 ++ [y])) with 0 by lia.
    reflexivity.
  - assert (Hbl : forallb is_blank l1 = true).
    { unfold has_text in Htext. apply negb_false_iff in Htext. exact Htext. }
    rewrite (leading_blanks_app l1 tail Hbl). unfold tail.
    rewrite leading_blanks_skipn, Nat.add_0_r, (leading_blanks_all l1 Hbl).
    rewrite firstn_all. apply firstn_length_app.
Qed.

(** X20: Return in the basic handler, with no selection and the cursor
    behind the part [l1] of its line and in front of the part [l2].  The
    line is split; the blanks in front of [l2] go, and so do the blanks at
    the end of [l1] unless [l1] holds nothing else; the new line starts
    with the indentation of the line before the key, or with that of the
    next line when nothing is left behind the cursor and the next line is
    indented deeper.  The cursor ends behind the indentation of the new
    line. *)
Theorem basic_return_keeps_indentation :
  forall (v : View) (dflt : DefaultHandler) (ls1 ls2 : list text) (l1 l2 : text)
         (j : list Event),
    Forall nl_free ls1 -> nl_free (l1 ++ l2) -> Forall nl_free ls2 -> l1 <> [] ->
    let t := unlines (ls1 ++ (l1 ++ l2) :: ls2) in
    let c := length (terminated ls1) + length l1 in
    let head := if has_text l1 then strip_trailing_blanks l1 else l1 in
    let tail := skipn (leading_blanks l2) l2 in
    let ind := firstn (leading_blanks l1) l1 in
    let next_ind :=
      match ls2 with [] => [] | ln :: _ => firstn (leading_blanks ln) ln end in
    let tabs :=
      if is_empty_line tail && (length ind <? length next_ind) then next_ind else ind in
    exists b',
      on_key_press_event_basic v dflt Key_Return (mkBuffer t c c j) = Some b'
      /\ btext b' = unlines (ls1 ++ head :: (tabs ++ tail) :: ls2)
      /\ insert_mark b' = length (terminated (ls1 ++ [head])) + length tabs
      /\ selection_bound b' = insert_mark b'.
Proof.
  intros v dflt ls1 ls2 l1 l2 j H1 Hl H2 Hne t c head tail ind next_ind tabs.
  set (pre := terminated ls1). set (post := line_rest ls2).
  assert (Hpre : at_line_start pre) by apply at_line_start_terminated.
  assert (Hpost : line_closed post) by apply line_rest_closed.
  assert (Ht : t = pre ++ (l1 ++ l2) ++ post) by (unfold t; apply unlines_split).
  assert (Hsl : starts_line t c = false).
  { rewrite Ht. unfold c. rewrite <- (app_assoc l1).
    rewrite starts_line_at; [destruct l1; [congruence | reflexivity] | exact Hpre|].
    apply nl_free_app in Hl. tauto. }
  unfold on_key_press_event_basic.
  set (b0 := begin_user_action (mkBuffer t c c j)).
  assert (Eb0 : b0 = mkBuffer t c c (j ++ [BeginUserAction])) by reflexivity.
  assert (Hcond : negb (get_has_selection b0) && negb (starts_line (btext b0) (insert_mark b0))
                  = true).
  { rewrite Eb0. unfold get_has_selection. cbn [btext insert_mark selection_bound].
    rewrite Nat.eqb_refl, Hsl. reflexivity. }
  rewrite Hcond. eexists. split; [reflexivity|].
  unfold basic_return. rewrite Eb0. cbn [btext insert_mark]. rewrite Ht.
  destruct (return_erase_blanks pre l1 l2 post (j ++ [BeginUserAction]) Hpre Hl Hpost Hne)
    as (B1 & B2 & B3).
  cbv zeta in B1, B2, B3. fold c in B1, B2, B3 |- *. fold head tail in B1, B2, B3.
  set (b1 := if starts_line _ _ && is_blank _ then _ else _) in *.
  clearbody b1.
  assert (Hhead : nl_free head).
  { unfold head. apply nl_free_app in Hl as [Hl _].
    destruct (has_text l1); [apply strip_trailing_blanks_nl_free|]; exact Hl. }
  assert (Htail : nl_free tail).
  { unfold tail. apply skipn_nl_free. apply nl_free_app in Hl. tauto. }
  assert (Hcur : nl_free (head ++ tail)) by (apply nl_free_app; split; assumption).
  assert (Hline : get_line (btext b1) (insert_mark b1) = length ls1).
  { rewrite B1, B2, <- app_assoc, get_line_in_line by exact Hhead.
    symmetry. apply line_index. exact H1. }
  assert (Htabs : get_line_before (btext b1) (get_tabs_end_iter (btext b1) (length ls1))
                  = ind).
  { rewrite <- Hline. rewrite B1, B2.
    rewrite line_indentation_in_line by assumption.
    apply return_head_indentation. }
  assert (Hends : ends_line (btext b1) (insert_mark b1) = is_empty_line tail).
  { rewrite B1, B2, <- app_assoc, (app_assoc pre head), <- length_app, ends_line_app.
    destruct tail as [|x tail'] eqn:E.
    - cbn [app is_empty_line]. destruct Hpost as [->|[q ->]]; reflexivity.
    - cbn [app is_empty_line]. apply eqb_NL_false. apply nl_free_cons in Htail. tauto. }
  assert (Hb1 : btext b1 = unlines (ls1 ++ (head ++ tail) :: ls2)).
  { rewrite B1. symmetry. apply unlines_split. }
  assert (Hcount : get_line_count (btext b1) = length ls1 + S (length ls2)).
  { rewrite Hb1, get_line_count_unlines.
    - rewrite length_app. reflexivity.
    - destruct ls1; discriminate.
    - apply Forall_app. split; [exact H1|]. constructor; assumption. }
  assert (Hnext : ls2 <> [] ->
            get_line_before (btext b1) (get_tabs_end_iter (btext b1) (length ls1 + 1))
            = next_ind).
  { intros Hls2. destruct ls2 as [|ln more]; [congruence|].
    pose proof (Forall_inv H2) as Hln.
    assert (H1' : Forall nl_free (ls1 ++ [head ++ tail])).
    { apply Forall_app. split; [exact H1 | constructor; [exact Hcur | constructor]]. }
    assert (Hb1' : btext b1 = unlines ((ls1 ++ [head ++ tail]) ++ ln :: more)).
    { rewrite Hb1, <- app_assoc. reflexivity. }
    replace (length ls1 + 1) with (length (ls1 ++ [head ++ tail]))
      by (rewrite length_app; reflexivity).
    rewrite Hb1', get_tabs_end_iter_unlines by exact H1'.
    rewrite unlines_split.
    rewrite <- (firstn_skipn (leading_blanks ln) ln) at 1.
    rewrite <- app_assoc.
    rewrite <- (firstn_length_le ln (leading_blanks_le ln)) at 3.
    apply get_line_before_in_line.
    - apply at_line_start_terminated.
    - apply firstn_nl_free. exact Hln. }
  rewrite Hline, Htabs, Hends, Hcount.
  set (cond := (length ls1 + 1 <? length ls1 + S (length ls2)) && is_empty_line tail
               && (length ind <?
                   length (get_line_before (btext b1)
                             (get_tabs_end_iter (btext b1) (length ls1 + 1))))).
  assert (Hsel : (if cond
                  then get_line_before (btext b1)
                         (get_tabs_end_iter (btext b1) (length ls1 + 1))
                  else ind) = tabs).
  { unfold cond, tabs. destruct ls2 as [|ln more].
    - nat_test (length ls1 + 1 <? length ls1 + S (length (@nil text))) false.
      cbn [andb]. unfold next_ind. cbn [length]. rewrite Nat.ltb_irrefl || idtac.
      destruct (is_empty_line tail); cbn [andb]; [|reflexivity].
      destruct (length ind <? 0) eqn:E; [apply Nat.ltb_lt in E; lia | reflexivity].
    - rewrite Hnext by discriminate.
      nat_test (length ls1 + 1 <? length ls1 + S (length (ln :: more))) true.
      cbn [andb]. reflexivity. }
  set (nxt := get_line_before (btext b1) (get_tabs_end_iter (btext b1) (length ls1 + 1)))
    in *.
  replace (if cond
           then end_user_action (insert_at_cursor b1 (NL :: nxt))
           else end_user_action (insert_at_cursor b1 (NL :: ind)))
    with (end_user_action (insert_at_cursor b1 (NL :: tabs)))
    by (rewrite <- Hsel; destruct cond; reflexivity).
  rewrite <- app_assoc in B1.
  replace (length pre + length head) with (length (pre ++ head)) in B2, B3
    by (rewrite length_app; reflexivity).
  rewrite app_assoc in B1.
  destruct (insert_at_cursor_fields b1 (pre ++ head) (tail ++ post) (NL :: tabs) B1 B2 B3)
    as (F1 & F2 & F3).
  cbn [end_user_action btext insert_mark selection_bound].
  rewrite F1, F2, F3. repeat split.
  - rewrite unlines_split. fold pre. cbn [line_rest].
    rewrite (unlines_line_rest (tabs ++ tail)). fold post.
    rewrite <- !app_assoc. reflexivity.
  - rewrite terminated_snoc. fold pre. rewrite !length_app. simpl. lia.
Qed.

Lemma basic_return_keeps_indentation_witness :
  exists b',
    on_key_press_event_basic (mkView SPACE 2 false false) (fun _ x => x) Key_Return
      (mkBuffer (chars "a:" ++ NL :: chars "  b;  c") 8 8 [])
    = Some b'
    /\ btext b' = chars "a:" ++ NL :: chars "  b;" ++ NL :: chars "  c"
    /\ insert_mark b' = 10
    /\ selection_bound b' = insert_mark b'.
Proof.
  refine (basic_return_keeps_indentation (mkView SPACE 2 false false) (fun _ x => x)
            [chars "a:"] [] (chars "  b; ") (chars " c") [] _ _ _ _).
  - constructor; [|constructor].
    intros H. simpl in H. repeat (destruct H as [H|H]; [discriminate H|]). exact H.
  - intros H. simpl in H. repeat (destruct H as [H|H]; [discriminate H|]). exact H.
  - constructor.
  - discriminate.
Defined.

(** ** Formatting the buffer *)

Lemma append_final_newline_text (b : Buffer) (ls : list text) (l : text) :
  btext b = unlines (ls ++ [l]) -> Forall nl_free (ls ++ [l]) ->
  btext (append_final_newline b)
  = unlines (ls ++ [l]) ++ match l with [] => [] | _ => [NL] end.
Proof.
  intros Ht Hnl. unfold append_final_newline.
  assert (Hc : get_line_count (btext b) - 1 = length ls).
  { rewrite Ht, get_line_count_unlines; [|destruct ls; discriminate | exact Hnl].
    rewrite length_app. simpl. lia. }
  assert (Hi : get_iter_at_line (btext b) (length ls) = length (terminated ls)).
  { rewrite Ht. apply get_iter_at_line_unlines.
    apply Forall_app in Hnl. tauto. }
  assert (Hl : length (btext b) = length (terminated ls) + length l).
  { rewrite Ht, unlines_split. simpl. rewrite app_nil_r. apply length_app. }
  rewrite Hc, Hi, Hl.
  destruct l as [|x l].
  - simpl length. rewrite Nat.add_0_r, Nat.eqb_refl, app_nil_r. exact Ht.
  - nat_test (length (terminated ls) =? length (terminated ls) + length (x :: l)) false.
    rewrite btext_buffer_insert. rewrite <- Hl. rewrite <- (app_nil_r (btext b)) at 1.
    rewrite text_insert_in_line, Ht. reflexivity.
Qed.

Lemma firstn_length_prefix {A : Type} (a r : list A) : firstn (length a) (a ++ r) = a.
Proof. induction a as [|x a IH]; simpl; [destruct r | rewrite IH]; reflexivity. Qed.

Lemma skipn_length_prefix {A : Type} (a r : list A) : skipn (length a) (a ++ r) = r.
Proof. induction a as [|x a IH]; simpl; [reflexivity | exact IH]. Qed.

(** One round of the loop of [auto_indent] at a newline of the output: line
    [j] of the buffer becomes the line [n] of the output. *)
Lemma auto_indent_step_text (b : Buffer) (cur : list text) (j : nat) (n : text) :
  btext b = unlines cur -> cur <> [] -> Forall nl_free cur -> j <= length cur ->
  let b1 :=
    if j <? get_line_count (btext b)
    then buffer_erase b (get_iter_at_line (btext b) j) (get_iter_at_line_end (btext b) j)
    else buffer_insert b (length (btext b)) [NL] in
  btext (buffer_insert b1 (get_iter_at_line (btext b1) j) n)
  = unlines (firstn j cur ++ n :: skipn (S j) cur).
Proof.
  intros Ht Hne Hnl Hj b1.
  assert (Hcount : get_line_count (btext b) = length cur).
  { rewrite Ht. apply get_line_count_unlines; assumption. }
  unfold b1. rewrite Hcount.
  destruct (Nat.ltb_spec j (length cur)) as [Hlt|Hge].
  - destruct (list_split_at cur j Hlt) as (c1 & o & c2 & E & Hlen).
    rewrite E in Hnl. apply Forall_app in Hnl as [Hn1 Hn2].
    pose proof (Forall_inv Hn2) as Ho.
    assert (Hf : firstn j cur = c1).
    { rewrite E, <- Hlen. apply firstn_length_prefix. }
    assert (Hs : skipn (S j) cur = c2).
    { rewrite E, <- Hlen. replace (c1 ++ o :: c2) with ((c1 ++ [o]) ++ c2)
        by (rewrite <- app_assoc; reflexivity).
      replace (S (length c1)) with (length (c1 ++ [o])) by (rewrite length_app; simpl; lia).
      apply skipn_length_prefix. }
    rewrite Hf, Hs.
    assert (Hstart : get_iter_at_line (btext b) j = length (terminated c1)).
    { rewrite Ht, E, <- Hlen. apply get_iter_at_line_unlines. exact Hn1. }
    assert (Hend : get_iter_at_line_end (btext b) j = length (terminated c1) + length o).
    { rewrite Ht, E, <- Hlen, unlines_split, (line_index c1 Hn1).
      apply get_iter_at_line_end_in_line; auto with lines. }
    rewrite Hstart, Hend.
    assert (Hb1 : btext (buffer_erase b (length (terminated c1))
                                      (length (terminated c1) + length o))
                  = unlines (c1 ++ [] :: c2)).
    { rewrite btext_buffer_erase, Ht, E, !unlines_split. apply text_erase_in_line. }
    rewrite btext_buffer_insert, Hb1.
    rewrite <- Hlen, get_iter_at_line_unlines by exact Hn1.
    rewrite !unlines_split. cbn [app]. apply text_insert_in_line.
  - assert (Hjl : j = length cur) by lia.
    rewrite Hjl, firstn_all.
    rewrite skipn_all2 by lia.
    assert (Hb1 : btext (buffer_insert b (length (btext b)) [NL]) = unlines (cur ++ [[]])).
    { rewrite btext_buffer_insert. rewrite <- (app_nil_r (btext b)) at 1.
      rewrite text_insert_in_line, Ht, unlines_snoc_empty by exact Hne. reflexivity. }
    rewrite btext_buffer_insert, Hb1.
    rewrite get_iter_at_line_unlines by exact Hnl.
    rewrite !unlines_split. cbn [line_rest]. rewrite !app_nil_r.
    rewrite <- (app_nil_r (terminated cur)) at 1.
    rewrite text_insert_in_line, app_nil_r. reflexivity.
Qed.

(** The loop of [auto_indent] behind the last newline of the output. *)
Lemma auto_indent_loop_rest (out done rem : text) (s j : nat) (b : Buffer) :
  out = done ++ rem -> nl_free rem ->
  forall d k, d + k = length rem ->
    auto_indent_loop out d (length done + k) s j b = (j, b).
Proof.
  intros Hout Hrem. induction d as [|d IH]; intros k Hk; [reflexivity|].
  cbn [auto_indent_loop].
  assert (Hc : nth (length done + k) out zero <> NL).
  { rewrite Hout, app_nth2 by lia.
    replace (length done + k - length done) with k by lia.
    apply nth_nl_free; [exact Hrem | lia]. }
  rewrite (eqb_NL_false _ Hc).
  replace (S (length done + k)) with (length done + S k) by lia.
  apply IH. lia.
Qed.

(** The loop of [auto_indent] over a line of the output and its newline. *)
Lemma auto_indent_loop_line (out done n rest : text) (j m : nat) (b : Buffer) :
  out = done ++ n ++ NL :: rest -> nl_free n ->
  let b1 :=
    if j <? get_line_count (btext b)
    then buffer_erase b (get_iter_at_line (btext b) j) (get_iter_at_line_end (btext b) j)
    else buffer_insert b (length (btext b)) [NL] in
  let b2 := buffer_insert b1 (get_iter_at_line (btext b1) j) n in
  forall d k, d + k = length n ->
    auto_indent_loop out (S d + m) (length done + k) (length done) j b
    = auto_indent_loop out m (S (length done + length n)) (S (length done + length n))
                       (S j) b2.
Proof.
  intros Hout Hn b1 b2. induction d as [|d IH]; intros k Hk.
  - cbn [Nat.add auto_indent_loop]. simpl in Hk. subst k.
    assert (Hc : nth (length done + length n) out zero = NL).
    { rewrite Hout, app_nth2 by lia.
      replace (length done + length n - length done) with (length n) by lia.
      rewrite app_nth2 by lia. rewrite Nat.sub_diag. reflexivity. }
    rewrite Hc, Ascii.eqb_refl.
    replace (length done + length n - length done) with (length n) by lia.
    assert (Hsub : substr out (length done) (length n) = n).
    { unfold substr. rewrite Hout, skipn_length_app. apply firstn_length_app. }
    rewrite Hsub. reflexivity.
  - cbn [Nat.add auto_indent_loop].
    assert (Hc : nth (length done + k) out zero <> NL).
    { rewrite Hout, app_nth2 by lia.
      replace (length done + k - length done) with k by lia.
      rewrite app_nth1 by lia. apply nth_nl_free; [exact Hn | lia]. }
    rewrite (eqb_NL_false _ Hc).
    replace (S (length done + k)) with (length done + S k) by lia.
    apply (IH (S k)). lia.
Qed.

Lemma skipn_add {A : Type} (l : list A) (x y : nat) : skipn (x + y) l = skipn y (skipn x l).
Proof.
  revert l. induction x as [|x IH]; intros l; [reflexivity|].
  destruct l; [destruct y; reflexivity|]. simpl. apply IH.
Qed.

(** The loop of [auto_indent] over the lines [rs] of the output: they
    replace the lines of the buffer from line [j] on. *)
Lemma auto_indent_loop_lines (out rem : text) :
  nl_free rem ->
  forall (rs : list text) (done : text) (j : nat) (cur : list text) (b : Buffer),
    out = done ++ terminated rs ++ rem -> Forall nl_free rs ->
    btext b = unlines cur -> cur <> [] -> Forall nl_free cur -> j <= length cur ->
    exists b',
      auto_indent_loop out (length (terminated rs ++ rem)) (length done) (length done) j b
      = (j + length rs, b')
      /\ btext b' = unlines (firstn j cur ++ rs ++ skipn (j + length rs) cur).
Proof.
  intros Hrem. induction rs as [|n rs IH]; intros done j cur b Hout Hrs Hb Hne Hcur Hj.
  - exists b. cbn [terminated flat_map app length]. split.
    + rewrite Nat.add_0_r.
      pose proof (auto_indent_loop_rest out done rem (length done) j b Hout Hrem
                    (length rem) 0 ltac:(lia)) as G.
      rewrite Nat.add_0_r in G. exact G.
    + rewrite Nat.add_0_r, firstn_skipn. exact Hb.
  - pose proof (Forall_inv Hrs) as Hn. pose proof (Forall_inv_tail Hrs) as Hrs'.
    assert (Hout' : out = done ++ n ++ NL :: (terminated rs ++ rem)).
    { rewrite Hout. change (terminated (n :: rs)) with ((n ++ [NL]) ++ terminated rs).
      rewrite <- !app_assoc. reflexivity. }
    set (m := length (terminated rs ++ rem)).
    assert (Hlen : length (terminated (n :: rs) ++ rem) = S (length n) + m).
    { change (terminated (n :: rs)) with ((n ++ [NL]) ++ terminated rs).
      unfold m. rewrite <- !app_assoc, !length_app. simpl. lia. }
    rewrite Hlen.
    pose proof (auto_indent_loop_line out done n (terminated rs ++ rem) j m b Hout' Hn
                  (length n) 0 ltac:(lia)) as G.
    cbv zeta in G. rewrite Nat.add_0_r in G. rewrite G. clear G.
    pose proof (auto_indent_step_text b cur j n Hb Hne Hcur Hj) as Hstep.
    cbv zeta in Hstep.
    set (b2 := buffer_insert _ _ n) in *.
    set (cur' := firstn j cur ++ n :: skipn (S j) cur) in *.
    assert (Hfl : length (firstn j cur) = j) by (apply firstn_length_le; exact Hj).
    assert (Hdone : S (length done + length n) = length (done ++ n ++ [NL])).
    { rewrite !length_app. simpl. lia. }
    destruct (IH (done ++ n ++ [NL]) (S j) cur' b2) as (b' & R1 & R2).
    + rewrite Hout'. rewrite <- !app_assoc. reflexivity.
    + exact Hrs'.
    + exact Hstep.
    + unfold cur'. destruct (firstn j cur); discriminate.
    + unfold cur'. apply Forall_app. split.
      * rewrite <- (firstn_skipn j cur) in Hcur. apply Forall_app in Hcur. tauto.
      * constructor; [exact Hn|].
        rewrite <- (firstn_skipn (S j) cur) in Hcur. apply Forall_app in Hcur. tauto.
    + unfold cur'. rewrite length_app. simpl. lia.
    + exists b'. rewrite Hdone. fold m in R1. split.
      * rewrite R1. f_equal. simpl. lia.
      * rewrite R2. f_equal.
        assert (F1 : firstn (S j) cur' = firstn j cur ++ [n]).
        { unfold cur'. replace (firstn j cur ++ n :: skipn (S j) cur)
            with ((firstn j cur ++ [n]) ++ skipn (S j) cur)
            by (rewrite <- app_assoc; reflexivity).
          replace (S j) with (length (firstn j cur ++ [n])) at 1
            by (rewrite length_app; simpl; lia).
          apply firstn_length_prefix. }
        assert (F2 : skipn (S j + length rs) cur' = skipn (j + length (n :: rs)) cur).
        { rewrite skipn_add. unfold cur'.
          replace (firstn j cur ++ n :: skipn (S j) cur)
            with ((firstn j cur ++ [n]) ++ skipn (S j) cur)
            by (rewrite <- app_assoc; reflexivity).
          replace (S j) with (length (firstn j cur ++ [n])) at 1
            by (rewrite length_app; simpl; lia).
          rewrite skipn_length_prefix. rewrite <- skipn_add. f_equal. simpl. lia. }
        rewrite F1, F2, <- app_assoc. reflexivity.
Qed.

Lemma place_cursor_at_line_offset_text (b : Buffer) (line offset : Z) :
  (0 <= offset)%Z ->
  exists b', place_cursor_at_line_offset b line offset = Some b' /\ btext b' = btext b.
Proof.
  intros Ho. unfold place_cursor_at_line_offset.
  pose proof (place_cursor_at_line_offset_clamps (btext b) line offset Ho) as H.
  destruct (place_cursor_at_line_offset_address (btext b) line offset) as [l o].
  destruct H as (Hv & _). unfold get_iter_at_line_offset. rewrite Hv.
  eexists. split; reflexivity.
Qed.

(** A text is its lines that end in a newline and what follows the last
    newline. *)
Lemma text_terminated_rest (t : text) :
  t = terminated (removelast (lines t)) ++ last (lines t) []
  /\ Forall nl_free (removelast (lines t)) /\ nl_free (last (lines t) []).
Proof.
  pose proof (lines_nonempty t) as Hne.
  pose proof (app_removelast_last [] Hne) as E.
  pose proof (lines_nl_free t) as Hnl. rewrite E in Hnl.
  apply Forall_app in Hnl as [H1 H2].
  split; [|split; [exact H1 | exact (Forall_inv H2)]].
  rewrite <- (unlines_lines t) at 1. rewrite E at 1.
  rewrite unlines_split. simpl. rewrite app_nil_r. reflexivity.
Qed.

(** The text of a buffer after a newline is put behind a last line that is
    not empty: the lines [K] of the text, each with its newline. *)
Lemma append_final_newline_lines (b : Buffer) :
  let L := lines (btext b) in
  let K := if is_empty_line (last L []) then removelast L else L in
  btext (append_final_newline b) = unlines (K ++ [[]])
  /\ unlines (K ++ [[]]) = terminated K
  /\ Forall nl_free K.
Proof.
  cbv zeta.
  pose proof (lines_nonempty (btext b)) as Hne.
  pose proof (lines_nl_free (btext b)) as Hnl.
  pose proof (unlines_lines (btext b)) as Hu.
  revert Hne Hnl Hu. generalize (lines (btext b)). intros L Hne Hnl Hu.
  assert (E : L = removelast L ++ [last L []]) by (apply app_removelast_last; exact Hne).
  assert (Hnl' : Forall nl_free (removelast L ++ [last L []])) by (rewrite <- E; exact Hnl).
  assert (Ht : btext b = unlines (removelast L ++ [last L []])) by (rewrite <- E; auto).
  pose proof (append_final_newline_text b (removelast L) (last L []) Ht Hnl') as G.
  rewrite <- E in G.
  split; [|split].
  - rewrite G. destruct (last L []) as [|x l] eqn:El.
    + cbn [is_empty_line]. rewrite app_nil_r. rewrite E at 1. reflexivity.
    + cbn [is_empty_line]. symmetry. apply unlines_snoc_empty. exact Hne.
  - rewrite unlines_app by discriminate. simpl. apply app_nil_r.
  - destruct (is_empty_line (last L [])); [|exact Hnl].
    apply Forall_app in Hnl'. tauto.
Qed.

(** The end of [auto_indent]: the lines of the buffer that the output did
    not reach are removed. *)
Lemma auto_indent_finish (b3 : Buffer) (ns K : list text) :
  btext b3 = unlines (ns ++ skipn (length ns) (K ++ [[]])) ->
  Forall nl_free ns -> Forall nl_free K ->
  let b4 := append_final_newline b3 in
  let b5 :=
    if length ns <? get_line_count (btext b4) - 1
    then buffer_erase b4 (get_iter_at_line (btext b4) (length ns)) (length (btext b4))
    else b4 in
  btext b5 = if (length K <? length ns) && is_empty_line (last ns [])
             then unlines ns else terminated ns.
Proof.
  intros Hb Hns HK b4 b5.
  destruct (Nat.ltb_spec (length K) (length ns)) as [Hlt|Hge]; cbn [andb].
  - rewrite skipn_all2 in Hb by (rewrite length_app; simpl; lia).
    rewrite app_nil_r in Hb.
    assert (Hne : ns <> []) by (destruct ns; [simpl in Hlt; lia | discriminate]).
    assert (E : ns = removelast ns ++ [last ns []])
      by (apply app_removelast_last; exact Hne).
    assert (Hb' : btext b3 = unlines (removelast ns ++ [last ns []])) by (rewrite <- E; exact Hb).
    assert (Hn' : Forall nl_free (removelast ns ++ [last ns []])) by (rewrite <- E; exact Hns).
    pose proof (append_final_newline_text b3 _ _ Hb' Hn') as G. rewrite <- E in G.
    fold b4 in G. unfold b5.
    destruct (last ns []) as [|x l] eqn:El; cbn [is_empty_line].
    + rewrite app_nil_r in G.
      assert (Hc : get_line_count (btext b4) = length ns).
      { rewrite G. apply get_line_count_unlines; assumption. }
      rewrite Hc. nat_test (length ns <? length ns - 1) false. exact G.
    + assert (G' : btext b4 = unlines (ns ++ [[]])).
      { rewrite G. symmetry. apply unlines_snoc_empty. exact Hne. }
      assert (Hc : get_line_count (btext b4) = S (length ns)).
      { rewrite G', get_line_count_unlines.
        - rewrite length_app. simpl. lia.
        - destruct ns; discriminate.
        - apply Forall_app. split; [exact Hns | repeat constructor; auto with lines]. }
      rewrite Hc. nat_test (length ns <? S (length ns) - 1) false.
      rewrite G. symmetry. apply terminated_unlines. exact Hne.
  - assert (Hsk : skipn (length ns) (K ++ [[]]) = skipn (length ns) K ++ [[]]).
    { rewrite skipn_app. replace (length ns - length K) with 0 by lia. reflexivity. }
    rewrite Hsk in Hb. set (mid := skipn (length ns) K) in *.
    assert (Hmid : Forall nl_free mid).
    { unfold mid. rewrite <- (firstn_skipn (length ns) K) in HK.
      apply Forall_app in HK. tauto. }
    assert (Hb' : btext b3 = unlines ((ns ++ mid) ++ [[]]))
      by (rewrite <- app_assoc; exact Hb).
    assert (Hn' : Forall nl_free ((ns ++ mid) ++ [[]])).
    { repeat (apply Forall_app; split); auto. repeat constructor. apply nl_free_nil. }
    pose proof (append_final_newline_text b3 _ _ Hb' Hn') as G.
    rewrite app_nil_r in G. fold b4 in G.
    assert (Hc : get_line_count (btext b4) = length ns + length mid + 1).
    { rewrite G, get_line_count_unlines.
      - rewrite !length_app. simpl. lia.
      - destruct (ns ++ mid); discriminate.
      - exact Hn'. }
    unfold b5. rewrite Hc.
    destruct mid as [|x mid'] eqn:Em.
    + nat_test (length ns <? length ns + length (@nil text) + 1 - 1) false.
      rewrite G, app_nil_r, unlines_app by discriminate. simpl. apply app_nil_r.
    + nat_test (length ns <? length ns + length (x :: mid') + 1 - 1) true.
      rewrite btext_buffer_erase.
      assert (G2 : btext b4 = terminated ns ++ unlines ((x :: mid') ++ [[]]) ++ []).
      { rewrite G, <- app_assoc, app_nil_r. apply unlines_app. discriminate. }
      assert (Hi : get_iter_at_line (btext b4) (length ns) = length (terminated ns)).
      { rewrite G, <- app_assoc. cbn [app]. apply get_iter_at_line_unlines. exact Hns. }
      rewrite Hi.
      replace (length (btext b4))
        with (length (terminated ns) + length (unlines ((x :: mid') ++ [[]])))
        by (rewrite G2, !length_app; simpl; lia).
      rewrite G2, text_erase_in_line. apply app_nil_r.
Qed.

(** X21: [auto_indent] with a formatter that, given the text of the buffer,
    returns [status] and the output [out].  Before the formatter runs, a
    newline is put behind a last line that is not empty, and this stays
    when the formatter fails.  When it succeeds the buffer is replaced line
    by line and ends up holding the lines of the output that end in a
    newline, each with its newline; what follows the last newline of the
    output is dropped, and so is the newline of a last line that is empty
    when the output has more lines than the buffer had. *)
Theorem auto_indent_replaces_text :
  forall (process : text -> Z * text) (b : Buffer) (status : Z) (out : text),
    let L := lines (btext b) in
    let K := if is_empty_line (last L []) then removelast L else L in
    let ns := removelast (lines out) in
    process (terminated K) = (status, out) ->
    btext (append_final_newline b) = terminated K
    /\ exists b',
        auto_indent process b = Some b'
        /\ btext b' = if (status =? 0)%Z
                      then if (length K <? length ns) && is_empty_line (last ns [])
                           then unlines ns else terminated ns
                      else terminated K.
Proof.
  intros process b status out L K ns Hp.
  destruct (append_final_newline_lines b) as (A1 & A2 & A3).
  fold L in A1, A2, A3. fold K in A1, A2, A3.
  assert (Ht1 : btext (append_final_newline b) = terminated K) by (rewrite A1; exact A2).
  split; [exact Ht1|].
  unfold auto_indent. rewrite Ht1, Hp.
  destruct (status =? 0)%Z; [|eexists; split; [reflexivity | exact Ht1]].
  set (b2 := begin_user_action (append_final_newline b)).
  destruct (text_terminated_rest out) as (Eout & Hns & Hrem). fold ns in Eout, Hns.
  destruct (auto_indent_loop_lines out (last (lines out) []) Hrem ns [] 0 (K ++ [[]]) b2)
    as (b3 & R1 & R2).
  - exact Eout.
  - exact Hns.
  - exact A1.
  - destruct K; discriminate.
  - apply Forall_app. split; [exact A3 | repeat constructor; apply nl_free_nil].
  - lia.
  - cbn [length Nat.add firstn app] in R1, R2.
    assert (Hlen : length out = length (terminated ns ++ last (lines out) []))
      by (rewrite <- Eout; reflexivity).
    rewrite Hlen, R1.
    pose proof (auto_indent_finish b3 ns K R2 Hns A3) as F. cbv zeta in F.
    set (b5 := if length ns <? _ then _ else _) in *.
    destruct (place_cursor_at_line_offset_text (end_user_action b5)
                (Z.of_nat (get_line (btext b2) (insert_mark b2)))
                (Z.of_nat (get_line_offset (btext b2) (insert_mark b2)))
                ltac:(lia)) as (b' & P1 & P2).
    exists b'. split; [exact P1|]. rewrite P2. exact F.
Qed.

Lemma auto_indent_replaces_text_witness :
  let out := chars "if(x)" ++ NL :: chars "  y;" ++ [NL] in
  let b := mkBuffer (chars "if(x)" ++ NL :: chars "y;") 7 7 [] in
  btext (append_final_newline b) = chars "if(x)" ++ NL :: chars "y;" ++ [NL]
  /\ exists b',
      auto_indent (fun _ => (0%Z, out)) b = Some b'
      /\ btext b' = out.
Proof.
  intros out b.
  apply (auto_indent_replaces_text (fun _ => (0%Z, out)) b 0%Z out). reflexivity.
Defined.

(** ** Pasting, line by line *)

Lemma paste_scan_loop_index (tc : ascii) (txt : text) :
  forall n c st,
    paste_scan_loop tc txt n c st = index_loop (paste_scan_body tc txt) n c st.
Proof. induction n as [|n IH]; intros c st; [reflexivity | apply IH]. Qed.

Lemma paste_insert_loop_index (tc : ascii) (txt prefix : text) (plt : nat) (has : bool) :
  forall n c st,
    paste_insert_loop tc txt prefix plt has n c st
    = index_loop (paste_insert_body tc txt prefix plt has) n c st.
Proof. induction n as [|n IH]; intros c st; [reflexivity | apply IH]. Qed.

Lemma paste_line_end_inside (done p tail : text) (k : nat) :
  nl_free p -> k < length p -> tail <> [] \/ S k < length p ->
  paste_line_end (done ++ p ++ tail) (length done + k) = None.
Proof.
  intros Hp Hk Hlast. unfold paste_line_end.
  assert (Hc : nth (length done + k) (done ++ p ++ tail) zero <> NL).
  { rewrite app_nth2 by lia. replace (length done + k - length done) with k by lia.
    rewrite app_nth1 by lia. apply nth_nl_free; assumption. }
  rewrite (eqb_NL_false _ Hc).
  assert (Hlen : length done + k <> length (done ++ p ++ tail) - 1).
  { rewrite !length_app. destruct Hlast as [H|H]; [|lia].
    destruct tail; [congruence | simpl; lia]. }
  apply Nat.eqb_neq in Hlen. rewrite Hlen. reflexivity.
Qed.

Lemma paste_line_end_newline (done p more : text) :
  paste_line_end (done ++ p ++ NL :: more) (length done + length p)
  = Some (length done + length p).
Proof.
  unfold paste_line_end. rewrite app_nth2 by lia.
  replace (length done + length p - length done) with (length p) by lia.
  rewrite app_nth2 by lia. rewrite Nat.sub_diag. reflexivity.
Qed.

Lemma paste_line_end_last (done p : text) (k : nat) :
  nl_free p -> length p = S k ->
  paste_line_end (done ++ p) (length done + k) = Some (length done + k + 1).
Proof.
  intros Hp Hk. unfold paste_line_end.
  assert (Hc : nth (length done + k) (done ++ p) zero <> NL).
  { rewrite app_nth2 by lia. replace (length done + k - length done) with k by lia.
    apply nth_nl_free; [exact Hp | lia]. }
  rewrite (eqb_NL_false _ Hc).
  replace (length (done ++ p) - 1) with (length done + k) by (rewrite length_app; lia).
  rewrite Nat.eqb_refl. reflexivity.
Qed.

Section IndexLoop.

Context {St : Type}.
Variable txt : text.
Variable body : nat -> St -> St.
Hypothesis body_inside : forall c st, paste_line_end txt c = None -> body c st = st.

Lemma index_loop_inside (done p tail : text) :
  txt = done ++ p ++ tail -> nl_free p ->
  forall d k st,
    k + d <= length p -> tail <> [] \/ k + d < length p ->
    index_loop body d (length done + k) st = st.
Proof.
  intros Htxt Hp. induction d as [|d IH]; intros k st Hk Hlast; [reflexivity|].
  cbn [index_loop]. rewrite body_inside.
  - replace (S (length done + k)) with (length done + S k) by lia.
    apply IH; [lia|]. destruct Hlast; [left; assumption | right; lia].
  - rewrite Htxt. apply paste_line_end_inside; [exact Hp | lia|].
    destruct Hlast; [left; assumption | right; lia].
Qed.

(** Over a line and its newline the body acts once, at the newline. *)
Lemma index_loop_line_newline (done p more : text) (m : nat) (st : St) :
  txt = done ++ p ++ NL :: more -> nl_free p ->
  index_loop body (length p + S m) (length done) st
  = index_loop body m (length done + length p + 1) (body (length done + length p) st).
Proof.
  intros Htxt Hp.
  assert (Hsplit : forall d c s,
             index_loop body (d + S m) c s
             = index_loop body (S m) (c + d) (index_loop body d c s)).
  { induction d as [|d IH]; intros c s.
    - rewrite Nat.add_0_r. reflexivity.
    - cbn [Nat.add index_loop]. rewrite IH.
      replace (S c + d) with (c + S d) by lia. reflexivity. }
  rewrite Hsplit.
  pose proof (index_loop_inside done p (NL :: more) Htxt Hp (length p) 0 st
                ltac:(lia) ltac:(left; discriminate)) as G.
  rewrite Nat.add_0_r in G. rewrite G.
  cbn [index_loop]. f_equal. lia.
Qed.

(** Over a last line without newline the body acts once, at its last
    character. *)
Lemma index_loop_line_last (done p : text) (k : nat) (st : St) :
  txt = done ++ p -> nl_free p -> length p = S k ->
  index_loop body (length p) (length done) st = body (length done + k) st.
Proof.
  intros Htxt Hp Hk.
  assert (Hsplit : forall d c s,
             index_loop body (d + 1) c s = body (c + d) (index_loop body d c s)).
  { induction d as [|d IH]; intros c s.
    - rewrite Nat.add_0_r. reflexivity.
    - cbn [Nat.add index_loop]. rewrite IH.
      replace (S c + d) with (c + S d) by lia. reflexivity. }
  rewrite Hk. replace (S k) with (k + 1) by lia. rewrite Hsplit.
  assert (Htxt' : txt = done ++ p ++ []) by (rewrite app_nil_r; exact Htxt).
  pose proof (index_loop_inside done p [] Htxt' Hp k 0 st ltac:(lia) ltac:(right; lia)) as G.
  rewrite Nat.add_0_r in G. rewrite G. reflexivity.
Qed.

End IndexLoop.

Section LinesFold.

Context {St : Type}.
Variable txt : text.
Variable body : nat -> St -> St.
Variable start_of : St -> nat.
Variable line_step : nat -> text -> St -> St.
Hypothesis body_inside : forall c st, paste_line_end txt c = None -> body c st = st.
Hypothesis body_at_end :
  forall done p tail c st,
    txt = done ++ p ++ tail -> start_of st = length done ->
    paste_line_end txt c = Some (length done + length p) ->
    body c st = line_step (length done + length p) p st.
Hypothesis start_step : forall e p st, start_of (line_step e p st) = e + 1.

(** A loop of [paste] over the rest [r] of the pasted text acts line by
    line. *)
Lemma index_loop_lines :
  forall (pl : list text) (done r : text) (st : St),
    txt = done ++ r -> paste_rest r pl -> Forall nl_free pl ->
    start_of st = length done ->
    index_loop body (length r) (length done) st = lines_fold line_step (length done) pl st.
Proof.
  induction pl as [|p rest IH]; intros done r st Htxt Hr Hnl Hst.
  - destruct Hr as [->|[_ H]]; [reflexivity | simpl in H; congruence].
  - pose proof (Forall_inv Hnl) as Hp. pose proof (Forall_inv_tail Hnl) as Hrest.
    cbn [lines_fold].
    assert (Hnewline : forall r', r = p ++ NL :: r' -> paste_rest r' rest ->
              index_loop body (length r) (length done) st
              = lines_fold line_step (length done + length p + 1) rest
                  (line_step (length done + length p) p st)).
    { intros r' Er Hr'. rewrite Er in Htxt.
      replace (length r) with (length p + S (length r'))
        by (rewrite Er, length_app; reflexivity).
      rewrite (index_loop_line_newline txt body body_inside done p r' (length r') st Htxt Hp).
      rewrite (body_at_end done p (NL :: r') _ st Htxt Hst)
        by (rewrite Htxt; apply paste_line_end_newline).
      replace (length done + length p + 1) with (length (done ++ p ++ [NL]))
        by (rewrite !length_app; simpl; lia).
      apply IH.
      - rewrite Htxt, <- !app_assoc. reflexivity.
      - exact Hr'.
      - exact Hrest.
      - rewrite start_step, !length_app. simpl. lia. }
    destruct Hr as [Hr|[Hr Hlast]].
    + apply (Hnewline (terminated rest)); [|left; reflexivity].
      rewrite Hr. change (terminated (p :: rest)) with ((p ++ [NL]) ++ terminated rest).
      rewrite <- app_assoc. reflexivity.
    + destruct rest as [|p' rest'].
      * cbn [lines_fold]. simpl in Hr, Hlast. subst r.
        destruct (length p) as [|k] eqn:Ek; [destruct p; [congruence | discriminate]|].
        rewrite <- Ek.
        rewrite (index_loop_line_last txt body body_inside done p k st Htxt Hp Ek).
        assert (Htxt' : txt = done ++ p ++ []) by (rewrite app_nil_r; exact Htxt).
        apply (body_at_end done p [] _ st Htxt' Hst).
        rewrite Htxt, Ek. replace (length done + S k) with (length done + k + 1) by lia.
        apply paste_line_end_last; assumption.
      * apply (Hnewline (unlines (p' :: rest'))).
        -- rewrite Hr. apply unlines_cons. discriminate.
        -- right. split; [reflexivity | exact Hlast].
Qed.

End LinesFold.

Lemma substr_line (done p tail : text) (k : nat) :
  substr (done ++ p ++ tail) (length done + k) (length done + length p - length done - k)
  = skipn k p.
Proof.
  unfold substr. rewrite skipn_add, skipn_length_app.
  replace (length done + length p - length done - k) with (length p - k) by lia.
  rewrite skipn_app, firstn_app, length_skipn.
  replace (length p - k - (length p - k)) with 0 by lia.
  rewrite firstn_O, app_nil_r.
  apply firstn_all2. rewrite length_skipn. lia.
Qed.

Lemma paste_scan_body_inside (tc : ascii) (txt : text) (c : nat) (st : PasteScan) :
  paste_line_end txt c = None -> paste_scan_body tc txt c st = st.
Proof. intros H. unfold paste_scan_body. rewrite H. reflexivity. Qed.

Lemma paste_scan_body_at_end (tc : ascii) (txt done p tail : text) (c : nat)
      (st : PasteScan) :
  txt = done ++ p ++ tail -> ps_start_line st = length done ->
  paste_line_end txt c = Some (length done + length p) ->
  paste_scan_body tc txt c st = paste_scan_line tc (length done + length p) p st.
Proof.
  intros Htxt Hst He. unfold paste_scan_body, paste_scan_line. rewrite He, Hst.
  pose proof (substr_line done p tail 0) as Hs.
  rewrite Nat.add_0_r, Nat.sub_0_r in Hs. cbn [skipn] in Hs. rewrite <- Htxt in Hs.
  rewrite Hs. reflexivity.
Qed.

Lemma paste_scan_line_start (tc : ascii) (e : nat) (p : text) (st : PasteScan) :
  ps_start_line (paste_scan_line tc e p st) = e + 1.
Proof.
  unfold paste_scan_line. destruct (count_tabs tc p) as [tabs empty].
  destruct (ps_first_paste_line st), (negb (tabs =? 0)), (negb empty); reflexivity.
Qed.

Lemma paste_insert_body_inside (tc : ascii) (txt prefix : text) (plt : nat) (has : bool)
      (c : nat) (st : PasteInsert) :
  paste_line_end txt c = None -> paste_insert_body tc txt prefix plt has c st = st.
Proof. intros H. unfold paste_insert_body. rewrite H. reflexivity. Qed.

Lemma paste_insert_body_at_end (tc : ascii) (txt prefix : text) (plt : nat) (has : bool)
      (done p tail : text) (c : nat) (st : PasteInsert) :
  txt = done ++ p ++ tail -> pi_start_line st = length done ->
  paste_line_end txt c = Some (length done + length p) ->
  paste_insert_body tc txt prefix plt has c st
  = paste_insert_line tc prefix plt has (length done + length p) p st.
Proof.
  intros Htxt Hst He. unfold paste_insert_body, paste_insert_line, leading_tabs.
  rewrite He, Hst.
  pose proof (substr_line done p tail 0) as Hs.
  rewrite Nat.add_0_r, Nat.sub_0_r in Hs. cbn [skipn] in Hs. rewrite <- Htxt in Hs.
  cbv zeta. rewrite Hs.
  set (tabs := if negb (pi_first_paste_line st && negb has)
                  && (fst (count_tabs tc p) <? plt)
               then fst (count_tabs tc p) else plt).
  pose proof (substr_line done p tail tabs) as Hs2. rewrite <- Htxt in Hs2.
  rewrite Hs2. reflexivity.
Qed.

Lemma paste_insert_line_start (tc : ascii) (prefix : text) (plt : nat) (has : bool)
      (e : nat) (p : text) (st : PasteInsert) :
  pi_start_line (paste_insert_line tc prefix plt has e p st) = e + 1.
Proof. reflexivity. Qed.

Lemma pasted_lines_rest (txt : text) :
  paste_rest txt (pasted_lines txt) /\ Forall nl_free (pasted_lines txt).
Proof.
  unfold pasted_lines, paste_rest. cbv zeta.
  pose proof (lines_nonempty txt) as Hne.
  pose proof (lines_nl_free txt) as Hnl.
  pose proof (unlines_lines txt) as Hu.
  revert Hne Hnl Hu. generalize (lines txt). intros L Hne Hnl Hu.
  assert (E : L = removelast L ++ [last L []]) by (apply app_removelast_last; exact Hne).
  destruct (last L []) as [|x l] eqn:El; cbn [is_empty_line].
  - split.
    + left. rewrite <- Hu. rewrite E at 1.
      rewrite unlines_app by discriminate. simpl. apply app_nil_r.
    + rewrite E in Hnl. apply Forall_app in Hnl. tauto.
  - split; [|exact Hnl]. right. split; [symmetry; exact Hu|].
    rewrite El. discriminate.
Qed.

Lemma length_terminated_ge (pl : list text) :
  Forall (fun l => length l <= length (terminated pl)) pl.
Proof.
  induction pl as [|p pl IH]; [constructor|].
  change (terminated (p :: pl)) with ((p ++ [NL]) ++ terminated pl).
  constructor.
  - rewrite !length_app. lia.
  - eapply Forall_impl; [|exact IH]. intros l Hl. cbv beta in *.
    rewrite !length_app. lia.
Qed.

Lemma paste_rest_lengths (r : text) (pl : list text) :
  paste_rest r pl -> Forall (fun l => length l <= length r) pl.
Proof.
  intros [->|[-> Hlast]]; [apply length_terminated_ge|].
  destruct pl as [|p pl]; [constructor|].
  pose proof (length_terminated_ge (p :: pl)) as H.
  rewrite terminated_unlines in H by discriminate.
  assert (E : p :: pl = removelast (p :: pl) ++ [last (p :: pl) []])
    by (apply app_removelast_last; discriminate).
  rewrite E. rewrite E in H. apply Forall_app in H as [H1 H2].
  rewrite unlines_split. cbn [line_rest]. rewrite app_nil_r.
  apply Forall_app. split.
  - pose proof (length_terminated_ge (removelast (p :: pl))) as G.
    eapply Forall_impl; [|exact G]. intros l Hl. cbv beta in *.
    rewrite length_app. lia.
  - constructor; [|constructor]. rewrite length_app. lia.
Qed.

Lemma leading_tabs_le (tc : ascii) (l : text) : leading_tabs tc l <= length l.
Proof.
  unfold leading_tabs. induction l as [|c l IH]; simpl; [lia|].
  destruct (c =? tc)%char; [|simpl; lia].
  destruct (count_tabs tc l) as [n e]. simpl in *. lia.
Qed.

(** The encoding of the minimum kept by the first loop of [paste]. *)
Lemma common_tabs_encode (tc : ascii) (bound : nat) :
  (N.of_nat bound < SIZE_MAX)%N ->
  let enc := fun o : option nat => match o with None => SIZE_MAX | Some m => N.of_nat m end in
  forall (rest : list text) (start : nat) (st : PasteScan) (acc : option nat),
    Forall (fun l => length l <= bound) rest ->
    ps_first_paste_line st = false ->
    ps_paste_line_tabs st = enc acc ->
    (forall m, acc = Some m -> m <= bound) ->
    let st' := lines_fold (paste_scan_line tc) start rest st in
    ps_first_paste_line_has_tabs st' = ps_first_paste_line_has_tabs st
    /\ ps_paste_line_tabs st' = enc (common_tabs tc acc rest)
    /\ (forall m, common_tabs tc acc rest = Some m -> m <= bound).
Proof.
  intros Hb enc. induction rest as [|p rest IH]; intros start st acc Hlen Hf Hplt Hacc.
  - cbn [lines_fold common_tabs]. auto.
  - pose proof (Forall_inv Hlen) as Hp. pose proof (Forall_inv_tail Hlen) as Hrest.
    cbv beta in Hp. cbn [lines_fold common_tabs].
    pose proof (leading_tabs_le tc p) as Hle.
    set (st1 := paste_scan_line tc (start + length p) p st).
    assert (H1 : ps_first_paste_line st1 = false
                 /\ ps_first_paste_line_has_tabs st1 = ps_first_paste_line_has_tabs st
                 /\ ps_paste_line_tabs st1
                    = enc (if only_tabs tc p then acc
                           else Some (match acc with
                                      | None => leading_tabs tc p
                                      | Some m => Nat.min m (leading_tabs tc p)
                                      end))).
    { unfold st1, paste_scan_line, only_tabs, leading_tabs in *.
      destruct (count_tabs tc p) as [tabs empty]. cbn [fst snd] in *.
      rewrite Hf. destruct empty; cbn [negb ps_first_paste_line
        ps_first_paste_line_has_tabs ps_paste_line_tabs].
      - auto.
      - repeat split. rewrite Hplt. destruct acc as [m|]; cbn [enc].
        + lia.
        + apply N.min_r. lia. }
    destruct H1 as (A1 & A2 & A3).
    destruct (IH (start + length p + 1) st1 _ Hrest A1 A3) as (I1 & I2 & I3).
    + intros m Hm. destruct (only_tabs tc p); [apply Hacc; exact Hm|].
      inversion Hm; subst m. destruct acc as [m0|]; [|lia].
      specialize (Hacc m0 eq_refl). lia.
    + cbv zeta in I1, I2. rewrite I1, I2, A2. auto.
Qed.

(** The result of the first loop of [paste]. *)
Lemma paste_scan_result (tc : ascii) (txt : text) :
  (N.of_nat (length txt) < SIZE_MAX)%N ->
  let scan := paste_scan_loop tc txt (length txt) 0 (mkPasteScan 0 true SIZE_MAX false) in
  let pl := pasted_lines txt in
  (if (ps_paste_line_tabs scan =? SIZE_MAX)%N then 0 else N.to_nat (ps_paste_line_tabs scan))
  = paste_common_tabs tc pl
  /\ ps_first_paste_line_has_tabs scan
     = match pl with [] => false | p :: _ => negb (leading_tabs tc p =? 0) end.
Proof.
  intros Hb scan pl.
  destruct (pasted_lines_rest txt) as [Hrest Hnl]. fold pl in Hrest, Hnl.
  pose proof (paste_rest_lengths txt pl Hrest) as Hlen.
  assert (Hscan : scan = lines_fold (paste_scan_line tc) 0 pl
                           (mkPasteScan 0 true SIZE_MAX false)).
  { unfold scan. rewrite paste_scan_loop_index.
    apply (index_loop_lines txt (paste_scan_body tc txt) ps_start_line (paste_scan_line tc)
             (paste_scan_body_inside tc txt)
             (fun done p tail c st => paste_scan_body_at_end tc txt done p tail c st)
             (paste_scan_line_start tc) pl [] txt); auto. }
  rewrite Hscan. clear Hscan scan.
  destruct pl as [|p rest]; [split; reflexivity|].
  cbn [lines_fold paste_common_tabs].
  pose proof (Forall_inv Hlen) as Hp. pose proof (Forall_inv_tail Hlen) as Hr.
  cbv beta in Hp. pose proof (leading_tabs_le tc p) as Hle.
  set (acc := if leading_tabs tc p =? 0 then None else Some (leading_tabs tc p)).
  set (st1 := paste_scan_line tc (0 + length p) p (mkPasteScan 0 true SIZE_MAX false)).
  assert (H1 : ps_first_paste_line st1 = false
               /\ ps_first_paste_line_has_tabs st1 = negb (leading_tabs tc p =? 0)
               /\ ps_paste_line_tabs st1
                  = match acc with None => SIZE_MAX | Some m => N.of_nat m end).
  { unfold st1, acc, paste_scan_line, leading_tabs.
    destruct (count_tabs tc p) as [tabs empty]. cbn [fst ps_first_paste_line].
    destruct (tabs =? 0); repeat split. }
  destruct H1 as (A1 & A2 & A3).
  destruct (common_tabs_encode tc (length txt) Hb rest (0 + length p + 1) st1 acc Hr A1 A3)
    as (I1 & I2 & I3).
  - intros m Hm. unfold acc in Hm. destruct (leading_tabs tc p =? 0); [discriminate Hm|].
    inversion Hm; subst m. lia.
  - cbv zeta in I1, I2. rewrite I1, I2, A2. split; [|reflexivity].
    destruct (common_tabs tc acc rest) as [m|] eqn:E.
    + specialize (I3 m eq_refl).
      assert (Hneq : (N.of_nat m =? SIZE_MAX)%N = false) by (apply N.eqb_neq; lia).
      rewrite Hneq. lia.
    + reflexivity.
Qed.

Lemma min_test (x y : nat) : (if x <? y then x else y) = Nat.min x y.
Proof. destruct (Nat.ltb_spec x y); lia. Qed.

(** The second loop of [paste] over the lines behind the first one. *)
Lemma paste_insert_rest (tc : ascii) (prefix : text) (plt : nat) (has : bool) :
  forall (rest : list text) (start : nat) (st : PasteInsert) (a r : text),
    btext (pi_buffer st) = a ++ r ->
    insert_mark (pi_buffer st) = length a -> selection_bound (pi_buffer st) = length a ->
    pi_first_paste_line st = false ->
    let st' := lines_fold (paste_insert_line tc prefix plt has) start rest st in
    let ins :=
      flat_map (fun l => NL :: prefix ++ skipn (Nat.min (leading_tabs tc l) plt) l) rest in
    btext (pi_buffer st') = a ++ ins ++ r
    /\ insert_mark (pi_buffer st') = length a + length ins
    /\ selection_bound (pi_buffer st') = length a + length ins.
Proof.
  induction rest as [|p rest IH]; intros start st a r Ht Hi Hs Hf.
  - cbn [lines_fold flat_map length app]. rewrite Nat.add_0_r. auto.
  - cbn [lines_fold flat_map].
    set (s := NL :: prefix ++ skipn (Nat.min (leading_tabs tc p) plt) p).
    set (st1 := paste_insert_line tc prefix plt has (start + length p) p st).
    assert (Hb1 : pi_buffer st1 = insert_at_cursor (pi_buffer st) s).
    { unfold st1, paste_insert_line. rewrite Hf. cbn [andb negb pi_buffer].
      rewrite min_test. reflexivity. }
    destruct (insert_at_cursor_fields (pi_buffer st) a r s Ht Hi Hs) as (F1 & F2 & F3).
    rewrite <- Hb1 in F1, F2, F3.
    destruct (IH (start + length p + 1) st1 (a ++ s) r) as (I1 & I2 & I3).
    + rewrite F1. apply app_assoc.
    + rewrite F2. symmetry. apply length_app.
    + rewrite F3. symmetry. apply length_app.
    + reflexivity.
    + cbv zeta in I1, I2, I3. rewrite I1, I2, I3.
      rewrite <- !app_assoc, !length_app. repeat split; lia.
Qed.

(** X22: pasting with no selection on a line that holds blanks only, the
    cursor behind the blanks [ws1] and in front of the blanks [ws2].  The
    pasted lines are those of the clipboard text after the replacement of
    carriage returns, without an empty line behind a final newline.  The
    common indentation [k] is the least number of leading tab characters of
    the first line, if it has any, and of the later lines that hold another
    character.  Every pasted line loses [k] leading tab characters, or all
    of them when it has fewer; the first goes in at the cursor, every later
    one behind a newline and the blanks of the line.  The cursor ends
    behind the inserted text. *)
Theorem paste_reindents_lines :
  forall (tab_char : ascii) (clipboard pre ws1 ws2 post : text) (j : list Event),
    at_line_start pre -> line_closed post -> forallb is_blank (ws1 ++ ws2) = true ->
    let txt := replace_carriage_returns clipboard in
    (N.of_nat (length txt) < SIZE_MAX)%N ->
    let c := length pre + length ws1 in
    let b := mkBuffer (pre ++ (ws1 ++ ws2) ++ post) c c j in
    let ins := paste_text tab_char (ws1 ++ ws2) (pasted_lines txt) in
    btext (paste tab_char clipboard b) = pre ++ ws1 ++ ins ++ ws2 ++ post
    /\ insert_mark (paste tab_char clipboard b) = c + length ins
    /\ selection_bound (paste tab_char clipboard b) = c + length ins.
Proof.
  intros tc clipboard pre ws1 ws2 post j Hpre Hpost Hws txt Hbound c b ins.
  set (ws := ws1 ++ ws2) in *. set (t := pre ++ ws ++ post).
  assert (Hnl : nl_free ws) by (apply all_blank_nl_free; exact Hws).
  assert (Hnl1 : nl_free ws1) by (unfold ws in Hnl; apply nl_free_app in Hnl; tauto).
  assert (Hline : get_line t c = count_occ ascii_dec pre NL).
  { unfold t, c, ws. rewrite <- app_assoc. apply get_line_in_line. exact Hnl1. }
  assert (Htabs : get_tabs_end_iter t (count_occ ascii_dec pre NL) = length pre + length ws).
  { unfold t. rewrite get_tabs_end_iter_in_line by assumption.
    rewrite (leading_blanks_all ws Hws). reflexivity. }
  assert (Hend : ends_line t (length pre + length ws) = true).
  { unfold t. apply ends_line_line_end. exact Hpost. }
  assert (Hprefix : get_line_before t (length pre + length ws) = ws).
  { unfold t. apply get_line_before_in_line; assumption. }
  unfold paste. fold txt. cbn [btext insert_mark b]. fold t.
  unfold get_has_selection. cbn [insert_mark selection_bound b].
  rewrite Nat.eqb_refl, Hline, Htabs, Hend, Hprefix. cbn [negb andb].
  destruct (paste_scan_result tc txt Hbound) as [Hplt Hhas]. cbv zeta in Hplt, Hhas.
  rewrite Hplt, Hhas. clear Hplt Hhas.
  destruct (pasted_lines_rest txt) as [Hrest Hpl].
  set (pl := pasted_lines txt) in *.
  set (plt := paste_common_tabs tc pl) in *.
  set (has := match pl with [] => false | p :: _ => negb (leading_tabs tc p =? 0) end).
  set (b0 := begin_user_action b).
  rewrite paste_insert_loop_index.
  pose proof (index_loop_lines txt (paste_insert_body tc txt ws plt has) pi_start_line
                (paste_insert_line tc ws plt has)
                (paste_insert_body_inside tc txt ws plt has)
                (fun done p tail c st =>
                   paste_insert_body_at_end tc txt ws plt has done p tail c st)
                (paste_insert_line_start tc ws plt has) pl [] txt
                (mkPasteInsert 0 true b0) eq_refl Hrest Hpl eq_refl) as G.
  cbn [length] in G. rewrite G. clear G.
  assert (Ht0 : btext b0 = (pre ++ ws1) ++ ws2 ++ post).
  { unfold b0, b, ws. cbn [begin_user_action btext]. rewrite <- !app_assoc. reflexivity. }
  assert (Hc : c = length (pre ++ ws1)) by (unfold c; rewrite length_app; reflexivity).
  assert (Hst : btext (pi_buffer (lines_fold (paste_insert_line tc ws plt has) 0 pl
                                             (mkPasteInsert 0 true b0)))
                = (pre ++ ws1) ++ ins ++ ws2 ++ post
                /\ insert_mark (pi_buffer (lines_fold (paste_insert_line tc ws plt has) 0 pl
                                                      (mkPasteInsert 0 true b0)))
                   = length (pre ++ ws1) + length ins).
  { unfold ins, paste_text. fold pl plt. cbv zeta. destruct pl as [|p rest].
    - cbn [lines_fold pi_buffer app length]. rewrite Nat.add_0_r.
      split; [exact Ht0 | exact Hc].
    - cbn [lines_fold].
      set (s := skipn (Nat.min (leading_tabs tc p) plt) p).
      set (st1 := paste_insert_line tc ws plt has (0 + length p) p (mkPasteInsert 0 true b0)).
      assert (Hb1 : pi_buffer st1 = insert_at_cursor b0 s).
      { unfold st1, paste_insert_line, has, s. cbn [pi_first_paste_line pi_buffer].
        destruct (leading_tabs tc p =? 0) eqn:E0; cbn [negb andb].
        - apply Nat.eqb_eq in E0. rewrite E0. reflexivity.
        - rewrite min_test. reflexivity. }
      destruct (insert_at_cursor_fields b0 (pre ++ ws1) (ws2 ++ post) s Ht0 Hc Hc)
        as (F1 & F2 & F3).
      rewrite <- Hb1 in F1, F2, F3.
      destruct (paste_insert_rest tc ws plt has rest (0 + length p + 1) st1
                  ((pre ++ ws1) ++ s) (ws2 ++ post)) as (I1 & I2 & _).
      + rewrite F1. apply app_assoc.
      + rewrite F2. symmetry. apply length_app.
      + rewrite F3. symmetry. apply length_app.
      + reflexivity.
      + cbv zeta in I1, I2. rewrite I1, I2.
        rewrite <- !app_assoc, !length_app. split; [reflexivity | lia]. }
  destruct Hst as [E1 E2].
  cbn [end_user_action place_cursor btext insert_mark selection_bound].
  rewrite E1, E2, Hc, <- !app_assoc. auto.
Qed.

Lemma paste_reindents_lines_witness :
  let clipboard := chars "  if (x)" ++ [CR; NL] ++ chars "    y;" ++ [NL] in
  let b := mkBuffer (chars "{" ++ NL :: chars "    " ++ NL :: chars "}") 6 6 [] in
  btext (paste SPACE clipboard b)
  = chars "{" ++ NL :: chars "    if (x)" ++ NL :: chars "      y;" ++ NL :: chars "}"
  /\ insert_mark (paste SPACE clipboard b) = 6 + 15
  /\ selection_bound (paste SPACE clipboard b) = 6 + 15.
Proof.
  intros clipboard b.
  refine (paste_reindents_lines SPACE clipboard (chars "{" ++ [NL]) (chars "    ") []
            (NL :: chars "}") [] _ _ _ _).
  - right. exists (chars "{"). reflexivity.
  - right. exists (chars "}"). reflexivity.
  - reflexivity.
  - vm_compute. reflexivity.
Defined.

(** X23: pasting with no selection on a line that holds a character other
    than a space or a tab never reindents: the clipboard text, with its
    carriage returns replaced, goes in at the cursor as it is. *)
Theorem paste_plain_in_text_line :
  forall (tab_char : ascii) (clipboard pre l1 l2 post : text) (j : list Event),
    at_line_start pre -> nl_free (l1 ++ l2) -> line_closed post ->
    has_text (l1 ++ l2) = true ->
    let txt := replace_carriage_returns clipboard in
    let c := length pre + length l1 in
    let b := mkBuffer (pre ++ (l1 ++ l2) ++ post) c c j in
    btext (paste tab_char clipboard b) = pre ++ l1 ++ txt ++ l2 ++ post
    /\ insert_mark (paste tab_char clipboard b) = c + length txt
    /\ selection_bound (paste tab_char clipboard b) = c + length txt.
Proof.
  intros tc clipboard pre l1 l2 post j Hpre Hl Hpost Htext txt c b.
  set (l := l1 ++ l2) in *. set (t := pre ++ l ++ post).
  assert (Hl1 : nl_free l1) by (unfold l in Hl; apply nl_free_app in Hl; tauto).
  assert (Hline : get_line t c = count_occ ascii_dec pre NL).
  { unfold t, c, l. rewrite <- app_assoc. apply get_line_in_line. exact Hl1. }
  assert (Htabs : get_tabs_end_iter t (count_occ ascii_dec pre NL)
                  = length pre + leading_blanks l).
  { unfold t. apply get_tabs_end_iter_in_line; assumption. }
  destruct (leading_blanks_text l [] Htext) as [_ Hlt].
  assert (Hend : ends_line t (length pre + leading_blanks l) = false).
  { unfold t. apply ends_line_in_line; assumption. }
  unfold paste. fold txt. cbn [btext insert_mark b]. fold t.
  rewrite Hline, Htabs, Hend, Bool.andb_false_r.
  unfold paste_clipboard, get_selection_bounds. cbn [insert_mark selection_bound b].
  rewrite Nat.min_id, Nat.max_id, buffer_erase_empty.
  assert (Ht : btext b = (pre ++ l1) ++ l2 ++ post).
  { unfold b, l. cbn [btext]. rewrite <- !app_assoc. reflexivity. }
  assert (Hc : c = length (pre ++ l1)) by (unfold c; rewrite length_app; reflexivity).
  destruct (insert_at_cursor_fields b (pre ++ l1) (l2 ++ post) txt Ht Hc Hc)
    as (F1 & F2 & F3).
  rewrite F1, F2, F3, Hc, <- !app_assoc. auto.
Qed.

Lemma paste_plain_in_text_line_witness :
  let b := mkBuffer ([] ++ (chars "  x" ++ []) ++ []) 3 3 [] in
  btext (paste SPACE (chars "  y" ++ [CR]) b) = chars "  x  y" ++ [NL]
  /\ insert_mark (paste SPACE (chars "  y" ++ [CR]) b) = 3 + 4
  /\ selection_bound (paste SPACE (chars "  y" ++ [CR]) b) = 3 + 4.
Proof.
  intros b.
  apply (paste_plain_in_text_line SPACE (chars "  y" ++ [CR]) [] (chars "  x") [] [] []).
  - left. reflexivity.
  - intros H. simpl in H. repeat (destruct H as [H|H]; [discriminate H|]). exact H.
  - left. reflexivity.
  - reflexivity.
Defined.

(** ** The line of an iterator *)

(** X24: the three helpers that read the line of an iterator.  With [l]
    the line of the text that holds the position [i]: [get_line(iter)]
    returns [l], [get_line_before(iter)] the part of [l] in front of the
    position, [get_tabs_end_iter] the position behind the leading spaces and
    tabs of [l], so that the text in front of it is the whole indentation
    of the line and nothing else. *)
Theorem line_helpers_read_the_line :
  forall (t : text) (i : nat),
    i <= length t ->
    let n := get_line t i in
    let l := nth n (lines t) [] in
    View_get_line t i = l
    /\ get_line_offset t i <= length l
    /\ get_line_before t i = firstn (get_line_offset t i) l
    /\ get_tabs_end_iter t n = get_iter_at_line t n + leading_blanks l
    /\ get_line_before t (get_tabs_end_iter t n) = firstn (leading_blanks l) l.
Proof.
  intros t i Hi n l.
  destruct (line_view t n (get_line_lt t i))
    as (pre & l' & post & Ht & Hpre & Hl & Hpost & Hcount & Hnth & Hstart & _).
  fold l in Hnth. subst l'.
  assert (Hlo : length pre <= i).
  { rewrite <- Hstart. apply line_start_le. exact Hi. }
  assert (Hhi : i <= length pre + length l).
  { destruct (Nat.le_gt_cases i (length pre + length l)) as [H|H]; [exact H|exfalso].
    destruct Hpost as [->|[q ->]].
    - rewrite Ht, !length_app in Hi. simpl in Hi. lia.
    - pose proof (get_line_mono t (S (length pre + length l)) i H) as Hm. fold n in Hm.
      assert (E : get_line t (S (length pre + length l)) = S n).
      { unfold get_line. rewrite Ht.
        replace (pre ++ l ++ NL :: q) with ((pre ++ l ++ [NL]) ++ q)
          by (rewrite <- !app_assoc; reflexivity).
        replace (S (length pre + length l)) with (length (pre ++ l ++ [NL]))
          by (rewrite !length_app; simpl; lia).
        rewrite firstn_length_app, !count_occ_app, (count_nl_free l Hl), Hcount.
        simpl. lia. }
      lia. }
  set (o := i - length pre).
  assert (Hi' : i = length pre + length (firstn o l)).
  { rewrite firstn_length_le by (unfold o; lia). unfold o. lia. }
  assert (Ht' : t = pre ++ firstn o l ++ (skipn o l ++ post)).
  { rewrite Ht at 1. rewrite (app_assoc (firstn o l)), firstn_skipn. reflexivity. }
  assert (Hoff : get_line_offset t i = o).
  { rewrite Ht', Hi', get_line_offset_in_line; auto with lines.
    apply firstn_length_le. unfold o. lia. }
  assert (Hte : get_tabs_end_iter t n = length pre + leading_blanks l).
  { rewrite <- Hcount, Ht. apply get_tabs_end_iter_in_line; assumption. }
  split; [|split; [|split; [|split]]].
  - unfold View_get_line. fold n. rewrite Hstart.
    rewrite <- Hcount at 1. rewrite Ht at 2.
    rewrite get_iter_at_line_end_in_line by assumption.
    unfold get_text. rewrite Ht, skipn_length_app.
    replace (length pre + length l - length pre) with (length l) by lia.
    apply firstn_length_app.
  - rewrite Hoff. unfold o. lia.
  - rewrite Hoff. rewrite Ht' at 1. rewrite Hi'.
    apply get_line_before_in_line; auto with lines.
  - rewrite Hte, Hstart. reflexivity.
  - rewrite Hte.
    pose proof (leading_blanks_le l) as Hle.
    rewrite <- (firstn_length_le l Hle) at 1.
    rewrite Ht at 1. rewrite <- (firstn_skipn (leading_blanks l) l) at 1.
    rewrite <- app_assoc.
    apply get_line_before_in_line; auto with lines.
Qed.

Lemma line_helpers_read_the_line_witness :
  let t := chars "a" ++ NL :: chars "  bc" ++ NL :: chars "d" in
  View_get_line t 5 = chars "  bc"
  /\ get_line_offset t 5 <= 4
  /\ get_line_before t 5 = chars "  b"
  /\ get_tabs_end_iter t 1 = 2 + 2
  /\ get_line_before t (get_tabs_end_iter t 1) = chars "  ".
Proof.
  intros t. apply (line_helpers_read_the_line t 5). simpl. lia.
Defined.

(** ** Ctrl+Up *)

Lemma has_text_snoc (w : text) (x : ascii) :
  has_text (w ++ [x]) = has_text w || negb (is_blank x).
Proof. rewrite has_text_app. unfold has_text at 2. simpl. rewrite Bool.andb_true_r. reflexivity. Qed.

(** The loop of Ctrl+Up over the characters [w ++ [x]] that follow [pre],
    from [x] back to the first character of [w]: it stops in front of them
    only at a line start. *)
Lemma paragraph_up_loop_chars (pre : text) :
  pre <> [] ->
  forall (w : text) (x : ascii) (rest : text) (el tf : bool),
    nl_free (w ++ [x]) ->
    let t := pre ++ (w ++ [x]) ++ rest in
    let el' := el && negb (has_text (w ++ [x])) in
    let tf' := tf || has_text (w ++ [x]) in
    paragraph_up_loop t (length pre + length w) el tf
    = if el' && tf' && starts_line t (length pre) then (length pre, el')
      else paragraph_up_loop t (length pre - 1) el' tf'.
Proof.
  intros Hpre. induction w as [|y w IH] using rev_ind; intros x rest el tf Hnl t el' tf'.
  - assert (Hx : x <> NL) by (apply nl_free_cons in Hnl; tauto).
    destruct (length pre) as [|p] eqn:Ep; [destruct pre; [congruence | discriminate]|].
    cbn [length Nat.add]. rewrite Nat.add_0_r.
    cbn [paragraph_up_loop]. rewrite <- Ep.
    assert (Ht : t = pre ++ x :: rest) by reflexivity.
    rewrite Ht, is_end_app. unfold paragraph_flags.
    rewrite ends_line_app, deref_app. cbn [hd]. rewrite (eqb_NL_false x Hx).
    rewrite <- Ht. rewrite Ep. cbn [Nat.sub]. rewrite Nat.sub_0_r.
    unfold el', tf'. cbn [app]. unfold has_text. cbn [forallb]. unfold is_blank.
    rewrite Bool.andb_true_r.
    destruct el, tf, (x =? SPACE)%char, (x =? TAB)%char,
      (starts_line t (S p)); reflexivity.
  - assert (Hx : x <> NL).
    { apply nl_free_app in Hnl as [_ Hnl]. apply nl_free_cons in Hnl. tauto. }
    assert (Hy : y <> NL).
    { apply nl_free_app in Hnl as [Hnl _]. apply nl_free_app in Hnl as [_ Hnl].
      apply nl_free_cons in Hnl. tauto. }
    assert (Hpos : length pre + length (w ++ [y]) = S (length (pre ++ w))).
    { rewrite !length_app. simpl. lia. }
    assert (Ht : t = ((pre ++ w) ++ [y]) ++ x :: rest).
    { unfold t. rewrite <- !app_assoc. reflexivity. }
    assert (Hpos2 : length pre + length (w ++ [y]) = length ((pre ++ w) ++ [y])).
    { rewrite !length_app. simpl. lia. }
    assert (Hend : is_end t (length pre + length (w ++ [y])) = false).
    { rewrite Hpos2, Ht. apply is_end_app. }
    assert (Hel : ends_line t (length pre + length (w ++ [y])) = false).
    { rewrite Hpos2, Ht, ends_line_app. apply eqb_NL_false. exact Hx. }
    assert (Hd : deref t (length pre + length (w ++ [y])) = x).
    { rewrite Hpos2, Ht, deref_app. reflexivity. }
    assert (Hsl : starts_line t (length pre + length (w ++ [y])) = false).
    { rewrite Hpos, Ht, starts_line_snoc. apply eqb_NL_false. exact Hy. }
    rewrite Hpos. cbn [paragraph_up_loop]. rewrite <- Hpos.
    rewrite Hend. unfold paragraph_flags. rewrite Hel, Hd, Hsl.
    rewrite !Bool.andb_false_r.
    assert (Hnl' : nl_free (w ++ [y])) by (apply nl_free_app in Hnl; tauto).
    pose proof (IH y (x :: rest)) as IH'. cbv zeta in IH'.
    replace (pre ++ (w ++ [y]) ++ x :: rest) with t in IH'
      by (unfold t; rewrite <- !app_assoc; reflexivity).
    rewrite length_app.
    set (e1 := if el && negb false && negb (x =? SPACE)%char && negb (x =? TAB)%char
               then false else el).
    set (f1 := if negb tf && negb false && negb (x =? SPACE)%char && negb (x =? TAB)%char
               then true else tf).
    rewrite (IH' e1 f1 Hnl').
    assert (E1 : e1 && negb (has_text (w ++ [y])) = el').
    { unfold e1, el'. rewrite (has_text_snoc (w ++ [y]) x). unfold is_blank.
      destruct el, (has_text (w ++ [y])), (x =? SPACE)%char, (x =? TAB)%char; reflexivity. }
    assert (F1 : f1 || has_text (w ++ [y]) = tf').
    { unfold f1, tf'. rewrite (has_text_snoc (w ++ [y]) x). unfold is_blank.
      destruct tf, (has_text (w ++ [y])), (x =? SPACE)%char, (x =? TAB)%char; reflexivity. }
    rewrite E1, F1. reflexivity.
Qed.

(** The loop of Ctrl+Up over a line and its newline, from the newline back
    to the start of the line. *)
Lemma paragraph_up_loop_line (pre l q : text) (el tf : bool) :
  pre <> [] -> nl_free l ->
  let t := pre ++ l ++ NL :: q in
  let el' := negb (has_text l) in
  let tf' := tf || has_text l in
  paragraph_up_loop t (length pre + length l) el tf
  = if el' && tf' && starts_line t (length pre) then (length pre, el')
    else paragraph_up_loop t (length pre - 1) el' tf'.
Proof.
  intros Hpre Hl t el' tf'.
  assert (Hlen : 0 < length pre) by (destruct pre; [congruence | simpl; lia]).
  assert (Ht : t = (pre ++ l) ++ NL :: q) by (unfold t; apply app_assoc).
  assert (Hpos : length pre + length l = length (pre ++ l)) by (rewrite length_app; reflexivity).
  assert (Hend : is_end t (length pre + length l) = false).
  { rewrite Hpos, Ht. apply is_end_app. }
  assert (Hel : ends_line t (length pre + length l) = true).
  { rewrite Hpos, Ht, ends_line_app. reflexivity. }
  assert (Hstep : paragraph_up_loop t (length pre + length l) el tf
                  = if tf && starts_line t (length pre + length l)
                    then (length pre + length l, true)
                    else paragraph_up_loop t (length pre + length l - 1) true tf).
  { destruct (length pre + length l) as [|p] eqn:Ep; [lia|].
    cbn [paragraph_up_loop]. rewrite Hend. unfold paragraph_flags. rewrite Hel.
    cbn [negb andb]. rewrite !Bool.andb_false_r. cbn [Nat.sub]. rewrite Nat.sub_0_r.
    destruct tf; reflexivity. }
  rewrite Hstep. clear Hstep.
  destruct l as [|x w _] using rev_ind.
  - cbn [length]. rewrite !Nat.add_0_r. unfold el', tf'.
    change (has_text []) with false. cbn [negb andb]. rewrite Bool.orb_false_r.
    reflexivity.
  - assert (Hx : x <> NL).
    { apply nl_free_app in Hl as [_ Hl]. apply nl_free_cons in Hl. tauto. }
    assert (Hsl : starts_line t (length pre + length (w ++ [x])) = false).
    { replace t with (((pre ++ w) ++ [x]) ++ NL :: q)
        by (unfold t; rewrite <- !app_assoc; reflexivity).
      replace (length pre + length (w ++ [x])) with (S (length (pre ++ w)))
        by (rewrite !length_app; simpl; lia).
      rewrite starts_line_snoc. apply eqb_NL_false. exact Hx. }
    rewrite Hsl, Bool.andb_false_r.
    replace (length pre + length (w ++ [x]) - 1) with (length pre + length w)
      by (rewrite length_snoc; lia).
    pose proof (paragraph_up_loop_chars pre Hpre w x (NL :: q) true tf Hl) as G.
    cbv zeta in G. fold t in G. rewrite G. reflexivity.
Qed.

Lemma terminated_nonempty (ls : list text) : ls <> [] -> terminated ls <> [].
Proof.
  destruct ls as [|l ls]; [congruence|]. intros _.
  change (terminated (l :: ls)) with ((l ++ [NL]) ++ terminated ls).
  destruct l; discriminate.
Qed.

Lemma paragraph_up_lines_cons (found below : bool) (l l' : text) (r : list text) :
  paragraph_up_lines found below (l :: l' :: r)
  = if found && negb (has_text l) then 0
    else S (paragraph_up_lines (found || has_text l) (negb (has_text l)) (l' :: r)).
Proof. reflexivity. Qed.

(** The loop of Ctrl+Up from the end of the last of the lines [ls1]: the
    line under which it puts the cursor. *)
Lemma paragraph_up_loop_lines :
  forall (ls1 rest : list text) (el tf : bool),
    ls1 <> [] -> rest <> [] -> Forall nl_free ls1 ->
    let t := unlines (ls1 ++ rest) in
    paragraph_up_target t (paragraph_up_loop t (length (terminated ls1) - 1) el tf)
    = length (terminated (firstn (length ls1 - paragraph_up_lines tf el (rev ls1)) ls1)).
Proof.
  induction ls1 as [|l ls0 IH] using rev_ind; intros rest el tf Hne Hrest Hnl t;
    [congruence|].
  apply Forall_app in Hnl as [Hn0 Hl]. apply Forall_inv in Hl.
  rewrite rev_app_distr. cbn [rev app].
  assert (Ht : t = terminated ls0 ++ l ++ NL :: unlines rest).
  { unfold t. rewrite <- app_assoc. cbn [app]. rewrite unlines_split.
    destruct rest; [congruence | reflexivity]. }
  assert (Hpos : length (terminated (ls0 ++ [l])) - 1 = length (terminated ls0) + length l).
  { rewrite terminated_snoc, !length_app. simpl. lia. }
  assert (Hline : get_line t (length (terminated ls0)) = length ls0).
  { pose proof (get_line_within_line (terminated ls0) l (NL :: unlines rest) 0 Hl
                  ltac:(lia)) as G.
    rewrite Nat.add_0_r, <- Ht in G. rewrite G.
    symmetry. apply line_index. exact Hn0. }
  assert (Hlend : get_iter_at_line_end t (length ls0) = length (terminated ls0) + length l).
  { rewrite Ht, (line_index ls0 Hn0).
    apply get_iter_at_line_end_in_line; auto with lines. }
  assert (Hfw : fst (forward_char t (length (terminated ls0) + length l))
                = length (terminated (ls0 ++ [l]))).
  { rewrite Ht, app_assoc, <- length_app, fst_forward_char_app.
    rewrite terminated_snoc, !length_app. simpl. lia. }
  rewrite Hpos.
  replace (length (ls0 ++ [l])) with (S (length ls0)) by (rewrite length_app; simpl; lia).
  destruct ls0 as [|l0 ls0'] using rev_ind.
  - clear IH. cbn [rev paragraph_up_lines terminated flat_map length app Nat.add] in *.
    destruct l as [|x0 tl].
    + cbn [length paragraph_up_loop]. unfold paragraph_up_target. cbn [fst snd].
      destruct el.
      * rewrite Hline, Hlend, Hfw. reflexivity.
      * reflexivity.
    + apply nl_free_cons in Hl as [Hx0 Htl].
      assert (Hresult : paragraph_up_loop t (length (x0 :: tl)) el tf
                        = (0, negb (has_text tl))).
      { pose proof (paragraph_up_loop_line [x0] tl (unlines rest) el tf
                      ltac:(discriminate) Htl) as G.
        cbv zeta in G. cbn [app length Nat.add] in G. cbn [app] in Ht.
        rewrite <- Ht in G. cbn [length]. rewrite G.
        assert (Hs1 : starts_line t 1 = false).
        { rewrite Ht. cbn [starts_line deref nth]. apply eqb_NL_false. exact Hx0. }
        rewrite Hs1, Bool.andb_false_r. reflexivity. }
      rewrite Hresult. unfold paragraph_up_target. cbn [fst snd].
      destruct (negb (has_text tl)).
      * assert (Hl0 : get_line t 0 = 0) by reflexivity.
        rewrite Hl0, Hlend, Hfw. reflexivity.
      * reflexivity.
  - clear IHls0'. set (ls0 := ls0' ++ [l0]) in *.
    assert (Hne0 : ls0 <> []) by (unfold ls0; destruct ls0'; discriminate).
    assert (Hrev : rev ls0 = l0 :: rev ls0') by (unfold ls0; apply rev_unit).
    rewrite Hrev, paragraph_up_lines_cons, <- Hrev.
    pose proof (paragraph_up_loop_line (terminated ls0) l (unlines rest) el tf
                  (terminated_nonempty ls0 Hne0) Hl) as G.
    cbv zeta in G. rewrite <- Ht in G. rewrite G. clear G.
    assert (Hsl : starts_line t (length (terminated ls0)) = true).
    { rewrite Ht.
      pose proof (starts_line_at (terminated ls0) [] (l ++ NL :: unlines rest)
                    (at_line_start_terminated ls0) nl_free_nil) as G.
      cbn [app length] in G. rewrite Nat.add_0_r in G. exact G. }
    rewrite Hsl, Bool.andb_true_r.
    replace (negb (has_text l) && (tf || has_text l)) with (tf && negb (has_text l))
      by (destruct tf, (has_text l); reflexivity).
    destruct (tf && negb (has_text l)) eqn:Estop.
    + apply andb_true_iff in Estop as [_ Ee]. rewrite Ee.
      unfold paragraph_up_target. cbn [fst snd].
      rewrite Hline, Hlend, Hfw. rewrite Nat.sub_0_r.
      rewrite firstn_all2 by (rewrite length_app; simpl; lia). reflexivity.
    + assert (Ht' : t = unlines (ls0 ++ l :: rest)).
      { unfold t. rewrite <- app_assoc. reflexivity. }
      rewrite Ht'. rewrite (IH (l :: rest)) by (auto; discriminate).
      f_equal. f_equal.
      set (u := paragraph_up_lines (tf || has_text l) (negb (has_text l)) (rev ls0)).
      replace (S (length ls0) - S u) with (length ls0 - u) by lia.
      rewrite firstn_app.
      replace (length ls0 - u - length ls0) with 0 by lia.
      rewrite firstn_O, app_nil_r. reflexivity.
Qed.

(** X25: Ctrl+Up never changes the text and puts the cursor at the start of
    a line at or above its own.  Going up from the line over the cursor, it
    stops under the first line that holds no text (nothing but spaces and
    tabs) once it has passed a line that holds text.  The first character
    of the buffer is never looked at: when the first line is reached, the
    cursor goes to the second line if the first line holds no text behind
    its first character (or is empty while the second line holds none),
    and to the start of the buffer otherwise.  With Shift the other end of
    the selection stays, otherwise the selection collapses. *)
Theorem key_paragraph_up_stops :
  forall (shift : bool) (b : Buffer),
    let t := btext b in
    let c := get_line t (insert_mark b) in
    let above := rev (firstn c (lines t)) in
    let d := c - paragraph_up_lines false false above in
    let target := get_iter_at_line t d in
    key_paragraph_up shift b
    = mkBuffer t target (if shift then selection_bound b else target)
               (journal b ++ [BeginUserAction; EndUserAction])
    /\ d <= c.
Proof.
  intros shift b t c above d target.
  split; [|unfold d; lia].
  pose proof (get_line_lt t (insert_mark b)) as Hc. fold c in Hc.
  set (ls1 := firstn c (lines t)) in *. set (rest := skipn c (lines t)).
  assert (HL : lines t = ls1 ++ rest) by (symmetry; apply firstn_skipn).
  assert (Hl1 : length ls1 = c) by (apply firstn_length_le; lia).
  assert (Hrest : rest <> []).
  { intros E. apply (f_equal (@length text)) in HL. rewrite E, length_app in HL.
    simpl in HL. lia. }
  pose proof (lines_nl_free t) as Hnl. rewrite HL in Hnl.
  apply Forall_app in Hnl as [H1 H2].
  assert (Ht : t = unlines (ls1 ++ rest)) by (rewrite <- HL; symmetry; apply unlines_lines).
  assert (Hstart : forall k, k <= c ->
            get_iter_at_line t k = length (terminated (firstn k ls1))).
  { intros k Hk.
    assert (Hk' : k < length (lines t)) by lia.
    destruct (list_split_at (lines t) k Hk') as (a & l & a' & E & Ha).
    assert (Hf : firstn k ls1 = a).
    { unfold ls1. rewrite firstn_firstn, Nat.min_l by lia.
      rewrite E, <- Ha. apply firstn_length_prefix. }
    rewrite Hf, <- (unlines_lines t), E, <- Ha.
    apply get_iter_at_line_unlines.
    pose proof (lines_nl_free t) as Hn. rewrite E in Hn. apply Forall_app in Hn. tauto. }
  assert (Htarget : paragraph_up_target t
                      (paragraph_up_loop t
                         (fst (backward_char (get_iter_at_line t c))) false false)
                    = target).
  { unfold target. rewrite (Hstart d) by (unfold d; lia).
    destruct (Nat.eq_dec c 0) as [E0|E0].
    - assert (Ed : d = 0) by (unfold d; lia). rewrite Ed, E0, get_iter_at_line_0.
      reflexivity.
    - assert (Hne : ls1 <> []) by (intros E; rewrite E in Hl1; simpl in Hl1; lia).
      rewrite (Hstart c) by lia. rewrite <- Hl1 at 1. rewrite firstn_all.
      pose proof (terminated_nonempty ls1 Hne) as Htn.
      assert (Hbw : fst (backward_char (length (terminated ls1)))
                    = length (terminated ls1) - 1).
      { destruct (terminated ls1); [congruence|]. simpl. lia. }
      rewrite Hbw, Ht.
      rewrite (paragraph_up_loop_lines ls1 rest false false Hne Hrest H1).
      unfold d, above. rewrite Hl1. reflexivity. }
  unfold key_paragraph_up.
  change (btext (begin_user_action b)) with t.
  change (insert_mark (begin_user_action b)) with (insert_mark b).
  change (selection_bound (begin_user_action b)) with (selection_bound b).
  cbv zeta. fold c.
  unfold paragraph_up_target in Htarget.
  destruct (paragraph_up_loop t (fst (backward_char (get_iter_at_line t c))) false false)
    as [iter el].
  cbn [fst snd] in Htarget. rewrite Htarget.
  destruct shift; unfold select_range, place_cursor, end_user_action, begin_user_action;
    cbn [btext insert_mark selection_bound journal]; rewrite <- app_assoc; reflexivity.
Qed.

(** Ctrl+Up from the last line of four: over a paragraph to the line under
    the empty line; and in a buffer whose first line is a single character,
    from the third line only to the second. *)
Example key_paragraph_up_examples :
  let t := chars "a" ++ NL :: NL :: chars "b" ++ NL :: chars "c" in
  let u := chars "a" ++ NL :: chars "b" ++ NL :: chars "c" in
  key_paragraph_up false (mkBuffer t 5 5 [])
  = mkBuffer t 3 3 [BeginUserAction; EndUserAction]
  /\ key_paragraph_up false (mkBuffer u 4 4 [])
     = mkBuffer u 2 2 [BeginUserAction; EndUserAction].
Proof. split; reflexivity. Qed.

(** ** Tab on an empty line *)

Lemma deref_repeat_NL (a r : text) (k i : nat) :
  i < k -> deref (a ++ repeat NL k ++ r) (length a + i) = NL.
Proof.
  intros Hi. rewrite deref_app_plus. rewrite app_nth1 by (rewrite repeat_length; exact Hi).
  apply nth_repeat_lt. exact Hi.
Qed.

(** Back over empty lines: the loop stops on the newline of the nearest
    line above that is not empty. *)
Lemma prev_line_loop_newlines (a : text) (x : ascii) :
  x <> NL ->
  forall k r,
    prev_line_loop ((a ++ [x]) ++ repeat NL (S k) ++ r) (length (a ++ [x]) + S k)
    = length (a ++ [x]).
Proof.
  intros Hx. induction k as [|k IH]; intros r.
  - rewrite Nat.add_1_r. cbn [prev_line_loop starts_line].
    pose proof (deref_repeat_NL (a ++ [x]) r 1 0 ltac:(lia)) as G.
    rewrite Nat.add_0_r in G. rewrite G, Ascii.eqb_refl.
    rewrite length_snoc. cbn [prev_line_loop]. rewrite <- (length_snoc a x).
    replace (starts_line ((a ++ [x]) ++ repeat NL 1 ++ r) (length (a ++ [x]))) with false.
    + reflexivity.
    + symmetry. rewrite length_snoc, starts_line_snoc. apply eqb_NL_false. exact Hx.
  - replace (length (a ++ [x]) + S (S k)) with (S (length (a ++ [x]) + S k)) by lia.
    cbn [prev_line_loop starts_line].
    rewrite (deref_repeat_NL (a ++ [x]) r (S (S k)) (S k)) by lia.
    rewrite Ascii.eqb_refl.
    replace (repeat NL (S (S k)) ++ r) with (repeat NL (S k) ++ NL :: r).
    + apply IH.
    + change (repeat NL (S (S k))) with (NL :: repeat NL (S k)).
      rewrite (repeat_cons (S k) NL). rewrite <- app_assoc. reflexivity.
Qed.

Lemma starts_line_at_start (a r : text) :
  at_line_start a -> starts_line (a ++ r) (length a) = true.
Proof.
  intros Ha. pose proof (starts_line_at a [] r Ha nl_free_nil) as G.
  cbn [app length] in G. rewrite Nat.add_0_r in G. exact G.
Qed.

(** Forward over empty lines: the loop stops behind the first character of
    the nearest line below that is not empty. *)
Lemma next_line_loop_newlines (y : ascii) (r : text) :
  y <> NL ->
  forall (k : nat) (a : text) (fuel : nat),
    at_line_start a -> k + 1 <= fuel ->
    next_line_loop fuel (a ++ repeat NL k ++ y :: r) (length a) = length a + k + 1.
Proof.
  intros Hy. induction k as [|k IH]; intros a fuel Ha Hf.
  - destruct fuel as [|f]; [lia|]. cbn [repeat app next_line_loop].
    rewrite (starts_line_at_start a (y :: r) Ha), forward_char_app.
    destruct r as [|z r'].
    + lia.
    + destruct f as [|f]; cbn [next_line_loop]; [lia|].
      replace (starts_line (a ++ y :: z :: r') (S (length a))) with false; [lia|].
      symmetry. rewrite app_snoc_cons, starts_line_snoc. apply eqb_NL_false. exact Hy.
  - destruct fuel as [|f]; [lia|]. cbn [repeat app next_line_loop].
    rewrite (starts_line_at_start a _ Ha), forward_char_app.
    replace (match repeat NL k ++ y :: r with [] => false | _ => true end) with true
      by (destruct (repeat NL k); reflexivity).
    rewrite app_snoc_cons, <- (length_snoc a NL).
    rewrite IH; [rewrite length_snoc; lia | right; exists a; reflexivity | lia].
Qed.

Lemma terminated_empty_lines (k : nat) : terminated (repeat [] k) = repeat NL k.
Proof. induction k as [|k IH]; [reflexivity|]. simpl. rewrite <- IH. reflexivity. Qed.

(** X26: the Tab key on an empty line, with no selection and Tab set to
    indent the line.  [pl] is the nearest line above and [nl] the nearest
    line below that is not empty.  The line gets the shorter of the
    indentations of [pl] and [nl] when that is at least one tab unit long
    (that of [nl] when they are equally long), and one tab unit otherwise;
    the cursor ends behind it. *)
Theorem basic_tab_on_empty_line :
  forall (v : View) (A B : list text) (pl nl : text) (k1 k2 : nat) (j : list Event),
    Forall nl_free A -> nl_free pl -> pl <> [] -> nl_free nl -> nl <> [] ->
    let before := A ++ pl :: repeat [] k1 in
    let after := repeat [] k2 ++ nl :: B in
    let t := unlines (before ++ [] :: after) in
    let c := length (terminated before) in
    let prev_ind := firstn (leading_blanks pl) pl in
    let next_ind := firstn (leading_blanks nl) nl in
    let tabs := if length prev_ind <? length next_ind then prev_ind else next_ind in
    let new := if tab_size v <=? length tabs then tabs else tab v in
    btext (basic_tab v true (mkBuffer t c c j)) = unlines (before ++ new :: after)
    /\ insert_mark (basic_tab v true (mkBuffer t c c j)) = c + length new.
Proof.
  intros v A B pl nl k1 k2 j HA Hpl Hpne Hnl Hnne before after t c prev_ind next_ind
         tabs new.
  set (pre := terminated before). set (post := line_rest after).
  assert (Hpre : at_line_start pre) by apply at_line_start_terminated.
  assert (Ht : t = pre ++ post).
  { unfold t. rewrite unlines_split. reflexivity. }
  assert (Hafter : unlines after = repeat NL k2 ++ nl ++ line_rest B).
  { unfold after. rewrite unlines_split, terminated_empty_lines. reflexivity. }
  assert (Hpost : post = NL :: repeat NL k2 ++ nl ++ line_rest B).
  { rewrite <- Hafter. unfold post, after. destruct k2; reflexivity. }
  assert (Hbefore : pre = terminated A ++ pl ++ repeat NL (S k1)).
  { unfold pre, before.
    replace (A ++ pl :: repeat [] k1) with ((A ++ [pl]) ++ repeat [] k1)
      by (rewrite <- app_assoc; reflexivity).
    rewrite terminated_app, terminated_snoc, terminated_empty_lines, <- !app_assoc.
    reflexivity. }
  assert (Hc : c = length pre) by reflexivity.
  set (b := begin_user_action (mkBuffer t c c j)).
  assert (Hsl : starts_line t c = true).
  { rewrite Ht, Hc. apply starts_line_at_start. exact Hpre. }
  assert (Hel : ends_line t c = true).
  { rewrite Ht, Hc, ends_line_app, Hpost. reflexivity. }
  assert (Hprev : get_line_before t (get_tabs_end_iter t (get_line t (prev_line_loop t c)))
                  = prev_ind).
  { assert (Esplit : pl = removelast pl ++ [last pl zero])
      by (apply app_removelast_last; exact Hpne).
    set (pl' := removelast pl) in *. set (x := last pl zero) in *.
    assert (Hx : x <> NL).
    { rewrite Esplit in Hpl. apply nl_free_app in Hpl as [_ Hpl].
      apply nl_free_cons in Hpl. tauto. }
    assert (Ht2 : t = ((terminated A ++ pl') ++ [x]) ++ repeat NL (S k1) ++ post).
    { rewrite Ht, Hbefore. rewrite Esplit at 1. rewrite <- !app_assoc. reflexivity. }
    assert (Hc2 : c = length ((terminated A ++ pl') ++ [x]) + S k1).
    { rewrite Hc, Hbefore. rewrite Esplit at 1. rewrite !length_app, repeat_length.
      simpl. lia. }
    rewrite Ht2 at 4. rewrite Hc2, prev_line_loop_newlines by exact Hx.
    replace (length ((terminated A ++ pl') ++ [x])) with (length (terminated A) + length pl)
      by (rewrite Esplit at 1; rewrite !length_app; simpl; lia).
    assert (Ht3 : t = terminated A ++ (pl ++ []) ++ (repeat NL (S k1) ++ post)).
    { rewrite Ht, Hbefore, app_nil_r, <- !app_assoc. reflexivity. }
    rewrite Ht3.
    rewrite line_indentation_in_line;
      [rewrite app_nil_r; reflexivity | auto with lines | rewrite app_nil_r; exact Hpl|].
    right. eexists. reflexivity. }
  assert (Hnext : get_line_before t (get_tabs_end_iter t
                                      (get_line t (next_line_loop (length t) t c)))
                  = next_ind).
  { destruct nl as [|y nl'] eqn:Enl; [congruence|].
    assert (Hy : y <> NL) by (apply nl_free_cons in Hnl; tauto).
    assert (Ht2 : t = pre ++ repeat NL (S k2) ++ y :: (nl' ++ line_rest B)).
    { rewrite Ht, Hpost. reflexivity. }
    assert (Hfuel : S k2 + 1 <= length t).
    { rewrite Ht2, !length_app, repeat_length. simpl. lia. }
    assert (Hloop : next_line_loop (length t) t c = length pre + S k2 + 1).
    { rewrite Hc. pose proof (next_line_loop_newlines y (nl' ++ line_rest B) Hy (S k2) pre
                                (length t) Hpre Hfuel) as G.
      rewrite <- Ht2 in G. exact G. }
    rewrite Hloop.
    set (pre2 := pre ++ repeat NL (S k2)).
    assert (Hpre2 : at_line_start pre2).
    { right. exists (pre ++ repeat NL k2). unfold pre2.
      rewrite <- app_assoc, <- repeat_cons. reflexivity. }
    assert (Ht3 : t = pre2 ++ ([y] ++ nl') ++ line_rest B).
    { rewrite Ht2. unfold pre2. rewrite <- !app_assoc. reflexivity. }
    replace (length pre + S k2 + 1) with (length pre2 + length [y])
      by (unfold pre2; rewrite length_app, repeat_length; simpl; lia).
    rewrite Ht3.
    rewrite line_indentation_in_line; [reflexivity | exact Hpre2 | exact Hnl|].
    apply line_rest_closed. }
  unfold basic_tab. fold b.
  change (btext b) with t. change (insert_mark b) with c.
  assert (Hhs : get_has_selection b = false).
  { unfold get_has_selection, b. cbn [begin_user_action insert_mark selection_bound].
    rewrite Nat.eqb_refl. reflexivity. }
  rewrite Hhs, Hsl, Hel. cbn [negb andb]. rewrite Hprev, Hnext. fold tabs.
  assert (Hb : btext b = pre ++ post) by exact Ht.
  assert (Hfields : forall s,
             btext (end_user_action (insert_at_cursor b s)) = unlines (before ++ s :: after)
             /\ insert_mark (end_user_action (insert_at_cursor b s)) = c + length s).
  { intros s.
    destruct (insert_at_cursor_fields b pre post s Hb Hc Hc) as (F1 & F2 & _).
    cbn [end_user_action btext insert_mark]. rewrite F1, F2, Hc.
    split; [|reflexivity]. rewrite unlines_split. reflexivity. }
  match goal with
  | |- context [if ?c then Some ?x else None] =>
      change c with (tab_size v <=? length tabs); change x with tabs
  end.
  unfold new. destruct (tab_size v <=? length tabs).
  - apply Hfields.
  - unfold get_selection_bounds. change (insert_mark b) with c.
    change (selection_bound b) with c. rewrite Nat.min_id, Nat.max_id.
    rewrite Nat.sub_succ_l, Nat.sub_diag by lia. cbn [indent_loop].
    rewrite Hhs. unfold outdent_touches. cbn [negb orb].
    change (btext b) with t.
    assert (Hline : get_iter_at_line t (get_line t c) = c).
    { assert (Hg : get_line t c = count_occ ascii_dec pre NL).
      { pose proof (get_line_within_line pre [] post 0 nl_free_nil ltac:(simpl; lia)) as G.
        cbn [app] in G. rewrite Nat.add_0_r, <- Ht in G. rewrite Hc. exact G. }
      rewrite Hg, Ht, Hc. apply get_iter_at_line_at_line_start. exact Hpre. }
    rewrite Hline. apply (Hfields (tab v)).
Qed.

Lemma basic_tab_on_empty_line_witness :
  let v := mkView SPACE 2 false false in
  let t := chars "{" ++ NL :: chars "    a;" ++ NL :: NL :: chars "  b;" ++ NL :: chars "}" in
  btext (basic_tab v true (mkBuffer t 9 9 []))
  = chars "{" ++ NL :: chars "    a;" ++ NL :: chars "  " ++ NL :: chars "  b;"
      ++ NL :: chars "}"
  /\ insert_mark (basic_tab v true (mkBuffer t 9 9 [])) = 9 + 2.
Proof.
  intros v t.
  refine (basic_tab_on_empty_line v [chars "{"] [chars "}"] (chars "    a;") (chars "  b;")
            0 0 [] _ _ _ _ _).
  - constructor; [|constructor].
    intros H. simpl in H. repeat (destruct H as [H|H]; [discriminate H|]). exact H.
  - intros H. simpl in H. repeat (destruct H as [H|H]; [discriminate H|]). exact H.
  - discriminate.
  - intros H. simpl in H. repeat (destruct H as [H|H]; [discriminate H|]). exact H.
  - discriminate.
Defined.
